(* ===== verification/_CoqProject ===== *)
-Q . S2P
Prelude.v
CString.v
Kalloc.v
Vm.v
VmFacts.v
VmLoops.v
VmCopy.v
Spinlock.v
Printf.v
Ring.v
Console.v
Pipe.v
Sleeplock.v
Bio.v
BioFacts.v
Log.v
LogFacts.v
LogCrash.v
LogTxn.v
Virtio.v
VirtioFacts.v
VirtioRefine.v
Fs.v
FsFacts.v
FsInode.v
FsPath.v
FsRead.v
FsFile.v
FsWrite.v
FsDir.v
FsTrunc.v
Kstate.v
KHoare.v
SleepWakeup.v
File.v
Proc.v
ProcFacts.v
Sysargs.v
Sysfile.v
Exec.v
Trap.v
FileFacts.v
Boot.v
Ulib.v
Sh.v
ShFacts.v
ShRun.v
Grep.v
Umalloc.v
UmallocFacts.v
Uprogs.v
Asm.v
AsmFacts.v
Mkfs.v
MkfsFacts.v
MkfsImage.v
