(* ===== verification/Prelude.v ===== *)
(** * xv6: a verification development

    This library models xv6 for RISC-V: the kernel under src/kernel, the library
    and most programs under src/user, and the program under src/mkfs that builds
    its disk, and proves theorems that make them correct.  Definitions are
    translated from the sources function by function and keep their names.

    ** The program

    xv6 is a small Unix.  Its layers, from below: string routines
    (string.c) and locks (spinlock.c, sleeplock.c); physical pages and page
    tables (kalloc.c, vm.c); the buffer cache over the disk driver
    (bio.c, virtio_disk.c); the write-ahead log (log.c); the file system (fs.c);
    console, UART and printf (console.c, uart.c, printf.c); pipes and open
    files (pipe.c, file.c); processes (proc.c); system calls (syscall.c,
    sysproc.c, sysfile.c, exec.c); traps and interrupts (trap.c, plic.c, and
    the assembly of trampoline.S, kernelvec.S and swtch.S); boot (entry.S,
    start.c, main.c).  A system call enters through [uservec] and [usertrap],
    [syscall] dispatches it on register a7, and its handler calls down these
    layers.  User programs, such as the shell, see the kernel only through
    system calls; mkfs runs on the host and writes the first contents of the
    disk in the format of fs.c.

    ** How C is modelled

    Machine integers are [Z] with the wrap-around written out ([u8] to [u64],
    [i16], [i32]).  An operation with effects is a value of the monad [M S A]
    below: from a state it ends with [Ok], with [Panic] (the kernel's [panic]),
    with [Sleep c] (the process sleeps on channel [c]), with [Undef] (an access
    C leaves undefined, such as a null pointer) or with [Diverge]; it also emits
    the events that matter outside, disk writes, wakeups and characters sent.
    A code section under a spin lock is one atomic step; Spinlock.v proves, on
    the interleaved atomic instructions of the CPUs, what that rests on.

    A loop that is not structural takes fuel and ends in [Diverge] without it.
    The fuel is a bound computed from the arguments: the number of pages
    between two addresses ([pages_fuel]), of blocks that [n] bytes span
    ([rw_fuel]), of characters of a path, of nodes of the buffer list
    ([scan_fuel]), of characters of a command line, of bytes to append (mkfs).
    VmLoops.v proves that no page loop runs out of fuel, and the functional
    theorems elsewhere are of total correctness: they show a result in [Ok], so
    the fuel was enough.  Two kinds of fuel are given from outside: for the
    walks around the ring of free blocks in Umalloc.v, where more than the
    number of blocks is shown to be enough, and in Ulib.v and Uprogs.v for loops
    that only the kernel's answers end.

    ** Files

    - Prelude.v: integers, bytes, the monad, its weakest preconditions [wp] and
      their tactics, [star] closures, generic lemmas.
    - CString.v: string.c.  [memmove] equals simultaneous assignment, also on
      overlap; [safestrcpy] terminates within its bound.
    - Kalloc.v: kalloc.c; the free list, threaded through the pages, refines a
      stack, and [kinit] frees exactly the pages above the kernel.
    - Vm.v: vm.c and the paging part of riscv.h.  VmFacts.v: page tables refine
      maps from virtual pages to entries.  VmLoops.v: termination.  VmCopy.v:
      [copyout] and [copyin] round trip, and what goes wrong above 4 gigabytes.
    - Spinlock.v: spinlock.c, with mutual exclusion for any interleaving.
      Sleeplock.v: sleeplock.c.
    - Printf.v: printf.c and uart.c; the digits printed denote the number.
    - Ring.v: ring buffers on free-running 32-bit counters, shared by
      Console.v (console.c, refines a line editor) and Pipe.v (pipe.c, a
      queue of bytes).
    - Bio.v: bio.c.  BioFacts.v: the linked list refines a recency list, and
      the cache meets the contract [BC] that the layers above use.
    - Log.v: log.c.  LogFacts.v, LogCrash.v, LogTxn.v: a commit is atomic
      under crashes at any disk write, also during repeated recoveries; what
      [crash_op] leaves; the buffers that recovery loses.
    - Virtio.v: virtio_disk.c.  VirtioFacts.v, VirtioRefine.v: with any device
      that follows the protocol and any interleaving, a call of
      [virtio_disk_rw] is a transfer of its block at one instant.
    - Fs.v: fs.c.  FsFacts.v (block allocator), FsInode.v (inode layout and
      cache), FsPath.v (path names), FsRead.v (file contents, directories),
      FsFile.v (the blocks a file owns), FsWrite.v ([writei]: the bytes are in
      place, blocks are allocated as needed, [readi] reads them back),
      FsDir.v ([dirlink]: the name is found in the new entry), FsTrunc.v
      ([itrunc]: exactly the blocks of the file are freed).
    - Kstate.v: the state of the whole kernel, and how a component's operation
      runs on its part of it.  KHoare.v: invariants of that state.
      SleepWakeup.v: the instructions of [sleep], [wakeup], [sched] and the
      scheduler, interleaved; no wakeup is lost.
    - File.v: file.c.  Proc.v: proc.c.  Sysargs.v: syscall.c, sysproc.c.
      Sysfile.v: sysfile.c.  Exec.v: exec.c.  Trap.v: trap.c and plic.c.
      Boot.v: start.c and main.c.
    - ProcFacts.v: a process that waits never misses the exit of a child; a
      pass of the scheduler runs every runnable process.
      FileFacts.v: whatever system calls run, the reference count of an open
      file is the number of its descriptors.
    - Asm.v: trampoline.S, kernelvec.S, swtch.S and entry.S, instruction by
      instruction.  AsmFacts.v: what a trap, a context switch and an interrupt
      of the kernel preserve.
    - Ulib.v: user programs as trees of system calls; ulib.c and the user's
      printf.c.  Uprogs.v: the small programs.  Grep.v: grep.c, with the
      meaning of patterns and the lines printed.
    - Sh.v: sh.c.  ShFacts.v: the parser accepts exactly a grammar.  ShRun.v:
      the programs a line starts and how their descriptors are wired.
    - Umalloc.v: umalloc.c.  UmallocFacts.v: blocks handed out never overlap.
    - Mkfs.v: mkfs.c.  MkfsFacts.v, MkfsImage.v: the image is a well-formed
      file system that holds the files it was built from.

    ** Parameters

    The addresses the linker assigns are fields of the classes [Layout] (with
    [LayoutOk] for what the kernel's linker script promises) and [Code].  What a
    device answers when its registers are read is an argument of the
    operations that read them; so are the translation of addresses and the
    called C functions in Asm.v, and the answers of the kernel to a user
    program.

    ** Not modelled

    Of the assembly, initcode.S (bytes that the kernel copies), the stubs that
    usys.pl prints, and uthread_switch.S, which has no instructions.  Of the
    programs: xargs.c and pingpong.c, which go beyond the ends of their buffers
    in every run; uthread.c, which rests on uthread_switch.S; and the tests
    (usertests.c, mounttest.c, cow.c, alarmtest.c, bcachetest.c, kalloctest.c,
    crashtest.c), on which nothing relies.  ramdisk.c is not part of the build.
    Interleavings inside a system call that sleeps on a buffer or
    inode lock are cut at the [Sleep] outcome, from which the model does not
    continue; calls that sleep on a pipe, the console, a child or the clock do
    continue (see [cont] in Kstate.v). *)

From Stdlib Require Import ZArith Lia.
From stdpp Require Import base gmap list strings.

#[global] Open Scope Z_scope.

(** ** Machine integers

    A C integer of width [w] is a [Z]; the conversion to an unsigned type of
    that width is the wrap-around written out. *)

Definition u8 (z : Z) : Z := z mod 2 ^ 8.
Definition u16 (z : Z) : Z := z mod 2 ^ 16.
Definition u32 (z : Z) : Z := z mod 2 ^ 32.
Definition u64 (z : Z) : Z := z mod 2 ^ 64.

(** Conversion to [int] and [short]: two's complement. *)
Definition i32 (z : Z) : Z :=
  let r := z mod 2 ^ 32 in if r <? 2 ^ 31 then r else r - 2 ^ 32.
Definition i16 (z : Z) : Z :=
  let r := z mod 2 ^ 16 in if r <? 2 ^ 15 then r else r - 2 ^ 16.

(** C truth value of an integer expression. *)
Definition ctrue (z : Z) : bool := negb (z =? 0).

(** ** Bytes in memory order

    [le_bytes n v] are the [n] little-endian bytes of [v]; [le_val] reads
    them back. *)

Fixpoint le_bytes (n : nat) (v : Z) : list Z :=
  match n with
  | O => []
  | S n' => u8 v :: le_bytes n' (v / 2 ^ 8)
  end.

Fixpoint le_val (bs : list Z) : Z :=
  match bs with
  | [] => 0
  | b :: bs' => b + 2 ^ 8 * le_val bs'
  end.

(** Open modes (kernel/fcntl.h). *)
Definition O_RDONLY : Z := 0.
Definition O_WRONLY : Z := 1.
Definition O_RDWR : Z := 2.
Definition O_CREATE : Z := 0x200.

(** Types of inodes (kernel/stat.h) and the length of a name (kernel/fs.h). *)
Definition T_DIR : Z := 1.
Definition T_FILE : Z := 2.
Definition T_DEVICE : Z := 3.
Definition DIRSIZ : nat := 14.

(** [n] bytes of a buffer at offset [off], and the buffer with the bytes at
    [off] replaced ([list_inserts] of stdpp: nothing past the end). *)
Definition bytes_at (off n : nat) (l : list Z) : list Z := take n (drop off l).
Definition bytes_put (off : nat) (new l : list Z) : list Z := list_inserts off new l.

Definition byte_ok (b : Z) : Prop := 0 <= b < 2 ^ 8.

Definition newline : string := String (Ascii.ascii_of_nat 10) EmptyString.

(** ** Events and outcomes

    A kernel operation runs on its component's state.  What it does to the
    rest of the machine in the meantime is recorded as events, in order:
    block writes that reached the disk, [wakeup] calls, characters sent to
    the UART.  The channels are the addresses the code sleeps on. *)

Inductive wchan :=
| ChLog                      (* &log *)
| ChBufLock (i : nat)        (* the sleeplock of bcache.buf[i] *)
| ChInodeLock (i : nat)      (* the sleeplock of icache.inode[i] *)
| ChBuf (i : nat)            (* bcache.buf[i], waiting for the disk *)
| ChDesc (n : nat)           (* &disk[n].free[0] *)
| ChPipeRead (p : Z)         (* &pi->nread *)
| ChPipeWrite (p : Z)        (* &pi->nwrite *)
| ChCons                     (* &cons.r *)
| ChTicks                    (* &ticks *)
| ChProc (i : nat).          (* &proc[i] *)

#[global] Instance wchan_eq_dec : EqDecision wchan.
Proof. solve_decision. Defined.

Inductive event :=
| EDisk (dev blockno : Z) (data : list Z)
| EWake (c : wchan)
| EPutc (c : Z).

(** [Ok a s t]: the call returned [a] in state [s] after the events [t].
    [Panic m s t]: the code called [panic(m)].  [Sleep c s t]: it went to sleep on
    [c], having changed the state to [s].  [Undef]: an access outside an
    array, undefined in C.  [Diverge]: the fuel of a loop ran out. *)

Inductive outcome (S A : Type) :=
| Ok (a : A) (s : S) (t : list event)
| Panic (msg : string) (s : S) (t : list event)
| Sleep (c : wchan) (s : S) (t : list event)
| Undef
| Diverge.
Arguments Ok {S A} a s t.
Arguments Panic {S A} msg s t.
Arguments Sleep {S A} c s t.
Arguments Undef {S A}.
Arguments Diverge {S A}.

Definition M (S A : Type) : Type := S -> outcome S A.

Section Monad.
Context {S : Type}.

Definition ret {A} (a : A) : M S A := fun s => Ok a s [].

(** Prefixing the events of what ran before. *)
Definition after {A} (t : list event) (o : outcome S A) : outcome S A :=
  match o with
  | Ok a s t' => Ok a s (t ++ t')
  | Panic m s t' => Panic m s (t ++ t')
  | Sleep c s t' => Sleep c s (t ++ t')
  | Undef => Undef
  | Diverge => Diverge
  end.

Definition bind {A B} (m : M S A) (k : A -> M S B) : M S B := fun s =>
  match m s with
  | Ok a s1 t1 => after t1 (k a s1)
  | Panic e s1 t1 => Panic e s1 t1
  | Sleep c s1 t1 => Sleep c s1 t1
  | Undef => Undef
  | Diverge => Diverge
  end.

Definition panic {A} (msg : string) : M S A := fun s => Panic msg s [].
Definition sleep {A} (c : wchan) : M S A := fun s => Sleep c s [].
Definition undef {A} : M S A := fun _ => Undef.
Definition diverge {A} : M S A := fun _ => Diverge.
Definition get {A} (f : S -> A) : M S A := fun s => Ok (f s) s [].
Definition modify (f : S -> S) : M S unit := fun s => Ok tt (f s) [].
Definition emit (e : event) : M S unit := fun s => Ok tt s [e].
Definition wakeup (c : wchan) : M S unit := emit (EWake c).

(** printf of a constant string. *)
Fixpoint kputs (s : string) : M S unit :=
  match s with
  | EmptyString => ret tt
  | String c s' => bind (emit (EPutc (Z.of_nat (Ascii.nat_of_ascii c)))) (fun _ => kputs s')
  end.

(** The value of an array slot, undefined outside the array. *)
Definition fetch {A} (f : S -> option A) : M S A := fun s =>
  match f s with Some a => Ok a s [] | None => Undef end.

End Monad.

(** Running an operation of a component that is a field of a larger state. *)
Definition zoom {S T A} (view : S -> T) (upd : T -> S -> S) (m : M T A) : M S A :=
  fun s =>
    match m (view s) with
    | Ok a u t => Ok a (upd u s) t
    | Panic e u t => Panic e (upd u s) t
    | Sleep c u t => Sleep c (upd u s) t
    | Undef => Undef
    | Diverge => Diverge
    end.

(** Running an operation beside a local variable of its caller. *)
Definition with_local {S X A} (x : X) (m : M (S * X) A) : M S (A * X) :=
  fun s =>
    match m (s, x) with
    | Ok a (s', x') t => Ok (a, x') s' t
    | Panic e (s', _) t => Panic e s' t
    | Sleep c (s', _) t => Sleep c s' t
    | Undef => Undef
    | Diverge => Diverge
    end.

Declare Scope xv6_scope.
Delimit Scope xv6_scope with xv6.
Notation "x <- m ;; k" := (bind m (fun x => k))
  (at level 100, m at next level, right associativity) : xv6_scope.
Notation "m ;;; k" := (bind m (fun _ => k))
  (at level 100, right associativity) : xv6_scope.

(** [for(x in l) body x], where [body] answers [inl tt] to go on and [inr r]
    to leave the loop with [r]. *)
Fixpoint for_each {S X R} (l : list X) (body : X -> M S (unit + R)) : M S (option R) :=
  match l with
  | [] => ret None
  | x :: l' =>
      bind (body x) (fun r =>
        match r with inl _ => for_each l' body | inr v => ret (Some v) end)
  end.

(** [for(x in l) body x] without a break. *)
Fixpoint for_all {S X} (l : list X) (body : X -> M S unit) : M S unit :=
  match l with
  | [] => ret tt
  | x :: l' => bind (body x) (fun _ => for_all l' body)
  end.

(** ** Weakest preconditions

    [wp m s Q]: run from [s], the operation returns, and [Q] holds of its
    result, final state and events.  It is total correctness: a run that
    panics, sleeps, is undefined or runs out of fuel falsifies it. *)

Definition wp {S A} (m : M S A) (s : S) (Q : A -> S -> list event -> Prop) : Prop :=
  match m s with Ok a s' t => Q a s' t | _ => False end.

(** The same for a run that ends in a call of [panic]. *)
Definition wp_panic {S A} (m : M S A) (s : S) (Q : string -> S -> list event -> Prop) : Prop :=
  match m s with Panic e s' t => Q e s' t | _ => False end.

(** The disk writes of a list of events, in order. *)
Fixpoint disk_writes (t : list event) : list (Z * Z * list Z) :=
  match t with
  | [] => []
  | EDisk d b x :: t' => (d, b, x) :: disk_writes t'
  | _ :: t' => disk_writes t'
  end.

(** The wakeups of a list of events, in order. *)
Fixpoint wakeups (t : list event) : list wchan :=
  match t with
  | [] => []
  | EWake c :: t' => c :: wakeups t'
  | _ :: t' => wakeups t'
  end.

(** The characters sent to the UART, in order. *)
Fixpoint putcs (t : list event) : list Z :=
  match t with
  | [] => []
  | EPutc c :: t' => c :: putcs t'
  | _ :: t' => putcs t'
  end.

(** ** Transition sequences *)

Inductive star {S : Type} (step : S -> S -> Prop) : S -> S -> Prop :=
| star_refl s : star step s s
| star_snoc s1 s2 s3 : star step s1 s2 -> step s2 s3 -> star step s1 s3.

(** ** Lemmas on the monad *)

Lemma after_nil {S A} (o : outcome S A) : after [] o = o.
Proof. by destruct o. Qed.

Lemma after_app {S A} t1 t2 (o : outcome S A) :
  after (t1 ++ t2) o = after t1 (after t2 o).
Proof. destruct o; simpl; by rewrite ?(assoc_L (++)). Qed.

Lemma wp_bind {S A B} (m : M S A) (k : A -> M S B) s Q :
  wp m s (fun a s1 t1 => wp (k a) s1 (fun b s2 t2 => Q b s2 (t1 ++ t2))) ->
  wp (bind m k) s Q.
Proof.
  unfold wp, bind. destruct (m s) as [a s1 t1| | | |]; try done.
  destruct (k a s1); simpl; done.
Qed.

Lemma wp_panic_bind {S A B} (m : M S A) (k : A -> M S B) s Q :
  wp m s (fun a s1 t1 => wp_panic (k a) s1 (fun e s2 t2 => Q e s2 (t1 ++ t2))) ->
  wp_panic (bind m k) s Q.
Proof.
  unfold wp, wp_panic, bind. destruct (m s) as [a s1 t1| | | |]; try done.
  destruct (k a s1); simpl; done.
Qed.

Lemma wp_mono {S A} (m : M S A) s (P Q : A -> S -> list event -> Prop) :
  wp m s P -> (forall a s' t, P a s' t -> Q a s' t) -> wp m s Q.
Proof. unfold wp. destruct (m s); eauto. Qed.

Lemma wp_ret {S A} (a : A) (s : S) (Q : A -> S -> list event -> Prop) :
  Q a s [] -> wp (ret a) s Q.
Proof. done. Qed.

Lemma wp_get {S A} (f : S -> A) (s : S) (Q : A -> S -> list event -> Prop) :
  Q (f s) s [] -> wp (get f) s Q.
Proof. done. Qed.

Lemma wp_modify {S} (f : S -> S) (s : S) (Q : unit -> S -> list event -> Prop) :
  Q tt (f s) [] -> wp (modify f) s Q.
Proof. done. Qed.

Lemma wp_emit {S} (e : event) (s : S) (Q : unit -> S -> list event -> Prop) :
  Q tt s [e] -> wp (emit e) s Q.
Proof. done. Qed.

Lemma wp_fetch {S A} (f : S -> option A) a (s : S) (Q : A -> S -> list event -> Prop) :
  f s = Some a -> Q a s [] -> wp (fetch f) s Q.
Proof. unfold wp, fetch. by intros ->. Qed.

(** A call whose outcome is known. *)
Lemma wp_eq {S A} (m : M S A) s a s' t (Q : A -> S -> list event -> Prop) :
  m s = Ok a s' t -> Q a s' t -> wp m s Q.
Proof. unfold wp. by intros ->. Qed.

Lemma wp_zoom {S T A} (view : S -> T) (upd : T -> S -> S) (m : M T A) s Q :
  wp m (view s) (fun a u t => Q a (upd u s) t) -> wp (zoom view upd m) s Q.
Proof. unfold wp, zoom. by destruct (m (view s)). Qed.

Lemma wp_with_local {S X A} (x : X) (m : M (S * X) A) s Q :
  wp m (s, x) (fun a s' t => Q (a, snd s') (fst s') t) -> wp (with_local x m) s Q.
Proof. unfold wp, with_local. by destruct (m (s, x)) as [a [s' x'] t|? []|? []| |]. Qed.

(** What a [wp] says of a run that is known to return. *)
Lemma wp_Ok {S A} (m : M S A) s a s' t Q :
  wp m s Q -> m s = Ok a s' t -> Q a s' t.
Proof. unfold wp. intros H E. by rewrite E in H. Qed.

Lemma wp_run {S A} (m : M S A) s Q :
  wp m s Q -> exists a s' t, m s = Ok a s' t /\ Q a s' t.
Proof. unfold wp. destruct (m s); naive_solver. Qed.

Lemma disk_writes_app t1 t2 : disk_writes (t1 ++ t2) = disk_writes t1 ++ disk_writes t2.
Proof. induction t1 as [|[] t1 IH]; simpl; by rewrite ?IH. Qed.

(** Printing changes nothing but the UART. *)
Lemma wp_kputs {S} msg (s : S) (Q : unit -> S -> list event -> Prop) :
  (forall t, disk_writes t = [] -> Q tt s t) -> wp (kputs msg) s Q.
Proof.
  revert Q. induction msg as [|c msg IH]; intros Q HQ; cbn [kputs].
  - apply wp_ret. by apply HQ.
  - apply wp_bind, wp_emit. apply IH. intros t Ht. by apply HQ.
Qed.

Lemma wakeups_app t1 t2 : wakeups (t1 ++ t2) = wakeups t1 ++ wakeups t2.
Proof. induction t1 as [|[] t1 IH]; simpl; by rewrite ?IH. Qed.

Lemma putcs_app t1 t2 : putcs (t1 ++ t2) = putcs t1 ++ putcs t2.
Proof. induction t1 as [|[] t1 IH]; simpl; by rewrite ?IH. Qed.

(** Invariants along a transition sequence: rule induction, once. *)
Lemma star_invariant {S} (step : S -> S -> Prop) (I : S -> Prop) s s' :
  (forall a b, I a -> step a b -> I b) -> star step s s' -> I s -> I s'.
Proof. intros Hstep. induction 1; eauto. Qed.

(** A loop: [I] relates what has been visited to the state and the events so
    far. *)
Lemma wp_for_all {S X} (body : X -> M S unit) (I : list X -> S -> list event -> Prop) l s :
  I [] s [] ->
  (forall done x rest s' t, l = done ++ x :: rest -> I done s' t ->
     wp (body x) s' (fun _ s'' t' => I (done ++ [x]) s'' (t ++ t'))) ->
  wp (for_all l body) s (fun _ s' t => I l s' t).
Proof.
  intros H0 Hstep.
  assert (forall rest done s' t, l = done ++ rest -> I done s' t ->
    wp (for_all rest body) s' (fun _ s'' t' => I l s'' (t ++ t'))) as H.
  { induction rest as [|x rest IH]; intros done s' t -> HI; cbn [for_all].
    - apply wp_ret. by rewrite !app_nil_r in *.
    - apply wp_bind. eapply wp_mono; [by eapply Hstep|].
      intros ? s'' t' HI'. cbv beta in *.
      eapply wp_mono; [apply (IH (done ++ [x])); [by rewrite <- (assoc_L (++))|done]|].
      intros ? ? ?. by rewrite (assoc_L (++)). }
  by apply (H l [] s []).
Qed.

(** A loop that looks for the first element passing a test. *)
Lemma for_each_find {S X R} (body : X -> M S (unit + R)) (p : X -> bool) (g : X -> R) l s :
  (forall x, x ∈ l -> body x s = Ok (if p x then inr (g x) else inl tt) s []) ->
  for_each l body s = Ok (option_map g (List.find p l)) s [].
Proof.
  induction l as [|x l IH]; intros H; [done|]. simpl. unfold bind. rewrite H by set_solver.
  destruct (p x); [done|]. simpl. rewrite IH; [done|]. set_solver.
Qed.

(** The same for [for(i = 0; i < n; i++)]. *)
Lemma wp_for_seq {T} (body : nat -> M T unit) (I : nat -> T -> list event -> Prop) n s :
  I 0%nat s [] ->
  (forall i s' t, (i < n)%nat -> I i s' t ->
     wp (body i) s' (fun _ s'' t' => I (S i) s'' (t ++ t'))) ->
  wp (for_all (seq 0 n) body) s (fun _ s' t => I n s' t).
Proof.
  intros H0 Hstep. eapply wp_mono.
  - apply (wp_for_all body (fun done s t => I (length done) s t)); [done|].
    intros done i rest s' t Hl HI.
    assert (i = length done /\ (i < n)%nat) as [-> Hi].
    { assert (seq 0 n !! length done = Some i) as E by (by rewrite Hl, list_lookup_middle).
      apply lookup_seq in E. lia. }
    eapply wp_mono; [by apply Hstep|]. intros ? s'' t' H. cbv beta in *.
    rewrite length_app. simpl. by rewrite Nat.add_1_r.
  - intros ? s' t H. cbv beta in H. by rewrite length_seq in H.
Qed.

(** ** Lemmas on machine integers *)

Lemma u32_small z : 0 <= z < 2 ^ 32 -> u32 z = z.
Proof. apply Z.mod_small. Qed.
Lemma u64_small z : 0 <= z < 2 ^ 64 -> u64 z = z.
Proof. apply Z.mod_small. Qed.
Lemma u8_small z : 0 <= z < 2 ^ 8 -> u8 z = z.
Proof. apply Z.mod_small. Qed.
Lemma u16_small z : 0 <= z < 2 ^ 16 -> u16 z = z.
Proof. apply Z.mod_small. Qed.
Lemma u8_range z : 0 <= u8 z < 2 ^ 8.
Proof. apply Z.mod_pos_bound. lia. Qed.
Lemma u32_range z : 0 <= u32 z < 2 ^ 32.
Proof. apply Z.mod_pos_bound. lia. Qed.
Lemma u64_range z : 0 <= u64 z < 2 ^ 64.
Proof. apply Z.mod_pos_bound. lia. Qed.
Lemma i32_small z : - 2 ^ 31 <= z < 2 ^ 31 -> i32 z = z.
Proof. intros H. unfold i32. case_match eqn:E; Z.div_mod_to_equations; lia. Qed.
Lemma i16_small z : - 2 ^ 15 <= z < 2 ^ 15 -> i16 z = z.
Proof. intros H. unfold i16. case_match eqn:E; Z.div_mod_to_equations; lia. Qed.

(** ** Lemmas on little-endian bytes *)

Lemma length_le_bytes n v : length (le_bytes n v) = n.
Proof. revert v. induction n; simpl; intros; auto. Qed.

Lemma le_bytes_ok n v : Forall byte_ok (le_bytes n v).
Proof.
  revert v. induction n; intros; simpl; constructor; [apply u8_range|auto].
Qed.

Lemma le_val_bytes n v : 0 <= v < 2 ^ (8 * Z.of_nat n) -> le_val (le_bytes n v) = v.
Proof.
  revert v. induction n as [|n IH]; intros v Hv; cbn [le_bytes le_val].
  - change (2 ^ (8 * Z.of_nat 0)) with 1 in Hv. lia.
  - rewrite IH.
    + unfold u8. pose proof (Z.div_mod v (2 ^ 8)). lia.
    + replace (8 * Z.of_nat (S n)) with (8 + 8 * Z.of_nat n) in Hv by lia.
      rewrite Z.pow_add_r in Hv by lia.
      split; [apply Z.div_pos; lia|]. apply Z.div_lt_upper_bound; lia.
Qed.

Lemma le_val_range bs :
  Forall byte_ok bs -> 0 <= le_val bs < 2 ^ (8 * Z.of_nat (length bs)).
Proof.
  induction 1 as [|b bs Hb _ IH]; cbn [le_val length].
  - change (2 ^ (8 * Z.of_nat 0)) with 1. lia.
  - unfold byte_ok in Hb.
    replace (8 * Z.of_nat (S (length bs))) with (8 + 8 * Z.of_nat (length bs)) by lia.
    rewrite Z.pow_add_r by lia. nia.
Qed.

Lemma le_bytes_val bs : Forall byte_ok bs -> le_bytes (length bs) (le_val bs) = bs.
Proof.
  induction 1 as [|b bs Hb Hbs IH]; cbn [le_bytes le_val length]; [done|].
  unfold byte_ok in Hb. f_equal.
  - unfold u8. rewrite Z.mul_comm, Z.mod_add by lia. by apply Z.mod_small.
  - rewrite Z.mul_comm, Z.div_add by lia. by rewrite Z.div_small.
Qed.

(** ** Lengths *)

Create Rewrite HintDb len.
#[export] Hint Rewrite @length_app @length_insert @length_take @length_drop
  @length_replicate @length_fmap @length_inserts @length_seq @length_reverse
  length_le_bytes : len.

Ltac len := autorewrite with len in *; simpl in *; try lia.

Lemma length_bytes_put off new l : length (bytes_put off new l) = length l.
Proof. unfold bytes_put. by len. Qed.

Lemma length_bytes_at off n l :
  (off + n <= length l)%nat -> length (bytes_at off n l) = n.
Proof. unfold bytes_at. len. Qed.

#[export] Hint Rewrite length_bytes_put : len.

(** Reading back what was put, and reading elsewhere. *)
Lemma bytes_at_put off new l :
  (off + length new <= length l)%nat ->
  bytes_at off (length new) (bytes_put off new l) = new.
Proof.
  intros H. unfold bytes_at, bytes_put. apply list_eq. intros i.
  destruct (decide (i < length new)%nat).
  - rewrite lookup_take_lt, lookup_drop by done.
    rewrite list_lookup_inserts by lia. f_equal. lia.
  - rewrite (lookup_ge_None_2 (take _ _)) by len.
    symmetry. apply lookup_ge_None_2. lia.
Qed.

Lemma bytes_at_put_eq off n new l :
  length new = n -> (off + n <= length l)%nat -> bytes_at off n (bytes_put off new l) = new.
Proof. intros <-. apply bytes_at_put. Qed.

Lemma bytes_at_put_ne off n off' new l :
  (off + n <= off' \/ off' + length new <= off)%nat ->
  bytes_at off n (bytes_put off' new l) = bytes_at off n l.
Proof.
  intros H. unfold bytes_at, bytes_put. apply list_eq. intros i.
  destruct (decide (i < n)%nat).
  - rewrite !lookup_take_lt, !lookup_drop by done.
    destruct H; [apply list_lookup_inserts_lt|apply list_lookup_inserts_ge]; lia.
  - rewrite !lookup_take_ge by lia. done.
Qed.

Lemma bytes_put_ok off new l :
  Forall byte_ok new -> Forall byte_ok l -> Forall byte_ok (bytes_put off new l).
Proof.
  unfold bytes_put. intros Hn. revert off. induction Hn as [|b new Hb _ IH];
    intros off Hl; simpl; [done|]. apply Forall_insert; auto.
Qed.

Lemma bytes_at_ok off n l : Forall byte_ok l -> Forall byte_ok (bytes_at off n l).
Proof. intros. unfold bytes_at. by apply Forall_take, Forall_drop. Qed.

(** ** Counting and searching *)

Fixpoint count {A} (p : A -> bool) (l : list A) : Z :=
  match l with
  | [] => 0
  | x :: l' => Z.b2z (p x) + count p l'
  end.

Lemma count_cons {A} (p : A -> bool) x l : count p (x :: l) = Z.b2z (p x) + count p l.
Proof. done. Qed.

Lemma count_app {A} (p : A -> bool) l1 l2 : count p (l1 ++ l2) = count p l1 + count p l2.
Proof. induction l1 as [|x l1 IH]; [done|]. simpl app. rewrite !count_cons, IH. lia. Qed.

Lemma count_ext {A} (p q : A -> bool) l :
  (forall x, x ∈ l -> p x = q x) -> count p l = count q l.
Proof.
  induction l as [|x l IH]; intros H; [done|].
  rewrite !count_cons, H by set_solver. f_equal. apply IH. set_solver.
Qed.

(** Two predicates that differ at one place. *)
Lemma count_update {A} (p q : A -> bool) x l :
  NoDup l -> x ∈ l -> (forall y, y ∈ l -> y <> x -> q y = p y) ->
  count q l = count p l - Z.b2z (p x) + Z.b2z (q x).
Proof.
  induction 1 as [|y l Hy Hl IH]; intros Hx Heq; [set_solver|].
  rewrite !count_cons. apply elem_of_cons in Hx as [->|Hx].
  - rewrite (count_ext q p l); [lia|]. intros z Hz. apply Heq; set_solver.
  - rewrite IH, (Heq y) by set_solver. lia.
Qed.

Lemma count_nonneg {A} (p : A -> bool) l : 0 <= count p l.
Proof. induction l as [|x l IH]; simpl; [done|]. destruct (p x); simpl; lia. Qed.

Lemma count_insert {A} (p : A -> bool) (l : list A) i x y : l !! i = Some x ->
  count p (<[i := y]> l) = count p l - Z.b2z (p x) + Z.b2z (p y).
Proof.
  revert i. induction l as [|z l IH]; intros [|i] Hi; simpl in *; try done.
  - injection Hi as ->. lia.
  - rewrite (IH i Hi). lia.
Qed.

Lemma count_le_length {A} (p : A -> bool) l : count p l <= Z.of_nat (length l).
Proof. induction l as [|x l IH]; simpl; [done|]. destruct (p x); simpl; lia. Qed.

Lemma count_none {A} (p : A -> bool) l : (forall x, x ∈ l -> p x = false) -> count p l = 0.
Proof.
  induction l as [|x l IH]; intros H; [done|].
  rewrite count_cons, H, IH by set_solver. done.
Qed.

Lemma count_all {A} (p : A -> bool) l :
  (forall x, x ∈ l -> p x = true) -> count p l = Z.of_nat (length l).
Proof.
  induction l as [|x l IH]; intros H; [done|].
  rewrite count_cons, H, IH by set_solver. simpl. lia.
Qed.

Lemma count_pos {A} (p : A -> bool) l : 0 < count p l -> exists x, x ∈ l /\ p x = true.
Proof.
  induction l as [|x l IH]; [done|]. simpl. intros H.
  destruct (p x) eqn:E; [set_solver|]. simpl in H.
  destruct IH as (y & ? & ?); [lia|]. set_solver.
Qed.

Lemma elem_of_take_in {A} n (l : list A) x : x ∈ take n l -> x ∈ l.
Proof. intros H. rewrite <- (take_drop n l). apply elem_of_app. by left. Qed.

Lemma count_perm {A} (p : A -> bool) l l' : l ≡ₚ l' -> count p l = count p l'.
Proof. induction 1; simpl; lia. Qed.

Lemma NoDup_middle {A} (l1 : list A) x l2 :
  NoDup (l1 ++ x :: l2) <-> x ∉ l1 ++ l2 /\ NoDup (l1 ++ l2).
Proof. by rewrite <- Permutation_middle, NoDup_cons. Qed.

Lemma find_first {A} (p : A -> bool) l x :
  List.find p l = Some x ->
  p x = true /\ exists l1 l2, l = l1 ++ x :: l2 /\ forall y, y ∈ l1 -> p y = false.
Proof.
  induction l as [|y l IH]; simpl; [done|]. destruct (p y) eqn:E.
  - intros [= ->]. split; [done|]. exists [], l. set_solver.
  - intros H. destruct (IH H) as (? & l1 & l2 & -> & H'). split; [done|].
    exists (y :: l1), l2. split; [done|]. intros z Hz.
    apply elem_of_cons in Hz as [->|Hz]; auto.
Qed.

Lemma find_absent {A} (p : A -> bool) l :
  List.find p l = None -> forall y, y ∈ l -> p y = false.
Proof.
  induction l as [|y l IH]; simpl; [set_solver|]. destruct (p y) eqn:E; [done|].
  intros H z Hz. apply elem_of_cons in Hz as [->|Hz]; auto.
Qed.

Lemma find_none_all {A} (p : A -> bool) l :
  (forall y, y ∈ l -> p y = false) -> List.find p l = None.
Proof.
  induction l as [|x l IH]; intros H; simpl; [done|]. rewrite H by set_solver. apply IH. set_solver.
Qed.

Lemma list_elem_of_split_seq i n :
  (i < n)%nat -> exists l1 l2, seq 0 n = l1 ++ i :: l2.
Proof. intros Hi. apply list_elem_of_split, elem_of_seq. lia. Qed.

Lemma seq_split_at i n : (i < n)%nat -> seq 0 n = seq 0 i ++ i :: seq (S i) (n - S i).
Proof. intros H. replace n with (i + S (n - S i))%nat at 1 by lia. by rewrite seq_app. Qed.

(** ** Calls that come to an end *)

(** [m] never runs out of fuel, whatever the state. *)
Definition converges {S A} (m : M S A) : Prop := forall s, m s <> Diverge.

Section Converges.
Context {S : Type}.

Lemma converges_bind {A B} (m : M S A) (k : A -> M S B) :
  converges m -> (forall a, converges (k a)) -> converges (bind m k).
Proof.
  intros Hm Hk s. unfold bind. specialize (Hm s). destruct (m s) as [a s1 t| | | |]; try done.
  specialize (Hk a s1). by destruct (k a s1).
Qed.

Lemma converges_if {A} (b : bool) (m1 m2 : M S A) :
  (b = true -> converges m1) -> (b = false -> converges m2) -> converges (if b then m1 else m2).
Proof. destruct b; auto. Qed.

Lemma converges_ret {A} (a : A) : converges (S:=S) (ret a).
Proof. by intros s. Qed.

Lemma converges_get {A} (f : S -> A) : converges (get f).
Proof. by intros s. Qed.

Lemma converges_modify (f : S -> S) : converges (modify f).
Proof. by intros s. Qed.

Lemma converges_panic {A} msg : converges (S:=S) (A:=A) (panic msg).
Proof. by intros s. Qed.

Lemma converges_for_all {X} (l : list X) (body : X -> M S unit) :
  (forall x, converges (body x)) -> converges (for_all l body).
Proof.
  intros Hb. induction l as [|x l IH]; cbn [for_all]; [apply converges_ret|]. by apply converges_bind.
Qed.

End Converges.

Create HintDb converges.
#[export] Hint Resolve converges_ret converges_get converges_modify converges_panic : converges.

(** Through the sequencing and the tests of a call. *)
Ltac converge :=
  repeat first
    [ done | progress auto with converges
    | apply converges_bind; [|intros ?]
    | apply converges_if; intros ? ]; cbv zeta.

(** ** Bits *)

Lemma land_bit x i : 0 <= i -> (Z.land x (Z.shiftl 1 i) =? 0) = negb (Z.testbit x i).
Proof.
  intros Hi. rewrite Z.shiftl_1_l. destruct (Z.testbit x i) eqn:E.
  - apply Z.eqb_neq. intros H. assert (Z.testbit (Z.land x (2 ^ i)) i = true) as Ht.
    { by rewrite Z.land_spec, E, Z.pow2_bits_true. }
    by rewrite H, Z.testbit_0_l in Ht.
  - apply Z.eqb_eq. apply Z.bits_inj'. intros n Hn. rewrite Z.land_spec, Z.testbit_0_l.
    destruct (decide (n = i)) as [->|Hne]; [by rewrite E|].
    rewrite Z.pow2_bits_false by lia. apply andb_false_r.
Qed.

(** ** Updates of lists *)

Lemma alter_insert {A} (f : A -> A) (l : list A) (i : nat) x : l !! i = Some x -> alter f i l = <[i := f x]> l.
Proof.
  intros Hx. rewrite list_insert_alter. apply list_eq. intros j.
  destruct (decide (j = i)) as [->|]; [by rewrite !list_lookup_alter_eq, Hx|by rewrite !list_lookup_alter_ne by done].
Qed.

Lemma lookup_insert_list {A} (l : list A) i x j y :
  <[i := x]> l !! j = Some y -> (j = i /\ y = x /\ (i < length l)%nat) \/ (j <> i /\ l !! j = Some y).
Proof. intros H. apply list_lookup_insert_Some in H. naive_solver. Qed.

(** ** Tactics *)

(** One step of symbolic execution. *)
Ltac wp_step :=
  lazymatch goal with
  | |- wp (bind _ _) _ _ => apply wp_bind
  | |- wp (ret _) _ _ => apply wp_ret
  | |- wp (get _) _ _ => apply wp_get
  | |- wp (modify _) _ _ => apply wp_modify
  | |- wp (emit _) _ _ => apply wp_emit
  | |- wp (wakeup _) _ _ => apply wp_emit
  | |- wp (zoom _ _ _) _ _ => apply wp_zoom
  end; cbv beta.

Ltac wp_steps := repeat wp_step.

(** Boolean tests of the code, as propositions. *)
Create Rewrite HintDb bools.
#[export] Hint Rewrite Z.eqb_eq Z.eqb_neq Z.ltb_lt Z.ltb_ge Z.leb_le Z.leb_gt
  andb_true_iff andb_false_iff orb_true_iff orb_false_iff
  negb_true_iff negb_false_iff Nat.eqb_eq Nat.eqb_neq Nat.ltb_lt Nat.ltb_ge
  Nat.leb_le Nat.leb_gt bool_decide_eq_true bool_decide_eq_false : bools.
Ltac bools := autorewrite with bools in *.
