(* ===== verification/CString.v ===== *)
(** * Memory and strings (kernel/string.c)

    [memset], [memmove], [memcmp] run on a byte-addressed memory, so that
    overlapping areas are what they are.  The string functions are also
    wanted on C strings held in kernel buffers; there a string is a list of
    bytes, and a read past its end finds the NUL that terminates it. *)

From Stdlib Require Import ZArith Lia.
From stdpp Require Import base list strings functions.
From S2P Require Import Prelude.
Local Open Scope xv6_scope.

(** ** Byte-addressed memory *)

Notation mem := (Z -> Z).

Definition read_bytes (m : mem) (a : Z) (n : nat) : list Z :=
  (fun i => m (a + Z.of_nat i)) <$> seq 0 n.

(** for(i = 0; i < n; i++) cdst[i] = c; *)
Definition memset (dst c : Z) (n : nat) (m : mem) : mem :=
  foldl (fun m i => <[dst + Z.of_nat i := u8 c]> m) m (seq 0 n).

(** while(n-- > 0) *d++ = *s++; *)
Fixpoint copy_up (n : nat) (d s : Z) (m : mem) : mem :=
  match n with
  | O => m
  | S n' => copy_up n' (d + 1) (s + 1) (<[d := m s]> m)
  end.

(** while(n-- > 0) *--d = *--s; *)
Fixpoint copy_down (n : nat) (d s : Z) (m : mem) : mem :=
  match n with
  | O => m
  | S n' => copy_down n' (d - 1) (s - 1) (<[d - 1 := m (s - 1)]> m)
  end.

Definition memmove (dst src : Z) (n : nat) (m : mem) : mem :=
  if (src <? dst) && (dst <? src + Z.of_nat n) then
    copy_down n (dst + Z.of_nat n) (src + Z.of_nat n) m
  else copy_up n dst src m.

Definition memcpy (dst src : Z) (n : nat) (m : mem) : mem := memmove dst src n m.

Fixpoint memcmp (v1 v2 : Z) (n : nat) (m : mem) : Z :=
  match n with
  | O => 0
  | S n' => if negb (m v1 =? m v2) then m v1 - m v2 else memcmp (v1 + 1) (v2 + 1) n' m
  end.

(** ** C strings *)

(** The byte at offset [i] of a string. *)
Definition chr (s : list Z) (i : nat) : Z := nth i s 0.

(** while(n > 0 && *p && *p == *q) n--, p++, q++; ... *)
Fixpoint strncmp (p q : list Z) (n : nat) : Z :=
  match n with
  | O => 0
  | S n' =>
      if ctrue (chr p 0) && (chr p 0 =? chr q 0) then strncmp (drop 1 p) (drop 1 q) n'
      else u8 (chr p 0) - u8 (chr q 0)
  end.

(** The bytes [strncpy(s, t, n)] stores: those of [t] up to and including its
    NUL, then NULs, [n] in all. *)
Fixpoint strncpy (t : list Z) (n : nat) : list Z :=
  match n with
  | O => []
  | S n' => chr t 0 :: (if ctrue (chr t 0) then strncpy (drop 1 t) n' else replicate n' 0)
  end.

(** while(--n > 0 && (s[i] = t[i]) != 0) ; *s = 0;  With [n > 0] it stores a
    NUL-terminated prefix of [t] in at most [n] bytes. *)
Fixpoint safestrcpy_loop (t : list Z) (n : nat) : list Z :=
  match n with
  | O => []
  | S n' => chr t 0 :: (if ctrue (chr t 0) then safestrcpy_loop (drop 1 t) n' else [])
  end.

(** The loop stops behind the NUL it copied, and [*s = 0] adds another. *)
Definition safestrcpy (t : list Z) (n : nat) : list Z :=
  match n with
  | O => []
  | S n' => safestrcpy_loop t n' ++ [0]
  end.

Fixpoint strlen (s : list Z) : nat :=
  match s with
  | [] => 0
  | c :: s' => if ctrue c then S (strlen s') else 0
  end.

(** ** Facts about memory *)

Lemma copy_up_spec n d s m a :
  ~ (s < d < s + Z.of_nat n) ->
  copy_up n d s m a = if (d <=? a) && (a <? d + Z.of_nat n) then m (a - d + s) else m a.
Proof.
  revert d s m. induction n as [|n IH]; intros d s m Hd; cbn [copy_up].
  { replace ((d <=? a) && (a <? d + Z.of_nat 0)) with false by (symmetry; bools; lia). done. }
  rewrite IH by lia.
  destruct (decide (a = d)) as [->|Ha].
  - replace ((d + 1 <=? d) && _) with false by (symmetry; bools; lia).
    replace ((d <=? d) && _) with true by (symmetry; bools; lia).
    rewrite fn_lookup_insert. f_equal. lia.
  - replace ((d + 1 <=? a) && (a <? d + 1 + Z.of_nat n)) with ((d <=? a) && (a <? d + Z.of_nat (S n)))
      by (apply eq_true_iff_eq; bools; lia).
    destruct ((d <=? a) && _) eqn:E; bools.
    + rewrite fn_lookup_insert_ne by lia. f_equal. lia.
    + by rewrite fn_lookup_insert_ne.
Qed.

Lemma copy_down_spec n d s m a :
  s <= d -> copy_down n d s m a =
    if (d - Z.of_nat n <=? a) && (a <? d) then m (a - d + s) else m a.
Proof.
  revert d s m. induction n as [|n IH]; intros d s m Hd; cbn [copy_down].
  { replace ((d - Z.of_nat 0 <=? a) && (a <? d)) with false by (symmetry; bools; lia). done. }
  rewrite IH by lia.
  destruct (decide (a = d - 1)) as [->|Ha].
  - replace ((d - 1 - Z.of_nat n <=? d - 1) && (d - 1 <? d - 1)) with false by (symmetry; bools; lia).
    replace ((d - Z.of_nat (S n) <=? d - 1) && (d - 1 <? d)) with true by (symmetry; bools; lia).
    rewrite fn_lookup_insert. f_equal. lia.
  - replace ((d - 1 - Z.of_nat n <=? a) && (a <? d - 1)) with ((d - Z.of_nat (S n) <=? a) && (a <? d))
      by (apply eq_true_iff_eq; bools; lia).
    destruct ((d - Z.of_nat (S n) <=? a) && (a <? d)) eqn:E; bools.
    + rewrite fn_lookup_insert_ne by lia. f_equal. lia.
    + by rewrite fn_lookup_insert_ne.
Qed.

(** C36: [memmove] moves the bytes as they were before the call, whether or not
    the two areas overlap, and changes nothing else. *)
Theorem memmove_moves dst src n m a :
  memmove dst src n m a =
    if (dst <=? a) && (a <? dst + Z.of_nat n) then m (a - dst + src) else m a.
Proof.
  unfold memmove. destruct ((src <? dst) && (dst <? src + Z.of_nat n)) eqn:E; bools.
  - rewrite copy_down_spec by lia.
    replace (dst + Z.of_nat n - Z.of_nat n) with dst by lia.
    destruct ((dst <=? a) && _); [|done]. f_equal. lia.
  - apply copy_up_spec. lia.
Qed.

Lemma memset_spec dst c n m a :
  memset dst c n m a = if (dst <=? a) && (a <? dst + Z.of_nat n) then u8 c else m a.
Proof.
  unfold memset. induction n as [|n IH].
  { replace ((dst <=? a) && (a <? dst + Z.of_nat 0)) with false by (symmetry; bools; lia). done. }
  rewrite seq_S, foldl_app. simpl. destruct (decide (a = dst + Z.of_nat n)) as [->|Ha].
  - rewrite fn_lookup_insert. by replace ((dst <=? _) && _) with true by (symmetry; bools; lia).
  - rewrite fn_lookup_insert_ne, IH by done.
    by replace ((dst <=? a) && (a <? dst + Z.of_nat (S n))) with ((dst <=? a) && (a <? dst + Z.of_nat n))
      by (apply eq_true_iff_eq; bools; lia).
Qed.

Lemma memcmp_spec v1 v2 n m :
  memcmp v1 v2 n m = 0 <-> forall i, (i < n)%nat -> m (v1 + Z.of_nat i) = m (v2 + Z.of_nat i).
Proof.
  revert v1 v2. induction n as [|n IH]; intros v1 v2; cbn [memcmp]; [split; [lia|done]|].
  destruct (Z.eqb_spec (m v1) (m v2)) as [E|E]; simpl.
  - rewrite IH. split; intros H i Hi.
    + destruct i as [|i]; [by rewrite !Z.add_0_r|].
      replace (v1 + Z.of_nat (S i)) with (v1 + 1 + Z.of_nat i) by lia.
      replace (v2 + Z.of_nat (S i)) with (v2 + 1 + Z.of_nat i) by lia. apply H. lia.
    + specialize (H (S i)). replace (v1 + 1 + Z.of_nat i) with (v1 + Z.of_nat (S i)) by lia.
      replace (v2 + 1 + Z.of_nat i) with (v2 + Z.of_nat (S i)) by lia. apply H. lia.
  - split; [lia|]. intros H. specialize (H 0%nat). rewrite !Z.add_0_r in H. lia.
Qed.

(** ** Facts about strings *)

(** A string up to its NUL. *)
Definition cstr (s : list Z) : list Z := take (strlen s) s.

Lemma cstr_cons c s : cstr (c :: s) = if ctrue c then c :: cstr s else [].
Proof. unfold cstr. simpl. by destruct (ctrue c). Qed.

Lemma cstr_zeros n : cstr (replicate n 0) = [].
Proof. by destruct n. Qed.



(** Two strings compare equal when their first [n] bytes agree, up to a NUL. *)
Lemma strncmp_spec p q n :
  Forall byte_ok p -> Forall byte_ok q ->
  strncmp p q n = 0 <-> take n (cstr p) = take n (cstr q).
Proof.
  revert p q. induction n as [|n IH]; intros p q Hp Hq; cbn [strncmp]; [done|].
  assert (forall l, Forall byte_ok l -> byte_ok (chr l 0)) as Hb.
  { intros l Hl. destruct Hl; [by split|done]. }
  pose proof (Hb p Hp) as Hp0. pose proof (Hb q Hq) as Hq0. unfold byte_ok in *.
  assert (forall l, cstr l = if ctrue (chr l 0) then chr l 0 :: cstr (drop 1 l) else []) as E.
  { intros [|c l]; [done|]. by rewrite cstr_cons. }
  rewrite (E p), (E q). rewrite !u8_small by done. unfold ctrue.
  destruct (Z.eqb_spec (chr p 0) 0) as [Ep|Ep], (Z.eqb_spec (chr q 0) 0) as [Eq|Eq]; cbn [negb andb].
  - rewrite Ep, Eq. simpl. done.
  - simpl. split; [lia|done].
  - destruct (Z.eqb_spec (chr p 0) (chr q 0)); [lia|]. simpl. split; [lia|done].
  - destruct (Z.eqb_spec (chr p 0) (chr q 0)) as [Epq|Epq].
    + rewrite IH by (by apply Forall_drop). simpl. rewrite Epq. split; [by intros ->|by intros [= ->]].
    + simpl. split; [lia|]. intros [= ? _]. done.
Qed.

Lemma strncpy_length t n : length (strncpy t n) = n.
Proof.
  revert t. induction n as [|n IH]; intros t; cbn [strncpy length]; [done|].
  destruct (ctrue _); [by rewrite IH|by rewrite length_replicate].
Qed.

(** [strncpy] stores the string, or its first [n] bytes. *)
Lemma strncpy_cstr t n : cstr (strncpy t n) = take n (cstr t).
Proof.
  revert t. induction n as [|n IH]; intros t; cbn [strncpy]; [done|].
  rewrite cstr_cons. destruct t as [|c t]; cbn [chr nth]; [done|]. rewrite cstr_cons.
  destruct (ctrue c); [|done]. simpl. by rewrite IH.
Qed.

Lemma strlen_cstr s : strlen s = length (cstr s).
Proof. induction s as [|c s IH]; [done|]. rewrite cstr_cons. simpl. destruct (ctrue c); simpl; congruence. Qed.

(** [safestrcpy] stores a NUL-terminated string of less than [n] bytes: a
    prefix of the source, all of it when it fits. *)
Theorem safestrcpy_terminated t n : (0 < n)%nat ->
  cstr (safestrcpy t n) = take (n - 1) (cstr t) /\
  (strlen (safestrcpy t n) < n)%nat /\ (length (safestrcpy t n) <= n)%nat.
Proof.
  intros Hn. destruct n as [|n]; [lia|]. clear Hn.
  change (safestrcpy t (S n)) with (safestrcpy_loop t n ++ [0]). replace (S n - 1)%nat with n by lia.
  assert (cstr (safestrcpy_loop t n ++ [0]) = take n (cstr t) /\ (length (safestrcpy_loop t n) <= n)%nat) as [E Hl].
  { revert t. induction n as [|n IH]; intros t; cbn [safestrcpy_loop]; [done|].
    destruct t as [|c t]; cbn [chr nth drop]; simpl app; rewrite !cstr_cons.
    - split; [done|]. simpl. lia.
    - destruct (ctrue c) eqn:Ec; simpl; [|split; [done|lia]].
      destruct (IH t) as [E Hl]. rewrite drop_0, E. split; [done|lia]. }
  rewrite strlen_cstr, E. rewrite length_take, length_app. simpl. split; [done|lia].
Qed.

Lemma safestrcpy_terminated_witness :
  (0 < 4)%nat /\ cstr (safestrcpy [105; 110; 105; 116; 0] 4) = [105; 110; 105].
Proof.
  split; [lia|]. destruct (safestrcpy_terminated [105; 110; 105; 116; 0] 4 ltac:(lia)) as (H & _). exact H.
Defined.
