(* ===== verification/Kalloc.v ===== *)
(** * The physical page allocator (kernel/kalloc.c)

    Physical memory is a function from addresses to bytes.  A free page holds
    the address of the next one in its first eight bytes, so the free list is
    part of the memory it manages. *)

From Stdlib Require Import ZArith Lia.
From stdpp Require Import base list sets strings.
From S2P Require Import Prelude CString.
Local Open Scope xv6_scope.

(** ** Memory layout (memlayout.h, riscv.h) *)

Definition PGSIZE : Z := 4096.
Definition KERNBASE : Z := 0x80000000.
Definition PHYSTOP : Z := KERNBASE + 128 * 1024 * 1024.

Definition PGROUNDUP (sz : Z) : Z := Z.land (u64 (sz + PGSIZE - 1)) (u64 (Z.lnot (PGSIZE - 1))).
Definition PGROUNDDOWN (a : Z) : Z := Z.land a (u64 (Z.lnot (PGSIZE - 1))).

(** The addresses the linker script defines: the end of the kernel text, the
    page of the trampoline, the first address after the kernel. *)
Class Layout := { etext : Z; trampoline : Z; kend : Z }.

(** What the linker script guarantees of them. *)
Class LayoutOk (L : Layout) : Prop := {
  lo_etext : KERNBASE < etext /\ etext mod PGSIZE = 0;
  lo_trampoline : KERNBASE <= trampoline < etext /\ trampoline mod PGSIZE = 0;
  lo_end : etext <= kend < PHYSTOP - 2 * PGSIZE }.

(** ** Words in memory *)

Definition load64 (m : mem) (a : Z) : Z := le_val (read_bytes m a 8).
Definition store (a : Z) (bs : list Z) (m : mem) : mem :=
  fun x => if (a <=? x) && (x <? a + Z.of_nat (length bs)) then nth (Z.to_nat (x - a)) bs 0 else m x.
Definition store64 (a v : Z) (m : mem) : mem := store a (le_bytes 8 (u64 v)) m.

(** ** State *)

Record kmem := Kmem { kmemory : mem; freelist : Z }.

Definition set_memory (m : mem) (s : kmem) : kmem := Kmem m (freelist s).
Definition set_freelist (p : Z) (s : kmem) : kmem := Kmem (kmemory s) p.

Definition memset_ (dst c n : Z) : M kmem unit :=
  modify (fun s => set_memory (memset dst c (Z.to_nat n) (kmemory s)) s).
Definition read64 (a : Z) : M kmem Z := get (fun s => load64 (kmemory s) a).
Definition write64 (a v : Z) : M kmem unit := modify (fun s => set_memory (store64 a v (kmemory s)) s).

(** ** Operations *)

Section Ops.
Context `{Layout}.

Definition kfree (pa : Z) : M kmem unit :=
  if negb (pa mod PGSIZE =? 0) || (pa <? kend) || (PHYSTOP <=? pa) then panic "kfree"
  else
    memset_ pa 1 PGSIZE ;;;
    next <- get freelist ;;
    write64 pa next ;;;
    modify (set_freelist pa).

Definition kalloc : M kmem Z :=
  r <- get freelist ;;
  (if ctrue r then
     next <- read64 r ;;
     modify (set_freelist next)
   else ret tt) ;;;
  (if ctrue r then memset_ r 5 PGSIZE else ret tt) ;;;
  ret r.

(** The values of p in for(; p + PGSIZE <= pa_end; p += PGSIZE). *)
Definition range_pages (pa_start pa_end : Z) : list Z :=
  let p := PGROUNDUP pa_start + 4096 in
  (fun i => p + Z.of_nat i * PGSIZE) <$> seq 0 (Z.to_nat ((pa_end - p) / PGSIZE)).

Definition freerange (pa_start pa_end : Z) : M kmem unit :=
  for_all (range_pages pa_start pa_end) kfree.

Definition kinit : M kmem unit := freerange kend PHYSTOP.

End Ops.

(** ** Facts on memory *)

Lemma load64_ext m m' a : (forall x, a <= x < a + 8 -> m x = m' x) -> load64 m a = load64 m' a.
Proof.
  intros Hm. unfold load64, read_bytes. f_equal. apply list_fmap_ext. intros k i Hi.
  apply lookup_seq in Hi as [-> Hi]. apply Hm. lia.
Qed.

Lemma store_other a bs m x : ~ a <= x < a + Z.of_nat (length bs) -> store a bs m x = m x.
Proof. intros Hx. unfold store. destruct (_ && _) eqn:E; [|done]. bools. lia. Qed.

Lemma store_byte a bs m i x : bs !! i = Some x -> store a bs m (a + Z.of_nat i) = x.
Proof.
  intros Hi. assert (i < length bs)%nat by (by eapply lookup_lt_Some). unfold store.
  replace (_ && _) with true by (symmetry; bools; lia).
  replace (Z.to_nat (a + Z.of_nat i - a)) with i by lia. by rewrite nth_lookup, Hi.
Qed.

Lemma read_store a bs m : read_bytes (store a bs m) a (length bs) = bs.
Proof.
  apply list_eq. intros i. unfold read_bytes. rewrite list_lookup_fmap.
  destruct (bs !! i) as [x|] eqn:E.
  - rewrite lookup_seq_lt by (by eapply lookup_lt_Some). cbn [fmap option_fmap option_map Nat.add]. f_equal. by apply store_byte.
  - rewrite lookup_seq_ge by (by apply lookup_ge_None). done.
Qed.

Lemma load_store64 a v m : 0 <= v < 2 ^ 64 -> load64 (store64 a v m) a = v.
Proof.
  intros Hv. unfold load64, store64. rewrite u64_small by done.
  rewrite <- (length_le_bytes 8 v) at 2. rewrite read_store. by apply le_val_bytes.
Qed.

Lemma store64_other a v m x : ~ a <= x < a + 8 -> store64 a v m x = m x.
Proof. intros Hx. apply store_other. by rewrite length_le_bytes. Qed.

Lemma load_store64_ne a v m b : a + 8 <= b \/ b + 8 <= a -> load64 (store64 a v m) b = load64 m b.
Proof. intros Hd. apply load64_ext. intros x Hx. apply store64_other. lia. Qed.

Lemma memset_other dst c n m x : ~ dst <= x < dst + n -> 0 <= n -> memset dst c (Z.to_nat n) m x = m x.
Proof. intros Hx Hn. rewrite memset_spec. destruct (_ && _) eqn:E; [|done]. bools. lia. Qed.

Lemma memset_in dst c n m x : dst <= x < dst + n -> memset dst c (Z.to_nat n) m x = u8 c.
Proof. intros Hx. rewrite memset_spec. by replace (_ && _) with true by (symmetry; bools; lia). Qed.

(** Bytes in memory. *)
Definition mem_ok (m : mem) : Prop := forall x, byte_ok (m x).

Lemma load64_range m a : mem_ok m -> 0 <= load64 m a < 2 ^ 64.
Proof.
  intros Hm. unfold load64. pose proof (le_val_range (read_bytes m a 8)) as Hr.
  unfold read_bytes in *. rewrite length_fmap, length_seq in Hr. apply Hr.
  apply Forall_fmap, Forall_forall. intros i _. apply Hm.
Qed.

Lemma store_ok a bs m : Forall byte_ok bs -> mem_ok m -> mem_ok (store a bs m).
Proof.
  intros Hb Hm x. unfold store. destruct (_ && _) eqn:E; [|apply Hm].
  rewrite nth_lookup. destruct (bs !! _) eqn:E'; [by eapply Forall_lookup in E'|split; simpl; lia].
Qed.

Lemma store64_ok a v m : mem_ok m -> mem_ok (store64 a v m).
Proof. apply store_ok, le_bytes_ok. Qed.

Lemma memset_ok dst c n m : mem_ok m -> mem_ok (memset dst c n m).
Proof. intros Hm x. rewrite memset_spec. destruct (_ && _); [apply u8_range|apply Hm]. Qed.

(** ** The free list *)

(** A page the allocator manages. *)
Definition page_ok `{Layout} (pa : Z) : Prop := pa mod PGSIZE = 0 /\ kend <= pa < PHYSTOP.

(** [x] lies in the page at [pa]. *)
Definition in_page (pa x : Z) : Prop := pa <= x < pa + PGSIZE.

(** The chain of free pages that starts at [p]. *)
Fixpoint chain (m : mem) (p : Z) (l : list Z) : Prop :=
  match l with
  | [] => p = 0
  | q :: l' => p = q /\ chain m (load64 m q) l'
  end.

Record kinv `{Layout} (s : kmem) (l : list Z) : Prop := {
  ki_chain : chain (kmemory s) (freelist s) l;
  ki_pages : Forall page_ok l;
  ki_nodup : NoDup l;
  ki_mem : mem_ok (kmemory s) }.

Lemma chain_ext m m' p l :
  (forall q x, q ∈ l -> in_page q x -> m x = m' x) -> chain m p l -> chain m' p l.
Proof.
  revert p. induction l as [|q l IH]; intros p Hm; cbn [chain]; [done|]. intros [-> Hc]. split; [done|].
  rewrite <- (load64_ext m m' q); [apply IH; [|done]|].
  - intros q' x Hq'. apply Hm. by right.
  - intros x Hx. apply (Hm q); [by left|]. unfold in_page, PGSIZE. lia.
Qed.

(** Only the bytes of the free pages matter. *)
Lemma kinv_ext `{Layout} s s' l :
  kinv s l -> freelist s' = freelist s -> mem_ok (kmemory s') ->
  (forall r x, r ∈ l -> in_page r x -> kmemory s x = kmemory s' x) -> kinv s' l.
Proof.
  intros [C1 C2 C3 C4] Hf Hm Hx. constructor; [|done|done|done]. rewrite Hf. by eapply chain_ext.
Qed.

(** Different pages have no byte in common. *)
Lemma pages_disjoint p q x : p mod PGSIZE = 0 -> q mod PGSIZE = 0 -> in_page p x -> in_page q x -> p = q.
Proof. unfold in_page, PGSIZE. intros. Z.div_mod_to_equations. lia. Qed.

Section Facts.
Context `{LK : LayoutOk}.

Lemma page_pos pa : page_ok pa -> 0 < pa < 2 ^ 64.
Proof.
  intros [_ Hp]. pose proof (lo_end (LayoutOk:=LK)). pose proof (lo_etext (LayoutOk:=LK)).
  unfold PHYSTOP, KERNBASE in *. lia.
Qed.

Lemma kalloc_spec s l (Q : Z -> kmem -> list event -> Prop) :
  kinv s l ->
  match l with
  | [] => Q 0 s []
  | q :: l' => forall s', kinv s' l' -> (forall x, in_page q x -> kmemory s' x = 5) ->
      (forall x, ~ in_page q x -> kmemory s' x = kmemory s x) -> Q q s' []
  end ->
  wp kalloc s Q.
Proof.
  intros [Hc Hp Hn Hm] HQ. unfold kalloc. wp_step. apply wp_get. destruct l as [|q l]; cbn [chain] in Hc.
  { rewrite Hc. cbn [ctrue Z.eqb negb]. by repeat (wp_step; try apply wp_ret). }
  destruct Hc as [E Hc]. apply Forall_cons in Hp as [Hq Hp]. apply list.NoDup_cons in Hn as [Hni Hn].
  pose proof (page_pos q Hq). assert (ctrue (freelist s) = true) as ->.
  { unfold ctrue. rewrite E. destruct (Z.eqb_spec q 0); [lia|done]. }
  rewrite E. apply wp_bind, wp_bind, wp_get, wp_modify, wp_bind, wp_modify, wp_ret.
  apply HQ; [|intros x Hx; by apply memset_in|intros x Hx; by apply memset_other]. constructor; cbn [kmemory freelist set_memory set_freelist]; [|done|done|by apply memset_ok].
  eapply chain_ext; [|exact Hc]. intros q' x Hq' Hx. symmetry. apply memset_other; [|done]. intros Hx'.
  assert (q' = q) as ->; [|done]. apply (pages_disjoint q' q x); [|apply Hq|done|done].
  rewrite Forall_forall in Hp. by apply Hp.
Qed.

Lemma kfree_spec s l pa (Q : unit -> kmem -> list event -> Prop) :
  kinv s l -> page_ok pa -> pa ∉ l ->
  (forall s', kinv s' (pa :: l) -> (forall x, ~ in_page pa x -> kmemory s' x = kmemory s x) -> Q tt s' []) ->
  wp (kfree pa) s Q.
Proof.
  intros [Hc Hp Hn Hm] [Ha Hr] Hni HQ. unfold kfree.
  rewrite (proj2 (Z.eqb_eq _ _) Ha), (proj2 (Z.ltb_ge pa kend)), (proj2 (Z.leb_gt PHYSTOP pa)) by lia. cbn [negb orb].
  apply wp_bind, wp_modify, wp_bind, wp_get, wp_bind, wp_modify, wp_modify.
  assert (0 <= freelist s < 2 ^ 64) as Hf.
  { destruct l as [|q l]; cbn [chain] in Hc; [lia|]. destruct Hc as [-> _].
    apply Forall_cons in Hp as [Hq _]. pose proof (page_pos q Hq). lia. }
  cbn [freelist set_memory]. apply HQ.
  - constructor; cbn [kmemory freelist set_memory set_freelist].
    + split; [done|]. rewrite load_store64 by done. eapply chain_ext; [|exact Hc]. intros q x Hq Hx. symmetry.
      assert (~ in_page pa x) as Hx'.
      { intros Hx'. assert (pa = q) as ->; [|done]. apply (pages_disjoint pa q x); [done| |done|done].
        rewrite Forall_forall in Hp. by apply Hp. }
      unfold in_page, PGSIZE in *. rewrite store64_other by lia. apply memset_other; lia.
    + constructor; done.
    + by constructor.
    + by apply store64_ok, memset_ok.
  - intros x Hx. cbn [kmemory set_memory set_freelist]. unfold in_page, PGSIZE in *.
    rewrite store64_other by lia. apply memset_other; lia.
Qed.

Lemma kfree_bad s pa : ~ page_ok pa -> kfree pa s = Panic "kfree" s [].
Proof.
  intros Hp. unfold kfree, page_ok in *. destruct (Z.eqb_spec (pa mod PGSIZE) 0); cbn [negb orb]; [|done].
  destruct (Z.ltb_spec pa kend); cbn [orb]; [done|]. destruct (Z.leb_spec PHYSTOP pa); [done|]. exfalso. apply Hp. lia.
Qed.

End Facts.

(** C30: the allocator is a stack of pages.  With free pages [l], [kalloc]
    returns the first of them, filled with 5s, or 0 when there is none;
    [kfree] of a page that is not free puts it in front; both leave every byte
    outside the page alone; [kfree] of anything that is not a page of the
    allocator panics. *)
Theorem kalloc_stack `{LayoutOk} s l :
  kinv s l ->
  match l with
  | [] => kalloc s = Ok 0 s []
  | q :: l' => exists s', kalloc s = Ok q s' [] /\ kinv s' l' /\
      (forall x, in_page q x -> kmemory s' x = 5) /\ (forall x, ~ in_page q x -> kmemory s' x = kmemory s x)
  end /\
  (forall pa, page_ok pa -> pa ∉ l -> exists s', kfree pa s = Ok tt s' [] /\ kinv s' (pa :: l) /\
      forall x, ~ in_page pa x -> kmemory s' x = kmemory s x) /\
  (forall pa, ~ page_ok pa -> kfree pa s = Panic "kfree" s []).
Proof.
  intros Hk. split_and!.
  - destruct l as [|q l].
    + assert (wp kalloc s (fun r s' t => r = 0 /\ s' = s /\ t = [])) as Hw by (by eapply kalloc_spec).
      apply wp_run in Hw as (r & s' & t & -> & -> & -> & ->). done.
    + assert (wp kalloc s (fun r s' t => r = q /\ t = [] /\ kinv s' l /\
        (forall x, in_page q x -> kmemory s' x = 5) /\ (forall x, ~ in_page q x -> kmemory s' x = kmemory s x))) as Hw
        by (by eapply kalloc_spec).
      apply wp_run in Hw as (r & s' & t & Hrun & -> & -> & Hk' & E1 & E2). by exists s'.
  - intros pa Hp Hn.
    assert (wp (kfree pa) s (fun _ s' t => t = [] /\ kinv s' (pa :: l) /\
      forall x, ~ in_page pa x -> kmemory s' x = kmemory s x)) as Hw by (by eapply kfree_spec).
    apply wp_run in Hw as ([] & s' & t & Hrun & -> & Hk' & E). by exists s'.
  - intros pa Hp. by apply kfree_bad.
Qed.

(** ** Rounding to pages *)

Lemma page_mask a : 0 <= a < 2 ^ 64 -> Z.land a (u64 (Z.lnot (PGSIZE - 1))) = a / PGSIZE * PGSIZE.
Proof.
  intros Ha. change (u64 (Z.lnot (PGSIZE - 1))) with (Z.shiftl (Z.ones 52) 12).
  change (a / PGSIZE * PGSIZE) with (a / 2 ^ 12 * 2 ^ 12). rewrite <- Z.shiftr_div_pow2, <- Z.shiftl_mul_pow2 by lia.
  apply Z.bits_inj'. intros n Hn. rewrite Z.land_spec.
  destruct (decide (n < 12)).
  - rewrite !Z.shiftl_spec_low by lia. apply andb_false_r.
  - rewrite !Z.shiftl_spec, Z.shiftr_spec by lia. replace (n - 12 + 12) with n by lia.
    destruct (decide (n < 64)).
    + rewrite Z.ones_spec_low by lia. apply andb_true_r.
    + rewrite (Z.bits_above_log2 a n); [done|lia|].
      destruct (decide (a = 0)) as [->|]; [simpl; lia|]. assert (Z.log2 a < 64) by (apply Z.log2_lt_pow2; lia). lia.
Qed.

Lemma PGROUNDDOWN_eq a : 0 <= a < 2 ^ 64 -> PGROUNDDOWN a = a - a mod PGSIZE.
Proof. intros Ha. unfold PGROUNDDOWN. rewrite page_mask by done. pose proof (Z.div_mod a PGSIZE ltac:(done)). lia. Qed.

Lemma PGROUNDUP_eq a : 0 <= a < 2 ^ 63 -> PGROUNDUP a = (a + PGSIZE - 1) / PGSIZE * PGSIZE.
Proof. intros Ha. unfold PGROUNDUP. rewrite u64_small by (unfold PGSIZE; lia). apply page_mask. unfold PGSIZE. lia. Qed.

(** ** Booting *)

(** The pages the allocator starts with. *)
Definition boot_pages `{Layout} : list Z := range_pages kend PHYSTOP.

Section Boot.
Context `{LK : LayoutOk}.

Lemma kend_bound : KERNBASE < kend < PHYSTOP.
Proof.
  pose proof (lo_end (LayoutOk:=LK)). pose proof (lo_etext (LayoutOk:=LK)). unfold PGSIZE in *. lia.
Qed.

Lemma boot_pages_ok pa :
  pa ∈ boot_pages <-> pa mod PGSIZE = 0 /\ PGROUNDUP kend + PGSIZE <= pa < PHYSTOP.
Proof.
  pose proof kend_bound as Hk. unfold boot_pages, range_pages. change 4096 with PGSIZE.
  assert (0 <= kend < 2 ^ 63) as Hk' by (unfold PHYSTOP, KERNBASE in *; lia).
  pose proof (PGROUNDUP_eq kend Hk') as E. set (p := PGROUNDUP kend + PGSIZE).
  assert (p mod PGSIZE = 0) as Hp.
  { unfold p. rewrite E. rewrite <- Zplus_mod_idemp_r, Z.mod_same, Z.add_0_r by done. by apply Z.mod_mul. }
  assert (PHYSTOP mod PGSIZE = 0) as Hs by done. rewrite list_elem_of_fmap. split.
  - intros (i & -> & Hi). apply elem_of_seq in Hi. unfold PGSIZE in *. split; Z.div_mod_to_equations; lia.
  - intros [Hm Hr]. exists (Z.to_nat ((pa - p) / PGSIZE)). rewrite elem_of_seq. unfold PGSIZE in *.
    split; [|split; [lia|]]; Z.div_mod_to_equations; lia.
Qed.

Lemma boot_page_ok pa : pa ∈ boot_pages -> page_ok pa.
Proof.
  intros Hp. apply boot_pages_ok in Hp as [Hm Hr]. split; [done|].
  pose proof kend_bound as Hk. rewrite PGROUNDUP_eq in Hr by (unfold PHYSTOP, KERNBASE in *; lia).
  unfold PGSIZE in *. split; [|lia]. Z.div_mod_to_equations. lia.
Qed.

Lemma range_pages_nodup a b : NoDup (range_pages a b).
Proof.
  unfold range_pages. apply NoDup_fmap_2; [|apply list.NoDup_seq]. intros i j E. unfold PGSIZE in E. lia.
Qed.

End Boot.

(** C31: after [kinit] the free list is exactly the pages between the first
    page boundary after the kernel, plus one page, and the top of memory; each
    once; nothing outside them has been written. *)
Theorem kinit_frees_all `{LayoutOk} s :
  freelist s = 0 -> mem_ok (kmemory s) ->
  exists s', kinit s = Ok tt s' [] /\ kinv s' (reverse boot_pages) /\
    (forall pa, pa ∈ reverse boot_pages <-> pa mod PGSIZE = 0 /\ PGROUNDUP kend + PGSIZE <= pa < PHYSTOP) /\
    (forall x, (forall pa, pa ∈ boot_pages -> ~ in_page pa x) -> kmemory s' x = kmemory s x).
Proof.
  intros Hf Hm.
  assert (wp kinit s (fun _ s' t => t = [] /\ kinv s' (reverse boot_pages) /\
    forall x, (forall pa, pa ∈ boot_pages -> ~ in_page pa x) -> kmemory s' x = kmemory s x)) as Hw.
  { unfold kinit, freerange. fold boot_pages.
    apply (wp_for_all kfree (fun done s' t => t = [] /\ kinv s' (reverse done) /\
      forall x, (forall pa, pa ∈ done -> ~ in_page pa x) -> kmemory s' x = kmemory s x)).
    - split; [done|]. split; [|done]. constructor; [done|constructor|constructor|done].
    - intros done pa rest s1 t Hl (-> & Hk & Hx).
      assert (pa ∈ boot_pages) as Hin by (rewrite Hl; set_solver).
      eapply kfree_spec; [exact Hk|by apply boot_page_ok| |].
      + rewrite elem_of_reverse. intros Hd. pose proof (range_pages_nodup kend PHYSTOP) as Hn.
        fold boot_pages in Hn. rewrite Hl in Hn. apply NoDup_app in Hn as (_ & Hn & _). apply (Hn pa); [done|by left].
      + intros s2 Hk2 Hx2. split; [done|]. rewrite reverse_snoc. split; [done|]. intros x Hpx.
        rewrite Hx2 by (apply Hpx; set_solver). apply Hx. intros q Hq. apply Hpx. set_solver. }
  apply wp_run in Hw as ([] & s' & t & Hrun & -> & Hk & Hx). exists s'. split_and!; [done|done| |done].
  intros pa. rewrite elem_of_reverse. apply boot_pages_ok.
Qed.

(** A kernel of one megabyte. *)
#[global] Instance layout_ex : Layout :=
  {| etext := 0x80008000; trampoline := 0x80007000; kend := 0x80100010 |}.
#[global] Instance layout_ex_ok : LayoutOk layout_ex.
Proof. by constructor. Qed.

Lemma kinit_frees_all_witness : exists s',
  kinit (Kmem (fun _ => 0) 0) = Ok tt s' [] /\ kinv s' (reverse boot_pages) /\ 0x87fff000 ∈ reverse boot_pages.
Proof.
  destruct (kinit_frees_all (Kmem (fun _ => 0) 0) eq_refl) as (s' & H1 & H2 & H3 & _); [intros x; split; simpl; lia|].
  exists s'. split; [exact H1|]. split; [exact H2|]. apply H3. split; [done|]. split; [by vm_compute|done].
Defined.

Lemma kalloc_stack_witness : exists s s',
  kinv s [0x80200000; 0x80201000] /\ kalloc s = Ok 0x80200000 s' [] /\ kinv s' [0x80201000].
Proof.
  set (s := Kmem (store64 0x80200000 0x80201000 (fun _ => 0)) 0x80200000).
  assert (kinv s [0x80200000; 0x80201000]) as Hk.
  { constructor; [split; [done|split; [by vm_compute|by vm_compute]]| | |].
    - repeat constructor; vm_compute; done.
    - apply list.NoDup_cons. split; [|apply NoDup_singleton]. rewrite list_elem_of_singleton. lia.
    - apply store64_ok. intros x. split; simpl; lia. }
  destruct (kalloc_stack s _ Hk) as [(s' & H1 & H2 & _) _]. exists s, s'. split; [exact Hk|]. split; [exact H1|exact H2].
Defined.
