(* ===== verification/Vm.v ===== *)
(** * Virtual memory (kernel/vm.c, kernel/riscv.h, kernel/memlayout.h)

    Page tables live in pages of physical memory, as the hardware walks them;
    a page table is the address of its root page.  Addresses and entries are
    64-bit words. *)

From Stdlib Require Import ZArith Lia.
From stdpp Require Import base gmap list strings.
From S2P Require Import Prelude CString Kalloc.
Local Open Scope xv6_scope.

(** ** Constants and fields *)

Definition MAXVA : Z := Z.shiftl 1 38.
Definition TRAMPOLINE : Z := MAXVA - PGSIZE.
Definition TRAPFRAME : Z := TRAMPOLINE - PGSIZE.
Definition KSTACK (p : Z) : Z := TRAMPOLINE - (p + 1) * 2 * PGSIZE.

Definition UART0 : Z := 0x10000000.
Definition VIRTION (n : Z) : Z := 0x10000000 + (n + 1) * 0x1000.
Definition CLINT : Z := 0x2000000.
Definition PLIC : Z := 0x0c000000.

Definition PTE_V : Z := 1.
Definition PTE_R : Z := 2.
Definition PTE_W : Z := 4.
Definition PTE_X : Z := 8.
Definition PTE_U : Z := 16.

Definition PA2PTE (pa : Z) : Z := u64 (Z.shiftl (Z.shiftr pa 12) 10).
Definition PTE2PA (pte : Z) : Z := u64 (Z.shiftl (Z.shiftr pte 10) 12).
Definition PTE_FLAGS (pte : Z) : Z := Z.land pte 31.

(** The index of [va] in a page table of the given level. *)
Definition PX (level : nat) (va : Z) : Z := Z.land (Z.shiftr va (12 + 9 * Z.of_nat level)) 0x1FF.

(** An entry has the flags [f] set, some of them. *)
Definition has (pte f : Z) : bool := ctrue (Z.land pte f).

(** ** Walking a page table *)

(** The loop of [walk] from [level] down: the address of the entry of [va] in
    its level-0 page, or 0. *)
Fixpoint walk_level (level : nat) (pagetable va : Z) (alloc : bool) : M kmem Z :=
  match level with
  | O => ret (pagetable + 8 * PX 0 va)
  | S level' =>
      let pte := pagetable + 8 * PX level va in
      e <- read64 pte ;;
      if has e PTE_V then walk_level level' (PTE2PA e) va alloc
      else if negb alloc then ret 0
      else
        pagetable <- kalloc ;;
        if pagetable =? 0 then ret 0
        else
          memset_ pagetable 0 PGSIZE ;;;
          write64 pte (Z.lor (PA2PTE pagetable) PTE_V) ;;;
          walk_level level' pagetable va alloc
  end.

Definition walk (pagetable va : Z) (alloc : bool) : M kmem Z :=
  if MAXVA <=? va then panic "walk" else walk_level 2 pagetable va alloc.

Definition walkaddr (pagetable va : Z) : M kmem Z :=
  pte <- walk pagetable va false ;;
  if pte =? 0 then ret 0
  else
    e <- read64 pte ;;
    if negb (has e PTE_V) then ret 0
    else if negb (has e PTE_U) then ret 0
    else ret (PTE2PA e).

Definition kvmpa (kernel_pagetable va : Z) : M kmem Z :=
  let off := va mod PGSIZE in
  pte <- walk kernel_pagetable va false ;;
  if pte =? 0 then panic "kvmpa"
  else
    e <- read64 pte ;;
    if negb (has e PTE_V) then panic "kvmpa"
    else ret (u64 (PTE2PA e + off)).

(** ** Mapping and unmapping *)

(** The loops over the pages from [a] to [last] end at [last], or panic in
    [walk] when they pass [MAXVA]. *)
Definition pages_fuel (a last : Z) : nat :=
  S (Z.to_nat (((if a <=? last then Z.min last MAXVA else MAXVA) - a) / PGSIZE)).

Fixpoint mappages_loop (fuel : nat) (pagetable a last pa perm : Z) : M kmem Z :=
  match fuel with
  | O => diverge
  | S fuel' =>
      pte <- walk pagetable a true ;;
      if pte =? 0 then ret (-1)
      else
        e <- read64 pte ;;
        if has e PTE_V then panic "remap"
        else
          write64 pte (Z.lor (Z.lor (PA2PTE pa) perm) PTE_V) ;;;
          if a =? last then ret 0
          else mappages_loop fuel' pagetable (u64 (a + PGSIZE)) last (u64 (pa + PGSIZE)) perm
  end.

Definition mappages (pagetable va size pa perm : Z) : M kmem Z :=
  let a := PGROUNDDOWN va in
  let last := PGROUNDDOWN (u64 (va + size - 1)) in
  mappages_loop (pages_fuel a last) pagetable a last pa perm.

Definition kvmmap (kernel_pagetable va pa sz perm : Z) : M kmem unit :=
  r <- mappages kernel_pagetable va sz pa perm ;;
  if ctrue r then panic "kvmmap" else ret tt.

Section Unmap.
Context `{Layout}.

(** The message printed before the second panic is left out. *)
Fixpoint uvmunmap_loop (fuel : nat) (pagetable a last : Z) (do_free : bool) : M kmem unit :=
  match fuel with
  | O => diverge
  | S fuel' =>
      pte <- walk pagetable a false ;;
      if pte =? 0 then panic "uvmunmap: walk"
      else
        e <- read64 pte ;;
        if negb (has e PTE_V) then panic "uvmunmap: not mapped"
        else if PTE_FLAGS e =? PTE_V then panic "uvmunmap: not a leaf"
        else
          (if do_free then kfree (PTE2PA e) else ret tt) ;;;
          write64 pte 0 ;;;
          if a =? last then ret tt
          else uvmunmap_loop fuel' pagetable (u64 (a + PGSIZE)) last do_free
  end.

Definition uvmunmap (pagetable va size : Z) (do_free : bool) : M kmem unit :=
  let a := PGROUNDDOWN va in
  let last := PGROUNDDOWN (u64 (va + size - 1)) in
  uvmunmap_loop (pages_fuel a last) pagetable a last do_free.

Definition uvmcreate : M kmem Z :=
  pagetable <- kalloc ;;
  if pagetable =? 0 then panic "uvmcreate: out of memory"
  else
    memset_ pagetable 0 PGSIZE ;;;
    ret pagetable.

(** [src] are the bytes of the program, [sz] of them. *)
Definition uvminit (pagetable : Z) (src : list Z) : M kmem unit :=
  if PGSIZE <=? Z.of_nat (length src) then panic "inituvm: more than a page"
  else
    m <- kalloc ;;
    memset_ m 0 PGSIZE ;;;
    mappages pagetable 0 PGSIZE m (Z.lor (Z.lor PTE_W PTE_R) (Z.lor PTE_X PTE_U)) ;;;
    modify (fun s => set_memory (store m src (kmemory s)) s).

(** ** Growing and shrinking *)

Definition uvmdealloc (pagetable oldsz newsz : Z) : M kmem Z :=
  if oldsz <=? newsz then ret oldsz
  else
    uvmunmap pagetable newsz (oldsz - newsz) true ;;;
    ret newsz.

Fixpoint uvmalloc_loop (fuel : nat) (pagetable a oldsz newsz : Z) : M kmem Z :=
  if a <? newsz then
    match fuel with
    | O => diverge
    | S fuel' =>
        m <- kalloc ;;
        if m =? 0 then
          uvmdealloc pagetable a oldsz ;;; ret 0
        else
          memset_ m 0 PGSIZE ;;;
          r <- mappages pagetable a PGSIZE m (Z.lor (Z.lor PTE_W PTE_X) (Z.lor PTE_R PTE_U)) ;;
          if ctrue r then
            kfree m ;;;
            uvmdealloc pagetable a oldsz ;;; ret 0
          else uvmalloc_loop fuel' pagetable (u64 (a + PGSIZE)) oldsz newsz
    end
  else ret newsz.

(** The loop panics in [walk] at [MAXVA] if not before. *)
Definition uvmalloc (pagetable oldsz newsz : Z) : M kmem Z :=
  if newsz <? oldsz then ret oldsz
  else
    let oldsz := PGROUNDUP oldsz in
    uvmalloc_loop (Z.to_nat ((Z.min newsz MAXVA - oldsz) / PGSIZE) + 2) pagetable oldsz oldsz newsz.

(** *** Freeing page tables *)

(** [depth] bounds the recursion: a page table has three levels. *)
Fixpoint freewalk (depth : nat) (pagetable : Z) : M kmem unit :=
  match depth with
  | O => diverge
  | S depth' =>
      for_all (Z.of_nat <$> seq 0 512) (fun i =>
        pte <- read64 (pagetable + 8 * i) ;;
        if has pte PTE_V && negb (has pte (Z.lor PTE_R (Z.lor PTE_W PTE_X))) then
          freewalk depth' (PTE2PA pte) ;;;
          write64 (pagetable + 8 * i) 0
        else if has pte PTE_V then panic "freewalk: leaf"
        else ret tt) ;;;
      kfree pagetable
  end.

Definition uvmfree (pagetable sz : Z) : M kmem unit :=
  uvmunmap pagetable 0 sz true ;;;
  freewalk 3 pagetable.

(** ** Copying an address space *)

Fixpoint uvmcopy_loop (fuel : nat) (old new i sz : Z) : M kmem Z :=
  if i <? sz then
    match fuel with
    | O => diverge
    | S fuel' =>
        pte <- walk old i false ;;
        if pte =? 0 then panic "copyuvm: pte should exist"
        else
          e <- read64 pte ;;
          if negb (has e PTE_V) then panic "copyuvm: page not present"
          else
            let pa := PTE2PA e in
            let flags := PTE_FLAGS e in
            m <- kalloc ;;
            if m =? 0 then uvmunmap new 0 i true ;;; ret (-1)
            else
              modify (fun s => set_memory (memmove m pa (Z.to_nat PGSIZE) (kmemory s)) s) ;;;
              r <- mappages new i PGSIZE m flags ;;
              if ctrue r then
                kfree m ;;;
                uvmunmap new 0 i true ;;; ret (-1)
              else uvmcopy_loop fuel' old new (u64 (i + PGSIZE)) sz
    end
  else ret 0.

Definition uvmcopy (old new sz : Z) : M kmem Z :=
  uvmcopy_loop (Z.to_nat (Z.min sz MAXVA / PGSIZE + 2)) old new 0 sz.

End Unmap.

Definition uvmclear (pagetable va : Z) : M kmem unit :=
  pte <- walk pagetable va false ;;
  if pte =? 0 then panic "uvmclear"
  else
    e <- read64 pte ;;
    write64 pte (Z.land e (u64 (Z.lnot PTE_U))).

(** ** Copying between the kernel and user space *)

(** [va0 = (uint)PGROUNDDOWN(va)]: the page of the address, cut to 32 bits;
    and the number of bytes the code copies from there. *)
Definition page_of (va : Z) : Z := u32 (PGROUNDDOWN va).
Definition span (va len : Z) : Z :=
  let n := u64 (PGSIZE - (va - page_of va)) in if len <? n then len else n.

(** [src] are the bytes still to copy. *)
Fixpoint copyout_loop (fuel : nat) (pagetable dstva : Z) (src : list Z) : M kmem Z :=
  match src with
  | [] => ret 0
  | _ =>
      match fuel with
      | O => diverge
      | S fuel' =>
          let va0 := page_of dstva in
          pa0 <- walkaddr pagetable va0 ;;
          if pa0 =? 0 then ret (-1)
          else
            let n := Z.to_nat (span dstva (Z.of_nat (length src))) in
            modify (fun s => set_memory (store (u64 (pa0 + (dstva - va0))) (take n src) (kmemory s)) s) ;;;
            copyout_loop fuel' pagetable (u64 (va0 + PGSIZE)) (drop n src)
      end
  end.

(** [len] bytes span at most [len / PGSIZE + 2] pages. *)
Definition copy_fuel (len : Z) : nat := Z.to_nat (len / PGSIZE + 2).

Definition copyout (pagetable dstva : Z) (src : list Z) : M kmem Z :=
  copyout_loop (copy_fuel (Z.of_nat (length src))) pagetable dstva src.

(** The bytes copied, and the result: on failure they are fewer than asked. *)
Fixpoint copyin_loop (fuel : nat) (pagetable srcva len : Z) : M kmem (list Z * Z) :=
  if 0 <? len then
    match fuel with
    | O => diverge
    | S fuel' =>
        let va0 := page_of srcva in
        pa0 <- walkaddr pagetable va0 ;;
        if pa0 =? 0 then ret ([], -1)
        else
          let n := span srcva len in
          bs <- get (fun s => read_bytes (kmemory s) (u64 (pa0 + (srcva - va0))) (Z.to_nat n)) ;;
          r <- copyin_loop fuel' pagetable (u64 (va0 + PGSIZE)) (len - n) ;;
          ret (bs ++ fst r, snd r)
    end
  else ret ([], 0).

Definition copyin (pagetable srcva len : Z) : M kmem (list Z * Z) :=
  copyin_loop (copy_fuel len) pagetable srcva len.

(** The inner loop of [copyinstr]: the bytes up to a NUL, and whether there
    was one. *)
Fixpoint str_span (m : mem) (p : Z) (n : nat) : list Z * bool :=
  match n with
  | O => ([], false)
  | S n' =>
      if m p =? 0 then ([0], true)
      else let '(bs, got_null) := str_span m (p + 1) n' in (m p :: bs, got_null)
  end.

Fixpoint copyinstr_loop (fuel : nat) (pagetable srcva max : Z) : M kmem (list Z * Z) :=
  if 0 <? max then
    match fuel with
    | O => diverge
    | S fuel' =>
        let va0 := page_of srcva in
        pa0 <- walkaddr pagetable va0 ;;
        if pa0 =? 0 then ret ([], -1)
        else
          let n := span srcva max in
          x <- get (fun s => str_span (kmemory s) (u64 (pa0 + (srcva - va0))) (Z.to_nat n)) ;;
          if snd x then ret (fst x, 0)
          else
            r <- copyinstr_loop fuel' pagetable (u64 (va0 + PGSIZE)) (max - n) ;;
            ret (fst x ++ fst r, snd r)
    end
  else ret ([], -1).

Definition copyinstr (pagetable srcva max : Z) : M kmem (list Z * Z) :=
  copyinstr_loop (copy_fuel max) pagetable srcva max.

(** ** The kernel's page table *)

(** The value of [kernel_pagetable]. *)
Definition kvminit `{Layout} : M kmem Z :=
  kpt <- kalloc ;;
  memset_ kpt 0 PGSIZE ;;;
  kvmmap kpt UART0 UART0 PGSIZE (Z.lor PTE_R PTE_W) ;;;
  kvmmap kpt (VIRTION 0) (VIRTION 0) PGSIZE (Z.lor PTE_R PTE_W) ;;;
  kvmmap kpt (VIRTION 1) (VIRTION 1) PGSIZE (Z.lor PTE_R PTE_W) ;;;
  kvmmap kpt CLINT CLINT 0x10000 (Z.lor PTE_R PTE_W) ;;;
  kvmmap kpt PLIC PLIC 0x400000 (Z.lor PTE_R PTE_W) ;;;
  kvmmap kpt KERNBASE KERNBASE (etext - KERNBASE) (Z.lor PTE_R PTE_X) ;;;
  kvmmap kpt etext etext (PHYSTOP - etext) (Z.lor PTE_R PTE_W) ;;;
  kvmmap kpt TRAMPOLINE trampoline PGSIZE (Z.lor PTE_R PTE_X) ;;;
  ret kpt.
