(* ===== verification/VmFacts.v ===== *)
(** * Facts about page tables (kernel/vm.c)

    The pages of the page tables form trees; seen from above a page table is
    a map from virtual pages to entries, and [walk], [mappages], [uvmunmap]
    and the copying routines are operations on that map. *)

From Stdlib Require Import ZArith Lia.
From stdpp Require Import base gmap list strings.
From S2P Require Import Prelude CString Kalloc Vm.
Local Open Scope xv6_scope.

(** Reasoning on whole pages goes through lemmas, never by unfolding. *)
#[local] Opaque memset memmove.

(** ** Entries *)

Lemma has_bit e k : 0 <= k -> has e (Z.shiftl 1 k) = Z.testbit e k.
Proof. intros Hk. unfold has, ctrue. rewrite land_bit by done. apply negb_involutive. Qed.

Lemma has_V e : has e PTE_V = Z.testbit e 0.
Proof. change PTE_V with (Z.shiftl 1 0). by apply has_bit. Qed.

Lemma has_V_0 : has 0 PTE_V = false.
Proof. done. Qed.

(** A physical page address, as an entry can hold it. *)
Definition pa_ok (pa : Z) : Prop := pa mod PGSIZE = 0 /\ 0 <= pa < 2 ^ 56.

Lemma PA2PTE_eq pa : pa_ok pa -> PA2PTE pa = Z.shiftl (pa / PGSIZE) 10.
Proof.
  intros [Hm Hr]. unfold PA2PTE. rewrite (Z.shiftr_div_pow2 pa 12) by lia. change (2 ^ 12) with PGSIZE.
  apply u64_small. rewrite Z.shiftl_mul_pow2 by lia. unfold PGSIZE in *. Z.div_mod_to_equations. lia.
Qed.

(** The address of an entry does not depend on its flags. *)
Lemma PTE2PA_make pa f : pa_ok pa -> 0 <= f < 2 ^ 10 -> PTE2PA (Z.lor (PA2PTE pa) f) = pa.
Proof.
  intros Hp Hf. pose proof Hp as [Hm Hr]. unfold PTE2PA. rewrite PA2PTE_eq by done.
  rewrite Z.shiftr_lor, Z.shiftr_shiftl_l, Z.sub_diag, Z.shiftl_0_r by lia.
  rewrite (Z.shiftr_div_pow2 f) by lia. rewrite (Z.div_small f) by lia. rewrite Z.lor_0_r.
  rewrite Z.shiftl_mul_pow2 by lia. change (2 ^ 12) with PGSIZE.
  assert (pa / PGSIZE * PGSIZE = pa) as -> by (unfold PGSIZE in *; Z.div_mod_to_equations; lia).
  apply u64_small. lia.
Qed.

Lemma lor_small a b : 0 <= a < 2 ^ 10 -> 0 <= b < 2 ^ 10 -> 0 <= Z.lor a b < 2 ^ 10.
Proof.
  intros Ha Hb. split; [apply Z.lor_nonneg; lia|].
  destruct (decide (Z.lor a b = 0)) as [->|Hne]; [lia|].
  assert (0 <= Z.lor a b) by (apply Z.lor_nonneg; lia).
  apply Z.log2_lt_pow2; [lia|]. rewrite Z.log2_lor by lia.
  destruct (decide (a = 0)) as [->|], (decide (b = 0)) as [->|]; simpl; try lia;
    repeat match goal with |- context [Z.log2 ?x] => assert (Z.log2 x < 10) by (apply Z.log2_lt_pow2; lia); generalize dependent (Z.log2 x) end; lia.
Qed.

Lemma make_valid pa f : has (Z.lor (Z.lor (PA2PTE pa) f) PTE_V) PTE_V = true.
Proof. rewrite has_V, Z.lor_spec. apply orb_true_r. Qed.

Lemma make_range pa f : pa_ok pa -> 0 <= f < 2 ^ 10 -> 0 <= Z.lor (PA2PTE pa) f < 2 ^ 64.
Proof.
  intros Hp Hf. pose proof Hp as [Hm Hr]. rewrite PA2PTE_eq by done.
  assert (0 <= pa / PGSIZE < 2 ^ 44) as Hq by (unfold PGSIZE in *; Z.div_mod_to_equations; lia).
  assert (Z.lor (Z.shiftl (pa / PGSIZE) 10) f = Z.shiftl (pa / PGSIZE) 10 + f) as ->.
  { symmetry. rewrite <- Z.lxor_lor; [apply Z.add_nocarry_lxor|].
    all: apply Z.bits_inj'; intros n Hn; rewrite Z.land_spec, Z.testbit_0_l; destruct (decide (n < 10));
      [rewrite Z.shiftl_spec_low by lia; done|];
      rewrite <- (Z.mod_small f (2 ^ 10)), Z.mod_pow2_bits_high by lia; apply andb_false_r. }
  rewrite Z.shiftl_mul_pow2 by lia. lia.
Qed.

(** ** Virtual addresses *)

Lemma PX_eq level va : 0 <= va -> PX level va = (va / 2 ^ (12 + 9 * Z.of_nat level)) mod 512.
Proof.
  intros Hv. unfold PX. rewrite Z.shiftr_div_pow2 by lia. change 0x1FF with (Z.ones 9).
  rewrite Z.land_ones by lia. done.
Qed.

Lemma PX_range level va : 0 <= va -> 0 <= PX level va < 512.
Proof. intros Hv. rewrite PX_eq by done. apply Z.mod_pos_bound. lia. Qed.

(** The three indices determine the page. *)
Lemma PX_page va va' : 0 <= va < MAXVA -> 0 <= va' < MAXVA ->
  (forall i, (i <= 2)%nat -> PX i va = PX i va') -> va / PGSIZE = va' / PGSIZE.
Proof.
  intros Hv Hv' Hi. pose proof (Hi 0%nat ltac:(lia)) as H0. pose proof (Hi 1%nat ltac:(lia)) as H1.
  pose proof (Hi 2%nat ltac:(lia)) as H2. rewrite !PX_eq in H0, H1, H2 by lia.
  change (12 + 9 * Z.of_nat 0) with 12 in H0. change (12 + 9 * Z.of_nat 1) with 21 in H1.
  change (12 + 9 * Z.of_nat 2) with 30 in H2. change MAXVA with (2 ^ 38) in *. unfold PGSIZE.
  Z.div_mod_to_equations. lia.
Qed.

Lemma PX_same va va' i : 0 <= va -> 0 <= va' -> va / PGSIZE = va' / PGSIZE -> PX i va = PX i va'.
Proof.
  intros Hv Hv' E. rewrite !PX_eq by done. replace (2 ^ (12 + 9 * Z.of_nat i)) with (PGSIZE * 2 ^ (9 * Z.of_nat i))
    by (rewrite Z.pow_add_r by lia; done).
  rewrite <- !Z.div_div by (done || apply Z.pow_pos_nonneg; lia). by rewrite E.
Qed.

(** ** The trees of page-table pages *)

(** The entry [i] of the page at [p]. *)
Definition pte_at (m : mem) (p i : Z) : Z := load64 m (p + 8 * i).

(** [T] gives the pages that are page-table pages, with their level.  Entries
    above level 0 lead one level down, and no page is reached twice. *)
Record pt_ok `{Layout} (m : mem) (T : gmap Z nat) : Prop := {
  pt_page : forall p k, T !! p = Some k -> page_ok p;
  pt_child : forall p k i, T !! p = Some (S k) -> 0 <= i < 512 -> has (pte_at m p i) PTE_V = true ->
    T !! PTE2PA (pte_at m p i) = Some k;
  pt_inj : forall p q k k' i j, T !! p = Some (S k) -> T !! q = Some (S k') -> 0 <= i < 512 -> 0 <= j < 512 ->
    has (pte_at m p i) PTE_V = true -> has (pte_at m q j) PTE_V = true ->
    PTE2PA (pte_at m p i) = PTE2PA (pte_at m q j) -> p = q /\ i = j }.

(** What [walk] finds without allocating. *)
Fixpoint descend (m : mem) (level : nat) (p va : Z) : option Z :=
  match level with
  | O => Some (p + 8 * PX 0 va)
  | S level' =>
      let e := pte_at m p (PX level va) in
      if has e PTE_V then descend m level' (PTE2PA e) va else None
  end.

Lemma walk_level_false k p va s :
  walk_level k p va false s = Ok (default 0 (descend (kmemory s) k p va)) s [].
Proof.
  revert p. induction k as [|k IH]; intros p; [done|]. cbn [walk_level descend]. cbv zeta.
  unfold bind at 1, read64, get. fold (pte_at (kmemory s) p (PX (S k) va)).
  destruct (has _ _); [by rewrite IH|done].
Qed.

Section Tables.
Context `{LK : LayoutOk} (m : mem) (T : gmap Z nat) (Hok : pt_ok m T).

Lemma descend_leaf k p va a : T !! p = Some k -> 0 <= va -> descend m k p va = Some a ->
  exists q, T !! q = Some 0%nat /\ a = q + 8 * PX 0 va.
Proof.
  revert p. induction k as [|k IH]; intros p Hp Hv Hd; cbn [descend] in Hd.
  - simplify_eq. by exists p.
  - cbv zeta in Hd. destruct (has _ _) eqn:E; [|done]. eapply IH; [|done|exact Hd].
    eapply pt_child; [done|done|by apply PX_range|done].
Qed.

Lemma table_pos p k i : T !! p = Some k -> 0 <= i < 512 -> 0 < p + 8 * i /\ in_page p (p + 8 * i).
Proof.
  intros Hp Hi. pose proof (page_pos p (pt_page _ _ Hok _ _ Hp)). unfold in_page, PGSIZE. lia.
Qed.

(** Two walks that end at the same entry start at the same page and take the
    same turns. *)
Lemma descend_inj k p q va va' a :
  T !! p = Some k -> T !! q = Some k -> 0 <= va -> 0 <= va' ->
  descend m k p va = Some a -> descend m k q va' = Some a ->
  p = q /\ forall i, (i <= k)%nat -> PX i va = PX i va'.
Proof.
  revert p q. induction k as [|k IH]; intros p q Hp Hq Hv Hv' Hd Hd'; cbn [descend] in Hd, Hd'; cbv zeta in *.
  - simplify_eq. pose proof (PX_range 0 va Hv) as R1. pose proof (PX_range 0 va' Hv') as R2.
    destruct (pt_page _ _ Hok _ _ Hp) as [A1 _]. destruct (pt_page _ _ Hok _ _ Hq) as [A2 _].
    assert (p = q) as ->. { apply (pages_disjoint p q (p + 8 * PX 0 va)); [done|done| |]; unfold in_page, PGSIZE; lia. }
    split; [done|]. intros i Hi. replace i with 0%nat by lia. lia.
  - destruct (has (pte_at m p _) _) eqn:E1; [|done]. destruct (has (pte_at m q _) _) eqn:E2; [|done].
    pose proof (PX_range (S k) va Hv) as R1. pose proof (PX_range (S k) va' Hv') as R2.
    destruct (IH _ _ (pt_child _ _ Hok _ _ _ Hp R1 E1) (pt_child _ _ Hok _ _ _ Hq R2 E2) Hv Hv' Hd Hd') as [Ec Hi].
    destruct (pt_inj _ _ Hok _ _ _ _ _ _ Hp Hq R1 R2 E1 E2 Ec) as [-> EP].
    split; [done|]. intros i Hle. destruct (decide (i = S k)) as [->|]; [done|apply Hi; lia].
Qed.

(** Memory outside the pages above level 0 does not matter. *)
Lemma pt_frame m' :
  (forall p k x, T !! p = Some (S k) -> in_page p x -> m' x = m x) ->
  pt_ok m' T /\ forall k p va, T !! p = Some k -> 0 <= va -> descend m' k p va = descend m k p va.
Proof.
  intros Hm. assert (forall p k i, T !! p = Some (S k) -> 0 <= i < 512 -> pte_at m' p i = pte_at m p i) as He.
  { intros p k i Hp Hi. apply load64_ext. intros x Hx. eapply Hm; [done|]. unfold in_page, PGSIZE. lia. }
  split.
  - constructor; [apply Hok| |].
    + intros p k i Hp Hi. rewrite (He p k) by done. by apply Hok.
    + intros p q k k' i j Hp Hq Hi Hj. rewrite (He p k), (He q k') by done. by eapply Hok.
  - intros k. induction k as [|k IH]; intros p va Hp Hv; [done|]. cbn [descend]. cbv zeta.
    pose proof (PX_range (S k) va Hv) as HR. rewrite (He p k) by done.
    destruct (has _ _) eqn:E; [|done]. apply IH; [by eapply pt_child|done].
Qed.

End Tables.

(** ** Adding a page to a tree *)

Section Grow.
Context `{LK : LayoutOk} (m : mem) (T : gmap Z nat) (Hok : pt_ok m T).
Context (p : Z) (k : nat) (i q : Z) (Hp : T !! p = Some (S k)) (Hi : 0 <= i < 512).
Context (Hinv : has (pte_at m p i) PTE_V = false) (Hq : page_ok q) (Hqn : T !! q = None).

(** The memory after [walk] has linked the zeroed page [q] at entry [i] of [p]. *)
Context (m' : mem) (Hzero : forall x, in_page q x -> m' x = 0) (Hlink : pte_at m' p i = Z.lor (PA2PTE q) PTE_V).
Context (Hsame : forall x, ~ in_page q x -> ~ p + 8 * i <= x < p + 8 * i + 8 -> m' x = m x).

Lemma page_pa_ok pa : page_ok pa -> pa_ok pa.
Proof. intros Hpa. pose proof (page_pos pa Hpa). destruct Hpa as [Hm Hr]. split; [done|]. unfold PHYSTOP, KERNBASE in Hr. lia. Qed.

Lemma linked : has (pte_at m' p i) PTE_V = true /\ PTE2PA (pte_at m' p i) = q.
Proof.
  rewrite Hlink. split; [rewrite has_V, Z.lor_spec; apply orb_true_r|].
  apply PTE2PA_make; [by apply page_pa_ok|unfold PTE_V; lia].
Qed.

Lemma fresh_entry j : 0 <= j < 512 -> pte_at m' q j = 0.
Proof.
  intros Hj. unfold pte_at. transitivity (load64 (fun _ => 0) (q + 8 * j)); [|done].
  apply load64_ext. intros x Hx. apply Hzero. unfold in_page, PGSIZE. lia.
Qed.

Lemma old_entry r k' j : T !! r = Some k' -> 0 <= j < 512 -> (r, j) <> (p, i) -> pte_at m' r j = pte_at m r j.
Proof.
  intros Hr Hj Hne. apply load64_ext. intros x Hx. pose proof (pt_page _ _ Hok _ _ Hr) as [Ar _].
  pose proof (pt_page _ _ Hok _ _ Hp) as [Ap _].
  assert (in_page r x) as Hxr by (unfold in_page, PGSIZE; lia). apply Hsame.
  - intros Hxq. assert (r = q) as -> by (by apply (pages_disjoint r q x); [|apply Hq| |]). by rewrite Hqn in Hr.
  - intros Hx'. assert (r = p) as ->; [|apply Hne; f_equal; lia].
    apply (pages_disjoint r p x); [done|done|done|unfold in_page, PGSIZE; lia].
Qed.

Lemma pt_grow : pt_ok m' (<[q := k]> T).
Proof.
  pose proof linked as [L1 L2].
  assert (forall r k' j, <[q := k]> T !! r = Some (S k') -> 0 <= j < 512 -> has (pte_at m' r j) PTE_V = true ->
    (r = p /\ j = i /\ k' = k) \/ (T !! r = Some (S k') /\ (r, j) <> (p, i) /\ pte_at m' r j = pte_at m r j)) as Hcase.
  { intros r k' j Hr Hj Hv. destruct (decide (r = q)) as [->|Hne].
    - by rewrite fresh_entry in Hv.
    - rewrite lookup_insert_ne in Hr by done. destruct (decide ((r, j) = (p, i))) as [[= -> ->]|Hne'].
      + left. rewrite Hp in Hr. naive_solver.
      + right. split; [done|]. split; [done|]. by eapply old_entry. }
  assert (forall r k' j, T !! r = Some (S k') -> 0 <= j < 512 -> has (pte_at m r j) PTE_V = true -> PTE2PA (pte_at m r j) <> q) as Hnq.
  { intros r k' j Hr Hj Hv E. pose proof (pt_child _ _ Hok _ _ _ Hr Hj Hv) as Hc. rewrite E in Hc. congruence. }
  constructor.
  - intros r k' Hr. destruct (decide (r = q)) as [->|]; [done|]. rewrite lookup_insert_ne in Hr by done. by eapply Hok.
  - intros r k' j Hr Hj Hv. destruct (Hcase r k' j Hr Hj Hv) as [(-> & -> & ->)|(Hr' & _ & E)].
    + rewrite L2. apply lookup_insert_eq.
    + rewrite E in *. rewrite lookup_insert_ne by (intros E'; by eapply (Hnq r k' j)). by apply Hok.
  - intros r r' k1 k2 j j' Hr Hr' Hj Hj' Hv Hv' E.
    destruct (Hcase _ _ _ Hr Hj Hv) as [(-> & -> & _)|(H1 & _ & E1)], (Hcase _ _ _ Hr' Hj' Hv') as [(-> & -> & _)|(H2 & _ & E2)].
    + done.
    + exfalso. rewrite L2, E2 in E. eapply Hnq; [exact H2|exact Hj'|by rewrite <- E2|done].
    + exfalso. rewrite L2, E1 in E. eapply Hnq; [exact H1|exact Hj|by rewrite <- E1|done].
    + rewrite E1, E2 in *. by eapply Hok.
Qed.

(** Walks that succeeded still do, and end at the same entry. *)
Lemma descend_grow k' r va a : T !! r = Some k' -> 0 <= va -> descend m k' r va = Some a -> descend m' k' r va = Some a.
Proof.
  revert r. induction k' as [|k' IH]; intros r Hr Hv; cbn [descend]; cbv zeta; [done|].
  pose proof (PX_range (S k') va Hv) as HR. destruct (has (pte_at m r _) _) eqn:E; [|done]. intros Hd.
  rewrite (old_entry r (S k') (PX (S k') va) Hr HR), E; [apply IH; [by eapply pt_child|done|done]|].
  intros [= -> Ei]. rewrite Ei in E. congruence.
Qed.

End Grow.

(** ** Walks that allocate *)

(** The page tables [T] and the free pages [l]. *)
Record vm_ok `{Layout} (s : kmem) (T : gmap Z nat) (l : list Z) : Prop := {
  vo_free : kinv s l;
  vo_tables : pt_ok (kmemory s) T;
  vo_disjoint : forall p, p ∈ l -> T !! p = None }.

(** What allocating page-table pages changes: valid entries stay, old level-0
    pages keep their contents, new ones are empty, and nothing else changes. *)
Record grows (m m' : mem) (T T' : gmap Z nat) (l l' : list Z) : Prop := {
  gr_sub : T ⊆ T';
  gr_free : forall p, p ∈ l' -> p ∈ l;
  gr_new : forall p k, T' !! p = Some k -> T !! p = None -> p ∈ l;
  gr_entry : forall p k i, T !! p = Some (S k) -> 0 <= i < 512 -> has (pte_at m p i) PTE_V = true ->
    pte_at m' p i = pte_at m p i;
  gr_leaf : forall p x, T !! p = Some 0%nat -> in_page p x -> m' x = m x;
  gr_zero : forall p j, T' !! p = Some 0%nat -> T !! p = None -> 0 <= j < 512 -> pte_at m' p j = 0;
  gr_fresh : forall k p va a, T !! p = Some k -> 0 <= va -> descend m k p va = None -> descend m' k p va = Some a ->
    exists q, T !! q = None /\ T' !! q = Some 0%nat /\ a = q + 8 * PX 0 va;
  gr_mem : forall x, (forall p k, T' !! p = Some k -> ~ in_page p x) -> m' x = m x }.

Lemma grows_refl m T l : grows m m T T l l.
Proof. constructor; try done; intros; congruence. Qed.

Section Walk.
Context `{LK : LayoutOk}.

Lemma gr_walk m m' T T' l l' k p va a : pt_ok m T -> grows m m' T T' l l' ->
  T !! p = Some k -> 0 <= va -> descend m k p va = Some a -> descend m' k p va = Some a.
Proof.
  intros Hok Hg. revert p. induction k as [|k IH]; intros p Hp Hv; cbn [descend]; cbv zeta; [done|].
  pose proof (PX_range (S k) va Hv) as HR. destruct (has (pte_at m p _) _) eqn:E; [|done]. intros Hd.
  rewrite (gr_entry _ _ _ _ _ _ Hg p k) by done. rewrite E. apply IH; [by eapply pt_child|done|done].
Qed.

Lemma grows_trans m m1 m2 T T1 T2 l l1 l2 :
  pt_ok m T -> pt_ok m1 T1 -> grows m m1 T T1 l l1 -> grows m1 m2 T1 T2 l1 l2 -> grows m m2 T T2 l l2.
Proof.
  intros Hok Hok1 G1 G2. pose proof (gr_sub _ _ _ _ _ _ G1) as S1. pose proof (gr_sub _ _ _ _ _ _ G2) as S2.
  assert (forall p, T1 !! p = None -> T !! p = None) as Hn.
  { intros p H. destruct (T !! p) eqn:E; [|done]. eapply lookup_weaken in E; [|exact S1]. congruence. }
  constructor.
  - by etransitivity.
  - intros p Hp. by apply G1, G2.
  - intros p k H2 H0. destruct (T1 !! p) eqn:E; [by eapply (gr_new _ _ _ _ _ _ G1)|].
    by eapply (gr_free _ _ _ _ _ _ G1), (gr_new _ _ _ _ _ _ G2).
  - intros p k i Hp Hi Hv. pose proof (gr_entry _ _ _ _ _ _ G1 p k i Hp Hi Hv) as E1. rewrite <- E1.
    apply (gr_entry _ _ _ _ _ _ G2 p k i); [by eapply lookup_weaken|done|by rewrite E1].
  - intros p x Hp Hx. rewrite (gr_leaf _ _ _ _ _ _ G2 p) by (done || by eapply lookup_weaken). by eapply G1.
  - intros p j H2 H0 Hj. destruct (T1 !! p) as [k|] eqn:E.
    + pose proof (lookup_weaken _ _ _ _ E S2). assert (k = 0%nat) as -> by congruence.
      rewrite <- (gr_zero _ _ _ _ _ _ G1 p j E H0 Hj). apply load64_ext. intros x Hx. eapply gr_leaf; [exact G2|exact E|].
      unfold in_page, PGSIZE. lia.
    + by eapply G2.
  - intros k p va a Hp Hv H0 Hd. destruct (descend m1 k p va) as [a'|] eqn:E.
    + destruct (gr_fresh _ _ _ _ _ _ G1 k p va a' Hp Hv H0 E) as (q & Q1 & Q2 & Q3).
      pose proof (gr_walk _ _ _ _ _ _ k p va a' Hok1 G2 ltac:(by eapply lookup_weaken) Hv E) as Hd'.
      exists q. split; [done|]. split; [by eapply lookup_weaken|congruence].
    + destruct (gr_fresh _ _ _ _ _ _ G2 k p va a ltac:(by eapply lookup_weaken) Hv E Hd) as (q & Q1 & Q2 & Q3).
      exists q. auto.
  - intros x Hx. rewrite (gr_mem _ _ _ _ _ _ G2) by done. apply (gr_mem _ _ _ _ _ _ G1).
    intros p k Hp. eapply Hx. by eapply lookup_weaken.
Qed.

(** Linking one new page. *)
Lemma grows_link m T l q l' p k i m' :
  pt_ok m T -> T !! p = Some (S k) -> 0 <= i < 512 -> has (pte_at m p i) PTE_V = false -> page_ok q -> T !! q = None ->
  (forall x, in_page q x -> m' x = 0) -> pte_at m' p i = Z.lor (PA2PTE q) PTE_V ->
  (forall x, ~ in_page q x -> ~ p + 8 * i <= x < p + 8 * i + 8 -> m' x = m x) ->
  l = q :: l' -> grows m m' T (<[q := k]> T) l l'.
Proof.
  intros Hok Hp Hi Hinv Hq Hqn Hz Hl Hs ->.
  pose proof (old_entry m T Hok p k i q Hp Hi Hq Hqn m' Hs) as Hold.
  pose proof (fresh_entry q m' Hz) as Hfresh. pose proof (linked p i q Hq m' Hl) as [L1 L2]. constructor.
  - by apply insert_subseteq.
  - intros r Hr. by right.
  - intros r k' Hr Hn. destruct (decide (r = q)) as [->|Hne]; [by left|]. rewrite lookup_insert_ne in Hr by done. congruence.
  - intros r k' j Hr Hj Hv. eapply Hold; [done|done|]. intros [= -> ->]. congruence.
  - intros r x Hr Hx. destruct (pt_page _ _ Hok _ _ Hr) as [Ar _]. destruct (pt_page _ _ Hok _ _ Hp) as [Ap _]. apply Hs.
    + intros Hx'. assert (r = q) as -> by (by apply (pages_disjoint r q x); [|apply Hq| |]). congruence.
    + intros Hx'. assert (r = p) as -> by (apply (pages_disjoint r p x); [done|done|done|unfold in_page, PGSIZE; lia]). congruence.
  - intros r j Hr Hn Hj. destruct (decide (r = q)) as [->|Hne]; [by apply Hfresh|]. rewrite lookup_insert_ne in Hr by done. congruence.
  - intros k'. induction k' as [|k' IH]; intros r va a Hr Hv; cbn [descend]; cbv zeta; [done|].
    pose proof (PX_range (S k') va Hv) as HR. destruct (decide ((r, PX (S k') va) = (p, i))) as [[= -> Ei]|Hne].
    + rewrite Ei, L1, L2. intros _ Hd. exists q. rewrite lookup_insert_eq. assert (k' = k) as -> by congruence.
      destruct k as [|k]; cbn [descend] in Hd; [by simplify_eq|]. cbv zeta in Hd.
      by rewrite Hfresh in Hd by (by apply PX_range).
    + rewrite (Hold r (S k')) by done. destruct (has (pte_at m r _) _) eqn:E; [|done].
      apply IH; [by eapply pt_child|done].
  - intros x Hx. apply Hs; [eapply Hx, lookup_insert_eq|]. intros Hx'.
    apply (Hx p (S k)); [|unfold in_page, PGSIZE; lia]. rewrite lookup_insert_ne; [done|]. congruence.
Qed.

(** The page [q], just allocated, zeroed and linked at entry [i] of [p]. *)
Lemma vm_link s s1 T q l p k i :
  vm_ok s T (q :: l) -> T !! p = Some (S k) -> 0 <= i < 512 -> has (pte_at (kmemory s) p i) PTE_V = false ->
  kinv s1 l -> (forall x, ~ in_page q x -> kmemory s1 x = kmemory s x) ->
  let s2 := set_memory (store64 (p + 8 * i) (Z.lor (PA2PTE q) PTE_V) (memset q 0 (Z.to_nat PGSIZE) (kmemory s1))) s1 in
  vm_ok s2 (<[q := k]> T) l /\ grows (kmemory s) (kmemory s2) T (<[q := k]> T) (q :: l) l /\
  has (pte_at (kmemory s2) p i) PTE_V = true /\ PTE2PA (pte_at (kmemory s2) p i) = q.
Proof.
  intros [HK HT HD] Hp Hi E K1 E1 s2. pose proof (ki_pages _ _ HK) as Hpg. apply Forall_cons in Hpg as [Hq Hpg].
  assert (T !! q = None) as Hqn by (apply HD; by left).
  pose proof (ki_nodup _ _ HK) as Hnd. apply list.NoDup_cons in Hnd as [Hni Hnd]. destruct (pt_page _ _ HT _ _ Hp) as [Ap _].
  assert (forall x, p + 8 * i <= x < p + 8 * i + 8 -> in_page p x) as Hx8 by (unfold in_page, PGSIZE; lia).
  assert (forall x, in_page q x -> kmemory s2 x = 0) as Hz.
  { intros x Hx. cbn [s2 kmemory set_memory]. rewrite store64_other; [by apply memset_in|]. intros Hx'.
    pose proof (pages_disjoint p q x Ap (proj1 Hq) (Hx8 x Hx') Hx). congruence. }
  assert (pte_at (kmemory s2) p i = Z.lor (PA2PTE q) PTE_V) as Hl.
  { cbn [s2 kmemory set_memory]. apply load_store64, make_range; [by apply page_pa_ok|unfold PTE_V; lia]. }
  assert (forall x, ~ in_page q x -> ~ p + 8 * i <= x < p + 8 * i + 8 -> kmemory s2 x = kmemory s x) as Hs.
  { intros x H1 H2. cbn [s2 kmemory set_memory]. rewrite store64_other by done. rewrite memset_other, E1; done. }
  assert (kinv s2 l) as K2.
  { eapply kinv_ext; [exact K1|reflexivity|by apply store64_ok, memset_ok, (ki_mem _ _ K1)|]. intros r x Hr Hx.
    rewrite Forall_forall in Hpg. destruct (Hpg r Hr) as [Ar _].
    assert (~ in_page q x) as Hxq.
    { intros Hx'. rewrite (pages_disjoint r q x Ar (proj1 Hq) Hx Hx') in Hr. exact (Hni Hr). }
    rewrite Hs, E1; [done|done|done|]. intros Hx'. rewrite (pages_disjoint r p x Ar Ap Hx (Hx8 x Hx')) in Hr.
    pose proof (HD p ltac:(by right)). congruence. }
  clearbody s2. split_and!.
  - constructor; [done|by eapply (pt_grow (kmemory s) T HT p k i q)|].
    intros r Hr. rewrite lookup_insert_ne; [apply HD; by right|]. by intros ->.
  - by eapply grows_link.
  - by eapply linked.
  - by eapply linked.
Qed.

Definition walked (s s' : kmem) (T : gmap Z nat) (l : list Z) (k : nat) (p va a : Z) (T' : gmap Z nat) (l' : list Z) : Prop :=
  vm_ok s' T' l' /\ grows (kmemory s) (kmemory s') T T' l l' /\
  ((a = 0 /\ l' = [] /\ descend (kmemory s) k p va = None) \/ descend (kmemory s') k p va = Some a).

Lemma walk_level_alloc k p va s T l :
  vm_ok s T l -> T !! p = Some k -> 0 <= va ->
  wp (walk_level k p va true) s (fun a s' t => t = [] /\ exists T' l', walked s s' T l k p va a T' l').
Proof.
  revert p s T l. induction k as [|k IH]; intros p s T l V Hp Hv; cbn [walk_level].
  { apply wp_ret. split; [done|]. exists T, l. split; [done|]. split; [apply grows_refl|by right]. }
  cbv zeta. pose proof (PX_range (S k) va Hv) as HR. set (i := PX (S k) va) in *.
  apply wp_bind, wp_get. fold (pte_at (kmemory s) p i). pose proof V as [HK HT HD].
  destruct (has (pte_at (kmemory s) p i) PTE_V) eqn:E.
  - eapply wp_mono; [apply (IH _ s T l V); [by eapply pt_child|done]|]. cbv beta.
    intros a s' t (-> & T' & l' & V' & G & Ha). split; [done|]. exists T', l'. split; [done|]. split; [done|].
    cbn [descend]. cbv zeta. fold i. rewrite (gr_entry _ _ _ _ _ _ G p k) by done. by rewrite E.
  - cbn [negb]. apply wp_bind. eapply kalloc_spec; [exact HK|]. destruct l as [|q l].
    { apply wp_ret. split; [done|]. exists T, []. split; [done|]. split; [apply grows_refl|left].
      split; [done|]. split; [done|]. cbn [descend]. cbv zeta. fold i. by rewrite E. }
    intros s1 K1 _ E1. pose proof (ki_pages _ _ HK) as Hpg. apply Forall_cons in Hpg as [Hq _].
    pose proof (page_pos q Hq). rewrite (proj2 (Z.eqb_neq q 0)) by lia.
    apply wp_bind, wp_modify, wp_bind, wp_modify. destruct (vm_link s s1 T q l p k i) as (V2 & G2 & L1 & L2); [done..|].
    assert (<[q := k]> T !! p = Some (S k)) as Hp' by (eapply lookup_weaken; [exact Hp|apply (gr_sub _ _ _ _ _ _ G2)]).
    eapply wp_mono; [apply (IH q _ _ l V2); [apply lookup_insert_eq|done]|]. cbv beta.
    intros a s' t (-> & T' & l' & V' & G & Ha). split; [done|]. exists T', l'. split; [done|].
    split; [by eapply grows_trans; [exact HT|apply V2|exact G2|exact G]|]. cbn [descend]. cbv zeta. fold i. rewrite E.
    rewrite (gr_entry _ _ _ _ _ _ G p k i) by done.
    rewrite L1, L2. destruct Ha as [(-> & -> & _)|Ha]; [by left|by right].
Qed.

End Walk.

(** ** A page table as a map *)

(** The entry of [va], 0 when there is none. *)
Definition entry_of (m : mem) (pt va : Z) : Z :=
  match descend m 2 pt va with Some a => load64 m a | None => 0 end.

(** [va] in the same page as [va'], seen through the same page table. *)
Definition same_slot (pt va pt' va' : Z) : bool := (pt =? pt') && (va / PGSIZE =? va' / PGSIZE).

Section Map.
Context `{LK : LayoutOk}.

Lemma descend_same m k p va va' : 0 <= va -> 0 <= va' -> va / PGSIZE = va' / PGSIZE -> descend m k p va = descend m k p va'.
Proof.
  intros Hv Hv' E. revert p. induction k as [|k IH]; intros p; cbn [descend]; cbv zeta; rewrite !(PX_same va va') by done; [done|].
  destruct (has _ _); [apply IH|done].
Qed.

Lemma descend_pos m T k p va a : pt_ok m T -> T !! p = Some k -> 0 <= va -> descend m k p va = Some a -> 0 < a.
Proof.
  intros Hok Hp Hv Hd. destruct (descend_leaf m T Hok _ _ _ _ Hp Hv Hd) as (q & Hq & ->).
  eapply (table_pos m T Hok q); [done|by apply PX_range].
Qed.

(** Allocating page-table pages does not change the map. *)
Lemma grows_entry m m' T T' l l' pt va :
  pt_ok m T -> grows m m' T T' l l' -> T !! pt = Some 2%nat -> 0 <= va -> entry_of m' pt va = entry_of m pt va.
Proof.
  intros Hok G Hp Hv. unfold entry_of. destruct (descend m 2 pt va) as [a|] eqn:E.
  - rewrite (gr_walk _ _ _ _ _ _ _ _ _ _ Hok G Hp Hv E).
    destruct (descend_leaf m T Hok _ _ _ _ Hp Hv E) as (q & Hq & ->).
    apply load64_ext. intros x Hx. eapply gr_leaf; [exact G|exact Hq|].
    pose proof (PX_range 0 va Hv). unfold in_page, PGSIZE. lia.
  - destruct (descend m' 2 pt va) as [a|] eqn:E'; [|done].
    destruct (gr_fresh _ _ _ _ _ _ G _ _ _ _ Hp Hv E E') as (q & Q1 & Q2 & ->).
    apply (gr_zero _ _ _ _ _ _ G q); [done|done|by apply PX_range].
Qed.

(** Different entries of page-table pages do not overlap. *)
Lemma load_store64_other_entry m q q' i j a b v :
  q mod PGSIZE = 0 -> q' mod PGSIZE = 0 -> 0 <= i < 512 -> 0 <= j < 512 ->
  a = q + 8 * i -> b = q' + 8 * j -> b <> a -> load64 (store64 a v m) b = load64 m b.
Proof.
  intros Hq Hq' Hi Hj -> -> Hne. apply load_store64_ne. unfold PGSIZE in *. Z.div_mod_to_equations. lia.
Qed.

(** Storing an entry changes the map at one page. *)
Lemma entry_store s T l pt va a v :
  vm_ok s T l -> T !! pt = Some 2%nat -> 0 <= va < MAXVA -> descend (kmemory s) 2 pt va = Some a -> 0 <= v < 2 ^ 64 ->
  let s' := set_memory (store64 a v (kmemory s)) s in
  vm_ok s' T l /\
  (forall pt' va', T !! pt' = Some 2%nat -> 0 <= va' < MAXVA ->
     entry_of (kmemory s') pt' va' = if same_slot pt va pt' va' then v else entry_of (kmemory s) pt' va') /\
  (forall x, (forall p k, T !! p = Some k -> ~ in_page p x) -> kmemory s' x = kmemory s x).
Proof.
  intros [HK HT HD] Hp Hv Hd Hr s'. set (m := kmemory s) in *. destruct (descend_leaf m T HT _ _ _ _ Hp (proj1 Hv) Hd) as (q & Hq & Ea).
  pose proof (PX_range 0 va ltac:(lia)) as HR. pose proof (pt_page _ _ HT _ _ Hq) as [Aq _].
  assert (forall x, ~ in_page q x -> kmemory s' x = m x) as Hout.
  { intros x Hx. apply store64_other. unfold in_page, PGSIZE in Hx. lia. }
  assert (forall p k x, T !! p = Some k -> p <> q -> in_page p x -> ~ in_page q x) as Hne.
  { intros p k x Hpk Hnq Hx Hx'. apply Hnq, (pages_disjoint p q x); [apply (pt_page _ _ HT _ _ Hpk)|done|done|done]. }
  destruct (pt_frame m T HT (kmemory s')) as [HT' Hd'].
  { intros p k x Hpk Hx. apply Hout. eapply Hne; [exact Hpk| |done]. congruence. }
  split; [|split].
  - constructor; [|done|done]. eapply kinv_ext; [exact HK|done|by apply store64_ok, (ki_mem _ _ HK)|].
    intros r x Hrl Hx. symmetry. apply Hout. intros Hx'. pose proof (ki_pages _ _ HK) as Hpg. rewrite Forall_forall in Hpg.
    rewrite (pages_disjoint r q x (proj1 (Hpg r Hrl)) Aq Hx Hx') in Hrl. pose proof (HD q Hrl). congruence.
  - intros pt' va' Hp' Hv'. unfold entry_of. rewrite Hd' by (done || lia). unfold same_slot.
    destruct (descend m 2 pt' va') as [a'|] eqn:Hda.
    + destruct (decide (a' = a)) as [->|Hna].
      * destruct (descend_inj m T HT _ _ _ _ _ _ Hp Hp' (proj1 Hv) (proj1 Hv') Hd Hda) as [-> HPX].
        rewrite (PX_page va va'), !Z.eqb_refl by done. cbn [andb]. by apply load_store64.
      * assert ((pt =? pt') && (va / PGSIZE =? va' / PGSIZE) = false) as ->.
        { apply not_true_is_false. rewrite andb_true_iff, !Z.eqb_eq. intros [<- E].
          rewrite (descend_same m 2 pt va va') in Hd by (done || lia). congruence. }
        destruct (descend_leaf m T HT _ _ _ _ Hp' (proj1 Hv') Hda) as (q' & Hq' & Ea').
        apply (load_store64_other_entry m q q' (PX 0 va) (PX 0 va')); try done; [|by apply PX_range; lia].
        by apply (pt_page _ _ HT _ _ Hq').
    + destruct (Z.eqb_spec pt pt') as [->|]; cbn [andb]; [|done].
      destruct (Z.eqb_spec (va / PGSIZE) (va' / PGSIZE)) as [E|]; [|done].
      rewrite (descend_same m 2 pt' va va') in Hd by (done || lia). congruence.
  - intros x Hx. apply Hout. by eapply Hx.
Qed.

(** ** mappages *)

Definition make_pte (pa perm : Z) : Z := Z.lor (Z.lor (PA2PTE pa) perm) PTE_V.

(** The map [f] with [k] pages from [a] on mapped to those from [pa] on. *)
Definition mapped_to (pt a k pa perm : Z) (f : Z -> Z -> Z) (pt' va : Z) : Z :=
  if (pt =? pt') && ((a <=? va) && (va <? a + k * PGSIZE)) then make_pte (pa + (va - a) / PGSIZE * PGSIZE) perm
  else f pt' va.

(** The page tables after an operation: page-table pages may have been added
    from the free list, and no other memory has changed. *)
Definition extends (s s' : kmem) (T T' : gmap Z nat) (l l' : list Z) : Prop :=
  vm_ok s' T' l' /\ T ⊆ T' /\ (forall p, p ∈ l' -> p ∈ l) /\
  (forall p k, T' !! p = Some k -> T !! p = None -> p ∈ l) /\
  (forall x, (forall p k, T' !! p = Some k -> ~ in_page p x) -> kmemory s' x = kmemory s x).

Lemma extends_trans s s1 s2 T T1 T2 l l1 l2 :
  extends s s1 T T1 l l1 -> extends s1 s2 T1 T2 l1 l2 -> extends s s2 T T2 l l2.
Proof.
  intros (V1 & S1 & F1 & N1 & M1) (V2 & S2 & F2 & N2 & M2). split_and!; [done|by etransitivity|eauto| |].
  - intros p k H2 H0. destruct (T1 !! p) eqn:E; [by eapply N1|]. by eapply F1, N2.
  - intros x Hx. rewrite M2 by done. apply M1. intros p k Hp. eapply Hx. by eapply lookup_weaken.
Qed.

Lemma grows_extends s s' T T' l l' : vm_ok s' T' l' -> grows (kmemory s) (kmemory s') T T' l l' -> extends s s' T T' l l'.
Proof. intros V []. by split_and!. Qed.

Lemma make_pte_range pa perm : pa_ok pa -> 0 <= perm < 2 ^ 10 -> 0 <= make_pte pa perm < 2 ^ 64.
Proof.
  intros Hpa Hperm. unfold make_pte. rewrite <- Z.lor_assoc. apply make_range; [done|].
  apply lor_small; [done|unfold PTE_V; lia].
Qed.

Lemma entry_range s T l pt va : vm_ok s T l -> 0 <= entry_of (kmemory s) pt va < 2 ^ 64.
Proof.
  intros V. unfold entry_of. destruct (descend _ _ _ _); [|lia]. apply load64_range, (ki_mem _ _ (vo_free _ _ _ V)).
Qed.

(** One page: the walk, then the store of the entry. *)
Lemma map_page pt a pa perm s T l (K : M kmem Z) (Q : Z -> kmem -> list event -> Prop) :
  vm_ok s T l -> T !! pt = Some 2%nat -> 0 <= a < MAXVA -> a mod PGSIZE = 0 -> pa_ok pa -> 0 <= perm < 2 ^ 10 ->
  has (entry_of (kmemory s) pt a) PTE_V = false ->
  (forall s' T', extends s s' T T' l [] ->
     (forall pt' va, T !! pt' = Some 2%nat -> 0 <= va < MAXVA -> entry_of (kmemory s') pt' va = entry_of (kmemory s) pt' va) ->
     Q (-1) s' []) ->
  (forall s' T' l', extends s s' T T' l l' ->
     (forall pt' va, T !! pt' = Some 2%nat -> 0 <= va < MAXVA ->
        entry_of (kmemory s') pt' va = mapped_to pt a 1 pa perm (entry_of (kmemory s)) pt' va) ->
     wp K s' Q) ->
  wp (pte <- walk pt a true ;;
      if pte =? 0 then ret (-1)
      else
        e <- read64 pte ;;
        if has e PTE_V then panic "remap"
        else
          write64 pte (Z.lor (Z.lor (PA2PTE pa) perm) PTE_V) ;;;
          K) s Q.
Proof.
  intros V Hp Ha Hm Hpa Hperm Hun Hfail Hok. apply wp_bind. unfold walk.
  rewrite (proj2 (Z.leb_gt MAXVA a)) by lia.
  eapply wp_mono; [exact (walk_level_alloc 2 pt a s T l V Hp (proj1 Ha))|]. cbv beta.
  intros e s1 t (-> & T1 & l1 & V1 & G & He). pose proof V as [HK HT HD].
  pose proof (grows_extends _ _ _ _ _ _ V1 G) as X1. pose proof (gr_sub _ _ _ _ _ _ G) as S1.
  pose proof (fun pt' va H H' => grows_entry _ _ _ _ _ _ pt' va HT G H H') as HE.
  destruct He as [(-> & -> & _)|He].
  { apply wp_ret. eapply Hfail; [exact X1|]. intros pt' va Hpt Hva. apply HE; [done|lia]. }
  assert (T1 !! pt = Some 2%nat) as Hp1 by (by eapply lookup_weaken).
  pose proof (descend_pos _ _ _ _ _ _ (vo_tables _ _ _ V1) Hp1 (proj1 Ha) He). rewrite (proj2 (Z.eqb_neq e 0)) by lia.
  apply wp_bind, wp_get.
  assert (load64 (kmemory s1) e = entry_of (kmemory s) pt a) as ->.
  { rewrite <- (HE pt a Hp (proj1 Ha)). unfold entry_of. by rewrite He. }
  rewrite Hun. apply wp_bind, wp_modify. fold (make_pte pa perm).
  destruct (entry_store s1 T1 l1 pt a e (make_pte pa perm) V1 Hp1 Ha He) as (V2 & E2 & M2); [by apply make_pte_range|].
  apply (Hok _ T1 l1).
  - eapply extends_trans; [exact X1|]. split_and!; [done|done|done| |done]. intros p k H1 H2. congruence.
  - intros pt' va Hpt Hva. rewrite E2 by (done || by eapply lookup_weaken). rewrite HE by (done || lia).
    unfold same_slot, mapped_to. destruct (Z.eqb_spec pt pt') as [->|]; cbn [andb]; [|done].
    assert ((a / PGSIZE =? va / PGSIZE) = (a <=? va) && (va <? a + 1 * PGSIZE)) as ->.
    { apply eq_true_iff_eq. bools. unfold PGSIZE in *. Z.div_mod_to_equations. lia. }
    destruct (_ && _) eqn:E; [|done]. bools. rewrite Z.div_small, Z.mul_0_l, Z.add_0_r by lia. done.
Qed.

Lemma mapped_to_0 pt a pa perm f pt' va : mapped_to pt a 0 pa perm f pt' va = f pt' va.
Proof. unfold mapped_to. destruct (_ && _) eqn:E; [|done]. bools. lia. Qed.

(** Mapping one page, then [k] more. *)
Lemma mapped_to_cons pt a k pa perm f g pt' va :
  0 <= k -> g = mapped_to pt a 1 pa perm f pt' va ->
  (if (pt =? pt') && ((a + PGSIZE <=? va) && (va <? a + PGSIZE + k * PGSIZE))
   then make_pte (pa + PGSIZE + (va - (a + PGSIZE)) / PGSIZE * PGSIZE) perm else g) =
  mapped_to pt a (k + 1) pa perm f pt' va.
Proof.
  intros Hk ->. unfold mapped_to. destruct (pt =? pt'); cbn [andb]; [|done].
  destruct (Z.leb_spec (a + PGSIZE) va) as [H1|H1], (Z.ltb_spec va (a + PGSIZE + k * PGSIZE)) as [H2|H2]; cbn [andb].
  - rewrite (proj2 (Z.leb_le a va)), (proj2 (Z.ltb_lt va (a + (k + 1) * PGSIZE))) by (unfold PGSIZE in *; lia). cbn [andb].
    f_equal. replace (va - a) with (va - (a + PGSIZE) + 1 * PGSIZE) by lia. rewrite Z.div_add by done. lia.
  - rewrite (proj2 (Z.ltb_ge va (a + 1 * PGSIZE))), (proj2 (Z.ltb_ge va (a + (k + 1) * PGSIZE))) by lia. by rewrite !andb_false_r.
  - destruct (Z.leb_spec a va); cbn [andb]; [|done].
    by rewrite (proj2 (Z.ltb_lt va (a + 1 * PGSIZE))), (proj2 (Z.ltb_lt va (a + (k + 1) * PGSIZE))) by (unfold PGSIZE in *; lia).
  - unfold PGSIZE in *. lia.
Qed.

(** What [mappages] did: mapped the first [k] of the pages asked for. *)
Definition maps (pt a pa perm : Z) (s s' : kmem) (T : gmap Z nat) (l : list Z) (k : Z) (l' : list Z) : Prop :=
  exists T', extends s s' T T' l l' /\
    forall pt' va, T !! pt' = Some 2%nat -> 0 <= va < MAXVA ->
      entry_of (kmemory s') pt' va = mapped_to pt a k pa perm (entry_of (kmemory s)) pt' va.

Lemma mappages_loop_spec n fuel pt a pa perm s T l :
  vm_ok s T l -> T !! pt = Some 2%nat -> 0 <= a -> a mod PGSIZE = 0 -> a + Z.of_nat n * PGSIZE < MAXVA ->
  pa mod PGSIZE = 0 -> 0 <= pa -> pa + Z.of_nat n * PGSIZE < 2 ^ 56 -> 0 <= perm < 2 ^ 10 -> (n < fuel)%nat ->
  (forall va, a <= va < a + Z.of_nat (S n) * PGSIZE -> has (entry_of (kmemory s) pt va) PTE_V = false) ->
  wp (mappages_loop fuel pt a (a + Z.of_nat n * PGSIZE) pa perm) s (fun r s' t => t = [] /\
    exists k l', maps pt a pa perm s s' T l k l' /\
      (r = 0 /\ k = Z.of_nat (S n) \/ r = -1 /\ 0 <= k <= Z.of_nat n /\ l' = [])).
Proof.
  revert fuel a pa s T l. induction n as [|n IH]; intros fuel a pa s T l V Hp Ha Hm Hlast Hpm Hpa Hpl Hperm Hf Hun;
    (destruct fuel as [|fuel]; [lia|]); cbn [mappages_loop].
  all: eapply (map_page pt a pa perm s T l); [done|done|unfold PGSIZE in *; lia|done|split; [done|unfold PGSIZE in *; lia]|done|
    apply Hun; unfold PGSIZE in *; lia| |].
  all: try (intros s1 T1 X1 E1; split; [done|]; exists 0, []; split; [|right; split; [done|]; split; [lia|done]];
    exists T1; split; [done|]; intros pt' va Hpt Hva; by rewrite E1, mapped_to_0).
  - intros s1 T1 l1 X1 E1. rewrite (proj2 (Z.eqb_eq a (a + Z.of_nat 0 * PGSIZE))) by lia.
    apply wp_ret. split; [done|]. exists 1, l1. split; [by exists T1|by left].
  - intros s1 T1 l1 X1 E1. rewrite (proj2 (Z.eqb_neq a (a + Z.of_nat (S n) * PGSIZE))) by (unfold PGSIZE; lia).
    assert (PGSIZE = 4096) as HP by done. change MAXVA with (2 ^ 38) in *.
    assert (a + Z.of_nat (S n) * PGSIZE + PGSIZE <= 2 ^ 38) as Htop by (rewrite HP in *; Z.div_mod_to_equations; lia).
    rewrite !u64_small by lia. replace (a + Z.of_nat (S n) * PGSIZE) with (a + PGSIZE + Z.of_nat n * PGSIZE) by lia.
    eapply wp_mono; [apply (IH fuel (a + PGSIZE) (pa + PGSIZE) s1 T1 l1)|].
    + apply X1.
    + eapply lookup_weaken; [exact Hp|apply X1].
    + lia.
    + rewrite <- Zplus_mod_idemp_r, Z.mod_same, Z.add_0_r by done. done.
    + lia.
    + rewrite <- Zplus_mod_idemp_r, Z.mod_same, Z.add_0_r by done. done.
    + lia.
    + lia.
    + done.
    + lia.
    + intros va Hva. rewrite E1 by (done || lia). unfold mapped_to. rewrite Z.eqb_refl.
      rewrite (proj2 (Z.ltb_ge va (a + 1 * PGSIZE))), andb_false_r by lia. cbn [andb]. apply Hun. lia.
    + cbv beta. intros r s2 t (-> & k & l2 & (T2 & X2 & E2) & Hr). split; [done|]. exists (k + 1), l2. split.
      * exists T2. split; [by eapply extends_trans|]. intros pt' va Hpt Hva.
        assert (T1 !! pt' = Some 2%nat) as Hpt1 by (eapply lookup_weaken; [exact Hpt|apply X1]).
        rewrite E2 by done. apply mapped_to_cons; [lia|by apply E1].
      * destruct Hr as [[-> ->]|(-> & Hk & ->)]; [left|right]; split_and!; (done || lia).
Qed.

End Map.

Lemma pages_fuel_enough n a : 0 <= a -> a + Z.of_nat n * PGSIZE < MAXVA -> (n < pages_fuel a (a + Z.of_nat n * PGSIZE))%nat.
Proof.
  intros Ha Hl. unfold pages_fuel. rewrite (proj2 (Z.leb_le a _)) by (unfold PGSIZE; lia). rewrite Z.min_l by lia.
  rewrite Z.add_simpl_l, Z.div_mul by done. lia.
Qed.

(** The pages a range of addresses touches. *)
Lemma range_pages_eq va size : 0 <= va -> 1 <= size -> va + size <= MAXVA ->
  let a := PGROUNDDOWN va in
  0 <= a /\ a mod PGSIZE = 0 /\
  exists n, PGROUNDDOWN (va + size - 1) = a + Z.of_nat n * PGSIZE /\
    (PGROUNDDOWN (va + size - 1) - a) / PGSIZE + 1 = Z.of_nat (S n) /\ a + Z.of_nat n * PGSIZE < MAXVA.
Proof.
  intros Hva Hsz Htop a. change MAXVA with (2 ^ 38) in *.
  assert (a = va / PGSIZE * PGSIZE) as Ea by (apply page_mask; lia).
  assert (PGROUNDDOWN (va + size - 1) = (va + size - 1) / PGSIZE * PGSIZE) as -> by (apply page_mask; lia).
  rewrite Ea. split; [apply Z.mul_nonneg_nonneg; [apply Z.div_pos; [lia|done]|done]|]. split; [by apply Z.mod_mul|].
  assert (va / PGSIZE <= (va + size - 1) / PGSIZE) as Hle by (apply Z.div_le_mono; unfold PGSIZE; lia).
  assert ((va + size - 1) / PGSIZE < 2 ^ 26) as Hlt by (apply Z.div_lt_upper_bound; unfold PGSIZE; lia).
  exists (Z.to_nat ((va + size - 1) / PGSIZE - va / PGSIZE)). rewrite Z2Nat.id by lia.
  rewrite <- Z.mul_sub_distr_r, Z.div_mul by done. split_and!; [lia|lia|]. unfold PGSIZE in *. lia.
Qed.

(** C32: [mappages] inserts into the map.  On pages that are not mapped it
    returns 0 with each of them mapped to its physical page with the given
    permissions, or -1 when memory runs out, with the first of them mapped;
    in this and in every other page table all other translations stay, and no
    memory but page-table pages is written. *)
Theorem mappages_maps `{LayoutOk} pt va size pa perm s T l :
  vm_ok s T l -> T !! pt = Some 2%nat -> 0 <= va -> 1 <= size -> va + size <= MAXVA ->
  pa mod PGSIZE = 0 -> 0 <= pa < 2 ^ 55 -> 0 <= perm < 2 ^ 10 ->
  let a := PGROUNDDOWN va in
  let n := (PGROUNDDOWN (va + size - 1) - a) / PGSIZE + 1 in
  (forall va', a <= va' < a + n * PGSIZE -> has (entry_of (kmemory s) pt va') PTE_V = false) ->
  exists r s' k l', mappages pt va size pa perm s = Ok r s' [] /\ maps pt a pa perm s s' T l k l' /\
    (r = 0 /\ k = n \/ r = -1 /\ 0 <= k < n /\ l' = []).
Proof.
  intros V Hp Hva Hsz Htop Hpm Hpa Hperm a n Hun.
  destruct (range_pages_eq va size Hva Hsz Htop) as (Ha & Hm & n' & El & En & Hl).
  fold a in Ha, Hm, El, Hl, En. fold n in En.
  assert (wp (mappages pt va size pa perm) s (fun r s' t => t = [] /\
    exists k l', maps pt a pa perm s s' T l k l' /\ (r = 0 /\ k = n \/ r = -1 /\ 0 <= k < n /\ l' = []))) as Hw.
  { unfold mappages. cbv zeta. fold a. change MAXVA with (2 ^ 38) in Htop. rewrite u64_small, El by lia.
    eapply wp_mono; [apply (mappages_loop_spec n' (pages_fuel a (a + Z.of_nat n' * PGSIZE)) pt a pa perm s T l)|]; try done.
    - lia.
    - change MAXVA with (2 ^ 38) in Hl. lia.
    - by apply pages_fuel_enough.
    - by rewrite <- En.
    - cbv beta. intros r s' t (-> & k & l' & Hmp & Hr). split; [done|]. exists k, l'. split; [done|]. rewrite En.
      destruct Hr as [[-> ->]|(-> & Hk & ->)]; [by left|right; split_and!; (done || lia)]. }
  apply wp_run in Hw as (r & s' & t & Hrun & -> & k & l' & Hmp & Hr). by exists r, s', k, l'.
Qed.

(** An empty page table, and three free pages. *)
Definition km_ex : kmem :=
  Kmem (store64 0x80200000 0x80201000 (store64 0x80201000 0x80202000 (fun _ => 0))) 0x80200000.
Definition free_ex : list Z := [0x80200000; 0x80201000; 0x80202000].
Definition T_ex : gmap Z nat := {[ 0x80300000 := 2%nat ]}.

Lemma vm_ex : vm_ok km_ex T_ex free_ex.
Proof.
  assert (forall i, 0 <= i < 512 -> has (pte_at (kmemory km_ex) 0x80300000 i) PTE_V = false) as He.
  { intros i Hi. unfold pte_at. rewrite (load64_ext _ (fun _ => 0)); [done|].
    intros x Hx. unfold km_ex. cbn [kmemory]. rewrite !store64_other by lia. done. }
  constructor.
  - constructor; [by vm_compute|repeat constructor; by vm_compute| |].
    + unfold free_ex. repeat (apply list.NoDup_cons; split; [set_solver by lia|]). constructor.
    + apply store64_ok, store64_ok. intros x. split; simpl; lia.
  - constructor.
    + intros p k Hp. unfold T_ex in Hp. apply lookup_singleton_Some in Hp as [<- <-]. by vm_compute.
    + intros p k i Hp Hi Hv. unfold T_ex in Hp. apply lookup_singleton_Some in Hp as [<- _]. by rewrite He in Hv.
    + intros p q k k' i j Hp _ Hi _ Hv. unfold T_ex in Hp. apply lookup_singleton_Some in Hp as [<- _]. by rewrite He in Hv.
  - intros p Hp. apply lookup_singleton_None. unfold free_ex in Hp. set_solver by lia.
Qed.

Lemma mappages_maps_witness : exists r s' k l',
  mappages 0x80300000 0x1000 0x2000 0x80000000 (Z.lor PTE_R PTE_U) km_ex = Ok r s' [] /\
  maps 0x80300000 0x1000 0x80000000 (Z.lor PTE_R PTE_U) km_ex s' T_ex free_ex k l' /\ r = 0 /\ k = 2.
Proof.
  destruct (mappages_maps 0x80300000 0x1000 0x2000 0x80000000 (Z.lor PTE_R PTE_U) km_ex T_ex free_ex vm_ex eq_refl)
    as (r & s' & k & l' & H1 & H2 & H3); [by vm_compute..|done|by vm_compute|by vm_compute| |].
  - intros va' Hva. unfold entry_of. cbn [descend]. cbv zeta.
    assert (PX 2 va' = 0) as ->; [|by vm_compute].
    change (PGROUNDDOWN 0x1000) with 0x1000 in Hva. change ((PGROUNDDOWN (0x1000 + 0x2000 - 1) - 0x1000) / PGSIZE + 1) with 2 in Hva.
    unfold PGSIZE in Hva. rewrite PX_eq by lia. change (2 ^ (12 + 9 * Z.of_nat 2)) with (2 ^ 30). rewrite Z.div_small by lia. done.
  - exists r, s', k, l'. split; [exact H1|]. split; [exact H2|].
    destruct H3 as [[-> ->]|(-> & Hk & _)]; [split; [reflexivity|vm_compute; reflexivity]|]. exfalso.
    assert (match mappages 0x80300000 0x1000 0x2000 0x80000000 (Z.lor PTE_R PTE_U) km_ex with Ok r _ _ => r | _ => 1 end = 0)
      as E by (vm_compute; reflexivity).
    rewrite H1 in E. discriminate.
Defined.
