(* ===== verification/VmLoops.v ===== *)
(** * Termination of the loops over pages (kernel/vm.c)

    No call runs out of the fuel its definition gives it: the loops end at
    their last page, or panic in [walk] when they leave the address space. *)

From Stdlib Require Import ZArith Lia.
From stdpp Require Import base gmap list strings.
From S2P Require Import Prelude CString Kalloc Vm VmFacts.
Local Open Scope xv6_scope.

Section Termination.
Context `{LK : LayoutOk}.

Lemma kalloc_converges : converges kalloc.
Proof. unfold kalloc, read64, memset_. converge. Qed.

Lemma kfree_converges pa : converges (kfree pa).
Proof. unfold kfree, write64, memset_. converge. Qed.

Hint Resolve kalloc_converges kfree_converges : converges.

Lemma walk_level_converges k pt va alloc : converges (walk_level k pt va alloc).
Proof.
  revert pt. induction k as [|k IH]; intros pt; cbn [walk_level]; [apply converges_ret|].
  unfold read64, write64, memset_. cbv zeta. converge.
Qed.

Lemma walk_converges pt va alloc : converges (walk pt va alloc).
Proof. unfold walk. pose proof (walk_level_converges 2 pt va alloc). converge. Qed.

Hint Resolve walk_converges : converges.

Lemma walkaddr_converges pt va : converges (walkaddr pt va).
Proof. unfold walkaddr, read64. converge. Qed.

Hint Resolve walkaddr_converges : converges.

(** The pages still to be visited from [a] on, the one at [MAXVA] last. *)
Definition page_fuel (fuel : nat) (a last : Z) : Prop :=
  MAXVA <= a \/ (a <= last /\ Z.min last MAXVA - a < Z.of_nat fuel * PGSIZE) \/ (last < a /\ MAXVA - a < Z.of_nat fuel * PGSIZE).

Lemma page_fuel_next fuel a last :
  0 <= a -> a mod PGSIZE = 0 -> last mod PGSIZE = 0 -> a < MAXVA -> a <> last -> page_fuel (S fuel) a last ->
  page_fuel fuel (a + PGSIZE) last /\ (0 < fuel)%nat.
Proof.
  intros Ha Hm Hl Hv Hne Hf. unfold page_fuel in *. change MAXVA with (2 ^ 38) in *. unfold PGSIZE in *.
  Z.div_mod_to_equations. lia.
Qed.

Lemma pages_fuel_ok a last : page_fuel (pages_fuel a last) a last.
Proof.
  unfold page_fuel, pages_fuel. change MAXVA with (2 ^ 38). destruct (Z.leb_spec a last) as [H|H]; unfold PGSIZE.
  - destruct (decide (2 ^ 38 <= a)); [by left|right; left]. split; [done|].
    rewrite Nat2Z.inj_succ, Z2Nat.id by (apply Z.div_pos; lia).
    pose proof (Z.mod_pos_bound (last `min` 2 ^ 38 - a) 4096 ltac:(lia)).
    pose proof (Z.div_mod (last `min` 2 ^ 38 - a) 4096 ltac:(lia)). lia.
  - destruct (decide (2 ^ 38 <= a)); [by left|right; right]. split; [done|].
    rewrite Nat2Z.inj_succ, Z2Nat.id by (apply Z.div_pos; lia).
    pose proof (Z.mod_pos_bound (2 ^ 38 - a) 4096 ltac:(lia)). pose proof (Z.div_mod (2 ^ 38 - a) 4096 ltac:(lia)). lia.
Qed.

Lemma walk_beyond {A} pt a alloc (k : Z -> M kmem A) : MAXVA <= a -> converges (bind (walk pt a alloc) k).
Proof. intros H s. unfold bind, walk. by rewrite (proj2 (Z.leb_le _ _) H). Qed.

(** The loop over pages, for any body that starts with a walk at [a]. *)
Lemma page_loop_converges {B} (loop : nat -> Z -> Z -> M kmem B) pt alloc last
    (body : nat -> Z -> Z -> Z -> M kmem B) :
  (forall fuel a x, loop (S fuel) a x = bind (walk pt a alloc) (body fuel a x)) ->
  (forall fuel a x, 0 <= a < MAXVA -> (a <> last -> forall x', converges (loop fuel (a + PGSIZE) x')) ->
     forall e, converges (body fuel a x e)) ->
  last mod PGSIZE = 0 ->
  forall fuel a x, 0 <= a -> a mod PGSIZE = 0 -> page_fuel fuel a last -> (0 < fuel)%nat -> converges (loop fuel a x).
Proof.
  intros Hloop Hbody Hl fuel. induction fuel as [|fuel IH]; intros a x Ha Hm Hf Hpos; [lia|]. rewrite Hloop.
  destruct (decide (MAXVA <= a)) as [Hv|Hv]; [by apply walk_beyond|].
  apply converges_bind; [apply walk_converges|]. apply Hbody; [lia|]. intros Hne x'.
  destruct (page_fuel_next fuel a last Ha Hm Hl ltac:(lia) Hne Hf) as [Hf' Hpos'].
  apply IH; [unfold PGSIZE; lia| |done|done]. rewrite <- Zplus_mod_idemp_r, Z.mod_same, Z.add_0_r by done. done.
Qed.

Lemma rounded_down va : 0 <= va < 2 ^ 64 -> 0 <= PGROUNDDOWN va < 2 ^ 64 /\ PGROUNDDOWN va mod PGSIZE = 0 /\ PGROUNDDOWN va <= va.
Proof.
  intros Hva. unfold PGROUNDDOWN. rewrite page_mask by done. split; [|split; [by apply Z.mod_mul|]];
    unfold PGSIZE; Z.div_mod_to_equations; lia.
Qed.

Lemma next_page a : 0 <= a < MAXVA -> u64 (a + PGSIZE) = a + PGSIZE.
Proof. intros Ha. change MAXVA with (2 ^ 38) in Ha. apply u64_small. unfold PGSIZE. lia. Qed.

Lemma mappages_converges pt va size pa perm : 0 <= va < 2 ^ 64 -> converges (mappages pt va size pa perm).
Proof.
  intros Hva. unfold mappages. cbv zeta. destruct (rounded_down va Hva) as (H1 & H2 & _).
  destruct (rounded_down (u64 (va + size - 1)) (u64_range _)) as (_ & H3 & _).
  apply (page_loop_converges (fun fuel a x => mappages_loop fuel pt a _ x perm) pt true
    (PGROUNDDOWN (u64 (va + size - 1))) _ (fun _ _ _ => eq_refl)); [|done|lia|done|apply pages_fuel_ok|unfold pages_fuel; lia].
  intros fuel a x Ha Hrec e. unfold read64, write64. rewrite next_page by done. converge.
  by apply Hrec, Z.eqb_neq.
Qed.

Lemma uvmunmap_converges pt va size free : 0 <= va < 2 ^ 64 -> converges (uvmunmap pt va size free).
Proof.
  intros Hva. unfold uvmunmap. cbv zeta. destruct (rounded_down va Hva) as (H1 & H2 & _).
  destruct (rounded_down (u64 (va + size - 1)) (u64_range _)) as (_ & H3 & _).
  apply (page_loop_converges (fun fuel a (_ : Z) => uvmunmap_loop fuel pt a _ free) pt false
    (PGROUNDDOWN (u64 (va + size - 1))) _ (fun _ _ _ => eq_refl) ) with (x := 0);
    [|done|lia|done|apply pages_fuel_ok|unfold pages_fuel; lia].
  intros fuel a x Ha Hrec e. unfold read64, write64. rewrite next_page by done. converge;
    by apply (fun H => Hrec H 0), Z.eqb_neq.
Qed.

Hint Resolve mappages_converges uvmunmap_converges : converges.

(** Mapping past the address space does not return. *)
Lemma mappages_beyond {A} pt a pa perm (k : Z -> M kmem A) :
  MAXVA <= a < 2 ^ 64 -> converges (bind (mappages pt a PGSIZE pa perm) k).
Proof.
  intros Ha s. unfold mappages. cbv zeta. unfold pages_fuel. cbn [mappages_loop]. unfold bind, walk.
  assert (MAXVA <= PGROUNDDOWN a) as Hd.
  { unfold PGROUNDDOWN. rewrite page_mask by (change MAXVA with (2 ^ 38) in Ha; lia). change MAXVA with (2 ^ 38) in *.
    unfold PGSIZE. Z.div_mod_to_equations. lia. }
  by rewrite (proj2 (Z.leb_le _ _) Hd).
Qed.

Lemma uvmdealloc_converges pt o n : 0 <= n < 2 ^ 64 -> converges (uvmdealloc pt o n).
Proof. intros Hn. unfold uvmdealloc. converge. Qed.

(** Enough fuel for the pages from [a] up to [top]. *)
Definition grow_fuel (fuel : nat) (a top : Z) : Prop :=
  a < top -> (0 < fuel)%nat /\ Z.min top MAXVA - a <= (Z.of_nat fuel - 1) * PGSIZE.

Lemma grow_fuel_next fuel a top : a < top -> a < MAXVA -> grow_fuel (S fuel) a top -> grow_fuel fuel (a + PGSIZE) top.
Proof. intros H1 H2 H Ht. destruct (H H1) as [_ Hf]. unfold PGSIZE in *. lia. Qed.

Lemma uvmalloc_loop_converges fuel pt a oldsz newsz :
  0 <= a < 2 ^ 64 -> 0 <= oldsz < 2 ^ 64 -> grow_fuel fuel a newsz -> converges (uvmalloc_loop fuel pt a oldsz newsz).
Proof.
  intros Ha Ho. revert a Ha. induction fuel as [|fuel IH]; intros a Ha Hf; cbn [uvmalloc_loop].
  all: destruct (Z.ltb_spec a newsz) as [Hlt|]; [|apply converges_ret].
  { destruct (Hf Hlt). lia. }
  pose proof (uvmdealloc_converges pt a oldsz Ho). unfold memset_. apply converges_bind; [apply kalloc_converges|]. intros m.
  apply converges_if; intros _; [converge|]. apply converges_bind; [apply converges_modify|]. intros _.
  destruct (decide (MAXVA <= a)) as [Hv|Hv]; [by apply mappages_beyond; lia|].
  apply converges_bind; [by apply mappages_converges|]. intros r. apply converges_if; intros _; [converge|].
  rewrite next_page by lia. apply IH; [change MAXVA with (2 ^ 38) in Hv; unfold PGSIZE; lia|]. by apply grow_fuel_next; [|lia|].
Qed.

Lemma uvmalloc_converges pt oldsz newsz : converges (uvmalloc pt oldsz newsz).
Proof.
  unfold uvmalloc. apply converges_if; intros _; [apply converges_ret|]. cbv zeta.
  assert (0 <= PGROUNDUP oldsz < 2 ^ 64) as Hr by (apply rounded_down, u64_range).
  apply uvmalloc_loop_converges; [done|done|]. intros Hlt. split; [lia|]. unfold PGSIZE. Z.div_mod_to_equations. lia.
Qed.

Lemma uvmcopy_loop_converges fuel old new i sz : 0 <= i < 2 ^ 64 -> grow_fuel fuel i sz -> converges (uvmcopy_loop fuel old new i sz).
Proof.
  revert i. induction fuel as [|fuel IH]; intros i Hi Hf; cbn [uvmcopy_loop].
  all: destruct (Z.ltb_spec i sz) as [Hlt|]; [|apply converges_ret].
  { destruct (Hf Hlt). lia. }
  destruct (decide (MAXVA <= i)) as [Hv|Hv]; [by apply walk_beyond|].
  pose proof (uvmunmap_converges new 0 i true ltac:(lia)). unfold read64. rewrite next_page by lia.
  assert (converges (uvmcopy_loop fuel old new (i + PGSIZE) sz)).
  { apply IH; [change MAXVA with (2 ^ 38) in Hv; unfold PGSIZE; lia|]. by apply grow_fuel_next; [|lia|]. }
  converge.
Qed.

Lemma uvmcopy_converges old new sz : converges (uvmcopy old new sz).
Proof.
  unfold uvmcopy. apply uvmcopy_loop_converges; [lia|]. intros Hlt. unfold PGSIZE. change MAXVA with (2 ^ 38).
  Z.div_mod_to_equations. lia.
Qed.

(** *** The copying loops *)

(** The bytes one iteration copies: to the end of the page, or all of them. *)
Lemma span_progress va len : 0 <= va < 2 ^ 64 -> 1 <= len ->
  1 <= span va len <= len /\ (span va len = len \/ PGSIZE <= span va len + va mod PGSIZE).
Proof.
  intros Hva Hlen. unfold span, page_of. rewrite PGROUNDDOWN_eq by done.
  pose proof (Z.mod_pos_bound va PGSIZE ltac:(done)) as Ho. set (o := va mod PGSIZE) in *.
  set (q := (va - o) / 2 ^ 32). assert (u32 (va - o) = va - o - 2 ^ 32 * q) as ->.
  { unfold u32, q. pose proof (Z.div_mod (va - o) (2 ^ 32) ltac:(lia)). lia. }
  assert (0 <= va - o) as Hg by (unfold o, PGSIZE; Z.div_mod_to_equations; lia).
  assert (0 <= q < 2 ^ 32) as Hq by (unfold q; split; [apply Z.div_pos; lia|apply Z.div_lt_upper_bound; lia]).
  replace (PGSIZE - (va - (va - o - 2 ^ 32 * q))) with (PGSIZE - o - 2 ^ 32 * q) by lia.
  assert (u64 (PGSIZE - o - 2 ^ 32 * q) = if q =? 0 then PGSIZE - o else 2 ^ 64 + PGSIZE - o - 2 ^ 32 * q) as ->.
  { unfold PGSIZE in *. destruct (Z.eqb_spec q 0); unfold u64; [rewrite Z.mod_small; lia|].
    rewrite <- (Z_mod_plus_full _ 1), Z.mod_small; lia. }
  unfold PGSIZE in *. destruct (Z.eqb_spec q 0);
    match goal with |- context [len <? ?n] => destruct (Z.ltb_spec len n) end; lia.
Qed.

(** Enough fuel for [len] bytes from [va] on. *)
Definition span_fuel (fuel : nat) (va len : Z) : Prop := 1 <= len -> len + va mod PGSIZE <= Z.of_nat fuel * PGSIZE.

Lemma span_fuel_next fuel va len : 0 <= va < 2 ^ 64 -> 1 <= len -> span_fuel (S fuel) va len ->
  let next := u64 (page_of va + PGSIZE) in
  span_fuel fuel next (len - span va len) /\ 0 <= next < 2 ^ 64.
Proof.
  intros Hva Hlen Hf next. destruct (span_progress va len Hva Hlen) as [H1 H2]. specialize (Hf Hlen).
  split; [|apply u64_range]. intros Hl. assert (next mod PGSIZE = 0) as ->.
  { unfold next, page_of. rewrite PGROUNDDOWN_eq by done. pose proof (u32_range (va - va mod PGSIZE)) as Hr.
    rewrite u64_small by (unfold PGSIZE in *; lia). rewrite <- Zplus_mod_idemp_r, Z.mod_same, Z.add_0_r by done. unfold u32.
    rewrite Z.mod_mod_divide by (by exists (2 ^ 20)). by rewrite Zminus_mod_idemp_r, Z.sub_diag. }
  unfold PGSIZE in *. lia.
Qed.

Lemma copy_fuel_ok va len : 0 <= len -> span_fuel (copy_fuel len) va len.
Proof. intros H Hl. unfold copy_fuel, PGSIZE. Z.div_mod_to_equations. lia. Qed.

Lemma span_fuel_zero va len : span_fuel 0 va len -> len < 1.
Proof. intros H. destruct (decide (1 <= len)) as [Hl|]; [|lia]. specialize (H Hl). pose proof (Z.mod_pos_bound va PGSIZE ltac:(done)). lia. Qed.

Lemma copyout_converges pt va src : 0 <= va < 2 ^ 64 -> converges (copyout pt va src).
Proof.
  intros Hva. unfold copyout. pose proof (copy_fuel_ok va (Z.of_nat (length src)) ltac:(lia)) as Hf. revert Hf.
  generalize (copy_fuel (Z.of_nat (length src))). intros fuel. revert va src Hva.
  induction fuel as [|fuel IH]; intros va [|b src] Hva Hf; cbn [copyout_loop]; try apply converges_ret.
  { apply span_fuel_zero in Hf. simpl in Hf. lia. }
  set (bs := b :: src) in *. assert (1 <= Z.of_nat (length bs)) as Hl by (simpl; lia). clearbody bs.
  destruct (span_fuel_next fuel va _ Hva Hl Hf) as [Hf' Hn]. destruct (span_progress va _ Hva Hl) as [Hs _].
  cbv zeta. apply converges_bind; [apply walkaddr_converges|]. intros pa. apply converges_if; intros _; [apply converges_ret|].
  apply converges_bind; [apply converges_modify|]. intros _. apply IH; [done|].
  rewrite length_drop. by replace (Z.of_nat (length bs - Z.to_nat (span va (Z.of_nat (length bs))))) with
    (Z.of_nat (length bs) - span va (Z.of_nat (length bs))) by lia.
Qed.

Lemma copyin_converges pt va len : 0 <= va < 2 ^ 64 -> 0 <= len -> converges (copyin pt va len).
Proof.
  intros Hva Hlen. unfold copyin. pose proof (copy_fuel_ok va len Hlen) as Hf. revert Hf.
  generalize (copy_fuel len). intros fuel. revert va len Hva Hlen.
  induction fuel as [|fuel IH]; intros va len Hva Hlen Hf; cbn [copyin_loop].
  all: destruct (Z.ltb_spec 0 len) as [Hl|]; [|apply converges_ret].
  { apply span_fuel_zero in Hf. lia. }
  destruct (span_fuel_next fuel va len Hva ltac:(lia) Hf) as [Hf' Hn]. destruct (span_progress va len Hva ltac:(lia)) as [Hs _].
  pose proof (IH _ (len - span va len) Hn ltac:(lia) Hf'). cbv zeta. converge.
Qed.

Lemma copyinstr_converges pt va max : 0 <= va < 2 ^ 64 -> 0 <= max -> converges (copyinstr pt va max).
Proof.
  intros Hva Hlen. unfold copyinstr. pose proof (copy_fuel_ok va max Hlen) as Hf. revert Hf.
  generalize (copy_fuel max). intros fuel. revert va max Hva Hlen.
  induction fuel as [|fuel IH]; intros va max Hva Hlen Hf; cbn [copyinstr_loop].
  all: destruct (Z.ltb_spec 0 max) as [Hl|]; [|apply converges_ret].
  { apply span_fuel_zero in Hf. lia. }
  destruct (span_fuel_next fuel va max Hva ltac:(lia) Hf) as [Hf' Hn]. destruct (span_progress va max Hva ltac:(lia)) as [Hs _].
  pose proof (IH _ (max - span va max) Hn ltac:(lia) Hf'). cbv zeta. converge.
Qed.

End Termination.

(** C33: every loop of vm.c over the pages of an address range, or over the
    bytes of a copy, comes to an end for all 64-bit arguments and in every
    state of memory, malformed page tables included: it returns or panics. *)
Theorem vm_loops_terminate `{LayoutOk} pt va size pa perm free new old src :
  0 <= va < 2 ^ 64 -> 0 <= size < 2 ^ 64 ->
  converges (mappages pt va size pa perm) /\ converges (uvmunmap pt va size free) /\
  converges (uvmalloc pt old new) /\ converges (uvmcopy pt new size) /\
  converges (copyout pt va src) /\ converges (copyin pt va size) /\ converges (copyinstr pt va size).
Proof.
  intros Hva Hsz. split_and!; [by apply mappages_converges|by apply uvmunmap_converges|apply uvmalloc_converges|
    apply uvmcopy_converges|by apply copyout_converges|apply copyin_converges; lia|apply copyinstr_converges; lia].
Qed.

Lemma vm_loops_terminate_witness :
  converges (mappages 0x80300000 0xffffffffffffffff 0 0x80000000 PTE_R) /\ converges (copyin 0x80300000 0xffffffff 0x2000).
Proof.
  destruct (vm_loops_terminate 0x80300000 0xffffffffffffffff 0 0x80000000 PTE_R true 0 0 []) as (H1 & _); [lia|lia|].
  destruct (vm_loops_terminate 0x80300000 0xffffffff 0x2000 0x80000000 PTE_R true 0 0 []) as (_ & _ & _ & _ & _ & H2 & _); [lia|lia|].
  split; [exact H1|exact H2].
Defined.
