(* ===== verification/VmCopy.v ===== *)
(** * Copying between the kernel and user space (kernel/vm.c)

    [copyout] and [copyin] below 4 gigabytes deliver the bytes to the pages
    the page table maps the addresses to; above, the conversion to [uint] in
    the code makes [copyout] write far outside the page it looked up. *)

From Stdlib Require Import ZArith Lia.
From stdpp Require Import base gmap list strings.
From S2P Require Import Prelude CString Kalloc Vm VmFacts VmLoops.
Local Open Scope xv6_scope.

#[local] Opaque memset memmove.

(** The page an entry gives to user code, 0 if none. *)
Definition user_pa (e : Z) : Z := if has e PTE_V && has e PTE_U then PTE2PA e else 0.

(** The physical address of [va]. *)
Definition phys (m : mem) (pt va : Z) : Z := user_pa (entry_of m pt va) + va mod PGSIZE.

Section Copy.
Context `{LK : LayoutOk}.

Lemma walkaddr_eq s T l pt va : vm_ok s T l -> T !! pt = Some 2%nat -> 0 <= va < MAXVA ->
  walkaddr pt va s = Ok (user_pa (entry_of (kmemory s) pt va)) s [].
Proof.
  intros V Hp Hva. unfold walkaddr, bind at 1, walk. rewrite (proj2 (Z.leb_gt MAXVA va)) by lia.
  rewrite walk_level_false. unfold entry_of. destruct (descend (kmemory s) 2 pt va) as [a|] eqn:E; [|done].
  pose proof (descend_pos _ _ _ _ _ _ (vo_tables _ _ _ V) Hp (proj1 Hva) E). change (default 0 (Some a)) with a.
  rewrite (proj2 (Z.eqb_neq a 0)) by lia. unfold read64, bind, get, user_pa.
  destruct (has _ PTE_V); cbn [negb andb]; [|done]. by destruct (has _ PTE_U).
Qed.

(** Storing into a page that belongs to no page table and is not free. *)
Lemma data_store s T l pa o bs :
  vm_ok s T l -> page_ok pa -> T !! pa = None -> pa ∉ l -> 0 <= o -> o + Z.of_nat (length bs) <= PGSIZE -> Forall byte_ok bs ->
  let s' := set_memory (store (pa + o) bs (kmemory s)) s in
  vm_ok s' T l /\
  (forall pt va, T !! pt = Some 2%nat -> 0 <= va -> entry_of (kmemory s') pt va = entry_of (kmemory s) pt va).
Proof.
  intros [HK HT HD] [Am Ar] Hn Hl Ho Hb Hbs s'.
  assert (forall x, ~ in_page pa x -> kmemory s' x = kmemory s x) as Hout.
  { intros x Hx. apply store_other. unfold in_page in Hx. lia. }
  assert (forall p k x, T !! p = Some k -> in_page p x -> kmemory s' x = kmemory s x) as Hpt.
  { intros p k x Hp Hx. apply Hout. intros Hx'.
    pose proof (pages_disjoint p pa x (proj1 (pt_page _ _ HT _ _ Hp)) Am Hx Hx'). congruence. }
  destruct (pt_frame (kmemory s) T HT (kmemory s')) as [HT' Hd]; [by intros p k; apply Hpt|]. split.
  - constructor; [|done|done]. eapply kinv_ext; [exact HK|done|by apply store_ok, (ki_mem _ _ HK)|].
    intros r x Hr Hx. symmetry. apply Hout. intros Hx'. pose proof (ki_pages _ _ HK) as Hpg. rewrite Forall_forall in Hpg.
    by rewrite (pages_disjoint r pa x (proj1 (Hpg r Hr)) Am Hx Hx') in Hr.
  - intros pt va Hp Hv. unfold entry_of. rewrite Hd by done. destruct (descend _ _ _ _) as [a|] eqn:E; [|done].
    destruct (descend_leaf _ _ HT _ _ _ _ Hp Hv E) as (q & Hq & ->).
    apply load64_ext. intros x Hx. apply (Hpt q 0%nat); [done|]. pose proof (PX_range 0 va Hv). unfold in_page, PGSIZE. lia.
Qed.

(** ** Below 4 gigabytes *)

Lemma page_of_low va : 0 <= va < 2 ^ 32 -> page_of va = va - va mod PGSIZE.
Proof.
  intros Hva. unfold page_of. rewrite PGROUNDDOWN_eq by lia. apply u32_small.
  unfold PGSIZE. Z.div_mod_to_equations. lia.
Qed.

Lemma span_low va len : 0 <= va < 2 ^ 32 -> span va len = Z.min len (PGSIZE - va mod PGSIZE).
Proof.
  intros Hva. unfold span. rewrite page_of_low by done. pose proof (Z.mod_pos_bound va PGSIZE ltac:(done)).
  replace (PGSIZE - (va - (va - va mod PGSIZE))) with (PGSIZE - va mod PGSIZE) by lia.
  rewrite u64_small by (unfold PGSIZE in *; lia). destruct (Z.ltb_spec len (PGSIZE - va mod PGSIZE)); lia.
Qed.

Lemma same_page va i : 0 <= va -> 0 <= i -> va mod PGSIZE + i < PGSIZE ->
  (va + i) / PGSIZE = va / PGSIZE /\ (va + i) mod PGSIZE = va mod PGSIZE + i.
Proof. intros. unfold PGSIZE in *. Z.div_mod_to_equations. lia. Qed.

Lemma entry_same m pt va va' : 0 <= va -> 0 <= va' -> va / PGSIZE = va' / PGSIZE -> entry_of m pt va = entry_of m pt va'.
Proof. intros. unfold entry_of. by rewrite (descend_same m 2 pt va va'). Qed.

Lemma phys_same m pt va i : 0 <= va -> 0 <= i -> va mod PGSIZE + i < PGSIZE -> phys m pt (va + i) = phys m pt va + i.
Proof.
  intros Hv Hi Hlt. destruct (same_page va i Hv Hi Hlt) as [E1 E2]. unfold phys.
  rewrite (entry_same m pt (va + i) va), E2 by lia. lia.
Qed.

(** The pages of [n] bytes from [va] on are user pages, which are neither
    free nor page-table pages, each mapped once. *)
Record user_range (s : kmem) (T : gmap Z nat) (l : list Z) (pt va n : Z) : Prop := {
  ur_low : 0 <= va /\ va + n <= 2 ^ 32;
  ur_page : forall a, va <= a < va + n -> let pa := user_pa (entry_of (kmemory s) pt a) in
    page_ok pa /\ T !! pa = None /\ pa ∉ l;
  ur_inj : forall a b, va <= a < va + n -> va <= b < va + n ->
    user_pa (entry_of (kmemory s) pt a) = user_pa (entry_of (kmemory s) pt b) -> a / PGSIZE = b / PGSIZE }.

Lemma user_range_sub s T l pt va n va' n' :
  user_range s T l pt va n -> va <= va' -> va' + n' <= va + n -> user_range s T l pt va' n'.
Proof.
  intros [H1 H2 H3] Hlo Hhi. constructor; [lia| |].
  - intros a Ha. apply H2. lia.
  - intros a b Ha Hb. apply H3; lia.
Qed.

Lemma phys_inj s T l pt va n a b : user_range s T l pt va n -> va <= a < va + n -> va <= b < va + n ->
  phys (kmemory s) pt a = phys (kmemory s) pt b -> a = b.
Proof.
  intros [H1 H2 H3] Ha Hb E. destruct (H2 a Ha) as ([Am _] & _). destruct (H2 b Hb) as ([Bm _] & _).
  unfold phys in E. pose proof (Z.mod_pos_bound a PGSIZE ltac:(done)). pose proof (Z.mod_pos_bound b PGSIZE ltac:(done)).
  assert (user_pa (entry_of (kmemory s) pt a) = user_pa (entry_of (kmemory s) pt b)) as Ep.
  { apply (pages_disjoint _ _ (phys (kmemory s) pt a) Am Bm); unfold in_page, phys; lia. }
  pose proof (H3 a b Ha Hb Ep). pose proof (Z.div_mod a PGSIZE ltac:(done)). pose proof (Z.div_mod b PGSIZE ltac:(done)). lia.
Qed.

Lemma user_range_ext s s' T l pt va n :
  (forall a, 0 <= a -> entry_of (kmemory s') pt a = entry_of (kmemory s) pt a) ->
  user_range s T l pt va n -> user_range s' T l pt va n.
Proof.
  intros He [H1 H2 H3]. constructor; [done| |].
  - intros a Ha. cbv zeta. rewrite He by lia. by apply H2.
  - intros a b Ha Hb. rewrite !He by lia. by apply H3.
Qed.

(** One iteration: the page, the address in it, and what follows. *)
Lemma copy_step s T l pt va len :
  vm_ok s T l -> T !! pt = Some 2%nat -> user_range s T l pt va len -> 1 <= len ->
  let n := Z.min len (PGSIZE - va mod PGSIZE) in
  walkaddr pt (page_of va) s = Ok (user_pa (entry_of (kmemory s) pt va)) s [] /\
  user_pa (entry_of (kmemory s) pt va) <> 0 /\ span va len = n /\
  u64 (user_pa (entry_of (kmemory s) pt va) + (va - page_of va)) = phys (kmemory s) pt va /\
  u64 (page_of va + PGSIZE) = va - va mod PGSIZE + PGSIZE /\ 1 <= n /\
  user_range s T l pt (u64 (page_of va + PGSIZE)) (len - n) /\
  (1 <= len - n -> u64 (page_of va + PGSIZE) = va + n).
Proof.
  intros V Hp U Hlen n. pose proof U as [[H0 H1] H2 _]. destruct (H2 va ltac:(lia)) as (Hpg & _ & _).
  pose proof (page_pos _ Hpg) as Hpos. destruct Hpg as [_ Hpr]. pose proof (Z.mod_pos_bound va PGSIZE ltac:(done)) as Ho.
  assert (va mod PGSIZE <= va) as Hle by (apply Z.mod_le; [lia|done]).
  rewrite page_of_low by lia. assert (PGSIZE = 4096) as HP by done.
  assert ((va - va mod PGSIZE) / PGSIZE = va / PGSIZE) as Ep.
  { rewrite HP in *. Z.div_mod_to_equations. lia. }
  assert (u64 (va - va mod PGSIZE + PGSIZE) = va - va mod PGSIZE + PGSIZE) as En by (apply u64_small; lia).
  split; [|split; [lia|]].
  { rewrite (walkaddr_eq s T l pt _ V Hp) by (change MAXVA with (2 ^ 38); lia).
    by rewrite (entry_same (kmemory s) pt (va - va mod PGSIZE) va) by (done || lia). }
  split; [by apply span_low; lia|]. split.
  { replace (va - (va - va mod PGSIZE)) with (va mod PGSIZE) by lia. fold (phys (kmemory s) pt va).
    apply u64_small. unfold phys. unfold PHYSTOP, KERNBASE in Hpr. lia. }
  split; [done|]. split; [lia|]. rewrite En. split; [|lia].
  destruct (decide (1 <= len - n)); [eapply user_range_sub; [exact U|lia|lia]|].
  constructor; [rewrite HP in *; Z.div_mod_to_equations; lia|intros a Ha; lia|intros a b Ha; lia].
Qed.

(** What [copyout] leaves in memory. *)
Definition copied (T : gmap Z nat) (l : list Z) (pt va : Z) (src : list Z) (s s' : kmem) : Prop :=
  vm_ok s' T l /\ (forall a, 0 <= a -> entry_of (kmemory s') pt a = entry_of (kmemory s) pt a) /\
  (forall i b, src !! i = Some b -> kmemory s' (phys (kmemory s) pt (va + Z.of_nat i)) = b) /\
  (forall x, (forall a, va <= a < va + Z.of_nat (length src) -> x <> phys (kmemory s) pt a) -> kmemory s' x = kmemory s x).

Lemma copyout_loop_spec T l pt fuel va src s :
  T !! pt = Some 2%nat -> vm_ok s T l -> user_range s T l pt va (Z.of_nat (length src)) -> Forall byte_ok src ->
  span_fuel fuel va (Z.of_nat (length src)) ->
  wp (copyout_loop fuel pt va src) s (fun r s' t => r = 0 /\ t = [] /\ copied T l pt va src s s').
Proof.
  intros Hp. revert va src s. induction fuel as [|fuel IH]; intros va src s V U Hb Hf; (destruct src as [|b0 src0];
    [apply wp_ret; unfold copied; by split_and!|]).
  { apply span_fuel_zero in Hf. simpl in Hf. lia. }
  cbn [copyout_loop]. set (src := b0 :: src0) in *. assert (1 <= Z.of_nat (length src)) as Hl by (simpl; lia). clearbody src.
  pose proof U as [[U0 U1] _ _]. destruct (span_fuel_next fuel va _ ltac:(lia) Hl Hf) as [Hf' _].
  destruct (copy_step s T l pt va _ V Hp U Hl) as (Hw & Hnz & Hs & Ha & Hnx & Hn & U' & Hnext).
  set (n := Z.min (Z.of_nat (length src)) (PGSIZE - va mod PGSIZE)) in *. set (pa := user_pa (entry_of (kmemory s) pt va)) in *.
  cbv zeta. apply wp_bind. eapply wp_eq; [exact Hw|]. rewrite (proj2 (Z.eqb_neq pa 0)) by done. rewrite Hs, Ha.
  apply wp_bind, wp_modify. destruct (ur_page _ _ _ _ _ _ U va ltac:(lia)) as (Q1 & Q2 & Q3). fold pa in Q1, Q2, Q3.
  pose proof (Z.mod_pos_bound va PGSIZE ltac:(done)) as Ho.
  assert (length (take (Z.to_nat n) src) = Z.to_nat n) as Hlt by (rewrite length_take; lia).
  destruct (data_store s T l pa (va mod PGSIZE) (take (Z.to_nat n) src) V Q1 Q2 Q3) as [V1 E1]; [lia|lia|by apply Forall_take|].
  change (pa + va mod PGSIZE) with (phys (kmemory s) pt va) in V1, E1. set (s1 := set_memory _ s) in *.
  assert (forall a, 0 <= a -> entry_of (kmemory s1) pt a = entry_of (kmemory s) pt a) as E1' by (intros a Ha0; by apply E1).
  assert (forall a, phys (kmemory s1) pt a = phys (kmemory s) pt a \/ a < 0) as Eph.
  { intros a. destruct (decide (0 <= a)); [left|lia]. unfold phys. by rewrite E1'. }
  assert (Z.of_nat (length (drop (Z.to_nat n) src)) = Z.of_nat (length src) - n) as Hld by (rewrite length_drop; lia).
  rewrite Hs in Hf'. rewrite <- Hld in Hf', U', Hnext.
  eapply wp_mono; [apply IH; [done|by eapply user_range_ext|by apply Forall_drop|done]|]. cbv beta.
  intros r s2 t (-> & -> & V2 & E2 & B2 & M2). split; [done|]. split; [done|].
  split; [done|]. split; [intros a Ha0; by rewrite E2, E1'|]. rewrite Hld in M2. rewrite Hld in Hnext. split.
  - intros i b Hi. assert (i < length src)%nat as Hil by (by eapply lookup_lt_Some).
    destruct (decide (Z.of_nat i < n)) as [Hin|Hin].
    + rewrite M2.
      * rewrite phys_same by lia. apply store_byte. rewrite lookup_take_lt; [done|lia].
      * intros a Ha0 E. rewrite Hnext in Ha0 by lia. destruct (Eph a) as [Ea|]; [|lia]. rewrite Ea in E.
        apply (phys_inj s T l pt va (Z.of_nat (length src))) in E; [lia|done|lia|lia].
    + assert (1 <= Z.of_nat (length src) - n) as Hmore by lia. specialize (Hnext Hmore).
      specialize (B2 (i - Z.to_nat n)%nat b). rewrite lookup_drop in B2.
      replace (Z.to_nat n + (i - Z.to_nat n))%nat with i in B2 by lia. specialize (B2 Hi). rewrite Hnext in B2.
      replace (va + n + Z.of_nat (i - Z.to_nat n)) with (va + Z.of_nat i) in B2 by lia.
      destruct (Eph (va + Z.of_nat i)) as [Ea|]; [by rewrite Ea in B2|lia].
  - intros x Hx. rewrite M2.
    + apply store_other. rewrite Hlt. intros Hx'. apply (Hx (va + (x - phys (kmemory s) pt va))); [lia|].
      rewrite phys_same by lia. lia.
    + intros a Ha0. rewrite Hnext in Ha0 by lia. destruct (Eph a) as [Ea|]; [|lia]. rewrite Ea. apply Hx. lia.
Qed.

(** The bytes [copyin] finds. *)
Definition user_bytes (m : mem) (pt va : Z) (n : nat) : list Z :=
  (fun i => m (phys m pt (va + Z.of_nat i))) <$> seq 0 n.

Lemma user_bytes_app m pt va n k : user_bytes m pt va (n + k) = user_bytes m pt va n ++ user_bytes m pt (va + Z.of_nat n) k.
Proof.
  unfold user_bytes. rewrite seq_app, fmap_app. f_equal. cbn [Nat.add]. rewrite <- (Nat.add_0_r n) at 1.
  rewrite <- fmap_add_seq, <- list_fmap_compose. apply list_fmap_ext. intros ? x _. simpl. do 2 f_equal. lia.
Qed.

Lemma user_bytes_page m pt va n : 0 <= va -> va mod PGSIZE + Z.of_nat n <= PGSIZE ->
  user_bytes m pt va n = read_bytes m (phys m pt va) n.
Proof.
  intros Hv Hn. unfold user_bytes, read_bytes. apply list_fmap_ext. intros ? i Hi. apply lookup_seq in Hi as [-> Hi].
  rewrite phys_same by lia. done.
Qed.

Lemma copyin_loop_eq T l pt fuel va len s :
  T !! pt = Some 2%nat -> vm_ok s T l -> user_range s T l pt va len -> span_fuel fuel va len -> 0 <= len ->
  copyin_loop fuel pt va len s = Ok (user_bytes (kmemory s) pt va (Z.to_nat len), 0) s [].
Proof.
  intros Hp. revert va len. induction fuel as [|fuel IH]; intros va len V U Hf Hl; cbn [copyin_loop];
    (destruct (Z.ltb_spec 0 len) as [Hpos|]; [|by replace (Z.to_nat len) with 0%nat by lia]).
  { apply span_fuel_zero in Hf. lia. }
  pose proof U as [[U0 U1] _ _]. destruct (span_fuel_next fuel va len ltac:(lia) ltac:(lia) Hf) as [Hf' _].
  destruct (copy_step s T l pt va len V Hp U ltac:(lia)) as (Hw & Hnz & Hs & Ha & Hnx & Hn & U' & Hnext).
  set (n := Z.min len (PGSIZE - va mod PGSIZE)) in *. set (pa := user_pa (entry_of (kmemory s) pt va)) in *.
  cbv zeta. unfold bind. rewrite Hw, (proj2 (Z.eqb_neq pa 0)) by done. rewrite Hs in *. unfold get. rewrite IH by (done || lia).
  cbn [after ret fst snd app]. rewrite Ha. do 2 f_equal.
  replace (Z.to_nat len) with (Z.to_nat n + Z.to_nat (len - n))%nat by lia. rewrite user_bytes_app.
  pose proof (Z.mod_pos_bound va PGSIZE ltac:(done)). rewrite (user_bytes_page _ _ va) by lia. f_equal. destruct (decide (1 <= len - n)) as [Hm|Hm].
  - rewrite Hnext by done. by rewrite Z2Nat.id by lia.
  - by replace (Z.to_nat (len - n)) with 0%nat by lia.
Qed.

End Copy.

(** C34: on user pages below 4 gigabytes [copyout] succeeds, writes exactly
    the bytes given at the physical addresses the page table maps the virtual
    ones to, and no other byte of memory; [copyin] of the same range then
    yields them back. *)
Theorem copyout_copyin `{LayoutOk} s T l pt va src :
  vm_ok s T l -> T !! pt = Some 2%nat -> user_range s T l pt va (Z.of_nat (length src)) -> Forall byte_ok src ->
  exists s', copyout pt va src s = Ok 0 s' [] /\ vm_ok s' T l /\
    copyin pt va (Z.of_nat (length src)) s' = Ok (src, 0) s' [] /\
    (forall x, (forall a, va <= a < va + Z.of_nat (length src) -> x <> phys (kmemory s) pt a) -> kmemory s' x = kmemory s x).
Proof.
  intros V Hp U Hb. pose proof (copy_fuel_ok va (Z.of_nat (length src)) ltac:(lia)) as Hf.
  destruct (wp_run _ _ _ (copyout_loop_spec T l pt _ va src s Hp V U Hb Hf)) as (r & s' & t & Hrun & -> & -> & V' & E' & B' & M').
  exists s'. split; [done|]. split; [done|]. split; [|done]. unfold copyin.
  rewrite (copyin_loop_eq T l); [|done|done|by eapply user_range_ext|done|lia]. do 2 f_equal. rewrite Nat2Z.id.
  apply list_eq. intros i. unfold user_bytes. rewrite list_lookup_fmap. pose proof U as [[U0 U1] _ _].
  destruct (src !! i) as [b|] eqn:Hi.
  - rewrite lookup_seq_lt by (by eapply lookup_lt_Some). cbn [fmap option_fmap option_map Nat.add]. f_equal.
    unfold phys. rewrite E' by lia. by apply B'.
  - rewrite lookup_seq_ge by (by apply lookup_ge_None). done.
Qed.

(** An address space of one page: virtual page 1 is the page at 0x80400000. *)
Definition as_ex : kmem :=
  Kmem (store64 0x80300000 (Z.lor (PA2PTE 0x80301000) PTE_V)
       (store64 0x80301000 (Z.lor (PA2PTE 0x80302000) PTE_V)
       (store64 (0x80302000 + 8) (make_pte 0x80400000 (Z.lor PTE_R (Z.lor PTE_W PTE_U))) (fun _ => 0)))) 0.
Definition T_as : gmap Z nat := {[ 0x80300000 := 2%nat; 0x80301000 := 1%nat; 0x80302000 := 0%nat ]}.

Lemma as_entry p i : p = 0x80300000 \/ p = 0x80301000 -> 0 <= i < 512 ->
  pte_at (kmemory as_ex) p i = if i =? 0 then Z.lor (PA2PTE (p + PGSIZE)) PTE_V else 0.
Proof.
  intros Hp Hi. destruct (Z.eqb_spec i 0) as [->|Hne]; [by destruct Hp as [-> | ->]; vm_compute|].
  unfold pte_at. rewrite (load64_ext _ (fun _ => 0)); [done|]. intros x Hx. unfold as_ex. cbn [kmemory].
  rewrite !store64_other by lia. done.
Qed.

Lemma T_as_cases p k : T_as !! p = Some k ->
  (p = 0x80300000 /\ k = 2%nat) \/ (p = 0x80301000 /\ k = 1%nat) \/ (p = 0x80302000 /\ k = 0%nat).
Proof.
  unfold T_as. intros H. repeat (apply lookup_insert_Some in H as [[<- <-]|[_ H]]; [tauto|]).
  apply lookup_singleton_Some in H as [<- <-]. tauto.
Qed.

Lemma vm_as : vm_ok as_ex T_as [].
Proof.
  assert (forall p k i, T_as !! p = Some (S k) -> 0 <= i < 512 -> has (pte_at (kmemory as_ex) p i) PTE_V = true ->
    i = 0 /\ PTE2PA (pte_at (kmemory as_ex) p i) = p + PGSIZE /\ (p = 0x80300000 /\ k = 1%nat \/ p = 0x80301000 /\ k = 0%nat)) as He.
  { intros p k i Hp Hi Hv. assert (p = 0x80300000 /\ k = 1%nat \/ p = 0x80301000 /\ k = 0%nat) as Hc.
    { apply T_as_cases in Hp as [[-> [= ->]]|[[-> [= ->]]|[_ Hk]]]; [by left|by right|done]. }
    rewrite as_entry in * by (done || tauto). destruct (Z.eqb_spec i 0); [|done].
    split; [done|]. split; [|done]. by destruct Hc as [[-> _]|[-> _]]; vm_compute. }
  constructor.
  - constructor; [done|constructor|constructor|]. do 3 apply store64_ok. intros x. split; simpl; lia.
  - constructor.
    + intros p k Hp. apply T_as_cases in Hp as [[-> _]|[[-> _]|[-> _]]]; by vm_compute.
    + intros p k i Hp Hi Hv. destruct (He p k i Hp Hi Hv) as (_ & -> & [[-> ->]|[-> ->]]); by vm_compute.
    + intros p q k k' i j Hp Hq Hi Hj Hv Hv' E. destruct (He p k i Hp Hi Hv) as (-> & E1 & _).
      destruct (He q k' j Hq Hj Hv') as (-> & E2 & _). rewrite E1, E2 in E. lia.
  - intros p Hp. by apply not_elem_of_nil in Hp.
Qed.

Lemma as_user va : 0x1000 <= va < 0x2000 -> user_pa (entry_of (kmemory as_ex) 0x80300000 va) = 0x80400000.
Proof.
  intros Hva. rewrite (entry_same _ _ va 0x1000); [by vm_compute|lia|lia|]. unfold PGSIZE. Z.div_mod_to_equations. lia.
Qed.

Lemma copyout_copyin_witness : exists s',
  copyout 0x80300000 0x1ffe [104; 105] as_ex = Ok 0 s' [] /\ copyin 0x80300000 0x1ffe 2 s' = Ok ([104; 105], 0) s' [].
Proof.
  destruct (copyout_copyin as_ex T_as [] 0x80300000 0x1ffe [104; 105] vm_as eq_refl) as (s' & H1 & _ & H2 & _).
  - constructor; [simpl; lia| |].
    + intros a Ha. simpl in Ha. rewrite as_user by lia. split; [by vm_compute|]. split; [done|apply not_elem_of_nil].
    + intros a b Ha Hb _. simpl in Ha, Hb. unfold PGSIZE. Z.div_mod_to_equations. lia.
  - by repeat constructor.
  - exists s'. split; [exact H1|exact H2].
Defined.

(** ** Above 4 gigabytes *)

(** C35: the page address in [copyout] is cut to 32 bits.  For a destination
    at or above 4 gigabytes it looks up the page of the low 32 bits, and if
    that one is a user page it reports success and stores all the bytes
    4 gigabytes or more beyond it. *)
Theorem copyout_truncates `{LayoutOk} s T l pt va src :
  vm_ok s T l -> T !! pt = Some 2%nat -> 2 ^ 32 <= va < MAXVA -> 1 <= Z.of_nat (length src) < 2 ^ 32 ->
  let va0 := va mod 2 ^ 32 - va mod PGSIZE in
  let pa := user_pa (entry_of (kmemory s) pt va0) in
  page_ok pa ->
  exists q, 1 <= q /\ va = va0 + va mod PGSIZE + q * 2 ^ 32 /\
    copyout pt va src s =
      Ok 0 (set_memory (store (pa + va mod PGSIZE + q * 2 ^ 32) src (kmemory s)) s) [].
Proof.
  intros V Hp Hva Hlen va0 pa Hpa. change MAXVA with (2 ^ 38) in Hva.
  pose proof (Z.mod_pos_bound va PGSIZE ltac:(done)) as Ho. pose proof (page_pos pa Hpa) as Hpos. pose proof Hpa as [_ Hpr].
  pose proof (Z.mod_pos_bound va (2 ^ 32) ltac:(lia)) as H32. pose proof (Z.div_mod va (2 ^ 32) ltac:(lia)) as Hd.
  assert (page_of va = va0) as Ev.
  { unfold page_of. rewrite PGROUNDDOWN_eq by lia. unfold u32, va0. rewrite <- Zminus_mod_idemp_l, Z.mod_small; [done|].
    unfold PGSIZE in *. Z.div_mod_to_equations. lia. }
  assert (0 <= va0 < 2 ^ 32) as Hv0 by (rewrite <- Ev; apply u32_range).
  assert (1 <= va / 2 ^ 32 < 2 ^ 6) as Hq by (split; [apply Z.div_le_lower_bound; lia|apply Z.div_lt_upper_bound; lia]).
  exists (va / 2 ^ 32). split; [lia|]. split; [unfold va0; lia|].
  assert (span va (Z.of_nat (length src)) = Z.of_nat (length src)) as Hs.
  { unfold span. rewrite Ev. assert (u64 (PGSIZE - (va - va0)) = 2 ^ 64 + PGSIZE - (va - va0)) as ->.
    { unfold u64. rewrite <- (Z_mod_plus_full _ 1), Z.mod_small; unfold va0, PGSIZE in *; lia. }
    rewrite (proj2 (Z.ltb_lt _ _)); [done|]. unfold va0, PGSIZE in *. lia. }
  unfold copyout, copy_fuel. replace (Z.to_nat (Z.of_nat (length src) / PGSIZE + 2)) with (S (S (Z.to_nat (Z.of_nat (length src) / PGSIZE))))
    by (assert (0 <= Z.of_nat (length src) / PGSIZE) by (apply Z.div_pos; [lia|done]); lia).
  destruct src as [|b src]; [simpl in Hlen; lia|]. cbn [copyout_loop]. set (bs := b :: src) in *. cbv zeta.
  rewrite Ev, Hs, Nat2Z.id, drop_all, firstn_all. unfold bind.
  rewrite (walkaddr_eq s T l) by (done || change MAXVA with (2 ^ 38); lia). fold pa.
  rewrite (proj2 (Z.eqb_neq pa 0)) by lia. cbn -[store set_memory Z.pow Z.mul Z.modulo Z.div u64]. do 4 f_equal.
  rewrite u64_small by (unfold PHYSTOP, KERNBASE in Hpr; unfold va0 in *; lia). unfold va0. lia.
Qed.

Lemma copyout_truncates_witness : exists q,
  0x300001008 = 0x1000 + 8 + q * 2 ^ 32 /\
  copyout 0x80300000 0x300001008 [65] as_ex = Ok 0 (set_memory (store (0x80400000 + 8 + q * 2 ^ 32) [65] (kmemory as_ex)) as_ex) [].
Proof.
  destruct (copyout_truncates as_ex T_as [] 0x80300000 0x300001008 [65] vm_as eq_refl) as (q & H1 & H2 & H3).
  - by vm_compute.
  - simpl. lia.
  - by vm_compute.
  - exists q. split; [exact H2|]. exact H3.
Defined.
