(* ===== verification/Spinlock.v ===== *)
(** * Spin locks (kernel/spinlock.c, kernel/spinlock.h)

    The operations on one lock as each CPU runs them alone, then their atomic
    instructions interleaved between the CPUs.  Elsewhere a critical section
    under a spin lock is one atomic step; the theorem on interleavings below
    is what that rests on. *)

From Stdlib Require Import ZArith Lia.
From stdpp Require Import base list strings.
From S2P Require Import Prelude.
Local Open Scope xv6_scope.

(** ** Data *)

(** The fields of struct cpu used here, the interrupt-enable bit of the
    sstatus register, and the point the CPU has reached in the calls below. *)
Inductive pc :=
| Out                   (* not in the critical section *)
| AcqHold               (* in acquire, at the test of lk->locked in holding() *)
| AcqCpu                (* lk->locked was set: at the test of lk->cpu *)
| Spin                  (* at the test-and-set *)
| Own                   (* the test-and-set returned 0: at lk->cpu = mycpu() *)
| In                    (* in the critical section *)
| RelHold               (* in release, at the test of lk->locked in holding() *)
| RelCpu                (* at the test of lk->cpu *)
| RelOwner              (* at lk->cpu = 0 *)
| RelClear              (* at the store of 0 to lk->locked *)
| RelPop.               (* at pop_off() *)

Record cpu := Cpu { noff : Z; intena : Z; intr : bool; at_ : pc }.
Definition cpu_start (on : bool) : cpu := Cpu 0 0 on Out.
#[global] Instance cpu_inhabited : Inhabited cpu := populate (cpu_start false).
#[global] Instance pc_eq_dec : EqDecision pc.
Proof. solve_decision. Defined.

(** struct spinlock; [lk_cpu] is None for a null pointer. *)
Record spinlock := Spinlock { locked : Z; lk_cpu : option nat }.

Record sstate := SState { cpus : list cpu; lk : spinlock; ntest_and_set : Z }.

Definition set_cpus (l : list cpu) (s : sstate) : sstate := SState l (lk s) (ntest_and_set s).
Definition set_lk (l : spinlock) (s : sstate) : sstate := SState (cpus s) l (ntest_and_set s).
Definition set_at (p : pc) (c : cpu) : cpu := Cpu (noff c) (intena c) (intr c) p.

Definition initlock : M sstate unit := modify (set_lk (Spinlock 0 None)).

(** ** The interrupt-disable count *)

Definition intr_off (c : cpu) : cpu := Cpu (noff c) (intena c) false (at_ c).
Definition intr_on (c : cpu) : cpu := Cpu (noff c) (intena c) true (at_ c).

Definition push_off : M cpu unit :=
  old <- get intr ;;
  modify intr_off ;;;
  c <- get (fun c => c) ;;
  (if noff c =? 0 then modify (fun c => Cpu (noff c) (Z.b2z old) (intr c) (at_ c)) else ret tt) ;;;
  modify (fun c => Cpu (noff c + 1) (intena c) (intr c) (at_ c)).

Definition pop_off : M cpu unit :=
  on <- get intr ;;
  if on then panic "pop_off - interruptible"
  else
    modify (fun c => Cpu (noff c - 1) (intena c) (intr c) (at_ c)) ;;;
    c <- get (fun c => c) ;;
    if noff c <? 0 then panic "pop_off"
    else if (noff c =? 0) && ctrue (intena c) then modify intr_on
    else ret tt.

(** [mycpu()] as CPU [i] sees it. *)
Definition on_cpu {A} (i : nat) (m : M cpu A) : M sstate A :=
  _ <- fetch (fun s => cpus s !! i) ;;
  zoom (fun s => cpus s !!! i) (fun c s => set_cpus (<[i := c]> (cpus s)) s) m.

(** ** The operations, run without interruption *)

Definition holding (i : nat) : M sstate bool :=
  on_cpu i push_off ;;;
  l <- get lk ;;
  on_cpu i pop_off ;;;
  ret (ctrue (locked l) && bool_decide (lk_cpu l = Some i)).

(** The loop around the test-and-set never ends when no other CPU runs. *)
Definition acquire (i : nat) : M sstate unit :=
  on_cpu i push_off ;;;
  h <- holding i ;;
  if h then panic "acquire"
  else
    l <- get lk ;;
    if ctrue (locked l) then diverge
    else modify (set_lk (Spinlock 1 (Some i))).

Definition release (i : nat) : M sstate unit :=
  h <- holding i ;;
  if negb h then panic "release"
  else
    modify (set_lk (Spinlock 0 None)) ;;;
    on_cpu i pop_off.

Definition sys_ntas : M sstate Z := get ntest_and_set.

(** ** The operations, one atomic access at a time *)

Definition goto (i : nat) (p : pc) : M sstate unit := on_cpu i (modify (set_at p)).

(** The next instruction of CPU [i]: a load, a store or an atomic swap on the
    lock, with the local operations around it. *)
Definition cpu_step (i : nat) : M sstate unit :=
  c <- fetch (fun s => cpus s !! i) ;;
  l <- get lk ;;
  match at_ c with
  | Out => on_cpu i push_off ;;; on_cpu i push_off ;;; goto i AcqHold
  | AcqHold => if ctrue (locked l) then goto i AcqCpu else on_cpu i pop_off ;;; goto i Spin
  | AcqCpu => on_cpu i pop_off ;;; if bool_decide (lk_cpu l = Some i) then panic "acquire" else goto i Spin
  | Spin =>
      modify (set_lk (Spinlock 1 (lk_cpu l))) ;;;
      if ctrue (locked l) then modify (fun s => SState (cpus s) (lk s) (u64 (ntest_and_set s + 1)))
      else goto i Own
  | Own => modify (set_lk (Spinlock (locked l) (Some i))) ;;; goto i In
  | In => on_cpu i push_off ;;; goto i RelHold
  | RelHold => if ctrue (locked l) then goto i RelCpu else on_cpu i pop_off ;;; panic "release"
  | RelCpu => on_cpu i pop_off ;;; if bool_decide (lk_cpu l = Some i) then goto i RelOwner else panic "release"
  | RelOwner => modify (set_lk (Spinlock (locked l) None)) ;;; goto i RelClear
  | RelClear => modify (set_lk (Spinlock 0 (lk_cpu l))) ;;; goto i RelPop
  | RelPop => on_cpu i pop_off ;;; goto i Out
  end.

(** Some CPU makes a step. *)
Definition sstep (s s' : sstate) : Prop := exists i t, cpu_step i s = Ok tt s' t.

(** ** Interrupts *)

(** A CPU whose count is consistent with its interrupt bit. *)
Definition cpu_ok (c : cpu) : Prop := 0 <= noff c /\ (intr c = true -> noff c = 0).

(** How deep the calls of [push_off] are nested at each point. *)
Definition depth (p : pc) : Z :=
  match p with
  | Out => 0
  | AcqHold | AcqCpu | RelHold | RelCpu => 2
  | _ => 1
  end.

(** [pop_off] undoes [push_off]: after as many of the one as of the other the
    count and the interrupts are as before. *)
Lemma push_off_run c : push_off c =
  Ok tt (Cpu (noff c + 1) (if noff c =? 0 then Z.b2z (intr c) else intena c) false (at_ c)) [].
Proof. unfold push_off, bind, get, modify. simpl. by destruct (noff c =? 0). Qed.

Lemma pop_off_run c : 1 <= noff c -> intr c = false -> pop_off c =
  Ok tt (Cpu (noff c - 1) (intena c) ((noff c - 1 =? 0) && ctrue (intena c)) (at_ c)) [].
Proof.
  intros H1 H2. unfold pop_off, bind, get, modify. rewrite H2. simpl.
  destruct (Z.ltb_spec (noff c - 1) 0); [lia|]. destruct ((noff c - 1 =? 0) && _); simpl; [done|]. by rewrite H2.
Qed.

Lemma push_pop_off c : cpu_ok c -> (push_off ;;; pop_off) c =
  Ok tt (Cpu (noff c) (if noff c =? 0 then Z.b2z (intr c) else intena c) (intr c) (at_ c)) [].
Proof.
  intros [H1 H2]. unfold bind. rewrite push_off_run, pop_off_run by (simpl; done || lia).
  cbn [after app noff intena intr at_]. rewrite Z.add_simpl_r. do 2 f_equal. destruct (Z.eqb_spec (noff c) 0) as [E|E]; cbn -[Z.b2z].
  - by destruct (intr c).
  - destruct (intr c); [|done]. by rewrite H2 in E.
Qed.

(** ** Mutual exclusion *)

(** The points between a successful test-and-set and the clearing of the
    lock, and those at which the lock records its CPU. *)
Definition owns (p : pc) : bool :=
  match p with Own | In | RelHold | RelCpu | RelOwner | RelClear => true | _ => false end.
Definition recorded (p : pc) : bool :=
  match p with In | RelHold | RelCpu | RelOwner => true | _ => false end.

Record sinv (s : sstate) : Prop := {
  si_cpu : forall i c, cpus s !! i = Some c ->
    depth (at_ c) <= noff c /\ (intr c = true -> noff c = 0);
  si_locked : forall i c, cpus s !! i = Some c -> owns (at_ c) = true -> locked (lk s) = 1;
  si_one : forall i j c e, cpus s !! i = Some c -> cpus s !! j = Some e ->
    owns (at_ c) = true -> owns (at_ e) = true -> i = j;
  si_owner : forall i c, cpus s !! i = Some c -> (lk_cpu (lk s) = Some i <-> recorded (at_ c) = true) }.

Lemma sinv_update s i c c' l' n :
  sinv s -> cpus s !! i = Some c ->
  depth (at_ c') <= noff c' /\ (intr c' = true -> noff c' = 0) ->
  (owns (at_ c') = true -> locked l' = 1 /\ (owns (at_ c) = true \/ locked (lk s) = 0)) ->
  locked l' = locked (lk s) \/ locked l' = 1 \/ owns (at_ c) = true ->
  (lk_cpu l' = Some i <-> recorded (at_ c') = true) ->
  (forall j e, j <> i -> cpus s !! j = Some e -> lk_cpu l' = Some j <-> lk_cpu (lk s) = Some j) ->
  sinv (SState (<[i := c']> (cpus s)) l' n).
Proof.
  intros [I1 I2 I3 I4] Hi Hc Hown Hl Hrec Hoth.
  assert (forall j e, j <> i -> cpus s !! j = Some e -> owns (at_ e) = true -> owns (at_ c') = true -> False) as Hex.
  { intros j e Hne Hj He Ho. destruct (Hown Ho) as [_ [Ho'|Ho']].
    - by apply Hne, (I3 j i e c).
    - pose proof (I2 j e Hj He). lia. }
  constructor; cbn [cpus lk].
  - intros j e Hj. apply lookup_insert_list in Hj as [(-> & -> & _)|[_ Hj]]; [done|eauto].
  - intros j e Hj He. apply lookup_insert_list in Hj as [(-> & -> & _)|[Hne Hj]]; [by apply Hown|].
    destruct Hl as [->|[?|Ho]]; [eauto|done|]. exfalso. by apply Hne, (I3 j i e c).
  - intros j k e f Hj Hk He Hf.
    apply lookup_insert_list in Hj as [(-> & -> & _)|[Hnj Hj]]; apply lookup_insert_list in Hk as [(-> & -> & _)|[Hnk Hk]]; eauto;
      exfalso; eauto.
  - intros j e Hj. apply lookup_insert_list in Hj as [(-> & -> & _)|[Hne Hj]]; [done|].
    rewrite (Hoth j e) by done. eauto.
Qed.

Section Steps.
Context (i : nat) (s : sstate) (c : cpu) (Hi : cpus s !! i = Some c).

Lemma wp_on_cpu {A} (m : M cpu A) (Q : A -> sstate -> list event -> Prop) :
  wp m c (fun a c' t => Q a (set_cpus (<[i := c']> (cpus s)) s) t) -> wp (on_cpu i m) s Q.
Proof.
  intros H. unfold on_cpu. apply wp_bind. eapply wp_fetch; [exact Hi|]. apply wp_zoom.
  by rewrite (list_lookup_total_correct _ _ _ Hi).
Qed.

Lemma wp_push_off (Q : unit -> sstate -> list event -> Prop) :
  Q tt (set_cpus (<[i := Cpu (noff c + 1) (if noff c =? 0 then Z.b2z (intr c) else intena c) false (at_ c)]> (cpus s)) s) [] ->
  wp (on_cpu i push_off) s Q.
Proof. intros H. apply wp_on_cpu. eapply wp_eq; [apply push_off_run|done]. Qed.

Lemma wp_pop_off (Q : unit -> sstate -> list event -> Prop) :
  1 <= noff c -> intr c = false ->
  Q tt (set_cpus (<[i := Cpu (noff c - 1) (intena c) ((noff c - 1 =? 0) && ctrue (intena c)) (at_ c)]> (cpus s)) s) [] ->
  wp (on_cpu i pop_off) s Q.
Proof. intros H1 H2 H. apply wp_on_cpu. eapply wp_eq; [by apply pop_off_run|done]. Qed.

Lemma wp_goto p (Q : unit -> sstate -> list event -> Prop) :
  Q tt (set_cpus (<[i := set_at p c]> (cpus s)) s) [] -> wp (goto i p) s Q.
Proof. intros H. by apply wp_on_cpu. Qed.

End Steps.

(** The next local operation of the CPU, in a state given by its record. *)
Ltac local_step Hi :=
  lazymatch goal with
  | |- wp (bind _ _) _ _ => apply wp_bind
  | |- wp (modify _) _ _ => apply wp_modify
  | |- wp (on_cpu _ push_off) _ _ => eapply wp_push_off; [cbn; by eauto using list_lookup_insert_eq, lookup_lt_Some|]
  | |- wp (on_cpu _ pop_off) _ _ =>
      eapply wp_pop_off; [cbn; by eauto using list_lookup_insert_eq, lookup_lt_Some|simpl; lia|simpl; done|]
  | |- wp (goto _ _) _ _ => eapply wp_goto; [cbn; by eauto using list_lookup_insert_eq, lookup_lt_Some|]
  end; cbv beta; cbn [set_cpus set_lk cpus lk ntest_and_set]; rewrite ?list_insert_insert_eq.

(** The side conditions of [sinv_update] at a given step. *)
Ltac close_inv I Hi E :=
  eapply (sinv_update _ _ _ _ _ _ I Hi); cbn [at_ set_at noff intr locked lk_cpu set_lk lk]; rewrite ?E;
  cbn [owns recorded depth];
  [split; [lia|try done; try (intros Hb; apply andb_true_iff in Hb as [Hb _]; apply Z.eqb_eq in Hb; lia)]
  |naive_solver lia|naive_solver lia|naive_solver
  |let j := fresh in let e := fresh in intros j e ? ?; first [done|naive_solver]].

(** Every step of every CPU succeeds, and keeps the invariant. *)
Lemma cpu_step_inv s i c : sinv s -> cpus s !! i = Some c -> wp (cpu_step i) s (fun _ s' _ => sinv s').
Proof.
  intros I Hi. pose proof (si_cpu _ I i c Hi) as [Hd Hint]. pose proof (si_locked _ I i c Hi) as Hl.
  pose proof (si_owner _ I i c Hi) as Ho.
  unfold cpu_step. apply wp_bind. eapply wp_fetch; [exact Hi|]. apply wp_bind, wp_get.
  assert (at_ c <> Out -> intr c = false) as Hoff.
  { intros Hne. destruct (intr c); [|done]. rewrite Hint in Hd by done. destruct (at_ c); simpl in Hd; done || lia. }
  assert (owns (at_ c) = true -> forall j e, j <> i -> cpus s !! j = Some e -> lk_cpu (lk s) <> Some j) as Hno.
  { intros Hc j e Hne Hj Hr. apply (si_owner _ I j e Hj) in Hr. apply Hne, (si_one _ I j i e c Hj Hi); [|done]. by destruct (at_ e). }
  destruct (at_ c) eqn:E; cbn [depth owns recorded] in *; try specialize (Hoff ltac:(done));
    try (specialize (Hl ltac:(done)); rewrite Hl; specialize (Hno ltac:(done))).
  - repeat local_step Hi. close_inv I Hi E.
  - destruct (ctrue (locked (lk s))) eqn:El; repeat local_step Hi; close_inv I Hi E.
  - repeat local_step Hi. rewrite bool_decide_eq_false_2 by naive_solver. repeat local_step Hi. close_inv I Hi E.
  - local_step Hi. local_step Hi. destruct (ctrue (locked (lk s))) eqn:El; unfold ctrue in El; bools.
    + local_step Hi. rewrite <- (list_insert_id _ _ _ Hi). close_inv I Hi E.
    + repeat local_step Hi. close_inv I Hi E.
  - repeat local_step Hi. close_inv I Hi E.
  - repeat local_step Hi. close_inv I Hi E.
  - cbn [ctrue Z.eqb negb]. repeat local_step Hi. close_inv I Hi E.
  - repeat local_step Hi. rewrite bool_decide_eq_true_2 by naive_solver. repeat local_step Hi. close_inv I Hi E.
  - repeat local_step Hi. close_inv I Hi E.
  - repeat local_step Hi. close_inv I Hi E.
  - repeat local_step Hi. close_inv I Hi E.
Qed.

(** The CPUs before they use the lock. *)
Definition sinit (on : list bool) : sstate := SState (cpu_start <$> on) (Spinlock 0 None) 0.

Lemma sinit_inv on : sinv (sinit on).
Proof.
  assert (forall i c, cpus (sinit on) !! i = Some c -> noff c = 0 /\ at_ c = Out) as H.
  { intros i c Hi. apply list_lookup_fmap_Some in Hi as (b & -> & _). done. }
  constructor.
  - intros i c Hi. destruct (H i c Hi) as [-> ->]. done.
  - intros i c Hi Ho. destruct (H i c Hi) as [_ E]. by rewrite E in Ho.
  - intros i j c e Hi _ Ho. destruct (H i c Hi) as [_ E]. by rewrite E in Ho.
  - intros i c Hi. destruct (H i c Hi) as [_ ->]. done.
Qed.

Lemma sinv_reach on s : star sstep (sinit on) s -> sinv s.
Proof.
  intros H. eapply star_invariant; [|exact H|apply sinit_inv]. intros a b I (i & t & Hrun).
  destruct (cpus a !! i) as [c|] eqn:Hi.
  - eapply (wp_Ok _ _ _ _ _ _ (cpu_step_inv a i c I Hi) Hrun).
  - unfold cpu_step, bind, fetch in Hrun. by rewrite Hi in Hrun.
Qed.

(** C2: however the instructions of the CPUs interleave, at most one of them
    is in the critical section, with its interrupts off; no CPU ever panics in
    [acquire] or [release]; and every step can be taken. *)
Theorem spinlock_excludes on s :
  star sstep (sinit on) s ->
  (forall i j c e, cpus s !! i = Some c -> cpus s !! j = Some e -> at_ c = In -> at_ e = In -> i = j) /\
  (forall i c, cpus s !! i = Some c -> at_ c = In -> intr c = false /\ lk s = Spinlock 1 (Some i)) /\
  (forall i c, cpus s !! i = Some c -> exists s' t, cpu_step i s = Ok tt s' t).
Proof.
  intros H. apply sinv_reach in H as I. split_and!.
  - intros i j c e Hi Hj Hc He. apply (si_one _ I i j c e); [done|done|by rewrite Hc|by rewrite He].
  - intros i c Hi Hc. destruct (si_cpu _ I i c Hi) as [Hd Hint]. rewrite Hc in Hd. simpl in Hd.
    pose proof (si_locked _ I i c Hi) as Hl. destruct (si_owner _ I i c Hi) as [_ Ho]. rewrite Hc in Hl, Ho. split.
    + destruct (intr c); [|done]. rewrite Hint in Hd by done. lia.
    + destruct (lk s) as [l o]. simpl in *. by rewrite Hl, Ho.
  - intros i c Hi. destruct (wp_run _ _ _ (cpu_step_inv s i c I Hi)) as ([] & s' & t & Hrun & _). by exists s', t.
Qed.

(** A schedule of the CPUs. *)
Fixpoint run_schedule (sch : list nat) (s : sstate) : option sstate :=
  match sch with
  | [] => Some s
  | i :: sch' => match cpu_step i s with Ok _ s' _ => run_schedule sch' s' | _ => None end
  end.

Lemma run_schedule_star sch s0 s s' : star sstep s0 s -> run_schedule sch s = Some s' -> star sstep s0 s'.
Proof.
  revert s. induction sch as [|i sch IH]; intros s H Hr; [by simplify_eq/=|]. cbn [run_schedule] in Hr.
  destruct (cpu_step i s) as [[] s1 t| | | |] eqn:E; try done. eapply IH; [|exact Hr]. eapply star_snoc; [exact H|by exists i, t].
Qed.

(** Two CPUs compete; the second one spins while the first is inside. *)
Lemma spinlock_excludes_witness : exists s c,
  run_schedule [0; 0; 0; 1; 1; 1; 0; 1]%nat (sinit [true; true]) = Some s /\ cpus s !! 0%nat = Some c /\
  at_ c = In /\ ntest_and_set s = 1 /\ intr c = false /\ lk s = Spinlock 1 (Some 0%nat).
Proof.
  destruct (run_schedule [0; 0; 0; 1; 1; 1; 0; 1]%nat (sinit [true; true])) as [s|] eqn:E; [|vm_compute in E; discriminate].
  pose proof (run_schedule_star _ _ _ _ (star_refl _ _) E) as H.
  destruct (spinlock_excludes [true; true] s H) as (_ & H2 & _).
  vm_compute in E. injection E as <-. do 2 eexists. split; [reflexivity|]. split; [reflexivity|].
  split; [reflexivity|]. split; [reflexivity|]. by apply (H2 0%nat).
Defined.

(** ** The two views agree *)

(** The CPU that holds the lock, and that held it before it called. *)
Definition inside (c : cpu) (p : pc) : cpu :=
  Cpu (noff c + 1) (if noff c =? 0 then Z.b2z (intr c) else intena c) false p.

Lemma acquire_run i s c :
  cpus s !! i = Some c -> cpu_ok c -> lk s = Spinlock 0 None ->
  wp (acquire i) s (fun _ s' _ =>
    s' = SState (<[i := inside c (at_ c)]> (cpus s)) (Spinlock 1 (Some i)) (ntest_and_set s)).
Proof.
  intros Hi [Hn Hint] Hl. unfold acquire, holding. repeat local_step Hi. apply wp_get. repeat local_step Hi.
  apply wp_ret. rewrite Hl. cbn [locked ctrue Z.eqb negb andb]. local_step Hi. apply wp_get.
  cbn [set_cpus set_lk lk locked ctrue Z.eqb negb]. rewrite ?Hl. cbn [locked ctrue Z.eqb negb]. local_step Hi. unfold inside. cbn [noff intena intr at_].
  destruct (Z.eqb_spec (noff c + 1) 0); [lia|]. destruct (Z.eqb_spec (noff c + 1 + 1 - 1) 0); [lia|].
  replace (noff c + 1 + 1 - 1) with (noff c + 1) by lia. done.
Qed.

Lemma step_alone sch s (Q : sstate -> Prop) i :
  wp (cpu_step i) s (fun _ s' _ => exists s2, run_schedule sch s' = Some s2 /\ Q s2) ->
  exists s2, run_schedule (i :: sch) s = Some s2 /\ Q s2.
Proof. unfold wp. cbn [run_schedule]. by destruct (cpu_step i s). Qed.

(** The next instruction of a schedule. *)
Ltac first_instr Hi := apply step_alone; unfold cpu_step; apply wp_bind; eapply wp_fetch;
  [cbn; first [exact Hi|by apply list_lookup_insert_eq]|]; apply wp_bind, wp_get.

(** Run alone on a free lock, the instructions of a CPU do what [acquire]
    does, and end in the critical section. *)
Lemma acquire_alone i s c :
  cpus s !! i = Some c -> at_ c = Out -> cpu_ok c -> lk s = Spinlock 0 None ->
  exists s', run_schedule [i; i; i; i] s = Some s' /\
    s' = SState (<[i := inside c In]> (cpus s)) (Spinlock 1 (Some i)) (ntest_and_set s).
Proof.
  intros Hi Hc [Hn Hint] Hl. destruct s as [cs l n]. cbn [cpus lk ntest_and_set] in *. subst l.
  assert (i < length cs)%nat as Hlen by (by eapply lookup_lt_Some).
  first_instr Hi. rewrite Hc. repeat local_step Hi.
  first_instr Hi. cbn [set_cpus set_lk at_ set_at lk locked ctrue Z.eqb negb]. repeat local_step Hi.
  first_instr Hi. cbn [set_cpus set_lk at_ set_at lk locked ctrue Z.eqb negb lk_cpu]. repeat local_step Hi.
  first_instr Hi. cbn [set_cpus set_lk at_ set_at lk locked ctrue Z.eqb negb lk_cpu]. repeat local_step Hi.
  eexists. split; [done|]. unfold inside, set_at. cbn [noff intena intr at_].
  destruct (Z.eqb_spec (noff c + 1) 0); [lia|]. destruct (Z.eqb_spec (noff c + 1 + 1 - 1) 0); [lia|].
  replace (noff c + 1 + 1 - 1) with (noff c + 1) by lia. done.
Qed.
