(* ===== verification/Printf.v ===== *)
(** * Formatted output (kernel/printf.c, kernel/uart.c) *)

From Stdlib Require Import ZArith Lia.
From stdpp Require Import base list strings.
From S2P Require Import Prelude CString.
Local Open Scope xv6_scope.

(** ** The UART (uart.c)

    A store to a register of the device is an event at the device; [THR] and
    [LSR] are the transmit and line status registers.  [uartputc] first waits
    until the device reports the transmitter empty, which only the device can
    bring about. *)

Definition RHR : Z := 0.
Definition THR : Z := 0.
Definition IER : Z := 1.
Definition FCR : Z := 2.
Definition LCR : Z := 3.
Definition LSR : Z := 5.

(** The registers [uartinit] writes, in order. *)
Definition uartinit : list (Z * Z) :=
  [(IER, 0x00); (LCR, 0x80); (0, 0x03); (1, 0x00); (LCR, 0x03); (FCR, 0x07); (IER, 0x01)].

Definition uartputc {S} (c : Z) : M S unit := emit (EPutc (u8 c)).

(** [lsr] and [rhr] are what the device has in the two registers. *)
Definition uartgetc (lsr rhr : Z) : Z := if ctrue (Z.land lsr 1) then u8 rhr else -1.

(** ** The console output *)

Definition BACKSPACE : Z := 0x100.

(** [panicked] freezes every CPU that prints. *)
Record pstate := PState { panicked : Z; locking : Z }.

Definition consputc (c : Z) : M pstate unit :=
  p <- get panicked ;;
  if ctrue p then diverge
  else if c =? BACKSPACE then uartputc 8 ;;; uartputc 32 ;;; uartputc 8
  else uartputc c.

(** ** Numbers *)

(** digits[d], with d < 16. *)
Definition digit (d : Z) : Z := if d <? 10 then 48 + d else 87 + d.

(** do buf[i++] = digits[x % base]; while((x /= base) != 0): least significant
    digit first.  A 32-bit number has at most 32 digits. *)
Fixpoint digits_rev (fuel : nat) (x base : Z) : list Z :=
  match fuel with
  | O => []
  | S fuel' => digit (x mod base) :: (if x / base =? 0 then [] else digits_rev fuel' (x / base) base)
  end.

(** The characters [printint] sends, in the order it sends them. *)
Definition printint_chars (xx base : Z) (sign : bool) : list Z :=
  let neg := sign && (xx <? 0) in
  let x := if neg then u32 (- xx) else u32 xx in
  let buf := digits_rev 32 x base ++ (if neg then [45] else []) in
  rev buf.

Definition printint (xx base : Z) (sign : bool) : M pstate unit :=
  for_all (printint_chars xx base sign) consputc.

(** for (i = 0; i < 16; i++, x <<= 4) consputc(digits[x >> 60]) *)
Fixpoint hex_chars (n : nat) (x : Z) : list Z :=
  match n with
  | O => []
  | S n' => digit (Z.shiftr x 60) :: hex_chars n' (u64 (Z.shiftl x 4))
  end.

Definition printptr (x : Z) : M pstate unit :=
  for_all (48 :: 120 :: hex_chars 16 x) consputc.

(** ** Formats *)

(** A variadic argument. *)
Inductive arg := AInt (x : Z) | APtr (x : Z) | AStr (s : option (list Z)).

Definition PERCENT : Z := 37.

(** The loop over the format.  Too few arguments, or an argument of another
    type than the format asks for, is undefined. *)
Fixpoint printf_loop (fmt : list Z) (args : list arg) : M pstate unit :=
  match fmt with
  | [] => ret tt
  | c :: fmt' =>
      if c =? 0 then ret tt
      else if negb (c =? PERCENT) then consputc c ;;; printf_loop fmt' args
      else
        match fmt' with
        | [] => ret tt
        | c :: fmt'' =>
            if c =? 0 then ret tt
            else if c =? 100 then
              match args with AInt x :: args' => printint x 10 true ;;; printf_loop fmt'' args' | _ => undef end
            else if c =? 120 then
              match args with AInt x :: args' => printint x 16 true ;;; printf_loop fmt'' args' | _ => undef end
            else if c =? 112 then
              match args with APtr x :: args' => printptr x ;;; printf_loop fmt'' args' | _ => undef end
            else if c =? 115 then
              match args with
              | AStr s :: args' =>
                  for_all (cstr (default [40; 110; 117; 108; 108; 41] s)) consputc ;;; printf_loop fmt'' args'
              | _ => undef
              end
            else if c =? PERCENT then consputc PERCENT ;;; printf_loop fmt'' args
            else consputc PERCENT ;;; consputc c ;;; printf_loop fmt'' args
        end
  end.

Definition printf (fmt : option (list Z)) (args : list arg) : M pstate unit :=
  match fmt with
  | None => panic "null fmt"
  | Some fmt => printf_loop fmt args
  end.

(** [panic] as the code has it: the message, then a CPU that spins forever
    with [panicked] set.  The message is used as a format. *)
Definition chars (s : string) : list Z := (fun c => Z.of_N (Ascii.N_of_ascii c)) <$> String.list_ascii_of_string s.

Definition kpanic (s : list Z) : M pstate unit :=
  modify (fun p => PState (panicked p) 0) ;;;
  printf (Some (chars "panic: ")) [] ;;;
  printf (Some s) [] ;;;
  printf (Some (chars newline)) [] ;;;
  modify (fun p => PState 1 (locking p)) ;;;
  diverge.

Definition printfinit : M pstate unit := modify (fun p => PState (panicked p) 1).

(** ** Facts *)

(** The number a list of digits stands for, most significant first. *)
Definition digit_value (c : Z) : Z := if c <? 58 then c - 48 else c - 87.
Definition digits_value (base : Z) (l : list Z) : Z := foldl (fun v c => v * base + digit_value c) 0 l.

(** The number a list of characters stands for, with its sign. *)
Definition int_value (base : Z) (l : list Z) : Z :=
  match l with
  | 45 :: l' => - digits_value base l'
  | _ => digits_value base l
  end.

Lemma digit_value_digit d : 0 <= d < 16 -> digit_value (digit d) = d.
Proof. intros Hd. unfold digit, digit_value. destruct (Z.ltb_spec d 10) as [H|H].
  - destruct (Z.ltb_spec (48 + d) 58); lia.
  - destruct (Z.ltb_spec (87 + d) 58); lia.
Qed.

Lemma digits_value_snoc base l c : digits_value base (l ++ [c]) = digits_value base l * base + digit_value c.
Proof. unfold digits_value. by rewrite foldl_app. Qed.

Lemma digits_rev_value fuel x base : 2 <= base <= 16 -> 0 <= x < 2 ^ Z.of_nat fuel -> (0 < fuel)%nat ->
  digits_value base (rev (digits_rev fuel x base)) = x /\
  Forall (fun c => c <> 45) (digits_rev fuel x base).
Proof.
  intros Hb. revert x. induction fuel as [|fuel IH]; intros x Hx Hf; [lia|]. cbn [digits_rev].
  pose proof (Z.mod_pos_bound x base ltac:(lia)) as Hm. pose proof (Z.div_mod x base ltac:(lia)) as Hd.
  assert (digit (x mod base) <> 45) as Hnm by (unfold digit; destruct (Z.ltb_spec (x mod base) 10); lia).
  destruct (Z.eqb_spec (x / base) 0) as [E|E].
  - unfold digits_value. cbn [rev app foldl]. rewrite digit_value_digit by lia.
    split; [rewrite E in Hd; simpl; lia|by repeat constructor].
  - assert (0 <= x / base) as H0 by (apply Z.div_pos; lia).
    rewrite Nat2Z.inj_succ, Z.pow_succ_r in Hx by lia.
    assert (x / base < 2 ^ Z.of_nat fuel) as H1 by (apply Z.div_lt_upper_bound; nia).
    assert (0 < fuel)%nat as Hf' by (destruct fuel; [simpl in H1; lia|lia]).
    destruct (IH (x / base) ltac:(lia) Hf') as (IH1 & IH4). cbn [rev].
    rewrite digits_value_snoc, IH1, digit_value_digit by lia. split; [lia|by constructor].
Qed.

Lemma digits_rev_length fuel x base k : 2 <= base -> 0 <= x < base ^ Z.of_nat k -> (1 <= k)%nat ->
  (length (digits_rev fuel x base) <= k)%nat.
Proof.
  intros Hb. revert x k. induction fuel as [|fuel IH]; intros x k Hx Hk; cbn [digits_rev length]; [lia|].
  destruct (Z.eqb_spec (x / base) 0) as [|E]; cbn [length]; [lia|].
  destruct k as [|k]; [lia|]. rewrite Nat2Z.inj_succ, Z.pow_succ_r in Hx by lia.
  assert (0 <= x / base) by (apply Z.div_pos; lia). assert (x / base < base ^ Z.of_nat k) by (apply Z.div_lt_upper_bound; lia).
  destruct k as [|k]; [simpl in *; lia|]. specialize (IH (x / base) (S k) ltac:(lia) ltac:(lia)). lia.
Qed.

Lemma int_value_pos base l : Forall (fun c => c <> 45) l -> int_value base (rev l) = digits_value base (rev l).
Proof.
  intros Hl. apply Forall_rev in Hl. unfold int_value. destruct (rev l) as [|c l'] eqn:E; [done|].
  apply Forall_cons in Hl as [Hc _]. destruct c as [|c|c]; try done.
  repeat (destruct c as [c|c|]; try done).
Qed.

(** C37: the characters [printint] prints for an int, signed, are the number
    in the base asked for: reading them back gives it, INT_MIN included; and
    they never overrun the buffer of 16 characters, in the bases in use. *)
Theorem printint_roundtrip xx base :
  - 2 ^ 31 <= xx < 2 ^ 31 -> base = 10 \/ base = 16 ->
  int_value base (printint_chars xx base true) = xx /\ (length (printint_chars xx base true) <= 16)%nat.
Proof.
  intros Hx Hb. assert (2 <= base <= 16) as Hb' by lia. unfold printint_chars. cbn [andb]. cbv zeta.
  assert (2 ^ 31 < base ^ Z.of_nat 10) as Hbig by (destruct Hb as [-> | ->]; simpl; lia).
  destruct (Z.ltb_spec xx 0) as [Hneg|Hpos]; rewrite u32_small by lia.
  - destruct (digits_rev_value 32 (- xx) base Hb' ltac:(simpl; lia) ltac:(lia)) as [Hv _].
    pose proof (digits_rev_length 32 (- xx) base 10 ltac:(lia) ltac:(lia) ltac:(lia)) as Hl.
    rewrite rev_app_distr. cbn [rev app int_value length]. rewrite Hv, length_rev. split; lia.
  - destruct (digits_rev_value 32 xx base Hb' ltac:(simpl; lia) ltac:(lia)) as [Hv Hd].
    pose proof (digits_rev_length 32 xx base 10 ltac:(lia) ltac:(lia) ltac:(lia)) as Hl.
    rewrite app_nil_r, int_value_pos, Hv, length_rev by done. split; lia.
Qed.

Lemma printint_roundtrip_witness :
  printint_chars (- 2 ^ 31) 10 true = chars "-2147483648" /\ int_value 10 (chars "-2147483648") = - 2 ^ 31.
Proof.
  destruct (printint_roundtrip (- 2 ^ 31) 10) as [H _]; [lia|lia|].
  assert (printint_chars (- 2 ^ 31) 10 true = chars "-2147483648") as E by (vm_compute; reflexivity).
  split; [exact E|]. rewrite <- E. exact H.
Defined.
