(* ===== verification/Ring.v ===== *)
(** * Ring buffers

    The console and the pipes keep bytes in an array indexed by 32-bit
    counters that run freely and wrap around; a counter's slot is its remainder
    by the size of the array, which divides 2^32. *)

From Stdlib Require Import ZArith Lia.
From stdpp Require Import base list.
From S2P Require Import Prelude.
Local Open Scope xv6_scope.

Lemma u32_shift x d : u32 (u32 x + d) = u32 (x + d).
Proof. unfold u32. apply Zplus_mod_idemp_l. Qed.

Lemma u32_next x d : u32 x + d < 2 ^ 32 -> 0 <= u32 x + d -> u32 (x + d) = u32 x + d.
Proof. intros H1 H2. rewrite <- u32_shift. by apply u32_small. Qed.

(** The counter [e] is [u32 (e - r)] past [r]. *)
Lemma u32_ahead r e : 0 <= e < 2 ^ 32 -> u32 (r + u32 (e - r)) = e.
Proof. intros He. rewrite Z.add_comm, u32_shift, Z.sub_add. by apply u32_small. Qed.

Lemma u32_diff_zero a b : 0 <= a < 2 ^ 32 -> 0 <= b < 2 ^ 32 -> u32 (a - b) = 0 <-> a = b.
Proof. intros Ha Hb. unfold u32. split; [|intros ->; by rewrite Z.sub_diag]. Z.div_mod_to_equations. lia. Qed.

Section Ring.
Context (size : Z).

Definition ring_slot (i : Z) : nat := Z.to_nat (u32 i mod size).
Definition ring_get (buf : list Z) (i : Z) : Z := nth (ring_slot i) buf 0.

(** The [n] elements from counter [i] on. *)
Definition ring (buf : list Z) (i : Z) (n : nat) : list Z := (fun k => ring_get buf (i + Z.of_nat k)) <$> seq 0 n.

Lemma length_ring buf i n : length (ring buf i n) = n.
Proof. unfold ring. by rewrite length_fmap, length_seq. Qed.

Lemma ring_S buf i n : ring buf i (S n) = ring buf i n ++ [ring_get buf (i + Z.of_nat n)].
Proof. unfold ring. by rewrite seq_S, fmap_app. Qed.

Lemma ring_cons buf i n : ring buf i (S n) = ring_get buf i :: ring buf (i + 1) n.
Proof.
  unfold ring. cbn [seq fmap list_fmap]. rewrite Z.add_0_r. f_equal. rewrite <- fmap_S_seq, <- list_fmap_compose.
  apply list_fmap_ext. intros ? k _. simpl. f_equal. lia.
Qed.

Context (Hpos : 0 < size) (Hdiv : (size | 2 ^ 32)).

Lemma ring_slot_mod i : ring_slot i = Z.to_nat (i mod size).
Proof. unfold ring_slot, u32. by rewrite Z.mod_mod_divide. Qed.

Lemma ring_slot_u32 i k : ring_slot (u32 i + k) = ring_slot (i + k).
Proof. unfold ring_slot. by rewrite u32_shift. Qed.

Lemma ring_u32 buf i n : ring buf (u32 i) n = ring buf i n.
Proof. unfold ring, ring_get. apply list_fmap_ext. intros ? k _. by rewrite ring_slot_u32. Qed.

(** A store at the end of the ring. *)
Lemma ring_put buf i n x : length buf = Z.to_nat size -> Z.of_nat n < size ->
  ring (<[ring_slot (i + Z.of_nat n) := x]> buf) i (S n) = ring buf i n ++ [x].
Proof.
  intros Hl Hn. rewrite ring_S. f_equal.
  - unfold ring. apply list_fmap_ext. intros k ? Hk. apply lookup_seq in Hk as [-> Hk]. unfold ring_get.
    rewrite !nth_lookup, list_lookup_insert_ne; [done|]. rewrite !ring_slot_mod. intros E.
    pose proof (Z.mod_pos_bound (i + Z.of_nat n) size Hpos). pose proof (Z.mod_pos_bound (i + Z.of_nat (0 + k)) size Hpos).
    apply Z2Nat.inj in E; [|lia..].
    assert ((Z.of_nat n - Z.of_nat k) mod size = 0) as Em.
    { replace (Z.of_nat n - Z.of_nat k) with (i + Z.of_nat n - (i + Z.of_nat (0 + k))) by lia. by rewrite Zminus_mod, E, Z.sub_diag. }
    rewrite Z.mod_small in Em; lia.
  - f_equal. unfold ring_get. rewrite nth_lookup, list_lookup_insert_eq; [done|]. rewrite Hl, ring_slot_mod.
    pose proof (Z.mod_pos_bound (i + Z.of_nat n) size Hpos). lia.
Qed.

End Ring.

(** Storing byte after byte. *)
Fixpoint stores {X} (put : Z -> Z -> X -> X) (a : Z) (bs : list Z) (x : X) : X :=
  match bs with
  | [] => x
  | b :: bs' => stores put (u64 (a + 1)) bs' (put a b x)
  end.
