(* ===== verification/Console.v ===== *)
(** * The console (kernel/console.c)

    A ring of 128 characters between the interrupt handler, which edits the
    current line, and the readers, who take complete lines.  [X] is the memory
    of the reader or writer. *)

From Stdlib Require Import ZArith Lia.
From stdpp Require Import base list strings.
From S2P Require Import Prelude CString Printf Ring.
Local Open Scope xv6_scope.

(** ** State *)

Definition INPUT_BUF : Z := 128.

(** Control-x *)
Definition C (x : Z) : Z := x - 64.
Definition CTRL_P : Z := C 80.
Definition CTRL_U : Z := C 85.
Definition CTRL_H : Z := C 72.
Definition CTRL_D : Z := C 68.
Definition DEL : Z := 0x7f.
Definition NL : Z := 10.
Definition CR : Z := 13.

(** struct cons: the buffer, the read, write and edit index. *)
Record cons := Cons { cbuf : list Z; c_r : Z; c_w : Z; c_e : Z }.

Definition set_r (x : Z) (c : cons) : cons := Cons (cbuf c) x (c_w c) (c_e c).
Definition set_w (x : Z) (c : cons) : cons := Cons (cbuf c) (c_r c) x (c_e c).
Definition set_e (x : Z) (c : cons) : cons := Cons (cbuf c) (c_r c) (c_w c) x.

(** The console, and the state of the output. *)
Record cstate := CState { ccons : cons; cpr : pstate }.

Definition upd_cons (f : cons -> cons) (s : cstate) : cstate := CState (f (ccons s)) (cpr s).
Definition on_pr {A} : M pstate A -> M cstate A := zoom cpr (fun p s => CState (ccons s) p).

(** cons.buf[i % INPUT_BUF] *)
Definition buf_get (i : Z) (c : cons) : Z := ring_get INPUT_BUF (cbuf c) i.
Definition buf_put (i x : Z) (c : cons) : cons :=
  Cons (<[ring_slot INPUT_BUF i := x]> (cbuf c)) (c_r c) (c_w c) (c_e c).

(** ** The interrupt handler *)

(** while(cons.e != cons.w && cons.buf[(cons.e-1) % INPUT_BUF] != '\n'): it
    stops at [cons.w] after at most as many steps as there are characters. *)
Fixpoint kill_line (fuel : nat) : M cstate unit :=
  c <- get ccons ;;
  if negb (c_e c =? c_w c) && negb (buf_get (c_e c - 1) c =? NL) then
    match fuel with
    | O => diverge
    | S fuel' =>
        modify (upd_cons (set_e (u32 (c_e c - 1)))) ;;;
        on_pr (consputc BACKSPACE) ;;;
        kill_line fuel'
    end
  else ret tt.

Section Handler.

(** The process list, printed by proc.c. *)
Context (procdump : M cstate unit).

Definition consoleintr (ch : Z) : M cstate unit :=
  c <- get ccons ;;
  if ch =? CTRL_P then procdump
  else if ch =? CTRL_U then kill_line (Z.to_nat (u32 (c_e c - c_w c)))
  else if (ch =? CTRL_H) || (ch =? DEL) then
    if negb (c_e c =? c_w c) then
      modify (upd_cons (set_e (u32 (c_e c - 1)))) ;;;
      on_pr (consputc BACKSPACE)
    else ret tt
  else if negb (ch =? 0) && (u32 (c_e c - c_r c) <? INPUT_BUF) then
    let ch := if ch =? CR then NL else ch in
    on_pr (consputc ch) ;;;
    modify (upd_cons (fun c => set_e (u32 (c_e c + 1)) (buf_put (c_e c) ch c))) ;;;
    c <- get ccons ;;
    if (ch =? NL) || (ch =? CTRL_D) || (c_e c =? u32 (c_r c + INPUT_BUF)) then
      modify (upd_cons (set_w (c_e c))) ;;;
      wakeup ChCons
    else ret tt
  else ret tt.

(** uartintr: one character after the other until the device has no more;
    [input] are the values [uartgetc] returns before -1. *)
Fixpoint uartintr (input : list Z) : M cstate unit :=
  match input with
  | [] => ret tt
  | c :: input' => if c =? -1 then ret tt else consoleintr c ;;; uartintr input'
  end.

End Handler.

(** ** Reading and writing *)

Section ReadWrite.
Context {X : Type}.
Context (either_copyout : Z -> list Z -> X -> X * Z) (either_copyin : Z -> nat -> X -> list Z * Z).

Definition on_console {A} : M cstate A -> M (cstate * X) A := zoom fst (fun c s => (c, snd s)).

Fixpoint consolewrite_loop (i : nat) (src : Z) : M (cstate * X) unit :=
  match i with
  | O => ret tt
  | S i' =>
      r <- get (fun s => either_copyin src 1 (snd s)) ;;
      if snd r =? -1 then ret tt
      else
        on_console (on_pr (consputc (chr (fst r) 0))) ;;;
        consolewrite_loop i' (u64 (src + 1))
  end.

Definition consolewrite (src n : Z) : M (cstate * X) Z :=
  consolewrite_loop (Z.to_nat n) src ;;; ret n.

(** The loop of [consoleread] with its local variables.  [inl] is a result;
    [inr (dst, n)] means that the process goes to sleep on [&cons.r], to
    continue from there; [killed] is the process's flag at that time. *)
Fixpoint consoleread_loop (killed : bool) (n : nat) (dst target : Z) : M (cstate * X) (Z + Z * Z) :=
  match n with
  | O => ret (inl target)
  | S n' =>
      c <- get (fun s => ccons (fst s)) ;;
      if c_r c =? c_w c then
        ret (if killed then inl (-1) else inr (dst, Z.of_nat n))
      else
        let ch := buf_get (c_r c) c in
        on_console (modify (upd_cons (set_r (u32 (c_r c + 1))))) ;;;
        if ch =? CTRL_D then
          (if Z.of_nat n <? target then on_console (modify (upd_cons (set_r (c_r c)))) else ret tt) ;;;
          ret (inl (target - Z.of_nat n))
        else
          rc <- (fun s => let '(x, rc) := either_copyout dst [ch] (snd s) in Ok rc (fst s, x) []) ;;
          if rc =? -1 then ret (inl (target - Z.of_nat n))
          else if ch =? NL then ret (inl (target - Z.of_nat n'))
          else consoleread_loop killed n' (u64 (dst + 1)) target
  end.

(** A new call, and the continuation of one that slept. *)
Definition consoleread (killed : bool) (dst n : Z) : M (cstate * X) (Z + Z * Z) :=
  if n <=? 0 then ret (inl 0) else consoleread_loop killed (Z.to_nat n) dst n.
Definition consoleread_resume (killed : bool) (target : Z) (at_ : Z * Z) : M (cstate * X) (Z + Z * Z) :=
  consoleread_loop killed (Z.to_nat (snd at_)) (fst at_) target.

End ReadWrite.

(** ** Facts on the ring *)

(** The characters in the ring: [queued] of them can be read, the rest is the
    line being edited. *)
Definition ring (i : Z) (n : nat) (c : cons) : list Z := Ring.ring INPUT_BUF (cbuf c) i n.
Definition used (c : cons) : Z := u32 (c_e c - c_r c).
Definition queued (c : cons) : Z := u32 (c_w c - c_r c).
Definition contents (c : cons) : list Z := ring (c_r c) (Z.to_nat (used c)) c.
Definition queue (c : cons) : list Z := take (Z.to_nat (queued c)) (contents c).
Definition line (c : cons) : list Z := drop (Z.to_nat (queued c)) (contents c).

Record cons_ok (c : cons) : Prop := {
  co_len : length (cbuf c) = Z.to_nat INPUT_BUF;
  co_r : 0 <= c_r c < 2 ^ 32; co_w : 0 <= c_w c < 2 ^ 32; co_e : 0 <= c_e c < 2 ^ 32;
  co_order : queued c <= used c <= INPUT_BUF;
  co_line : Forall (fun x => x <> NL) (line c) }.

Lemma buf_divides : (INPUT_BUF | 2 ^ 32).
Proof. by exists (2 ^ 25). Qed.

Lemma length_contents c : length (contents c) = Z.to_nat (used c).
Proof. apply length_ring. Qed.

(** What the updates of the indices do to the ring. *)
Section Indices.
Context (c : cons) (Hok : cons_ok c).

Lemma edit_end : c_e c = u32 (c_r c + used c).
Proof. symmetry. apply u32_ahead, Hok. Qed.

Lemma used_range : 0 <= queued c <= used c /\ used c <= INPUT_BUF.
Proof. pose proof (co_order _ Hok). pose proof (u32_range (c_w c - c_r c)). unfold queued in *. lia. Qed.

Lemma queue_line : queue c ++ line c = contents c.
Proof. apply take_drop. Qed.

Lemma length_queue : Z.of_nat (length (queue c)) = queued c.
Proof. pose proof used_range. unfold queue. rewrite length_take, length_contents. lia. Qed.

Lemma length_line : Z.of_nat (length (line c)) = used c - queued c.
Proof. pose proof used_range. unfold line. rewrite length_drop, length_contents. lia. Qed.

(** The editing index is at the write index exactly when the line is empty. *)
Lemma line_empty : c_e c = c_w c <-> line c = [].
Proof.
  pose proof length_line as Hl. pose proof used_range as Hr. destruct Hok as [_ H1 H2 H3 _ _]. split.
  - intros E. apply nil_length_inv. unfold used, queued in *. rewrite E in Hl. lia.
  - intros E. rewrite E in Hl. simpl in Hl. assert (used c = queued c) as Eu by lia. unfold used, queued, u32 in Eu.
    Z.div_mod_to_equations. lia.
Qed.

Definition append (x : Z) (c : cons) : cons := set_e (u32 (c_e c + 1)) (buf_put (c_e c) x c).

Lemma append_used x : used c < INPUT_BUF -> used (append x c) = used c + 1 /\ queued (append x c) = queued c /\
  contents (append x c) = contents c ++ [x].
Proof.
  intros Hu. pose proof used_range as Hr. unfold INPUT_BUF in *.
  assert (used (append x c) = used c + 1) as E.
  { unfold used, append. cbn [c_e c_r set_e buf_put]. rewrite <- Z.add_opp_r, u32_shift.
    replace (c_e c + 1 + - c_r c) with (c_e c - c_r c + 1) by lia. fold (used c). unfold used in *. rewrite u32_next; lia. }
  split; [done|]. split; [done|]. unfold contents. rewrite E. replace (Z.to_nat (used c + 1)) with (S (Z.to_nat (used c))) by lia.
  unfold ring. rewrite <- (ring_put INPUT_BUF eq_refl buf_divides (cbuf c) (c_r c) (Z.to_nat (used c)) x (co_len _ Hok))
    by (unfold INPUT_BUF; lia). rewrite Z2Nat.id by lia. cbn [append cbuf set_e buf_put c_r]. do 2 f_equal.
  rewrite edit_end at 1. unfold ring_slot. by rewrite (u32_small (u32 _)) by apply u32_range.
Qed.

Definition erase (c : cons) : cons := set_e (u32 (c_e c - 1)) c.

Lemma erase_used : line c <> [] -> used (erase c) = used c - 1 /\ queued (erase c) = queued c /\
  contents c = contents (erase c) ++ [buf_get (c_e c - 1) c].
Proof.
  intros Hne. pose proof length_line as Hl. pose proof used_range as Hr.
  assert (length (line c) <> 0%nat) by (by intros E%nil_length_inv).
  assert (used (erase c) = used c - 1) as E.
  { unfold used, erase. cbn [c_e c_r set_e]. rewrite <- Z.add_opp_r, u32_shift.
    replace (c_e c - 1 + - c_r c) with (c_e c - c_r c + -1) by lia. unfold used in *. rewrite u32_next; unfold INPUT_BUF in *; lia. }
  split; [done|]. split; [done|]. unfold contents. rewrite E.
  replace (Z.to_nat (used c)) with (S (Z.to_nat (used c - 1))) by lia. unfold ring. rewrite ring_S. f_equal.
  f_equal. unfold buf_get, ring_get. f_equal. rewrite edit_end at 1. rewrite <- (Z.add_opp_r (u32 _) 1), ring_slot_u32. f_equal. lia.
Qed.

Lemma commit_used : queued (set_w (c_e c) c) = used c /\ used (set_w (c_e c) c) = used c /\ contents (set_w (c_e c) c) = contents c.
Proof. done. Qed.

Lemma take_used : queue c <> [] -> let c' := set_r (u32 (c_r c + 1)) c in
  used c' = used c - 1 /\ queued c' = queued c - 1 /\ contents c = buf_get (c_r c) c :: contents c'.
Proof.
  intros Hne c'. pose proof length_queue as Hl. pose proof used_range as Hr.
  assert (length (queue c) <> 0%nat) by (by intros E%nil_length_inv).
  assert (forall x, u32 (x - u32 (c_r c + 1)) = u32 (u32 (x - c_r c) + -1)) as Hx.
  { intros x. unfold u32. rewrite Zminus_mod_idemp_r, Zplus_mod_idemp_l. f_equal. lia. }
  unfold INPUT_BUF in *.
  assert (used c' = used c - 1) as E.
  { unfold used, c'. cbn [c_e c_r set_r]. rewrite Hx. unfold used in *. rewrite u32_small; lia. }
  split; [done|]. split.
  { unfold queued, c'. cbn [c_w c_r set_r]. rewrite Hx. unfold queued in *. rewrite u32_small; lia. }
  unfold contents. rewrite E. replace (Z.to_nat (used c)) with (S (Z.to_nat (used c - 1))) by lia. unfold ring. rewrite ring_cons.
  f_equal. unfold c'. cbn [c_r set_r cbuf]. by rewrite ring_u32.
Qed.

End Indices.

(** ** The line editor *)

(** What a key does to the complete input [q] and the line [l] being edited,
    and what is echoed: erasing sends backspace, blank, backspace. *)
Definition rubout : list event := [EPutc 8; EPutc 32; EPutc 8].

Definition key (ch : Z) (q l : list Z) : list Z * list Z * list event :=
  if ch =? CTRL_U then (q, [], mjoin (replicate (length l) rubout))
  else if (ch =? CTRL_H) || (ch =? DEL) then (q, removelast l, if decide (l = []) then [] else rubout)
  else if (ch =? 0) || (INPUT_BUF <=? Z.of_nat (length q + length l)) then (q, l, [])
  else
    let ch := if ch =? CR then NL else ch in
    if (ch =? NL) || (ch =? CTRL_D) || (Z.of_nat (length q + length l) =? INPUT_BUF - 1)
    then (q ++ l ++ [ch], [], [EPutc ch; EWake ChCons])
    else (q, l ++ [ch], [EPutc ch]).

Lemma consputc_spec (ch : Z) s : panicked (cpr s) = 0 ->
  on_pr (consputc ch) s = Ok tt s (if ch =? BACKSPACE then rubout else [EPutc (u8 ch)]).
Proof. intros Hp. unfold on_pr, zoom, consputc, bind, get. rewrite Hp. cbn. destruct s; by destruct (ch =? BACKSPACE). Qed.

Lemma erase_spec c : cons_ok c -> line c <> [] ->
  cons_ok (erase c) /\ queue (erase c) = queue c /\ line c = line (erase c) ++ [buf_get (c_e c - 1) c].
Proof.
  intros Hok Hne. destruct (erase_used c Hok Hne) as (Eu & Eq & Ec). pose proof (used_range c Hok) as Hr.
  pose proof (length_line c Hok) as Hl. assert (length (line c) <> 0%nat) by (by intros E%nil_length_inv).
  assert (length (contents (erase c)) = Z.to_nat (used c - 1)) as Hlen by (by rewrite length_contents, Eu).
  assert (line c = line (erase c) ++ [buf_get (c_e c - 1) c]) as Hline.
  { unfold line. rewrite Ec, Eq, drop_app_le; [done|lia]. }
  split; [|split; [|done]].
  - pose proof (u32_range (c_e c - 1)). split; try apply Hok; cbn [c_e erase set_e]; [lia|lia|].
    pose proof (co_line _ Hok) as Hf. rewrite Hline in Hf. by apply Forall_app in Hf as [? _].
  - unfold queue. rewrite Ec, Eq, take_app_le; [done|lia].
Qed.

Lemma append_spec c x : cons_ok c -> used c < INPUT_BUF -> x <> NL ->
  cons_ok (append x c) /\ queue (append x c) = queue c /\ line (append x c) = line c ++ [x].
Proof.
  intros Hok Hu Hx. destruct (append_used c Hok x Hu) as (Eu & Eq & Ec). pose proof (used_range c Hok) as Hr.
  assert (line (append x c) = line c ++ [x]) as Hline.
  { unfold line. rewrite Ec, Eq, drop_app_le; [done|]. rewrite length_contents. lia. }
  split; [|split; [|done]].
  - pose proof (u32_range (c_e c + 1)). split; try apply Hok; cbn [c_e append set_e]; [|lia|lia|].
    + cbn. rewrite length_insert. apply Hok.
    + rewrite Hline. apply Forall_app; split; [apply Hok|by constructor].
  - unfold queue. rewrite Ec, Eq, take_app_le; [done|]. rewrite length_contents. lia.
Qed.

(** Committing the line with a last character of any kind. *)
Lemma commit_line_spec c x : cons_ok c -> used c < INPUT_BUF -> let c' := append x c in
  cons_ok (set_w (c_e c') c') /\ queue (set_w (c_e c') c') = queue c ++ line c ++ [x] /\ line (set_w (c_e c') c') = [].
Proof.
  intros Hok Hu c'. destruct (append_used c Hok x Hu) as (Eu & Eq & Ec). fold c' in Eu, Eq, Ec.
  pose proof (used_range c Hok) as Hr. pose proof (length_contents c') as Hlen.
  destruct (commit_used c') as (Wq & Wu & Wc). pose proof (u32_range (c_e c + 1)) as He.
  assert (line (set_w (c_e c') c') = []) as Hline.
  { unfold line. rewrite Wq, Wc. apply drop_ge. lia. }
  split; [|split; [|done]].
  - split; [|apply Hok|done|done|rewrite Wq, Wu; lia|rewrite Hline; constructor].
    cbn. rewrite length_insert. apply Hok.
  - unfold queue at 1. rewrite Wq, Wc, take_ge by lia. by rewrite Ec, app_assoc, queue_line.
Qed.

(** The loop of control-U erases the whole line: no newline is in it. *)
Lemma kill_line_spec n : forall s, panicked (cpr s) = 0 -> cons_ok (ccons s) -> length (line (ccons s)) = n ->
  wp (kill_line n) s (fun _ s' t => cpr s' = cpr s /\ cons_ok (ccons s') /\
    queue (ccons s') = queue (ccons s) /\ line (ccons s') = [] /\ t = mjoin (replicate n rubout)).
Proof.
  induction n as [|n IH]; intros s Hp Hok Hn; pose proof (line_empty _ Hok) as Hle; simpl; wp_steps.
  - apply nil_length_inv in Hn. rewrite (proj2 (Z.eqb_eq _ _) (proj2 Hle Hn)). cbn. by wp_steps.
  - assert (line (ccons s) <> []) as Hne by (by intros E; rewrite E in Hn).
    destruct (erase_spec _ Hok Hne) as (Hok' & Hq & Hl).
    assert (Forall (fun x => x <> NL) (line (ccons s))) as Hf by apply Hok.
    rewrite Hl in Hf. apply Forall_app in Hf as [_ Hnl]. apply Forall_cons in Hnl as [Hnl _].
    rewrite (proj2 (Z.eqb_neq _ _)) by (by intros ?%Hle). rewrite (proj2 (Z.eqb_neq _ _) Hnl). cbn [negb andb].
    wp_steps. eapply wp_eq; [by apply consputc_spec|]. rewrite Z.eqb_refl.
    eapply wp_mono; [apply (IH (upd_cons erase s)); [done..|]|].
    + rewrite Hl, length_app in Hn. simpl in Hn. simpl. lia.
    + intros _ s' t (-> & ? & Eq & ? & ->). split_and!; [done..| |done|done]. by rewrite Eq.
Qed.

(** The test for a full buffer, after a character was added. *)
Lemma full_test c x : cons_ok c -> used c < INPUT_BUF ->
  (c_e (append x c) =? u32 (c_r (append x c) + INPUT_BUF)) = (used c =? INPUT_BUF - 1).
Proof.
  intros Hok Hu. apply Bool.eq_iff_eq_true. rewrite !Z.eqb_eq. cbn [append set_e c_e c_r buf_put].
  pose proof (used_range c Hok). rewrite (edit_end c Hok), u32_shift. unfold u32, INPUT_BUF in *.
  Z.div_mod_to_equations. lia.
Qed.

Section Refines.
Context (procdump : M cstate unit) (s : cstate) (Hp : panicked (cpr s) = 0) (Hok : cons_ok (ccons s)).

Lemma consoleintr_erase ch : (ch =? CTRL_P) = false -> (ch =? CTRL_U) = false -> (ch =? CTRL_H) || (ch =? DEL) = true ->
  wp (consoleintr procdump ch) s (fun _ s' t => cpr s' = cpr s /\ cons_ok (ccons s') /\
    queue (ccons s') = queue (ccons s) /\ line (ccons s') = removelast (line (ccons s)) /\
    t = if decide (line (ccons s) = []) then [] else rubout).
Proof.
  intros E1 E2 E3. pose proof (line_empty _ Hok) as Hle. unfold consoleintr. rewrite E1, E2, E3. wp_steps.
  case_decide as Hn.
  - rewrite (proj2 (Z.eqb_eq _ _) (proj2 Hle Hn)). cbn. wp_steps. by rewrite Hn.
  - rewrite (proj2 (Z.eqb_neq _ _)) by (by intros ?%Hle). cbn [negb]. destruct (erase_spec _ Hok Hn) as (Hok' & Hq & Hl).
    wp_steps. eapply wp_eq; [by apply consputc_spec|]. rewrite Z.eqb_refl. by rewrite Hl, removelast_last.
Qed.

Lemma consoleintr_insert ch (q := queue (ccons s)) (l := line (ccons s)) : (ch =? CTRL_P) = false -> (ch =? CTRL_U) = false ->
  (ch =? CTRL_H) || (ch =? DEL) = false -> ch <> 0 -> 0 <= ch < 256 -> used (ccons s) < INPUT_BUF ->
  let ch' := if ch =? CR then NL else ch in
  wp (consoleintr procdump ch) s (fun _ s' t => cpr s' = cpr s /\ cons_ok (ccons s') /\
    (queue (ccons s'), line (ccons s'), t) =
    if (ch' =? NL) || (ch' =? CTRL_D) || (used (ccons s) =? INPUT_BUF - 1)
    then (q ++ l ++ [ch'], [], [EPutc ch'; EWake ChCons]) else (q, l ++ [ch'], [EPutc ch'])).
Proof.
  intros E1 E2 E3 E4 Hch Hu ch'. unfold consoleintr. rewrite E1, E2, E3. wp_steps.
  fold (used (ccons s)). rewrite (proj2 (Z.eqb_neq _ _) E4), (proj2 (Z.ltb_lt _ _) Hu). cbn [negb andb]. fold ch'.
  assert (0 <= ch' < 256) as Hch' by (unfold ch', NL; case_match; lia).
  wp_steps. eapply wp_eq; [by apply consputc_spec|].
  rewrite (proj2 (Z.eqb_neq ch' BACKSPACE)) by (unfold BACKSPACE; lia). unfold u8. rewrite Z.mod_small by lia. wp_steps.
  cbn [ccons upd_cons]. fold (append ch' (ccons s)). rewrite full_test by done.
  destruct (_ || (used _ =? _)) eqn:Hc; wp_steps; cbn [ccons upd_cons cpr app].
  - destruct (commit_line_spec _ ch' Hok Hu) as (? & E & E'). split; [done|]. split; [done|].
    fold (append ch' (ccons s)). by rewrite E, E'.
  - apply orb_false_iff in Hc as [[Hc _]%orb_false_iff _]. apply Z.eqb_neq in Hc.
    destruct (append_spec _ ch' Hok Hu Hc) as (? & E & E'). split; [done|]. split; [done|].
    fold (append ch' (ccons s)). by rewrite E, E'.
Qed.

End Refines.

(** C38: Interrupt by interrupt, the console is a line editor: with [q] the
    input readers can take and [l] the line being edited, a key other than
    control-P changes them and is echoed as [key] says (control-U drops the line,
    control-H and delete its last character; a newline, control-D or a full
    buffer hand the line to the readers and wake them), whatever the position
    of the ring and the wrap-around of its indices. *)
Theorem consoleintr_refines procdump ch s : panicked (cpr s) = 0 -> cons_ok (ccons s) -> 0 <= ch < 256 -> ch <> CTRL_P ->
  wp (consoleintr procdump ch) s (fun _ s' t => cpr s' = cpr s /\ cons_ok (ccons s') /\
    (queue (ccons s'), line (ccons s'), t) = key ch (queue (ccons s)) (line (ccons s))).
Proof.
  intros Hp Hok Hch HP. apply Z.eqb_neq in HP. pose proof (length_queue _ Hok) as Hlq. pose proof (length_line _ Hok) as Hll.
  unfold key. destruct (ch =? CTRL_U) eqn:EU.
  { unfold consoleintr. rewrite HP, EU. wp_steps. eapply wp_mono.
    - replace (Z.to_nat _) with (length (line (ccons s))); [by apply kill_line_spec|].
      pose proof (used_range _ Hok). apply Nat2Z.inj. rewrite Hll, Z2Nat.id by apply u32_range.
      unfold used, queued in *. destruct Hok. unfold u32, INPUT_BUF in *. Z.div_mod_to_equations. lia.
    - intros _ s' t (? & ? & -> & -> & ->). done. }
  destruct ((ch =? CTRL_H) || (ch =? DEL)) eqn:EH.
  { eapply wp_mono; [by apply consoleintr_erase|]. intros _ s' t (? & ? & -> & -> & ->). done. }
  replace (Z.of_nat (length (queue (ccons s)) + length (line (ccons s)))) with (used (ccons s)) by lia.
  destruct (ch =? 0) eqn:E0; [|destruct (INPUT_BUF <=? used (ccons s)) eqn:Eu]; cbn [orb].
  - unfold consoleintr. rewrite HP, EU, EH, E0. by wp_steps.
  - unfold consoleintr. rewrite HP, EU, EH, E0. wp_steps. fold (used (ccons s)).
    apply Z.leb_le in Eu. rewrite (proj2 (Z.ltb_ge _ _) Eu). by wp_steps.
  - apply consoleintr_insert; bools; done || lia.
Qed.

(** The empty console, its indices about to wrap around. *)
Definition console0 : cstate := CState (Cons (replicate 128 0) (2 ^ 32 - 1) (2 ^ 32 - 1) (2 ^ 32 - 1)) (PState 0 1).

Lemma console0_ok : cons_ok (ccons console0).
Proof. split; cbn; [done|lia|lia|lia|done|constructor]. Qed.

Lemma consoleintr_refines_witness : exists s' t, consoleintr (ret tt) 104 console0 = Ok tt s' t /\
  (queue (ccons s'), line (ccons s'), t) = ([], [104], [EPutc 104]).
Proof.
  pose proof (consoleintr_refines (ret tt) 104 console0 eq_refl console0_ok (conj (proj1 (Z.leb_le 0 104) eq_refl) (proj1 (Z.ltb_lt 104 256) eq_refl)) (proj1 (Z.eqb_neq 104 CTRL_P) eq_refl)) as H.
  unfold wp in H. destruct (consoleintr _ _ _) as [[] s' t| | | |]; try contradiction.
  destruct H as (_ & _ & H). exists s', t. split; [reflexivity|]. rewrite H. reflexivity.
Defined.

(** ** Reading *)

(** What a read of [n] bytes takes from the input: up to and including a
    newline; control-D ends it and stays for the next call unless nothing came
    before it.  The last component says whether the call is complete. *)
Fixpoint deliver (first : bool) (n : nat) (q : list Z) : list Z * list Z * bool :=
  match n, q with
  | O, _ => ([], q, true)
  | S _, [] => ([], [], false)
  | S n', x :: q' =>
      if x =? CTRL_D then ([], if first then q' else q, true)
      else if x =? NL then ([x], q', true)
      else let '(d, rest, complete) := deliver false n' q' in (x :: d, rest, complete)
  end.

Lemma take_spec c x q : cons_ok c -> queue c = x :: q -> let c' := set_r (u32 (c_r c + 1)) c in
  cons_ok c' /\ queue c' = q /\ line c' = line c /\ buf_get (c_r c) c = x.
Proof.
  intros Hok Hq c'. assert (queue c <> []) as Hne by (by rewrite Hq).
  destruct (take_used c Hok Hne) as (Eu & Eq & Ec). fold c' in Eu, Eq, Ec. pose proof (used_range c Hok) as Hr.
  pose proof (length_queue c Hok) as Hlq. rewrite Hq in Hlq. cbn [length] in Hlq.
  assert (Z.to_nat (queued c) = S (Z.to_nat (queued c'))) as Es by lia.
  assert (line c' = line c) as Hline by (unfold line; by rewrite Ec, Es).
  unfold queue in Hq. rewrite Ec, Es in Hq. cbn [take] in Hq. injection Hq as Hx Hq'.
  split; [|done]. split; [apply Hok| |apply Hok|apply Hok|lia|rewrite Hline; apply Hok].
  cbn. apply u32_range.
Qed.

(** The reader's test for an empty queue. *)
Lemma queue_empty c : cons_ok c -> c_r c = c_w c <-> queue c = [].
Proof.
  intros Hok. pose proof (length_queue c Hok) as Hl. destruct Hok as [_ H1 H2 _ _ _]. split.
  - intros E. apply nil_length_inv. unfold queued in *. rewrite E in Hl. rewrite Z.sub_diag in Hl. change (u32 0) with 0 in Hl. lia.
  - intros E. rewrite E in Hl. simpl in Hl. unfold queued, u32 in *. Z.div_mod_to_equations. lia.
Qed.

Section Read.
Context {X : Type} (put : Z -> Z -> X -> X) (either_copyout : Z -> list Z -> X -> X * Z).
Context (Hcopy : forall a b x, either_copyout a [b] x = (put a b x, 0)) (killed : bool).

Definition read_result (dst target : Z) (n : nat) (d : list Z) (complete : bool) : Z + Z * Z :=
  if complete then inl (target - Z.of_nat n + Z.of_nat (length d))
  else if killed then inl (-1)
  else inr (u64 (dst + Z.of_nat (length d)), Z.of_nat n - Z.of_nat (length d)).

Lemma consoleread_loop_spec target n : forall dst (s : cstate * X), cons_ok (ccons (fst s)) -> u64 dst = dst -> Z.of_nat n <= target ->
  wp (consoleread_loop either_copyout killed n dst target) s (fun r s' t => t = [] /\
    cpr (fst s') = cpr (fst s) /\ cons_ok (ccons (fst s')) /\ line (ccons (fst s')) = line (ccons (fst s)) /\
    let '(d, rest, complete) := deliver (Z.of_nat n =? target) n (queue (ccons (fst s))) in
    queue (ccons (fst s')) = rest /\ snd s' = stores put dst d (snd s) /\ r = read_result dst target n d complete).
Proof.
  induction n as [|n IH]; intros dst s Hok Hdst Hn.
  { simpl. wp_steps. split_and!; try done. unfold read_result. f_equal. simpl. lia. }
  cbn [consoleread_loop]. wp_steps. pose proof (queue_empty _ Hok) as Hqe.
  destruct (queue (ccons (fst s))) as [|x q] eqn:Hq.
  { rewrite (proj2 (Z.eqb_eq _ _) (proj2 Hqe eq_refl)). wp_steps. cbn [deliver stores length].
    split_and!; try done. unfold read_result. rewrite Z.add_0_r, Z.sub_0_r, Hdst. by destruct killed. }
  rewrite (proj2 (Z.eqb_neq _ _)) by (by intros ?%Hqe). cbn [deliver].
  destruct (take_spec _ _ _ Hok Hq) as (Hok' & Hq' & Hl' & Hx). rewrite Hx. unfold on_console. wp_steps.
  destruct (x =? CTRL_D) eqn:Ed.
  - destruct (Z.of_nat (S n) <? target) eqn:Et; bools; wp_steps; cbn [fst snd ccons upd_cons cpr].
    + rewrite (proj2 (Z.eqb_neq _ _)) by lia. unfold read_result. cbn [stores length]. rewrite Z.add_0_r.
      destruct s as [[[b r w e] p] mem]. cbn in *. done.
    + rewrite (proj2 (Z.eqb_eq _ _)) by lia. unfold read_result. cbn [stores length]. rewrite Z.add_0_r. done.
  - apply wp_bind. unfold wp at 1. rewrite Hcopy. cbn [Z.eqb fst snd]. destruct (x =? NL) eqn:Enl; wp_steps.
    + split_and!; try done. unfold read_result. f_equal. simpl. lia.
    + eapply wp_mono; [apply IH; cbn [fst ccons upd_cons]; [done| |lia]|].
      { unfold u64. apply Z.mod_mod. lia. }
      intros r s' t. cbn [fst snd ccons upd_cons cpr]. rewrite Hq', (proj2 (Z.eqb_neq (Z.of_nat n) _)) by lia.
      destruct (deliver false n q) as [[d rest] complete]. intros (-> & ? & ? & Hl & ? & Hs & ->).
      split_and!; try done; [by rewrite Hl|]. unfold read_result, u64. rewrite Zplus_mod_idemp_l. cbn [length].
      destruct complete; [f_equal; lia|]. destruct killed; [done|]. do 2 f_equal; [f_equal|]; lia.
Qed.

End Read.

(** [consoleread] takes exactly what [deliver] says from the input,
    byte by byte into the reader's memory, and leaves the line being edited
    alone.  It returns the number of bytes; if the input runs out first it
    returns -1 to a killed process, and otherwise sleeps with the destination and
    count advanced past the bytes it took. *)
Theorem consoleread_takes {X} (put : Z -> Z -> X -> X) either_copyout killed dst n (s : cstate * X) :
  (forall a b x, either_copyout a [b] x = (put a b x, 0)) ->
  cons_ok (ccons (fst s)) -> 0 <= dst < 2 ^ 64 -> 0 < n ->
  wp (consoleread either_copyout killed dst n) s (fun r s' t => t = [] /\
    cpr (fst s') = cpr (fst s) /\ cons_ok (ccons (fst s')) /\ line (ccons (fst s')) = line (ccons (fst s)) /\
    let '(d, rest, complete) := deliver true (Z.to_nat n) (queue (ccons (fst s))) in
    queue (ccons (fst s')) = rest /\ snd s' = stores put dst d (snd s) /\
    r = if complete then inl (Z.of_nat (length d))
        else if killed then inl (-1)
        else inr (u64 (dst + Z.of_nat (length d)), n - Z.of_nat (length d))).
Proof.
  intros Hc Hok Hdst Hn. unfold consoleread. rewrite (proj2 (Z.leb_gt n 0)) by done.
  eapply wp_mono; [apply (consoleread_loop_spec put _ Hc); [done|by apply u64_small|lia]|].
  intros r s' t. rewrite (proj2 (Z.eqb_eq _ _)) by lia. destruct (deliver _ _ _) as [[d rest] complete].
  unfold read_result. rewrite Z2Nat.id by lia. rewrite Z.sub_diag. done.
Qed.

(** A queue of "hi\n" and a control-D, read into a list of bytes. *)
Definition console_hi : cstate := CState (Cons ([104; 105; 10; 4] ++ replicate 124 0) 0 4 4) (PState 0 1).

Lemma console_hi_ok : cons_ok (ccons console_hi).
Proof. split; cbn; [done|lia|lia|lia|done|constructor]. Qed.

Lemma consoleread_takes_witness : exists s',
  consoleread (fun _ bs x => (x ++ bs, 0)) false 0 100 (console_hi, []) = Ok (inl 3) s' [] /\
  snd s' = [104; 105; 10] /\ queue (ccons (fst s')) = [4].
Proof.
  pose proof (consoleread_takes (fun _ b x => x ++ [b]) (fun _ bs x => (x ++ bs, 0)) false 0 100 (console_hi, [])
    (fun _ _ _ => eq_refl) console_hi_ok
    (conj (proj1 (Z.leb_le 0 0) eq_refl) (proj1 (Z.ltb_lt 0 (2 ^ 64)) eq_refl)) (proj1 (Z.ltb_lt 0 100) eq_refl)) as H.
  unfold wp in H. destruct (consoleread _ _ _ _ _) as [r s' t| | | |]; try contradiction.
  destruct H as (-> & _ & _ & _ & Hq & Hs & ->). exists s'. split; [reflexivity|]. split; [exact Hs|exact Hq].
Defined.
