(* ===== verification/Pipe.v ===== *)
(** * Pipes (kernel/pipe.c)

    A ring of 512 bytes between a writer and a reader.  [X] is the memory of
    the calling process, [pi] the address of the pipe's page, which its sleep
    channels are made of. *)

From Stdlib Require Import ZArith Lia.
From stdpp Require Import base list strings.
From S2P Require Import Prelude CString Ring.
Local Open Scope xv6_scope.

(** ** State *)

Definition PIPESIZE : Z := 512.

(** struct pipe *)
Record pipe := Pipe { pdata : list Z; nread : Z; nwrite : Z; readopen : Z; writeopen : Z }.

Definition set_nread (x : Z) (p : pipe) : pipe := Pipe (pdata p) x (nwrite p) (readopen p) (writeopen p).
Definition set_nwrite (x : Z) (p : pipe) : pipe := Pipe (pdata p) (nread p) x (readopen p) (writeopen p).
Definition set_readopen (x : Z) (p : pipe) : pipe := Pipe (pdata p) (nread p) (nwrite p) x (writeopen p).
Definition set_writeopen (x : Z) (p : pipe) : pipe := Pipe (pdata p) (nread p) (nwrite p) (readopen p) x.

(** pi->data[pi->nwrite++ % PIPESIZE] = ch *)
Definition push (ch : Z) (p : pipe) : pipe :=
  Pipe (<[ring_slot PIPESIZE (nwrite p) := ch]> (pdata p)) (nread p) (u32 (nwrite p + 1)) (readopen p) (writeopen p).

(** The fields [pipealloc] sets in a fresh page, whose other bytes are [junk]. *)
Definition new_pipe (junk : list Z) : pipe := Pipe junk 0 0 1 1.

(** ** Operations *)

Section ReadWrite.
Context {X : Type} (copyout : Z -> list Z -> X -> X * Z) (copyin : Z -> nat -> X -> list Z * Z).
Context (pi : Z) (killed : bool).

Definition full (p : pipe) : bool := nwrite p =? u32 (nread p + PIPESIZE).
Definition empty (p : pipe) : bool := nread p =? nwrite p.

Definition on_pipe (f : pipe -> pipe) : M (pipe * X) unit := modify (fun s => (f (fst s), snd s)).

(** The loop of [pipewrite] from iteration [i] on, [rest] of them to go.  [inr i]:
    the writer sleeps on [&pi->nwrite] in iteration [i], to continue there. *)
Fixpoint pipewrite_loop (rest : nat) (i addr n : Z) : M (pipe * X) (Z + Z) :=
  match rest with
  | O => wakeup (ChPipeRead pi) ;;; ret (inl n)
  | S rest' =>
      p <- get fst ;;
      if full p then
        if (readopen p =? 0) || killed then ret (inl (-1))
        else wakeup (ChPipeRead pi) ;;; ret (inr i)
      else
        r <- get (fun s => copyin (u64 (addr + i)) 1 (snd s)) ;;
        if snd r =? -1 then wakeup (ChPipeRead pi) ;;; ret (inl n)
        else
          on_pipe (push (chr (fst r) 0)) ;;;
          pipewrite_loop rest' (i + 1) addr n
  end.

Definition pipewrite_from (i addr n : Z) : M (pipe * X) (Z + Z) :=
  pipewrite_loop (Z.to_nat (n - i)) i addr n.
Definition pipewrite (addr n : Z) : M (pipe * X) (Z + Z) := pipewrite_from 0 addr n.

Fixpoint piperead_loop (rest : nat) (i addr : Z) : M (pipe * X) Z :=
  match rest with
  | O => ret i
  | S rest' =>
      p <- get fst ;;
      if empty p then ret i
      else
        on_pipe (set_nread (u32 (nread p + 1))) ;;;
        rc <- (fun s => let '(x, rc) := copyout (u64 (addr + i)) [ring_get PIPESIZE (pdata p) (nread p)] (snd s) in
                        Ok rc (fst s, x) []) ;;
        if rc =? -1 then ret i else piperead_loop rest' (i + 1) addr
  end.

(** A reader that sleeps on [&pi->nread] makes the call again when woken. *)
Definition piperead (addr n : Z) : M (pipe * X) Z :=
  p <- get fst ;;
  if empty p && ctrue (writeopen p) then
    if killed then ret (-1) else sleep (ChPipeRead pi)
  else
    i <- piperead_loop (Z.to_nat n) 0 addr ;;
    wakeup (ChPipeWrite pi) ;;;
    ret i.

End ReadWrite.

(** [pipeclose] without the call of [kfree]: the answer is whether it frees
    the page. *)
Definition pipeclose_flags (pi : Z) (writable : bool) : M pipe bool :=
  (if writable then modify (set_writeopen 0) ;;; wakeup (ChPipeRead pi)
   else modify (set_readopen 0) ;;; wakeup (ChPipeWrite pi)) ;;;
  p <- get (fun p => p) ;;
  ret ((readopen p =? 0) && (writeopen p =? 0)).

(** ** A pipe is a bounded queue *)

Definition held (p : pipe) : Z := u32 (nwrite p - nread p).
Definition bytes (p : pipe) : list Z := ring PIPESIZE (pdata p) (nread p) (Z.to_nat (held p)).

Record pipe_ok (p : pipe) : Prop := {
  po_data : length (pdata p) = Z.to_nat PIPESIZE;
  po_read : 0 <= nread p < 2 ^ 32; po_write : 0 <= nwrite p < 2 ^ 32;
  po_held : held p <= PIPESIZE }.

Lemma pipe_divides : (PIPESIZE | 2 ^ 32).
Proof. by exists (2 ^ 23). Qed.

Section Facts.
Context (p : pipe) (Hok : pipe_ok p).

Lemma length_bytes : Z.of_nat (length (bytes p)) = held p.
Proof. unfold bytes. rewrite length_ring. apply Z2Nat.id, u32_range. Qed.

Lemma full_spec : full p = (held p =? PIPESIZE).
Proof.
  destruct Hok as [_ H1 H2 H3]. unfold full, held in *. apply Bool.eq_iff_eq_true. rewrite !Z.eqb_eq. unfold u32, PIPESIZE in *.
  Z.div_mod_to_equations. lia.
Qed.

Lemma empty_spec : empty p = true <-> bytes p = [].
Proof.
  unfold empty. rewrite Z.eqb_eq. pose proof length_bytes as Hl. pose proof (u32_diff_zero (nwrite p) (nread p) (po_write _ Hok) (po_read _ Hok)) as Hd.
  fold (held p) in Hd. split.
  - intros E. apply nil_length_inv. symmetry in E. apply Hd in E. lia.
  - intros E. rewrite E in Hl. symmetry. apply Hd. symmetry. exact Hl.
Qed.

Lemma push_spec ch : held p < PIPESIZE -> pipe_ok (push ch p) /\ bytes (push ch p) = bytes p ++ [ch].
Proof.
  intros Hh. pose proof (u32_range (nwrite p - nread p)) as Hr. fold (held p) in Hr.
  assert (held (push ch p) = held p + 1) as E.
  { unfold held, push in *. cbn [nwrite nread]. rewrite <- Z.add_opp_r, u32_shift.
    replace (nwrite p + 1 + - nread p) with (nwrite p - nread p + 1) by lia. unfold PIPESIZE in *. rewrite u32_next; lia. }
  split.
  - split; [cbn; rewrite length_insert|cbn|cbn; apply u32_range|lia]; apply Hok.
  - unfold bytes. rewrite E. replace (Z.to_nat (held p + 1)) with (S (Z.to_nat (held p))) by lia.
    rewrite <- (ring_put PIPESIZE eq_refl pipe_divides (pdata p) (nread p) (Z.to_nat (held p)) ch (po_data _ Hok)) by lia.
    cbn [push pdata nread]. do 2 f_equal. rewrite Z2Nat.id by lia. rewrite <- (u32_ahead (nread p) (nwrite p)) at 1 by apply Hok.
    unfold ring_slot. by rewrite (u32_small (u32 _)) by apply u32_range.
Qed.

Lemma pop_spec x q : bytes p = x :: q -> let p' := set_nread (u32 (nread p + 1)) p in
  pipe_ok p' /\ bytes p' = q /\ ring_get PIPESIZE (pdata p) (nread p) = x.
Proof.
  intros Hb p'. pose proof length_bytes as Hl. rewrite Hb in Hl. cbn [length] in Hl. pose proof (po_held _ Hok) as Hh.
  assert (held p' = held p - 1) as E.
  { unfold held, p' in *. cbn [nwrite nread set_nread]. unfold PIPESIZE in *.
    assert (u32 (nwrite p - u32 (nread p + 1)) = u32 (u32 (nwrite p - nread p) + -1)) as ->.
    { unfold u32. rewrite Zminus_mod_idemp_r, Zplus_mod_idemp_l. f_equal. lia. }
    rewrite u32_small; lia. }
  unfold bytes in Hb. replace (Z.to_nat (held p)) with (S (Z.to_nat (held p'))) in Hb by lia. rewrite ring_cons in Hb.
  injection Hb as Hx Hq. split; [|split; [|done]].
  - split; [apply Hok|cbn; apply u32_range|apply Hok|lia].
  - unfold bytes, p' at 1 2. cbn [set_nread pdata nread]. by rewrite ring_u32.
Qed.

End Facts.

(** ** Writing and reading *)

Section Transfer.
Context {X : Type} (byte_of : Z -> X -> Z) (copyin : Z -> nat -> X -> list Z * Z).
Context (put : Z -> Z -> X -> X) (copyout : Z -> list Z -> X -> X * Z) (pi : Z) (killed : bool).

(** The bytes of the writer's buffer from [i] to [n]. *)
Definition source (addr i n : Z) (x : X) : list Z :=
  (fun k => byte_of (u64 (addr + i + Z.of_nat k)) x) <$> seq 0 (Z.to_nat (n - i)).

Lemma source_cons addr i n x : i < n -> source addr i n x = byte_of (u64 (addr + i)) x :: source addr (i + 1) n x.
Proof.
  intros Hi. unfold source. replace (Z.to_nat (n - i)) with (S (Z.to_nat (n - (i + 1)))) by lia.
  cbn [seq fmap list_fmap]. rewrite Z.add_0_r. f_equal. rewrite <- fmap_S_seq, <- list_fmap_compose.
  apply list_fmap_ext. intros ? k _. simpl. do 2 f_equal. lia.
Qed.

Definition write_result (p : pipe) (i n room : Z) : (Z + Z) * list event :=
  if n - i <=? room then (inl n, [EWake (ChPipeRead pi)])
  else if (readopen p =? 0) || killed then (inl (-1), [])
  else (inr (i + room), [EWake (ChPipeRead pi)]).

Lemma pipewrite_loop_spec addr n : (forall a x, copyin a 1 x = ([byte_of a x], 0)) ->
  forall rest i p x, rest = Z.to_nat (n - i) -> i <= n -> pipe_ok p ->
  let room := PIPESIZE - held p in
  wp (pipewrite_loop copyin pi killed rest i addr n) (p, x) (fun r s' t =>
    pipe_ok (fst s') /\ snd s' = x /\ readopen (fst s') = readopen p /\ writeopen (fst s') = writeopen p /\
    bytes (fst s') = bytes p ++ take (Z.to_nat room) (source addr i n x) /\ (r, t) = write_result p i n room).
Proof.
  intros Hc. induction rest as [|rest IH]; intros i p x Hr Hi Hok room; subst room;
    pose proof (po_held _ Hok) as Hh; pose proof (length_bytes p) as Hlb; cbn [pipewrite_loop]; wp_steps.
  - replace (source addr i n x) with (@nil Z) by (unfold source; by rewrite <- Hr). rewrite take_nil, app_nil_r.
    split_and!; [done..|]. unfold write_result. rewrite (proj2 (Z.leb_le _ _)) by lia. done.
  - cbn [fst]. rewrite (full_spec _ Hok). unfold write_result. destruct (held p =? PIPESIZE) eqn:Ef; bools.
    + rewrite (proj2 (Z.leb_gt _ _)) by lia. rewrite Ef, Z.sub_diag, Z.add_0_r. cbn [Z.to_nat take].
      destruct (_ || killed); wp_steps; by rewrite app_nil_r.
    + assert (held p < PIPESIZE) as Hlt by lia. destruct (push_spec _ Hok (byte_of (u64 (addr + i)) x) Hlt) as [Hok' Hb'].
      wp_steps. rewrite Hc. cbn [snd fst Z.eqb chr nth]. unfold on_pipe. wp_steps. cbn [fst snd].
      eapply wp_mono; [apply IH; [lia|lia|exact Hok']|].
      pose proof (length_bytes (push (byte_of (u64 (addr + i)) x) p)) as Hl'. rewrite Hb', length_app in Hl'. cbn [length] in Hl'.
      intros r s' t (? & ? & ? & ? & -> & E). split_and!; [done..| |].
      * rewrite Hb', <- app_assoc, (source_cons addr i n x) by lia. do 2 f_equal.
        replace (Z.to_nat (PIPESIZE - held p)) with (S (Z.to_nat (PIPESIZE - held (push (byte_of (u64 (addr + i)) x) p)))) by lia. done.
      * unfold write_result in E. cbn [app]. rewrite E. cbn [push readopen].
        replace (PIPESIZE - held p) with (PIPESIZE - held (push (byte_of (u64 (addr + i)) x) p) + 1) by lia.
        destruct (_ <=? _) eqn:E1, (n - i <=? _) eqn:E2; bools; try lia; [done|]. clear E. destruct (_ || killed); [done|]. do 2 f_equal. lia.
Qed.

Lemma piperead_loop_spec addr : (forall a b x, copyout a [b] x = (put a b x, 0)) ->
  forall rest i p x, pipe_ok p -> let k := Nat.min rest (length (bytes p)) in
  wp (piperead_loop copyout rest i addr) (p, x) (fun r s' t => t = [] /\ pipe_ok (fst s') /\
    readopen (fst s') = readopen p /\ writeopen (fst s') = writeopen p /\ bytes (fst s') = drop k (bytes p) /\
    snd s' = stores put (u64 (addr + i)) (take k (bytes p)) x /\ r = i + Z.of_nat k).
Proof.
  intros Hc. induction rest as [|rest IH]; intros i p x Hok k; subst k; cbn [piperead_loop]; wp_steps; cbn [fst].
  { rewrite Z.add_0_r. done. }
  destruct (empty p) eqn:Ee.
  { apply (empty_spec _ Hok) in Ee. rewrite Ee. wp_steps. cbn [fst snd length Nat.min take drop stores]. rewrite Ee, Z.add_0_r. done. }
  destruct (bytes p) as [|b q] eqn:Eb. { apply (empty_spec _ Hok) in Eb. congruence. }
  destruct (pop_spec _ Hok _ _ Eb) as (Hok' & Hb' & ->). unfold on_pipe. wp_steps. unfold wp at 1. cbn [fst snd].
  rewrite Hc. cbn [Z.eqb fst snd]. eapply wp_mono; [apply IH; exact Hok'|]. rewrite Hb'. cbn [length Nat.min].
  intros r s' t (-> & ? & ? & ? & ? & Hs & ->). split_and!; [done..| |lia].
  rewrite Hs. cbn [take stores]. f_equal. unfold u64. rewrite Zplus_mod_idemp_l. f_equal. lia.
Qed.

End Transfer.


(** An empty pipe whose counters are about to wrap around. *)
Definition pipe0 : pipe := Pipe (replicate 512 0) (2 ^ 32 - 2) (2 ^ 32 - 2) 1 1.

Lemma pipe0_ok : pipe_ok pipe0.
Proof. split; cbn; [done|lia|lia|done]. Qed.



(** Three bytes across the wrap-around. *)
Definition pipe_abc : pipe := push 99 (push 98 (push 97 pipe0)).

Lemma pipe_abc_ok : pipe_ok pipe_abc.
Proof. apply push_spec; [apply push_spec; [apply push_spec; [apply pipe0_ok|done]|done]|done]. Qed.

