(* ===== verification/Sleeplock.v ===== *)
(** * Sleep locks (kernel/sleeplock.c)

    A sleep lock is held across disk waits.  The spin lock [lk->lk] inside it
    makes each of the three operations below one atomic step (see Spinlock.v),
    so the state is the flag and the holder's pid.  [me] is the pid of the
    running process, [myproc()->pid]. *)

From stdpp Require Import base list strings.
From S2P Require Import Prelude.
Local Open Scope xv6_scope.

(** struct sleeplock *)
Record sleeplock := Sleeplock { locked : Z; pid : Z }.

#[global] Instance sleeplock_inhabited : Inhabited sleeplock := populate (Sleeplock 0 0).
#[global] Instance sleeplock_eq_dec : EqDecision sleeplock.
Proof. solve_decision. Defined.

Definition initsleeplock : sleeplock := Sleeplock 0 0.

(** while(lk->locked) sleep(lk, &lk->lk); lk->locked = 1; lk->pid = myproc()->pid.
    A process that is woken runs the test again, so the loop is a retry of
    the whole call. *)
Definition acquiresleep (c : wchan) (me : Z) : M sleeplock unit :=
  l <- get locked ;;
  if ctrue l then sleep c
  else modify (fun _ => Sleeplock 1 me).

Definition releasesleep (c : wchan) : M sleeplock unit :=
  modify (fun _ => Sleeplock 0 0) ;;; wakeup c.

Definition holdingsleep (me : Z) (lk : sleeplock) : bool :=
  ctrue (locked lk) && (pid lk =? me).

(** ** Facts *)

(** The lock's state as the pid of its holder. *)
Definition holder (lk : sleeplock) : option Z :=
  if ctrue (locked lk) then Some (pid lk) else None.

Lemma acquiresleep_free c me lk :
  holder lk = None -> acquiresleep c me lk = Ok tt (Sleeplock 1 me) [].
Proof.
  unfold holder, acquiresleep, bind, get. simpl. by destruct (ctrue (locked lk)).
Qed.

Lemma acquiresleep_held c me lk p :
  holder lk = Some p -> acquiresleep c me lk = Sleep c lk [].
Proof.
  unfold holder, acquiresleep, bind, get. simpl. by destruct (ctrue (locked lk)).
Qed.

Lemma holdingsleep_holder me lk : holdingsleep me lk = true <-> holder lk = Some me.
Proof.
  unfold holdingsleep, holder. destruct (ctrue (locked lk)); simpl; [|done].
  rewrite Z.eqb_eq. naive_solver.
Qed.
