(* ===== verification/Bio.v ===== *)
(** * The buffer cache (kernel/bio.c, kernel/buf.h)

    The cache is the array [bcache.buf[NBUF]] and the list head
    [bcache.head]; pointers into it are indices, [NBUF] being the head.  This
    file translates the code; BioFacts.v proves what it does. *)

From Stdlib Require Import ZArith Lia.
From stdpp Require Import base gmap list strings fin_maps.
From S2P Require Import Prelude Sleeplock.
Local Open Scope xv6_scope.

(** param.h and fs.h *)
Definition MAXOPBLOCKS : Z := 10.
Definition NBUF : nat := 30.
Definition BSIZE : nat := 1024.

(** struct buf ([qnext] is not used by any code of the kernel). *)
Record buf := Buf {
  valid : Z; disk : Z; dev : Z; blockno : Z; lock : sleeplock; refcnt : Z;
  prev : nat; next : nat; data : list Z }.

#[global] Instance buf_inhabited : Inhabited buf :=
  populate (Buf 0 0 0 0 initsleeplock 0 0 0 (replicate BSIZE 0)).

Definition set_valid (x : Z) (b : buf) : buf :=
  Buf x (disk b) (dev b) (blockno b) (lock b) (refcnt b) (prev b) (next b) (data b).
Definition set_key (d n : Z) (b : buf) : buf :=
  Buf (valid b) (disk b) d n (lock b) (refcnt b) (prev b) (next b) (data b).
Definition set_lock (x : sleeplock) (b : buf) : buf :=
  Buf (valid b) (disk b) (dev b) (blockno b) x (refcnt b) (prev b) (next b) (data b).
Definition set_refcnt (x : Z) (b : buf) : buf :=
  Buf (valid b) (disk b) (dev b) (blockno b) (lock b) x (prev b) (next b) (data b).
Definition set_prev (x : nat) (b : buf) : buf :=
  Buf (valid b) (disk b) (dev b) (blockno b) (lock b) (refcnt b) x (next b) (data b).
Definition set_next (x : nat) (b : buf) : buf :=
  Buf (valid b) (disk b) (dev b) (blockno b) (lock b) (refcnt b) (prev b) x (data b).
Definition set_data (x : list Z) (b : buf) : buf :=
  Buf (valid b) (disk b) (dev b) (blockno b) (lock b) (refcnt b) (prev b) (next b) x.

(** bcache, and the contents of the disks behind it. *)
Record bstate := BState { bufs : list buf; disks : gmap (Z * Z) (list Z) }.

Definition HEAD : nat := NBUF.

Definition set_bufs (x : list buf) (s : bstate) : bstate := BState x (disks s).
Definition set_disks (x : gmap (Z * Z) (list Z)) (s : bstate) : bstate := BState (bufs s) x.

(** [*b] and [b->field = ...] through a pointer. *)
Definition bderef (i : nat) : M bstate buf := fetch (fun s => bufs s !! i).
Definition bassign (i : nat) (f : buf -> buf) : M bstate unit := fun s =>
  if (i <? length (bufs s))%nat then Ok tt (set_bufs (alter f i (bufs s)) s) []
  else Undef.
Definition on_lock {A} (i : nat) (m : M sleeplock A) : M bstate A :=
  b <- bderef i ;;
  zoom (fun s => from_option lock initsleeplock (bufs s !! i))
       (fun l s => set_bufs (alter (set_lock l) i (bufs s)) s) m.

(** Boot-time contents of the (zeroed) cache. *)
Definition bcache0 : list buf := replicate (S NBUF) inhabitant.

(** b->next = bcache.head.next; b->prev = &bcache.head; *)
Definition link_node (b : nat) : M bstate unit :=
  h <- bderef HEAD ;;
  bassign b (set_next (next h)) ;;;
  bassign b (set_prev HEAD).

(** bcache.head.next->prev = b; bcache.head.next = b; *)
Definition link_head (b : nat) : M bstate unit :=
  h <- bderef HEAD ;;
  bassign (next h) (set_prev b) ;;;
  bassign HEAD (set_next b).

Definition binit : M bstate unit :=
  bassign HEAD (set_prev HEAD) ;;;
  bassign HEAD (set_next HEAD) ;;;
  for_all (seq 0 NBUF) (fun b =>
    link_node b ;;;
    bassign b (set_lock initsleeplock) ;;;
    link_head b).

(** for(b = bcache.head.next; b != &bcache.head; b = b->next)
      if(b->dev == dev && b->blockno == blockno) ... *)
Fixpoint scan_next (fuel b : nat) (d n : Z) : M bstate (option nat) :=
  match fuel with
  | O => diverge
  | S fuel' =>
      if (b =? HEAD)%nat then ret None
      else
        bb <- bderef b ;;
        if (dev bb =? d) && (blockno bb =? n) then ret (Some b)
        else scan_next fuel' (next bb) d n
  end.

(** for(b = bcache.head.prev; b != &bcache.head; b = b->prev)
      if(b->refcnt == 0) ... *)
Fixpoint scan_prev (fuel b : nat) : M bstate (option nat) :=
  match fuel with
  | O => diverge
  | S fuel' =>
      if (b =? HEAD)%nat then ret None
      else
        bb <- bderef b ;;
        if refcnt bb =? 0 then ret (Some b)
        else scan_prev fuel' (prev bb)
  end.

(** A scan visits each buffer once and then the head. *)
Definition scan_fuel : nat := S NBUF.

Definition bget (me d n : Z) : M bstate nat :=
  h <- bderef HEAD ;;
  r <- scan_next scan_fuel (next h) d n ;;
  match r with
  | Some b =>
      bassign b (fun bb => set_refcnt (u32 (refcnt bb + 1)) bb) ;;;
      on_lock b (acquiresleep (ChBufLock b) me) ;;;
      ret b
  | None =>
      h <- bderef HEAD ;;
      r <- scan_prev scan_fuel (prev h) ;;
      match r with
      | Some b =>
          bassign b (set_key d n) ;;;
          bassign b (set_valid 0) ;;;
          bassign b (set_refcnt 1) ;;;
          on_lock b (acquiresleep (ChBufLock b) me) ;;;
          ret b
      | None => panic "bget: no buffers"
      end
  end.

(** The block device, as [virtio_disk_rw(n, b, write)] presents it to this
    layer: one whole block moves between [b->data] and the disk. *)
Definition disk_block (d : gmap (Z * Z) (list Z)) (k : Z * Z) : list Z :=
  default (replicate BSIZE 0) (d !! k).

Definition disk_read (d : Z) (i : nat) : M bstate unit :=
  b <- bderef i ;;
  dk <- get disks ;;
  bassign i (set_data (disk_block dk (d, blockno b))).

Definition disk_write (d : Z) (i : nat) : M bstate unit :=
  b <- bderef i ;;
  modify (fun s => set_disks (<[(d, blockno b) := data b]> (disks s)) s) ;;;
  emit (EDisk d (blockno b) (data b)).

Definition bread (me d n : Z) : M bstate nat :=
  b <- bget me d n ;;
  bb <- bderef b ;;
  (if negb (ctrue (valid bb)) then
     disk_read (dev bb) b ;;; bassign b (set_valid 1)
   else ret tt) ;;;
  ret b.

Definition bwrite (me : Z) (b : nat) : M bstate unit :=
  bb <- bderef b ;;
  if negb (holdingsleep me (lock bb)) then panic "bwrite"
  else disk_write (dev bb) b.

Definition brelse (me : Z) (b : nat) : M bstate unit :=
  bb <- bderef b ;;
  if negb (holdingsleep me (lock bb)) then panic "brelse"
  else
    on_lock b (releasesleep (ChBufLock b)) ;;;
    bassign b (fun bb => set_refcnt (u32 (refcnt bb - 1)) bb) ;;;
    bb <- bderef b ;;
    if refcnt bb =? 0 then
      bassign (next bb) (set_prev (prev bb)) ;;;
      bb <- bderef b ;;
      bassign (prev bb) (set_next (next bb)) ;;;
      link_node b ;;;
      link_head b
    else ret tt.

Definition bpin (b : nat) : M bstate unit :=
  bassign b (fun bb => set_refcnt (u32 (refcnt bb + 1)) bb).

Definition bunpin (b : nat) : M bstate unit :=
  bassign b (fun bb => set_refcnt (u32 (refcnt bb - 1)) bb).

(** Storing into [b->data] through a locked buffer. *)
Definition bstore (b : nat) (x : list Z) : M bstate unit := bassign b (set_data x).
