(* ===== verification/BioFacts.v ===== *)
(** * What the buffer cache guarantees

    The doubly-linked list of bio.c implements a recency list ([linked]); no
    block is cached by two buffers in use ([first_rel], [used_unique]); and the
    cache as a whole meets the contract [BC], by which the log and the file
    system reason: an assignment of contents, disk contents, reference counts
    and lock holders to block addresses, on which [bread], [bwrite], [brelse],
    [bpin] and [bunpin] act. *)

From Stdlib Require Import ZArith Lia Sorting.Sorted.
From stdpp Require Import base gmap list strings fin_maps functions sorting.
From S2P Require Import Prelude Sleeplock Bio.
Local Open Scope xv6_scope.

(** ** The recency list

    [linked nx pv a l z]: following [nx] from [a] visits exactly [l] and then
    [z], and [pv] leads back the same way. *)

Fixpoint linked (nx pv : nat -> nat) (a : nat) (l : list nat) (z : nat) : Prop :=
  match l with
  | [] => nx a = z /\ pv z = a
  | x :: l' => nx a = x /\ pv x = a /\ linked nx pv x l' z
  end.

Definition nxt (bs : list buf) (i : nat) : nat := next (bs !!! i).
Definition prv (bs : list buf) (i : nat) : nat := prev (bs !!! i).

Lemma linked_ext nx pv nx' pv' a l z :
  (forall i, i ∈ a :: l -> nx' i = nx i) ->
  (forall i, i ∈ l ++ [z] -> pv' i = pv i) ->
  linked nx pv a l z -> linked nx' pv' a l z.
Proof.
  revert a. induction l as [|x l IH]; simpl; intros a Hn Hp H.
  - rewrite Hn, Hp by set_solver. done.
  - rewrite Hn, Hp by set_solver. destruct H as (? & ? & ?). split_and!; [done..|].
    apply IH; set_solver.
Qed.

Lemma linked_app nx pv a l1 x l2 z :
  linked nx pv a (l1 ++ x :: l2) z <-> linked nx pv a l1 x /\ linked nx pv x l2 z.
Proof.
  revert a. induction l1 as [|y l1 IH]; simpl; intros a; [tauto|].
  rewrite IH. tauto.
Qed.

Lemma linked_reverse nx pv a l z :
  linked nx pv a l z -> linked pv nx z (reverse l) a.
Proof.
  revert a. induction l as [|x l IH]; simpl; intros a H; [tauto|].
  rewrite reverse_cons. apply linked_app. simpl. split; [|tauto].
  apply IH. tauto.
Qed.

Lemma linked_pv_last nx pv a l z : linked nx pv a l z -> pv z ∈ a :: l.
Proof.
  revert a. induction l as [|x l IH]; simpl; intros a H; [set_solver|].
  destruct H as (_ & _ & H). apply IH in H. set_solver.
Qed.

Lemma linked_nx_first nx pv a l z : linked nx pv a l z -> nx a ∈ l ++ [z].
Proof. destruct l; simpl; intros H; set_solver. Qed.

(** Unlinking [b]: its neighbours are joined. *)
Lemma linked_unlink nx pv nx' pv' a l1 b l2 z :
  NoDup (a :: l1 ++ b :: l2) -> z ∉ l1 ++ b :: l2 ->
  nx' (pv b) = nx b -> (forall i, i <> pv b -> nx' i = nx i) ->
  pv' (nx b) = pv b -> (forall i, i <> nx b -> pv' i = pv i) ->
  linked nx pv a (l1 ++ b :: l2) z -> linked nx' pv' a (l1 ++ l2) z.
Proof.
  intros Hnd Hz Hn1 Hn2 Hp1 Hp2 H. apply linked_app in H as [H1 H2].
  pose proof (linked_nx_first _ _ _ _ _ H2) as Hnb.
  revert a Hnd H1. induction l1 as [|x l1 IH]; simpl; intros a Hnd H1.
  - destruct H1 as [Ha Hb]. rewrite Hb in *. apply NoDup_cons in Hnd as [Ha' Hnd].
    apply NoDup_cons in Hnd as [Hb' Hnd].
    destruct l2 as [|c l2]; simpl in *.
    + destruct H2 as [H2 H3]. by rewrite <- H2.
    + destruct H2 as (H2 & H3 & H4). rewrite H2 in *. split_and!; [done..|].
      apply NoDup_cons in Hnd as [Hc Hnd].
      eapply linked_ext, H4; intros i Hi; [apply Hn2|apply Hp2]; set_solver.
  - destruct H1 as (Ha & Hx & H1). apply NoDup_cons in Hnd as [Ha' Hnd].
    pose proof (linked_pv_last _ _ _ _ _ H1) as Hpb.
    split_and!.
    + rewrite Hn2; [done|]. intros E. apply Ha'. rewrite E. clear -Hpb. set_solver.
    + rewrite Hp2; [done|]. apply NoDup_cons in Hnd as [Hx' _]. intros E.
      rewrite <- E in Hnb. clear -Hnb Hx' Hz. set_solver.
    + apply IH; [clear -Hz; set_solver|done|done].
Qed.

(** Splicing [b] in after [a]. *)
Lemma linked_push nx pv nx' pv' a l b z :
  b ∉ a :: l -> b <> z -> NoDup (a :: l) -> z ∉ l ->
  nx' b = nx a -> nx' a = b -> (forall i, i <> a -> i <> b -> nx' i = nx i) ->
  pv' b = a -> pv' (nx a) = b -> (forall i, i <> nx a -> i <> b -> pv' i = pv i) ->
  linked nx pv a l z -> linked nx' pv' a (b :: l) z.
Proof.
  intros Hb Hbz Hnd Hz Hn1 Hn2 Hn3 Hp1 Hp2 Hp3 H. simpl. split_and!; [done..|].
  destruct l as [|x l]; simpl in *.
  - destruct H as [H1 H2]. rewrite H1 in *. done.
  - destruct H as (H1 & H2 & H3). rewrite H1 in *. split_and!; [done..|].
    apply NoDup_cons in Hnd as [Ha Hnd]. apply NoDup_cons in Hnd as [Hx Hnd].
    eapply linked_ext, H3; intros i Hi; [apply Hn3|apply Hp3]; set_solver.
Qed.

(** ** Reading and writing buffers *)

Lemma bderef_eq i s :
  (i < length (bufs s))%nat -> bderef i s = Ok (bufs s !!! i) s [].
Proof. intros H. unfold bderef, fetch. by rewrite list_lookup_lookup_total_lt. Qed.

Lemma wp_bderef i s Q :
  (i < length (bufs s))%nat -> Q (bufs s !!! i) s [] -> wp (bderef i) s Q.
Proof. intros H HQ. unfold wp. by rewrite bderef_eq. Qed.

Lemma bassign_eq i f s :
  (i < length (bufs s))%nat -> bassign i f s = Ok tt (set_bufs (alter f i (bufs s)) s) [].
Proof. intros H. unfold bassign. by destruct (Nat.ltb_spec i (length (bufs s))); [|lia]. Qed.

Lemma wp_bassign i f s Q :
  (i < length (bufs s))%nat -> Q tt (set_bufs (alter f i (bufs s)) s) [] ->
  wp (bassign i f) s Q.
Proof. intros H HQ. unfold wp. by rewrite bassign_eq. Qed.

Lemma wp_on_lock {A} i (m : M sleeplock A) s Q :
  (i < length (bufs s))%nat ->
  wp m (lock (bufs s !!! i))
     (fun a l t => Q a (set_bufs (alter (set_lock l) i (bufs s)) s) t) ->
  wp (on_lock i m) s Q.
Proof.
  intros H HQ. unfold on_lock. wp_step. apply wp_bderef; [done|]. wp_step.
  rewrite list_lookup_lookup_total_lt by done. simpl. done.
Qed.

(** What an [alter] leaves of the other slots, and of the fields. *)
Ltac bufs_simpl :=
  repeat first
    [ progress cbn [bufs disks set_bufs set_disks next prev set_prev set_next
        set_refcnt set_lock set_key set_valid set_data refcnt valid dev blockno
        lock data disk] in *
    | rewrite list_lookup_total_alter_eq by (rewrite ?length_alter; lia)
    | rewrite list_lookup_total_alter_ne by lia ].

(** ** Scanning the list *)

Definition bkey (b : buf) : Z * Z := (dev b, blockno b).

Lemma scan_next_spec s d n pv : forall l a fuel,
  length (bufs s) = S NBUF -> Forall (fun i => (i < NBUF)%nat) l ->
  linked (nxt (bufs s)) pv a l HEAD -> (length l < fuel)%nat ->
  scan_next fuel (nxt (bufs s) a) d n s =
  Ok (List.find (fun i => (dev (bufs s !!! i) =? d) && (blockno (bufs s !!! i) =? n)) l) s [].
Proof.
  induction l as [|x l IH]; intros a fuel Hlen Hl H Hf; (destruct fuel as [|fuel]; [simpl in Hf; lia|]);
    cbn [scan_next linked] in *.
  - destruct H as [-> _]. by rewrite Nat.eqb_refl.
  - destruct H as (-> & _ & H). apply Forall_cons in Hl as [Hx Hl].
    destruct (Nat.eqb_spec x HEAD) as [->|_]; [unfold HEAD in *; lia|].
    unfold bind. rewrite bderef_eq by lia. cbn [List.find after].
    destruct ((dev (bufs s !!! x) =? d) && (blockno (bufs s !!! x) =? n)); [done|].
    change (next (bufs s !!! x)) with (nxt (bufs s) x).
    rewrite IH by (simpl in Hf; done || lia). done.
Qed.

Lemma scan_prev_spec s nx : forall l a fuel,
  length (bufs s) = S NBUF -> Forall (fun i => (i < NBUF)%nat) l ->
  linked (prv (bufs s)) nx a l HEAD -> (length l < fuel)%nat ->
  scan_prev fuel (prv (bufs s) a) s =
  Ok (List.find (fun i => refcnt (bufs s !!! i) =? 0) l) s [].
Proof.
  induction l as [|x l IH]; intros a fuel Hlen Hl H Hf; (destruct fuel as [|fuel]; [simpl in Hf; lia|]);
    cbn [scan_prev linked] in *.
  - destruct H as [-> _]. by rewrite Nat.eqb_refl.
  - destruct H as (-> & _ & H). apply Forall_cons in Hl as [Hx Hl].
    destruct (Nat.eqb_spec x HEAD) as [->|_]; [unfold HEAD in *; lia|].
    unfold bind. rewrite bderef_eq by lia. cbn [List.find after].
    destruct (refcnt (bufs s !!! x) =? 0); [done|].
    change (prev (bufs s !!! x)) with (prv (bufs s) x).
    rewrite IH by (simpl in Hf; done || lia). done.
Qed.

(** ** The invariant of the cache *)

Definition used (b : buf) : Prop := refcnt b <> 0 \/ valid b <> 0.
#[global] Instance used_dec b : Decision (used b).
Proof. unfold used. apply _. Defined.

(** Of the buffers labelled with one block, only the most recently used one
    may be in use.  (At boot every buffer is labelled with block 0 of
    device 0, so labels alone are not unique.) *)
Definition first_rel (bs : list buf) (i j : nat) : Prop :=
  bkey (bs !!! i) = bkey (bs !!! j) -> ~ used (bs !!! j).

Definition blk_ok (x : list Z) : Prop := length x = BSIZE /\ Forall byte_ok x.

Lemma blk_ok_fill x : byte_ok x -> blk_ok (replicate BSIZE x).
Proof. split; [apply length_replicate|by apply Forall_replicate]. Qed.

(** A buffer that holds nothing is unlocked; a buffer nobody references, if
    valid, agrees with the disk. *)
Record buf_ok (d : gmap (Z * Z) (list Z)) (b : buf) : Prop := {
  bo_ref : 0 <= refcnt b < 2 ^ 32;
  bo_valid : valid b = 0 \/ valid b = 1;
  bo_idle : ~ used b -> holder (lock b) = None;
  bo_data : valid b = 1 -> blk_ok (data b);
  bo_clean : refcnt b = 0 -> valid b = 1 -> data b = disk_block d (bkey b) }.

(** [l] is the recency list, most recent first. *)
Record binv (s : bstate) (l : list nat) : Prop := {
  bi_len : length (bufs s) = S NBUF;
  bi_perm : l ≡ₚ seq 0 NBUF;
  bi_ring : linked (nxt (bufs s)) (prv (bufs s)) HEAD l HEAD;
  bi_first : StronglySorted (first_rel (bufs s)) l;
  bi_buf : forall i, (i < NBUF)%nat -> buf_ok (disks s) (bufs s !!! i) }.

Definition nfree (s : bstate) : Z :=
  count (fun i => refcnt (bufs s !!! i) =? 0) (seq 0 NBUF).

(** ** The contract

    [v k] is the current content of block [k], [d k] its content on disk,
    [r k] its reference count, [h k] the process that has it locked; [f] is
    the number of buffers nobody references. *)

Record BCL (s : bstate) (l : list nat) (v d : Z * Z -> list Z) (r : Z * Z -> Z)
    (h : Z * Z -> option Z) (f : Z) : Prop := {
  bc_inv : binv s l;
  bc_disk : forall k, disk_block (disks s) k = d k;
  bc_dok : forall k, blk_ok (d k);
  bc_used : forall i, (i < NBUF)%nat -> used (bufs s !!! i) ->
    let b := bufs s !!! i in
    v (bkey b) = (if valid b =? 1 then data b else d (bkey b)) /\
    r (bkey b) = refcnt b /\ h (bkey b) = holder (lock b);
  bc_unused : forall k,
    (forall i, (i < NBUF)%nat -> used (bufs s !!! i) -> bkey (bufs s !!! i) <> k) ->
    v k = d k /\ r k = 0 /\ h k = None;
  bc_free : f = nfree s }.

Definition BC (s : bstate) v d r h f : Prop := exists l, BCL s l v d r h f.

(** Buffer [i] caches block [k]. *)
Definition is_buf (s : bstate) (i : nat) (k : Z * Z) : Prop :=
  (i < NBUF)%nat /\ valid (bufs s !!! i) = 1 /\ bkey (bufs s !!! i) = k.

(** The contract only sees the values of its functions. *)
#[global] Instance BCL_proper :
  Proper ((=) ==> (=) ==> pointwise_relation _ (=) ==> pointwise_relation _ (=) ==>
          pointwise_relation _ (=) ==> pointwise_relation _ (=) ==> (=) ==> iff) BCL.
Proof.
  assert (forall s l v v' d d' r r' h h' f,
    (forall k, v k = v' k) -> (forall k, d k = d' k) -> (forall k, r k = r' k) ->
    (forall k, h k = h' k) -> BCL s l v d r h f -> BCL s l v' d' r' h' f) as H.
  { intros s l v v' d d' r r' h h' f Hv Hd Hr Hh [H1 H2 H3 H4 H5 H6].
    constructor; auto.
    - intros k. by rewrite H2, Hd.
    - intros k. by rewrite <- Hd.
    - intros i Hi Hu b. subst b. rewrite <- Hv, <- Hd, <- Hr, <- Hh. by apply H4.
    - intros k Hk. rewrite <- Hv, <- Hd, <- Hr, <- Hh. by apply H5. }
  intros s ? <- l ? <- v v' Hv d d' Hd r r' Hr h h' Hh f ? <-. split; apply H;
    intros k; first [apply Hv|apply Hd|apply Hr|apply Hh| symmetry; first [apply Hv|apply Hd|apply Hr|apply Hh]].
Qed.

#[global] Instance BC_proper :
  Proper ((=) ==> pointwise_relation _ (=) ==> pointwise_relation _ (=) ==>
          pointwise_relation _ (=) ==> pointwise_relation _ (=) ==> (=) ==> iff) BC.
Proof.
  intros s ? <- v v' Hv d d' Hd r r' Hr h h' Hh f ? <-. unfold BC.
  split; intros [l Hl]; exists l; [rewrite <- Hv, <- Hd, <- Hr, <- Hh|rewrite Hv, Hd, Hr, Hh]; done.
Qed.

Lemma binv_lt s l i : binv s l -> i ∈ l <-> (i < NBUF)%nat.
Proof. intros [_ Hp _ _ _]. rewrite Hp, elem_of_seq. lia. Qed.

Lemma binv_nodup s l : binv s l -> NoDup l.
Proof. intros [_ Hp _ _ _]. rewrite Hp. apply NoDup_seq. Qed.

Lemma binv_length s l : binv s l -> length l = NBUF.
Proof. intros [_ Hp _ _ _]. rewrite Hp. by rewrite length_seq. Qed.

Lemma binv_Forall s l : binv s l -> Forall (fun i => (i < NBUF)%nat) l.
Proof. intros H. apply Forall_forall. intros i. by rewrite binv_lt. Qed.

(** Two positions of a strongly sorted list. *)
Lemma StronglySorted_cases {A} (R : A -> A -> Prop) l x y :
  StronglySorted R l -> x ∈ l -> y ∈ l -> x <> y -> R x y \/ R y x.
Proof.
  induction 1 as [|z l Hl IH Hz]; intros Hx Hy Hne; [set_solver|].
  rewrite Forall_forall in Hz. set_solver.
Qed.

(** No two buffers in use hold the same block. *)
Lemma used_unique s l i j :
  binv s l -> (i < NBUF)%nat -> (j < NBUF)%nat ->
  used (bufs s !!! i) -> used (bufs s !!! j) ->
  bkey (bufs s !!! i) = bkey (bufs s !!! j) -> i = j.
Proof.
  intros Hb Hi Hj Ui Uj Hk. destruct (decide (i = j)) as [|Hne]; [done|].
  destruct (StronglySorted_cases _ _ i j (bi_first _ _ Hb)) as [R|R];
    [by apply (binv_lt _ _ _ Hb)..|done|by apply R in Hk|by symmetry in Hk; apply R in Hk].
Qed.

(** ** Changing one buffer *)

(** A buffer without its links. *)
Definition core (b : buf) : buf := set_prev 0 (set_next 0 b).

Lemma core_fields b c : core b = core c ->
  refcnt b = refcnt c /\ valid b = valid c /\ bkey b = bkey c /\ lock b = lock c /\ data b = data c.
Proof.
  destruct b, c. unfold core, bkey, set_prev, set_next. simpl. intros [=]. by subst.
Qed.

Lemma core_used b c : core b = core c -> used b <-> used c.
Proof. intros H. apply core_fields in H as (H1 & H2 & _). unfold used. by rewrite H1, H2. Qed.

Lemma core_buf_ok d d' b c :
  core b = core c -> (refcnt c = 0 -> valid c = 1 -> disk_block d' (bkey c) = disk_block d (bkey c)) ->
  buf_ok d c -> buf_ok d' b.
Proof.
  intros H Hd [H1 H2 H3 H4 H5]. pose proof (core_used _ _ H) as Hu.
  apply core_fields in H as (E1 & E2 & E3 & E4 & E5).
  constructor; rewrite ?Hu, ?E1, ?E2, ?E4, ?E5; auto. intros Hr Hv. rewrite E3, Hd by done. auto.
Qed.

Lemma first_rel_core bs bs' (i j : nat) :
  core (bs' !!! i) = core (bs !!! i) -> core (bs' !!! j) = core (bs !!! j) ->
  first_rel bs i j -> first_rel bs' i j.
Proof.
  unfold first_rel. intros Hi Hj H. rewrite (core_used _ _ Hj).
  apply core_fields in Hi as (_ & _ & -> & _). apply core_fields in Hj as (_ & _ & -> & _). done.
Qed.

Lemma first_rel_sub bs bs' (l : list nat) :
  (forall j, j ∈ l -> core (bs' !!! j) = core (bs !!! j)) ->
  StronglySorted (first_rel bs) l -> StronglySorted (first_rel bs') l.
Proof.
  intros Hc. induction 1 as [|x l Hl IH Hx]; constructor.
  - apply IH. set_solver.
  - rewrite Forall_forall in *. intros y Hy. eapply first_rel_core; [apply Hc..|]; set_solver.
Qed.

Lemma first_rel_keep bs bs' (l1 : list nat) i l2 k :
  StronglySorted (first_rel bs) (l1 ++ i :: l2) ->
  (forall j, j ∈ l1 ++ l2 -> core (bs' !!! j) = core (bs !!! j)) ->
  bkey (bs' !!! i) = k ->
  (forall j, j ∈ l1 -> bkey (bs !!! j) <> k) ->
  (forall j, j ∈ l2 -> used (bs !!! j) -> bkey (bs !!! j) <> k) ->
  StronglySorted (first_rel bs') (l1 ++ i :: l2).
Proof.
  intros H Hc Hk H1 H2. apply StronglySorted_app in H as (Hx & Hl1 & Hl2).
  apply StronglySorted_cons in Hl2 as [_ Hl2].
  apply StronglySorted_app_2; [|apply first_rel_sub with bs; [set_solver|done]|].
  - intros x y Hx1 Hy. apply elem_of_cons in Hy as [->|Hy].
    + intros E. rewrite Hk in E. exfalso. apply (H1 _ Hx1). rewrite <- E.
      symmetry. apply (core_fields _ _ (Hc x ltac:(set_solver))).
    + apply first_rel_core with bs; [apply Hc; set_solver..|]. apply Hx; set_solver.
  - apply StronglySorted_cons. split; [|apply first_rel_sub with bs; [set_solver|done]].
    apply Forall_forall. intros y Hy E. rewrite (core_used _ _ (Hc y ltac:(set_solver))).
    intros Hu. apply (H2 y Hy Hu). rewrite <- Hk, E.
    symmetry. apply (core_fields _ _ (Hc y ltac:(set_solver))).
Qed.

Lemma first_rel_front bs bs' (l1 : list nat) i l2 k :
  StronglySorted (first_rel bs) (l1 ++ i :: l2) ->
  (forall j, j ∈ l1 ++ l2 -> core (bs' !!! j) = core (bs !!! j)) ->
  bkey (bs' !!! i) = k ->
  (forall j, j ∈ l1 ++ l2 -> used (bs !!! j) -> bkey (bs !!! j) <> k) ->
  StronglySorted (first_rel bs') (i :: l1 ++ l2).
Proof.
  intros H Hc Hk H2. apply StronglySorted_app in H as (Hx & Hl1 & Hl2).
  apply StronglySorted_cons in Hl2 as [_ Hl2]. apply StronglySorted_cons. split.
  - apply Forall_forall. intros y Hy E. rewrite (core_used _ _ (Hc y Hy)).
    intros Hu. apply (H2 y Hy Hu). rewrite <- Hk, E.
    symmetry. apply (core_fields _ _ (Hc y Hy)).
  - apply first_rel_sub with bs; [done|]. apply StronglySorted_app_2; [set_solver|done|done].
Qed.

(** Buffer [i] becomes (or stays) the buffer of block [k], with core [b'];
    the disk may change at [k] only. *)
Lemma BCL_set s l v d r h f s' l' i k b' x :
  BCL s l v d r h f -> (i < NBUF)%nat ->
  length (bufs s') = S NBUF -> l' ≡ₚ seq 0 NBUF ->
  linked (nxt (bufs s')) (prv (bufs s')) HEAD l' HEAD ->
  StronglySorted (first_rel (bufs s')) l' ->
  (forall j, (j < NBUF)%nat -> j <> i -> core (bufs s' !!! j) = core (bufs s !!! j)) ->
  core (bufs s' !!! i) = core b' -> bkey b' = k ->
  bkey (bufs s !!! i) = k \/
    refcnt (bufs s !!! i) = 0 /\ holder (lock (bufs s !!! i)) = None ->
  (forall j, (j < NBUF)%nat -> j <> i -> used (bufs s !!! j) -> bkey (bufs s !!! j) <> k) ->
  valid b' = 1 -> 0 <= refcnt b' < 2 ^ 32 ->
  (refcnt b' = 0 -> data b' = x) ->
  blk_ok (data b') -> blk_ok x ->
  (forall k', disk_block (disks s') k' = <[k:=x]> d k') ->
  BCL s' l' (<[k:=data b']> v) (<[k:=x]> d) (<[k:=refcnt b']> r)
      (<[k:=holder (lock b')]> h)
      (f - Z.b2z (refcnt (bufs s !!! i) =? 0) + Z.b2z (refcnt b' =? 0)).
Proof.
  intros [Hinv Hdisk Hdok Hused Hunused ->] Hi Hlen Hperm Hring Hfirst Hcore Hci Hk Hold Hoth
    Hv1 Hr Hrel Hblk Hx Hd'.
  pose proof (core_fields _ _ Hci) as (E1 & E2 & E3 & E4 & E5).
  assert (used b') as Hub by (right; lia).
  constructor.
  - constructor; [done..|]. intros j Hj. destruct (decide (j = i)) as [->|Hne].
    + constructor; rewrite ?E1, ?E2, ?E3, ?E4, ?E5; auto;
        [intros Hu; by destruct Hu; apply (core_used _ _ Hci)|].
      intros Hr0 _. rewrite Hd', Hk, fn_lookup_insert. by apply Hrel.
    + apply core_buf_ok with (disks s) (bufs s !!! j); [by apply Hcore| |by apply (bi_buf _ _ Hinv)].
      intros _ Hjv. rewrite Hd', fn_lookup_insert_ne; [by rewrite Hdisk|].
      intros ->. eapply Hoth; [exact Hj|done| |done]. right. lia.
  - done.
  - intros k'. destruct (decide (k = k')) as [->|];
      [by rewrite fn_lookup_insert|by rewrite fn_lookup_insert_ne].
  - intros j Hj Hu b. subst b. destruct (decide (j = i)) as [->|Hne].
    + rewrite E1, E2, E3, E4, E5, Hk, Hv1, !fn_lookup_insert. done.
    + pose proof (Hcore j Hj Hne) as Hc. rewrite (core_used _ _ Hc) in Hu.
      apply core_fields in Hc as (-> & -> & -> & -> & ->).
      rewrite !fn_lookup_insert_ne by (intros E; by apply (Hoth j Hj Hne Hu)).
      by apply Hused.
  - intros k' Hk'. assert (k <> k') as Hne.
    { intros <-. apply (Hk' i Hi); [by apply (core_used _ _ Hci)|]. by rewrite E3. }
    rewrite !fn_lookup_insert_ne by done.
    destruct (decide (bkey (bufs s !!! i) = k' /\ used (bufs s !!! i))) as [[E Hu]|Hno].
    + (* the recycled buffer was clean *)
      destruct Hold as [Hold|[Hold Hold']]; [congruence|].
      destruct (Hused i Hi Hu) as (Hvi & Hri & Hhi). destruct (bi_buf _ _ Hinv i Hi) as [_ Hval _ _ Hcl].
      rewrite E in *. rewrite Hvi, Hri, Hhi. split_and!; auto.
      destruct (Z.eqb_spec (valid (bufs s !!! i)) 1) as [Ev|]; [|done].
      rewrite Hcl by done. by rewrite Hdisk.
    + apply Hunused. intros j Hj Hu E.
      destruct (decide (j = i)) as [->|Hji]; [tauto|].
      apply (Hk' j Hj); [by apply (core_used _ _ (Hcore j Hj Hji))|].
      rewrite <- E. apply (core_fields _ _ (Hcore j Hj Hji)).
  - unfold nfree. symmetry. rewrite (count_update (fun j => refcnt (bufs s !!! j) =? 0)
      (fun j => refcnt (bufs s' !!! j) =? 0) i).
    + by rewrite E1.
    + apply NoDup_seq.
    + apply elem_of_seq. lia.
    + intros j Hj Hne. apply elem_of_seq in Hj. f_equal. apply (core_fields _ _ (Hcore j ltac:(lia) Hne)).
Qed.

(** The change leaves the list alone. *)
Lemma BCL_inplace s l v d r h f s' l1 i l2 k x :
  BCL s l v d r h f -> l = l1 ++ i :: l2 ->
  length (bufs s') = S NBUF ->
  (forall j, j <> i -> bufs s' !!! j = bufs s !!! j) ->
  let b := bufs s !!! i in let b' := bufs s' !!! i in
  next b' = next b -> prev b' = prev b -> bkey b' = k ->
  (forall j, j ∈ l1 -> bkey (bufs s !!! j) <> k) ->
  (forall j, j ∈ l2 -> used (bufs s !!! j) -> bkey (bufs s !!! j) <> k) ->
  bkey b = k \/ refcnt b = 0 /\ holder (lock b) = None ->
  valid b' = 1 -> 0 <= refcnt b' < 2 ^ 32 ->
  (refcnt b' = 0 -> data b' = x) ->
  blk_ok (data b') -> blk_ok x ->
  (forall k', disk_block (disks s') k' = <[k:=x]> d k') ->
  BCL s' l (<[k:=data b']> v) (<[k:=x]> d) (<[k:=refcnt b']> r)
      (<[k:=holder (lock b')]> h)
      (f - Z.b2z (refcnt b =? 0) + Z.b2z (refcnt b' =? 0)).
Proof.
  intros HB Hl Hlen Hoth b b' Hn Hp Hk H1 H2 Hold Hv Hr Hrel Hblk Hx Hd.
  pose proof (bc_inv _ _ _ _ _ _ _ HB) as Hinv.
  assert (i < NBUF)%nat as Hi by (apply (binv_lt _ _ _ Hinv); set_solver).
  assert (forall j, j ∈ l1 ++ l2 -> j <> i) as Hne.
  { intros j Hj ->. pose proof (binv_nodup _ _ Hinv) as Hnd. rewrite Hl in Hnd.
    apply NoDup_middle in Hnd. tauto. }
  eapply BCL_set; eauto.
  - apply (bi_perm _ _ Hinv).
  - eapply linked_ext, (bi_ring _ _ Hinv); intros j _; unfold nxt, prv;
      (destruct (decide (j = i)) as [->|]; [done|by rewrite Hoth]).
  - rewrite Hl. eapply (first_rel_keep (bufs s)); [rewrite <- Hl; apply (bi_first _ _ Hinv)| |done..].
    intros j Hj. by rewrite Hoth by auto.
  - intros j Hj Hji. by rewrite Hoth.
  - intros j Hj Hji Hu. apply (binv_lt _ _ _ Hinv) in Hj. rewrite Hl in Hj.
    apply elem_of_app in Hj as [Hj|Hj]; [auto|]. apply elem_of_cons in Hj as [->|Hj]; auto.
Qed.

(** The same, for a buffer already in use for [k]. *)
Lemma BCL_update s l v d r h f s' i k x :
  BCL s l v d r h f -> is_buf s i k ->
  length (bufs s') = S NBUF ->
  (forall j, j <> i -> bufs s' !!! j = bufs s !!! j) ->
  let b := bufs s !!! i in let b' := bufs s' !!! i in
  next b' = next b -> prev b' = prev b -> bkey b' = k ->
  valid b' = 1 -> 0 <= refcnt b' < 2 ^ 32 ->
  (refcnt b' = 0 -> data b' = x) ->
  blk_ok (data b') -> blk_ok x ->
  (forall k', disk_block (disks s') k' = <[k:=x]> d k') ->
  BCL s' l (<[k:=data b']> v) (<[k:=x]> d) (<[k:=refcnt b']> r)
      (<[k:=holder (lock b')]> h)
      (f - Z.b2z (refcnt b =? 0) + Z.b2z (refcnt b' =? 0)).
Proof.
  intros HB (Hi & Hv0 & Hk0) Hlen Hoth b b' Hn Hp Hk Hv Hr Hrel Hblk Hx Hd.
  pose proof (bc_inv _ _ _ _ _ _ _ HB) as Hinv.
  pose proof (proj2 (binv_lt _ _ _ Hinv) Hi) as Hin.
  apply list_elem_of_split in Hin as (l1 & l2 & Hl).
  pose proof (binv_nodup _ _ Hinv) as Hnd. rewrite Hl in Hnd. apply NoDup_middle in Hnd as [Hnd _].
  assert (used (bufs s !!! i)) as Hu by (right; lia).
  eapply BCL_inplace; eauto.
  - intros j Hj E. pose proof (bi_first _ _ Hinv) as Hs. rewrite Hl in Hs.
    apply (StronglySorted_app_1_elem_of _ _ _ j i) in Hs; [|done|set_solver].
    apply Hs; congruence.
  - intros j Hj Huj E. apply Hnd.
    rewrite <- (used_unique s l j i); [set_solver|done| |done..|congruence].
    apply (binv_lt _ _ _ Hinv). set_solver.
Qed.

(** ** Pointer surgery *)

Lemma nxt_set_next bs a x j : (a < length bs)%nat ->
  nxt (alter (set_next x) a bs) j = if decide (a = j) then x else nxt bs j.
Proof.
  intros H. unfold nxt. case_decide; subst;
    [by rewrite list_lookup_total_alter_eq|by rewrite list_lookup_total_alter_ne].
Qed.
Lemma prv_set_prev bs a x j : (a < length bs)%nat ->
  prv (alter (set_prev x) a bs) j = if decide (a = j) then x else prv bs j.
Proof.
  intros H. unfold prv. case_decide; subst;
    [by rewrite list_lookup_total_alter_eq|by rewrite list_lookup_total_alter_ne].
Qed.
Lemma nxt_keep g bs a j : (forall b, next (g b) = next b) -> nxt (alter g a bs) j = nxt bs j.
Proof.
  intros Hg. unfold nxt. rewrite list_lookup_total_alter. case_decide as E; [|done].
  destruct E as [-> _]. apply Hg.
Qed.
Lemma prv_keep g bs a j : (forall b, prev (g b) = prev b) -> prv (alter g a bs) j = prv bs j.
Proof.
  intros Hg. unfold prv. rewrite list_lookup_total_alter. case_decide as E; [|done].
  destruct E as [-> _]. apply Hg.
Qed.
Lemma core_keep g (bs : list buf) (a j : nat) : (forall b, core (g b) = core b) -> core (alter g a bs !!! j) = core (bs !!! j).
Proof.
  intros Hg. rewrite list_lookup_total_alter. case_decide as E; [|done].
  destruct E as [-> _]. apply Hg.
Qed.

(** The assignments of [link_node] and [link_head], and the unlinking in
    [brelse], on the array. *)
Definition unlinked (bs : list buf) (b : nat) : list buf :=
  let bs1 := alter (set_prev (prv bs b)) (nxt bs b) bs in
  alter (set_next (nxt bs1 b)) (prv bs1 b) bs1.
Definition noded (bs : list buf) (b : nat) : list buf :=
  alter (set_prev HEAD) b (alter (set_next (nxt bs HEAD)) b bs).
Definition headed (bs : list buf) (b : nat) : list buf :=
  alter (set_next b) HEAD (alter (set_prev b) (nxt bs HEAD) bs).

#[export] Hint Rewrite @length_alter : len.

Ltac links :=
  repeat first [rewrite nxt_keep by done | rewrite prv_keep by done
               | rewrite nxt_set_next by len | rewrite prv_set_prev by len].

Lemma linked_ring_lt nx pv l i :
  Forall (fun j => (j < NBUF)%nat) l -> linked nx pv HEAD l HEAD -> i ∈ HEAD :: l ->
  (nx i < S NBUF)%nat /\ (pv i < S NBUF)%nat.
Proof.
  intros Hl H Hi. rewrite Forall_forall in Hl.
  assert (forall j, j ∈ l ++ [HEAD] -> (j < S NBUF)%nat) as Hb.
  { intros j Hj. apply elem_of_app in Hj as [Hj|Hj]; [specialize (Hl _ Hj); lia|].
    apply list_elem_of_singleton in Hj as ->. unfold HEAD. lia. }
  assert (forall j, j ∈ HEAD :: l -> (j < S NBUF)%nat) as Hb' by (intros j Hj; apply Hb; set_solver).
  split.
  - apply elem_of_cons in Hi as [->|Hi]; [by apply Hb, (linked_nx_first _ pv)|].
    apply list_elem_of_split in Hi as (l1 & l2 & ->). apply linked_app in H as [_ H].
    apply Hb. apply linked_nx_first in H. set_solver.
  - apply elem_of_cons in Hi as [->|Hi]; [by apply Hb', (linked_pv_last nx)|].
    apply list_elem_of_split in Hi as (l1 & l2 & ->). apply linked_app in H as [H _].
    apply Hb'. apply linked_pv_last in H. set_solver.
Qed.

Lemma unlinked_ring bs l1 b l2 :
  length bs = S NBUF -> Forall (fun j => (j < NBUF)%nat) (l1 ++ b :: l2) ->
  NoDup (l1 ++ b :: l2) ->
  linked (nxt bs) (prv bs) HEAD (l1 ++ b :: l2) HEAD ->
  linked (nxt (unlinked bs b)) (prv (unlinked bs b)) HEAD (l1 ++ l2) HEAD.
Proof.
  intros Hlen Hl Hnd H.
  destruct (linked_ring_lt _ _ _ b Hl H) as [Hn Hp]; [set_solver|].
  assert (HEAD ∉ l1 ++ b :: l2) as HH.
  { intros Hin. rewrite Forall_forall in Hl. specialize (Hl _ Hin). unfold HEAD in Hl. lia. }
  assert (nxt bs b <> b) as Hnb.
  { pose proof H as H'. apply linked_app in H' as [_ H']. apply linked_nx_first in H'.
    apply NoDup_middle in Hnd as [Hnd _]. intros E. rewrite E in H'. set_solver. }
  unfold unlinked. set (bs1 := alter (set_prev (prv bs b)) (nxt bs b) bs).
  assert (prv bs1 b = prv bs b) as -> by (unfold bs1; links; by rewrite decide_False).
  apply linked_unlink with (nx := nxt bs) (pv := prv bs) (b := b); try done;
    unfold bs1; intros; links; try (by rewrite decide_True); try (by rewrite decide_False).
  by apply NoDup_cons.
Qed.

Lemma unlinked_length bs b : length (unlinked bs b) = length bs.
Proof. unfold unlinked. by len. Qed.
Lemma noded_length bs b : length (noded bs b) = length bs.
Proof. unfold noded. by len. Qed.
Lemma headed_length bs b : length (headed bs b) = length bs.
Proof. unfold headed. by len. Qed.
#[export] Hint Rewrite unlinked_length noded_length headed_length : len.

Lemma unlinked_core bs b (j : nat) : core (unlinked bs b !!! j) = core (bs !!! j).
Proof. unfold unlinked. by rewrite !core_keep. Qed.
Lemma noded_core bs b (j : nat) : core (noded bs b !!! j) = core (bs !!! j).
Proof. unfold noded. by rewrite !core_keep. Qed.
Lemma headed_core bs b (j : nat) : core (headed bs b !!! j) = core (bs !!! j).
Proof. unfold headed. by rewrite !core_keep. Qed.

Lemma pushed_ring bs l b :
  length bs = S NBUF -> (b < NBUF)%nat -> Forall (fun j => (j < NBUF)%nat) l ->
  NoDup l -> b ∉ l -> linked (nxt bs) (prv bs) HEAD l HEAD ->
  linked (nxt (headed (noded bs b) b)) (prv (headed (noded bs b) b)) HEAD (b :: l) HEAD.
Proof.
  intros Hlen Hb Hl Hnd Hbl H.
  destruct (linked_ring_lt _ _ _ HEAD Hl H) as [Hn Hp]; [set_solver|].
  assert (HEAD ∉ l) as HH.
  { intros Hin. rewrite Forall_forall in Hl. specialize (Hl _ Hin). unfold HEAD in Hl. lia. }
  assert (b <> HEAD) as HbH by (unfold HEAD; lia).
  assert (nxt bs HEAD <> b) as Hnb.
  { apply linked_nx_first in H. intros E. rewrite E in H. set_solver. }
  unfold headed. assert (nxt (noded bs b) HEAD = nxt bs HEAD) as ->.
  { unfold noded. links. by rewrite decide_False. }
  apply linked_push with (nx := nxt bs) (pv := prv bs); try done; unfold noded.
  - set_solver.
  - by apply NoDup_cons.
  - unfold HEAD in *. links. by rewrite decide_False, decide_True.
  - unfold HEAD in *. links. by rewrite decide_True.
  - intros i Hi Hi'. unfold HEAD in *. links. by rewrite !decide_False.
  - unfold HEAD in *. links. by rewrite decide_False, decide_True.
  - unfold HEAD in *. links. by rewrite decide_True.
  - intros i Hi Hi'. unfold HEAD in *. links. by rewrite !decide_False.
Qed.

Lemma link_node_eq b s :
  length (bufs s) = S NBUF -> (b < NBUF)%nat ->
  link_node b s = Ok tt (set_bufs (noded (bufs s) b) s) [].
Proof.
  intros Hlen Hb. unfold link_node, bind. rewrite bderef_eq by (unfold HEAD; lia).
  rewrite bassign_eq by lia. cbn. rewrite bassign_eq by (simpl; len). done.
Qed.

Lemma link_head_eq b s :
  length (bufs s) = S NBUF -> (nxt (bufs s) HEAD < S NBUF)%nat ->
  link_head b s = Ok tt (set_bufs (headed (bufs s) b) s) [].
Proof.
  intros Hlen Hb. unfold link_head, bind. rewrite bderef_eq by (unfold HEAD; lia).
  fold (nxt (bufs s) HEAD).
  rewrite bassign_eq by lia. cbn. rewrite bassign_eq by (unfold HEAD; simpl; len). done.
Qed.

(** ** The operations meet the contract *)

Lemma BC_ext s v v' d d' r r' h h' f f' :
  BC s v d r h f -> (forall k, v' k = v k) -> (forall k, d' k = d k) ->
  (forall k, r' k = r k) -> (forall k, h' k = h k) -> f' = f -> BC s v' d' r' h' f'.
Proof.
  intros H Hv Hd Hr Hh ->. eapply BC_proper; [reflexivity| | | | |reflexivity|exact H];
    intros k; auto.
Qed.

Lemma fn_insert_id {A} (g : Z * Z -> A) k x k' : x = g k -> <[k:=x]> g k' = g k'.
Proof.
  intros ->. destruct (decide (k = k')) as [->|];
    [by rewrite fn_lookup_insert|by rewrite fn_lookup_insert_ne].
Qed.

Lemma is_buf_facts s l v d r h f i k :
  BCL s l v d r h f -> is_buf s i k ->
  v k = data (bufs s !!! i) /\ r k = refcnt (bufs s !!! i) /\
  h k = holder (lock (bufs s !!! i)) /\ blk_ok (v k) /\ length (bufs s) = S NBUF.
Proof.
  intros HB (Hi & Hv & Hk).
  destruct (bc_used _ _ _ _ _ _ _ HB i Hi) as (E1 & E2 & E3); [right; lia|].
  cbv zeta in *. rewrite Hk, Hv in *. split_and!; [done..| |apply (bi_len _ _ (bc_inv _ _ _ _ _ _ _ HB))].
  rewrite E1. simpl. by apply (bo_data _ _ (bi_buf _ _ (bc_inv _ _ _ _ _ _ _ HB) i Hi)).
Qed.

Lemma BC_blk_ok s v d r h f k : BC s v d r h f -> blk_ok (v k).
Proof.
  intros [l HB]. destruct (bc_inv _ _ _ _ _ _ _ HB) as [_ _ _ _ Hb].
  destruct (decide (Forall (fun i => ~ (used (bufs s !!! i) /\ bkey (bufs s !!! i) = k)) (seq 0 NBUF)))
    as [Hno|Hyes].
  - destruct (bc_unused _ _ _ _ _ _ _ HB k) as [-> _]; [|apply (bc_dok _ _ _ _ _ _ _ HB)].
    intros i Hi Hu E. rewrite Forall_forall in Hno. apply (Hno i); [|done].
    apply elem_of_seq. lia.
  - apply not_Forall_Exists in Hyes; [|apply _]. apply Exists_exists in Hyes as (i & Hi & Hx).
    apply elem_of_seq in Hi. apply dec_stable in Hx as [Hu Hk].
    destruct (bc_used _ _ _ _ _ _ _ HB i ltac:(lia) Hu) as [E _]. cbv zeta in E. rewrite Hk in E.
    rewrite E. destruct (Z.eqb_spec (valid (bufs s !!! i)) 1) as [Ev|].
    + apply (bo_data _ _ (Hb i ltac:(lia))). done.
    + apply (bc_dok _ _ _ _ _ _ _ HB).
Qed.

(** Handles survive a change of buffer [i] that does not relabel it, and a
    relabelling if nobody referenced it. *)
Lemma is_buf_keep s s' i j k' :
  (forall j, j <> i -> bufs s' !!! j = bufs s !!! j) ->
  valid (bufs s' !!! i) = 1 -> bkey (bufs s' !!! i) = bkey (bufs s !!! i) ->
  is_buf s j k' -> is_buf s' j k'.
Proof.
  intros Hoth Hv Hk (Hj & Hvj & Hkj). unfold is_buf.
  destruct (decide (j = i)) as [->|]; [by rewrite Hk|by rewrite Hoth].
Qed.

Section Ops.
Context (s : bstate) (v d : Z * Z -> list Z) (r : Z * Z -> Z) (h : Z * Z -> option Z) (f : Z).
Context (HBC : BC s v d r h f).

(** A new core for the buffer of [k], in place. *)
Lemma BC_update s' i k b' x :
  is_buf s i k -> length (bufs s') = S NBUF ->
  (forall j, j <> i -> bufs s' !!! j = bufs s !!! j) ->
  bufs s' !!! i = b' ->
  let b := bufs s !!! i in
  next b' = next b -> prev b' = prev b -> bkey b' = bkey b -> valid b' = valid b ->
  0 <= refcnt b' < 2 ^ 32 ->
  (refcnt b' = 0 -> data b' = x) ->
  blk_ok (data b') -> blk_ok x ->
  (forall k', disk_block (disks s') k' = <[k:=x]> d k') ->
  BC s' (<[k:=data b']> v) (<[k:=x]> d) (<[k:=refcnt b']> r)
     (<[k:=holder (lock b')]> h) (f - Z.b2z (r k =? 0) + Z.b2z (refcnt b' =? 0)).
Proof.
  intros Hb Hlen Hoth Hi' b Hn Hp Hk Hv Hr Hrel Hblk Hx Hd. destruct HBC as [l HB].
  pose proof Hb as (Hi & Hv0 & Hk0).
  destruct (is_buf_facts _ _ _ _ _ _ _ _ _ HB Hb) as (_ & Er & _). rewrite Er. exists l. subst b b'.
  eapply (BCL_update s); eauto; congruence.
Qed.

(** [bpin] and [bunpin]: the reference count becomes [n]. *)
Lemma refcnt_spec i k n g :
  is_buf s i k -> (forall b, refcnt b = r k -> g b = set_refcnt n b) -> 0 <= n < 2 ^ 32 ->
  (n = 0 -> v k = d k) ->
  wp (bassign i g) s (fun _ s' t => t = [] /\
    BC s' v d (<[k:=n]> r) h (f - Z.b2z (r k =? 0) + Z.b2z (n =? 0)) /\
    (forall j k', is_buf s j k' -> is_buf s' j k')).
Proof.
  intros Hb Hg Hn Hz. pose proof Hb as (Hi & Hv0 & Hk0).
  assert (exists l, BCL s l v d r h f) as [l HB] by apply HBC.
  destruct (is_buf_facts _ _ _ _ _ _ _ _ _ HB Hb) as (Ev & Er & Eh & Hblk & Hlen).
  apply wp_bassign; [lia|]. set (s' := set_bufs _ s).
  assert (forall j, j <> i -> bufs s' !!! j = bufs s !!! j) as Hoth
    by (intros; unfold s'; bufs_simpl; done).
  assert (bufs s' !!! i = set_refcnt n (bufs s !!! i)) as Hi'.
  { unfold s'. bufs_simpl. by rewrite Hg. }
  split; [done|]. split.
  - eapply BC_ext; [eapply (BC_update s' i k _ (d k) Hb)|..]; try exact Hi'; simpl; try done;
      try (intros; by rewrite fn_insert_id).
    + unfold s'. simpl. by len.
    + rewrite <- Ev. done.
    + by rewrite <- Ev.
    + apply (bc_dok _ _ _ _ _ _ _ HB).
    + intros k'. rewrite fn_insert_id by done. apply (bc_disk _ _ _ _ _ _ _ HB).
  - intros j k'. apply is_buf_keep with i; rewrite ?Hi'; done.
Qed.

Lemma bpin_spec i k :
  is_buf s i k -> 0 < r k -> r k + 1 < 2 ^ 32 ->
  wp (bpin i) s (fun _ s' t => t = [] /\ BC s' v d (<[k:=r k + 1]> r) h f /\
    (forall j k', is_buf s j k' -> is_buf s' j k')).
Proof.
  intros Hb H0 Hr. eapply wp_mono; [apply (refcnt_spec i k (r k + 1)); try done|].
  - intros b ->. by rewrite u32_small by lia.
  - lia.
  - lia.
  - intros _ s' t (-> & HB & Hh). split_and!; [done| |done].
    eapply BC_ext; [exact HB|done..|].
    replace (r k =? 0) with false by lia. replace (r k + 1 =? 0) with false by lia. simpl. lia.
Qed.

Lemma bunpin_spec i k :
  is_buf s i k -> 0 < r k < 2 ^ 32 -> (r k = 1 -> v k = d k) ->
  wp (bunpin i) s (fun _ s' t => t = [] /\
    BC s' v d (<[k:=r k - 1]> r) h (f + Z.b2z (r k =? 1)) /\
    (forall j k', is_buf s j k' -> is_buf s' j k')).
Proof.
  intros Hb Hr Hz. eapply wp_mono; [apply (refcnt_spec i k (r k - 1)); try done|].
  - intros b ->. by rewrite u32_small by lia.
  - lia.
  - intros. apply Hz. lia.
  - intros _ s' t (-> & HB & Hh). split_and!; [done| |done].
    eapply BC_ext; [exact HB|done..|]. replace (r k =? 0) with false by lia. simpl.
    rewrite Z.sub_0_r. do 2 f_equal.
    destruct (Z.eqb_spec (r k - 1) 0), (Z.eqb_spec (r k) 1); done || lia.
Qed.

Lemma bstore_spec i k x :
  is_buf s i k -> r k <> 0 -> blk_ok x ->
  wp (bstore i x) s (fun _ s' t => t = [] /\ BC s' (<[k:=x]> v) d r h f /\
    (forall j k', is_buf s j k' -> is_buf s' j k')).
Proof.
  intros Hb Hr Hx. pose proof Hb as (Hi & Hv0 & Hk0).
  assert (exists l, BCL s l v d r h f) as [l HB] by apply HBC.
  destruct (is_buf_facts _ _ _ _ _ _ _ _ _ HB Hb) as (Ev & Er & Eh & Hblk & Hlen).
  apply wp_bassign; [lia|]. set (s' := set_bufs _ s).
  assert (forall j, j <> i -> bufs s' !!! j = bufs s !!! j) as Hoth
    by (intros; unfold s'; bufs_simpl; done).
  assert (bufs s' !!! i = set_data x (bufs s !!! i)) as Hi' by (unfold s'; by bufs_simpl).
  rewrite Er in Hr.
  split; [done|]. split.
  - eapply BC_ext; [eapply (BC_update s' i k _ (d k) Hb)|..]; try exact Hi'; simpl; try done;
      try (intros; by rewrite fn_insert_id).
    + unfold s'. simpl. by len.
    + apply (bi_buf _ _ (bc_inv _ _ _ _ _ _ _ HB) i Hi).
    + apply (bc_dok _ _ _ _ _ _ _ HB).
    + intros k'. rewrite fn_insert_id by done. apply (bc_disk _ _ _ _ _ _ _ HB).
    + rewrite Er. lia.
  - intros j k'. apply is_buf_keep with i; rewrite ?Hi'; done.
Qed.

Lemma bwrite_spec me i k :
  is_buf s i k -> h k = Some me ->
  wp (bwrite me i) s (fun _ s' t => t = [EDisk k.1 k.2 (v k)] /\
    BC s' v (<[k:=v k]> d) r h f /\ (forall j k', is_buf s j k' -> is_buf s' j k')).
Proof.
  intros Hb Hh. pose proof Hb as (Hi & Hv0 & Hk0).
  assert (exists l, BCL s l v d r h f) as [l HB] by apply HBC.
  destruct (is_buf_facts _ _ _ _ _ _ _ _ _ HB Hb) as (Ev & Er & Eh & Hblk & Hlen).
  unfold bwrite. wp_step. apply wp_bderef; [lia|].
  rewrite (proj2 (holdingsleep_holder me (lock (bufs s !!! i)))) by congruence. simpl.
  unfold disk_write. wp_step. apply wp_bderef; [lia|]. wp_steps. simpl.
  subst k. unfold bkey in *. simpl in *. split; [by rewrite Ev|]. split; [|done].
  set (k := (dev (bufs s !!! i), blockno (bufs s !!! i))) in *.
  eapply BC_ext; [eapply (BC_update _ i k (bufs s !!! i) (v k) Hb)|..]; simpl; try done;
      try (intros; by rewrite fn_insert_id).
  - apply (bi_buf _ _ (bc_inv _ _ _ _ _ _ _ HB) i Hi).
  - by rewrite <- Ev.
  - intros k'. unfold disk_block. rewrite lookup_insert. case_decide as E.
    + subst k'. rewrite fn_lookup_insert. simpl. by rewrite Ev.
    + rewrite fn_lookup_insert_ne by done. apply (bc_disk _ _ _ _ _ _ _ HB).
  - rewrite Er. lia.
Qed.

End Ops.

(** ** bread *)

(** The end of [bread]: buffer [i] has been labelled [k], locked and counted;
    it is read from disk unless already valid. *)
Lemma bread_finish me s l v d r h f s1 l1 i l2 k :
  BCL s l v d r h f -> l = l1 ++ i :: l2 -> disks s1 = disks s ->
  length (bufs s1) = S NBUF ->
  (forall j, j <> i -> bufs s1 !!! j = bufs s !!! j) ->
  let b := bufs s !!! i in let b1 := bufs s1 !!! i in
  next b1 = next b -> prev b1 = prev b -> bkey b1 = k ->
  refcnt b1 = r k + 1 -> lock b1 = Sleeplock 1 me ->
  valid b1 = 1 /\ data b1 = v k \/ valid b1 = 0 /\ v k = d k ->
  (forall j, j ∈ l1 -> bkey (bufs s !!! j) <> k) ->
  (forall j, j ∈ l2 -> used (bufs s !!! j) -> bkey (bufs s !!! j) <> k) ->
  bkey b = k \/ refcnt b = 0 /\ holder (lock b) = None -> (refcnt b = 0 <-> r k = 0) ->
  0 <= r k -> r k + 1 < 2 ^ 32 ->
  wp (bb <- bderef i ;;
      (if negb (ctrue (valid bb)) then
         disk_read (dev bb) i ;;; bassign i (set_valid 1)
       else ret tt) ;;;
      ret i) s1
    (fun a s' t => a = i /\ t = [] /\
      BCL s' l v d (<[k:=r k + 1]> r) (<[k:=Some me]> h) (f - Z.b2z (r k =? 0)) /\
      is_buf s' i k /\ data (bufs s' !!! i) = v k /\
      (forall j k', is_buf s j k' -> r k' <> 0 -> is_buf s' j k')).
Proof.
  intros HB Hl Hdk Hlen Hoth b b1 Hn Hp Hk Hr Hlk Hval H1 H2 Hold Hiff Hr0 Hr1.
  assert (i < NBUF)%nat as Hi.
  { apply (binv_lt _ _ _ (bc_inv _ _ _ _ _ _ _ HB)). set_solver. }
  assert (blk_ok (v k)) as Hblk by (eapply BC_blk_ok; by exists l).
  assert (forall s', disks s' = disks s -> length (bufs s') = S NBUF ->
    (forall j, j <> i -> bufs s' !!! j = bufs s !!! j) ->
    bufs s' !!! i = set_valid 1 (set_data (v k) b1) ->
    BCL s' l v d (<[k:=r k + 1]> r) (<[k:=Some me]> h) (f - Z.b2z (r k =? 0)) /\
    is_buf s' i k /\ data (bufs s' !!! i) = v k /\
    (forall j k', is_buf s j k' -> r k' <> 0 -> is_buf s' j k')) as Hfin.
  { intros s' Hd' Hlen' Hoth' Hi'. split_and!.
    - pose proof (BCL_inplace s l v d r h f s' l1 i l2 k (d k) HB Hl Hlen' Hoth') as H.
      rewrite Hi' in H. simpl in H. fold b in H. rewrite Hr, Hlk in H. simpl in H.
      eapply BCL_proper; [..|apply H]; try done; try lia; try (intros k'; by rewrite fn_insert_id).
      + replace (r k + 1 =? 0) with false by lia. simpl.
        destruct (Z.eqb_spec (refcnt b) 0), (Z.eqb_spec (r k) 0); simpl; try lia; tauto.
      + apply (bc_dok _ _ _ _ _ _ _ HB).
      + intros k'. rewrite fn_insert_id by done. rewrite Hd'. apply (bc_disk _ _ _ _ _ _ _ HB).
    - unfold is_buf. rewrite Hi'. done.
    - by rewrite Hi'.
    - intros j k' (Hj & Hvj & Hkj) Hrk. unfold is_buf.
      destruct (decide (j = i)) as [->|]; [|by rewrite Hoth'].
      destruct (bc_used _ _ _ _ _ _ _ HB i Hj) as (_ & E & _); [right; lia|].
      cbv zeta in E. rewrite Hkj in E. rewrite Hi'. split_and!; [done|done|].
      change (bkey b1 = k'). rewrite Hk, <- Hkj. destruct Hold as [E'|[E' _]]; [done|].
      unfold b in E'. congruence. }
  wp_step. apply wp_bderef; [lia|]. fold b1.
  destruct Hval as [[Hv Hdat]|[Hv Hdat]]; rewrite Hv; simpl.
  - wp_steps. split; [done|]. split; [done|]. apply Hfin; try done.
    fold b1. rewrite <- Hdat. by destruct b1; simpl in *; subst.
  - unfold disk_read. wp_step. wp_step. wp_step. apply wp_bderef; [lia|]. wp_step. wp_step.
    apply wp_bassign; [lia|]. apply wp_bassign; [simpl; len|]. wp_steps.
    split; [done|]. split; [done|]. apply Hfin; simpl; [done|by len| |].
    + intros j Hj. bufs_simpl. by apply Hoth.
    + bufs_simpl. fold b1. do 2 f_equal. unfold bkey in Hk. rewrite Hk, Hdk, Hdat.
      apply (bc_disk _ _ _ _ _ _ _ HB).
Qed.

(** The buffer [bget] settles on: the one labelled with the block, else the
    least recently used of those nobody references. *)
Definition bget_pick (bs : list buf) (l : list nat) (k : Z * Z) : option nat :=
  match List.find (fun i => (dev (bs !!! i) =? k.1) && (blockno (bs !!! i) =? k.2)) l with
  | Some i => Some i
  | None => List.find (fun i => refcnt (bs !!! i) =? 0) (reverse l)
  end.

Lemma bkey_eqb b (k : Z * Z) :
  ((dev b =? k.1) && (blockno b =? k.2)) = bool_decide (bkey b = k).
Proof.
  destruct k as [k1 k2]. unfold bkey. simpl.
  destruct (Z.eqb_spec (dev b) k1), (Z.eqb_spec (blockno b) k2); simpl;
    symmetry; case_bool_decide; simplify_eq; done.
Qed.

Lemma bread_specL me s l v d r h f k :
  BCL s l v d r h f -> (forall k, r k = 0 -> h k = None) -> h k = None -> 0 <= r k -> r k + 1 < 2 ^ 32 -> 0 < r k \/ 0 < f ->
  wp (bread me k.1 k.2) s (fun i s' t => t = [] /\ bget_pick (bufs s) l k = Some i /\
    BCL s' l v d (<[k:=r k + 1]> r) (<[k:=Some me]> h) (f - Z.b2z (r k =? 0)) /\
    is_buf s' i k /\ data (bufs s' !!! i) = v k /\
    (forall j k', is_buf s j k' -> r k' <> 0 -> is_buf s' j k')).
Proof.
  intros HB Hidle Hh Hr0 Hr1 Hroom. pose proof (bc_inv _ _ _ _ _ _ _ HB) as Hinv.
  pose proof (bi_len _ _ Hinv) as Hlen. pose proof (binv_length _ _ Hinv) as Hll.
  unfold bread. wp_step. unfold bget. wp_step. apply wp_bderef; [unfold HEAD; lia|].
  wp_step. eapply wp_eq.
  { apply (scan_next_spec s k.1 k.2 (prv (bufs s)) l HEAD scan_fuel Hlen (binv_Forall _ _ Hinv) (bi_ring _ _ Hinv)).
    unfold scan_fuel. lia. }
  unfold bget_pick.
  destruct (List.find _ l) as [i|] eqn:Hfind.
  - (* cached *)
    apply find_first in Hfind as (Hki & l1 & l2 & Hl & Hl1). rewrite bkey_eqb in Hki.
    apply bool_decide_eq_true in Hki.
    assert (i < NBUF)%nat as Hi by (apply (binv_lt _ _ _ Hinv); set_solver).
    assert (forall j, j ∈ l2 -> used (bufs s !!! j) -> bkey (bufs s !!! j) <> k) as Hl2.
    { intros j Hj Hu E. pose proof (bi_first _ _ Hinv) as Hs. rewrite Hl in Hs.
      apply StronglySorted_app_1_r, StronglySorted_cons in Hs as [Hs _].
      rewrite Forall_forall in Hs. apply (Hs j Hj); [congruence|done]. }
    assert (forall j, j ∈ l1 -> bkey (bufs s !!! j) <> k) as Hl1'.
    { intros j Hj E. specialize (Hl1 j Hj). rewrite bkey_eqb in Hl1.
      by apply bool_decide_eq_false in Hl1. }
    pose proof (bi_buf _ _ Hinv i Hi) as [Hb1 Hb2 Hb3 Hb4 Hb5].
    assert (r k = refcnt (bufs s !!! i) /\ holder (lock (bufs s !!! i)) = None /\
      (valid (bufs s !!! i) = 1 /\ data (bufs s !!! i) = v k \/ valid (bufs s !!! i) = 0 /\ v k = d k))
      as (Er & El & Ev).
    { destruct (decide (used (bufs s !!! i))) as [Hu|Hu].
      - destruct (bc_used _ _ _ _ _ _ _ HB i Hi Hu) as (E1 & E2 & E3). cbv zeta in *.
        rewrite Hki in *. split_and!; [done|congruence|]. rewrite E1.
        destruct Hb2 as [->| ->]; simpl; auto.
      - unfold used in Hu. assert (refcnt (bufs s !!! i) = 0 /\ valid (bufs s !!! i) = 0) as [E1 E2] by lia.
        destruct (bc_unused _ _ _ _ _ _ _ HB k) as (F1 & F2 & F3).
        { intros j Hj Hu' E. apply (binv_lt _ _ _ Hinv) in Hj. rewrite Hl in Hj.
          apply elem_of_app in Hj as [Hj|Hj]; [by apply (Hl1' j)|].
          apply elem_of_cons in Hj as [->|Hj]; [unfold used in Hu'; lia|by apply (Hl2 j)]. }
        split_and!; [congruence|by apply Hb3; unfold used; lia|]. right. done. }
    wp_step. apply wp_bassign; [lia|]. wp_step. apply wp_on_lock; [simpl; len|].
    eapply wp_eq; [apply acquiresleep_free; by bufs_simpl|]. wp_step.
    eapply wp_mono; [eapply (bread_finish me s l v d r h f _ l1 i l2 k)|]; try done; bufs_simpl; try done.
    + by len.
    + intros j Hj. by bufs_simpl.
    + rewrite <- Er. by rewrite u32_small by lia.
    + by left.
    + by rewrite Er.
    + intros a s' t (-> & -> & ? & ? & ? & ?). done.
  - (* recycle *)
    wp_step. apply wp_bderef; [unfold HEAD; lia|]. wp_step. eapply wp_eq.
    { apply (scan_prev_spec s (nxt (bufs s)) (reverse l) HEAD scan_fuel Hlen).
      - apply Forall_reverse, (binv_Forall _ _ Hinv).
      - apply linked_reverse, (bi_ring _ _ Hinv).
      - rewrite length_reverse. unfold scan_fuel. lia. }
    assert (forall j, (j < NBUF)%nat -> bkey (bufs s !!! j) <> k) as Hnk.
    { intros j Hj E. apply (binv_lt _ _ _ Hinv) in Hj.
      pose proof (find_absent _ _ Hfind j Hj) as Hf. cbv beta in Hf. rewrite bkey_eqb in Hf.
      by apply bool_decide_eq_false in Hf. }
    destruct (bc_unused _ _ _ _ _ _ _ HB k) as (F1 & F2 & F3); [by auto|].
    destruct (List.find _ (reverse l)) as [i|] eqn:Hfind'.
    2:{ exfalso. destruct Hroom as [|Hf]; [lia|]. rewrite (bc_free _ _ _ _ _ _ _ HB) in Hf.
        unfold nfree in Hf. apply count_pos in Hf as (j & Hj & Hj'). apply elem_of_seq in Hj.
        assert (j ∈ reverse l) as Hjl by (apply elem_of_reverse, (binv_lt _ _ _ Hinv); lia).
        pose proof (find_absent _ _ Hfind' j Hjl) as Hx. cbv beta in Hx, Hj'. congruence. }
    apply find_first in Hfind' as (Hri & l1 & l2 & Hl & _). apply Z.eqb_eq in Hri.
    apply (f_equal reverse) in Hl. rewrite reverse_involutive, reverse_app, reverse_cons, <- (assoc_L (++)) in Hl.
    simpl in Hl.
    assert (i < NBUF)%nat as Hi by (apply (binv_lt _ _ _ Hinv); set_solver).
    assert (holder (lock (bufs s !!! i)) = None) as Hlk.
    { destruct (decide (used (bufs s !!! i))) as [Hu|Hu].
      - destruct (bc_used _ _ _ _ _ _ _ HB i Hi Hu) as (_ & E2 & E3). cbv zeta in *.
        rewrite <- E3. apply Hidle. congruence.
      - by apply (bo_idle _ _ (bi_buf _ _ Hinv i Hi)). }
    wp_step. apply wp_bassign; [lia|]. wp_step. apply wp_bassign; [simpl; len|].
    wp_step. apply wp_bassign; [simpl; len|]. wp_step. apply wp_on_lock; [simpl; len|].
    eapply wp_eq; [apply acquiresleep_free; bufs_simpl; by auto|]. wp_step.
    eapply wp_mono; [eapply (bread_finish me s l v d r h f _ (reverse l2) i (reverse l1) k)|];
      try done; bufs_simpl; try done.
    + by len.
    + intros j Hj. by bufs_simpl.
    + unfold bkey. simpl. by destruct k.
    + lia.
    + by right.
    + intros j Hj. apply Hnk, (binv_lt _ _ _ Hinv). rewrite Hl. apply elem_of_app. by left.
    + intros j Hj _. apply Hnk, (binv_lt _ _ _ Hinv). rewrite Hl. apply elem_of_app. right.
      by apply elem_of_cons; right.
    + by right.
    + intros a s' t (-> & -> & ? & ? & ? & ?). done.
Qed.

(** ** brelse *)

(** Moving [i] to the front of the recency list. *)
Definition move_front (i : nat) (l : list nat) : list nat :=
  i :: List.filter (fun j => negb (j =? i)%nat) l.

Lemma filter_other (i : nat) l :
  i ∉ l -> List.filter (fun j => negb (j =? i)%nat) l = l.
Proof.
  induction l as [|x l IH]; simpl; intros H; [done|].
  destruct (Nat.eqb_spec x i); [set_solver|]. simpl. f_equal. apply IH. set_solver.
Qed.

Lemma move_front_eq i l1 l2 :
  NoDup (l1 ++ i :: l2) -> move_front i (l1 ++ i :: l2) = i :: l1 ++ l2.
Proof.
  intros H. apply NoDup_middle in H as [H _]. unfold move_front.
  rewrite List.filter_app. simpl. rewrite Nat.eqb_refl. simpl.
  rewrite !filter_other by set_solver. done.
Qed.

(** The relinking at the end of [brelse]. *)
Lemma relink_spec s l i :
  length (bufs s) = S NBUF -> Forall (fun j => (j < NBUF)%nat) l -> NoDup l -> i ∈ l ->
  linked (nxt (bufs s)) (prv (bufs s)) HEAD l HEAD ->
  wp (bassign (next (bufs s !!! i)) (set_prev (prev (bufs s !!! i))) ;;;
      bb <- bderef i ;;
      bassign (prev bb) (set_next (next bb)) ;;;
      link_node i ;;;
      link_head i) s
    (fun _ s' t => t = [] /\ disks s' = disks s /\ length (bufs s') = S NBUF /\
      (forall j, core (bufs s' !!! j) = core (bufs s !!! j)) /\
      linked (nxt (bufs s')) (prv (bufs s')) HEAD (move_front i l) HEAD).
Proof.
  intros Hlen Hlt Hnd Hin Hring. apply list_elem_of_split in Hin as (l1 & l2 & ->).
  rewrite move_front_eq by done.
  destruct (linked_ring_lt _ _ _ i Hlt Hring) as [Hn Hp]; [set_solver|].
  pose proof (unlinked_ring _ _ _ _ Hlen Hlt Hnd Hring) as Hring'.
  pose proof (NoDup_middle l1 i l2) as Hmid. apply Hmid in Hnd as Hnd'. destruct Hnd' as [Hil Hnd'].
  assert (Forall (fun j => (j < NBUF)%nat) (l1 ++ l2)) as Hlt'.
  { rewrite Forall_app, Forall_cons in Hlt. rewrite Forall_app. tauto. }
  assert (i < NBUF)%nat as Hi by (rewrite Forall_forall in Hlt; apply Hlt; set_solver).
  assert (prv (alter (set_prev (prv (bufs s) i)) (nxt (bufs s) i) (bufs s)) i < S NBUF)%nat as Hp'.
  { rewrite prv_set_prev by lia. case_decide; lia. }
  wp_step. apply wp_bassign; [by rewrite Hlen|].
  wp_step. apply wp_bderef; [simpl; len|]. wp_step.
  apply wp_bassign; [simpl; rewrite length_alter, Hlen; exact Hp'|].
  change (set_bufs _ (set_bufs _ s)) with (set_bufs (unlinked (bufs s) i) s).
  wp_step. eapply wp_eq; [apply link_node_eq; simpl; [by len|done]|].
  eapply wp_eq; [apply link_head_eq; simpl; [by len|]|].
  { unfold noded. rewrite nxt_keep, nxt_set_next by (done || len).
    rewrite decide_False by (unfold HEAD; lia).
    apply (linked_ring_lt _ _ _ HEAD Hlt' Hring'). set_solver. }
  split_and!; [done|done|simpl; by len| |].
  - intros j. simpl. by rewrite headed_core, noded_core, unlinked_core.
  - apply (pushed_ring (unlinked (bufs s) i) (l1 ++ l2) i); try done; by len.
Qed.

(** Releasing the last reference: the buffer, back at the front, is free. *)
Lemma BCL_released s l v d r h f s' i k :
  BCL s l v d r h f -> is_buf s i k -> length (bufs s') = S NBUF ->
  (forall j, j <> i -> core (bufs s' !!! j) = core (bufs s !!! j)) ->
  core (bufs s' !!! i) = core (set_refcnt 0 (set_lock (Sleeplock 0 0) (bufs s !!! i))) ->
  linked (nxt (bufs s')) (prv (bufs s')) HEAD (move_front i l) HEAD ->
  disks s' = disks s -> v k = d k ->
  BCL s' (move_front i l) v d (<[k:=0]> r) (<[k:=None]> h) (f - Z.b2z (r k =? 0) + 1).
Proof.
  intros HB Hb Hlen' Hoth Hci Hring Hd Hclean. pose proof Hb as (Hi & Hv0 & Hk0).
  destruct (is_buf_facts _ _ _ _ _ _ _ _ _ HB Hb) as (Ev & Er & Eh & Hblk & Hlen).
  pose proof (bc_inv _ _ _ _ _ _ _ HB) as Hinv.
  pose proof (proj2 (binv_lt _ _ _ Hinv) Hi) as Hin. apply list_elem_of_split in Hin as (l1 & l2 & Hl).
  pose proof (binv_nodup _ _ Hinv) as Hnd. rewrite Hl in Hnd.
  pose proof (binv_Forall _ _ Hinv) as Hlt. rewrite Hl, Forall_app, Forall_cons, Forall_forall, Forall_forall in Hlt.
  rewrite Hl, move_front_eq in Hring by done. rewrite Hl, move_front_eq by done.
  apply NoDup_middle in Hnd as [Hil _]. destruct (core_fields _ _ Hci) as (_ & _ & Eki & _).
  assert (forall j, j ∈ l1 ++ l2 -> j <> i) as Hji by (intros j Hj ->; done).
  assert (forall j, (j < NBUF)%nat -> j <> i -> used (bufs s !!! j) -> bkey (bufs s !!! j) <> k) as Huniq.
  { intros j Hj Hne Hu E. apply Hne, (used_unique s l); try done; [right; lia|congruence]. }
  eapply BCL_proper; [..|eapply (BCL_set s l v d r h f s' (i :: l1 ++ l2) i k
    (set_refcnt 0 (set_lock (Sleeplock 0 0) (bufs s !!! i))) (d k) HB Hi)];
    cbn [data refcnt lock valid set_refcnt set_lock]; try done;
    try (intros k'; by rewrite fn_insert_id).
  - by rewrite Er.
  - rewrite Permutation_middle, <- Hl. apply (bi_perm _ _ Hinv).
  - eapply (first_rel_front (bufs s) _ l1 i l2 k).
    + rewrite <- Hl. apply (bi_first _ _ Hinv).
    + intros j Hj. rewrite Hoth by auto. done.
    + by rewrite Eki.
    + intros j Hj. apply Huniq; [|auto]. apply elem_of_app in Hj as [Hj|Hj]; destruct Hlt as (? & _ & ?); auto.
  - intros j Hj Hne. by rewrite Hoth.
  - by left.
  - by rewrite <- Ev.
  - by rewrite <- Ev.
  - apply (bc_dok _ _ _ _ _ _ _ HB).
  - intros k'. rewrite fn_insert_id by done. rewrite Hd. apply (bc_disk _ _ _ _ _ _ _ HB).
Qed.

Lemma brelse_specL me s l v d r h f i k :
  BCL s l v d r h f -> is_buf s i k -> h k = Some me -> (r k = 1 -> v k = d k) ->
  wp (brelse me i) s (fun _ s' t => t = [EWake (ChBufLock i)] /\
    BCL s' (if r k =? 1 then move_front i l else l) v d
        (<[k:=u32 (r k - 1)]> r) (<[k:=None]> h) (f - Z.b2z (r k =? 0) + Z.b2z (r k =? 1)) /\
    (forall j k', is_buf s j k' -> is_buf s' j k')).
Proof.
  intros HB Hb Hh Hclean. pose proof Hb as (Hi & Hv0 & Hk0).
  destruct (is_buf_facts _ _ _ _ _ _ _ _ _ HB Hb) as (Ev & Er & Eh & Hblk & Hlen).
  pose proof (bc_inv _ _ _ _ _ _ _ HB) as Hinv.
  pose proof (bo_ref _ _ (bi_buf _ _ Hinv i Hi)) as Hb1. rewrite <- Er in Hb1.
  unfold brelse. wp_step. apply wp_bderef; [lia|].
  rewrite (proj2 (holdingsleep_holder me (lock (bufs s !!! i)))) by congruence. cbn [negb].
  wp_step. apply wp_on_lock; [lia|]. unfold releasesleep. wp_steps.
  apply wp_bassign; [simpl; len|]. wp_step. apply wp_bderef; [simpl; len|].
  set (s2 := set_bufs _ _). assert (disks s2 = disks s) as Hd2 by done.
  assert (forall j, j <> i -> bufs s2 !!! j = bufs s !!! j) as Hoth
    by (intros j Hj; unfold s2; by bufs_simpl).
  assert (bufs s2 !!! i = set_refcnt (u32 (r k - 1)) (set_lock (Sleeplock 0 0) (bufs s !!! i))) as Hi2
    by (unfold s2; bufs_simpl; by rewrite <- Er).
  assert (length (bufs s2) = S NBUF) as Hlen2 by (unfold s2; simpl; by len).
  clearbody s2. replace (refcnt (bufs s2 !!! i)) with (u32 (r k - 1)) by (by rewrite Hi2).
  assert (forall s', (forall j, core (bufs s' !!! j) = core (bufs s2 !!! j)) ->
    forall j k', is_buf s j k' -> is_buf s' j k') as Hhandles.
  { intros s' Hc j k' (Hj & H1 & H2). unfold is_buf. destruct (core_fields _ _ (Hc j)) as (_ & -> & -> & _).
    destruct (decide (j = i)) as [->|]; [by rewrite Hi2|by rewrite Hoth]. }
  destruct (Z.eqb_spec (r k) 1) as [E1|E1].
  - rewrite E1. change (u32 (1 - 1)) with 0. simpl.
    eapply wp_mono; [apply (relink_spec s2 l i)|]; [done|by eapply binv_Forall|by eapply binv_nodup|by apply (binv_lt _ _ _ Hinv)| |].
    { eapply linked_ext, (bi_ring _ _ Hinv); intros j _; unfold nxt, prv;
      (destruct (decide (j = i)) as [->|]; [by rewrite Hi2|by rewrite Hoth]). }
    intros _ s3 t (-> & Hd3 & Hlen3 & Hc & Hring). split; [done|]. split; [|by apply Hhandles].
    replace (f - 0 + 1) with (f - Z.b2z (r k =? 0) + 1) by (rewrite E1; done).
    eapply BCL_released; try done; [intros j Hj; by rewrite Hc, Hoth| |congruence|auto].
    rewrite Hc, Hi2, E1. done.
  - replace (u32 (r k - 1) =? 0) with false
      by (unfold u32; symmetry; apply Z.eqb_neq; Z.div_mod_to_equations; lia).
    wp_step. split; [done|]. split; [|by apply Hhandles].
    eapply BCL_proper; [..|eapply (BCL_update s l v d r h f s2 i k (d k) HB Hb Hlen2 Hoth)];
      rewrite ?Hi2; simpl; try done; try (intros k'; by rewrite fn_insert_id).
    + rewrite Er. unfold u32. destruct (Z.eqb_spec ((refcnt (bufs s !!! i) - 1) mod 2 ^ 32) 0); [|done].
      exfalso. Z.div_mod_to_equations; lia.
    + apply u32_range.
    + intros E. exfalso. unfold u32 in E. Z.div_mod_to_equations; lia.
    + by rewrite <- Ev.
    + apply (bc_dok _ _ _ _ _ _ _ HB).
    + intros k'. rewrite fn_insert_id by done. rewrite Hd2. apply (bc_disk _ _ _ _ _ _ _ HB).
Qed.

(** ** The contract, without the recency list *)

Section Contract.
Context (s : bstate) (v d : Z * Z -> list Z) (r : Z * Z -> Z) (h : Z * Z -> option Z) (f : Z).
Context (HBC : BC s v d r h f).

Lemma bread_spec me k :
  (forall k, r k = 0 -> h k = None) -> h k = None -> 0 <= r k -> r k + 1 < 2 ^ 32 ->
  0 < r k \/ 0 < f ->
  wp (bread me k.1 k.2) s (fun i s' t => t = [] /\
    BC s' v d (<[k:=r k + 1]> r) (<[k:=Some me]> h) (f - Z.b2z (r k =? 0)) /\
    is_buf s' i k /\ data (bufs s' !!! i) = v k /\
    (forall j k', is_buf s j k' -> r k' <> 0 -> is_buf s' j k')).
Proof.
  intros. destruct HBC as [l HB]. eapply wp_mono; [by apply (bread_specL me s l v d r h f k)|].
  intros i s' t (-> & _ & HB' & ?). split; [done|]. split; [by exists l|done].
Qed.

Lemma brelse_spec me i k :
  is_buf s i k -> h k = Some me -> (r k = 1 -> v k = d k) ->
  wp (brelse me i) s (fun _ s' t => t = [EWake (ChBufLock i)] /\
    BC s' v d (<[k:=u32 (r k - 1)]> r) (<[k:=None]> h) (f - Z.b2z (r k =? 0) + Z.b2z (r k =? 1)) /\
    (forall j k', is_buf s j k' -> is_buf s' j k')).
Proof.
  intros. destruct HBC as [l HB]. eapply wp_mono; [by apply (brelse_specL me s l v d r h f i k)|].
  intros _ s' t (-> & HB' & ?). split; [done|]. split; [by eexists|done].
Qed.

Lemma BC_refs k : 0 <= r k.
Proof.
  destruct HBC as [l HB].
  destruct (decide (Exists (fun i => used (bufs s !!! i) /\ bkey (bufs s !!! i) = k) (seq 0 NBUF))) as [Hy|Hn].
  - apply Exists_exists in Hy as (i & Hi & Hu & Hk). apply elem_of_seq in Hi.
    destruct (bc_used _ _ _ _ _ _ _ HB i ltac:(lia) Hu) as (_ & E & _). cbv zeta in E.
    rewrite <- Hk, E. apply (bi_buf _ _ (bc_inv _ _ _ _ _ _ _ HB) i). lia.
  - destruct (bc_unused _ _ _ _ _ _ _ HB k) as (_ & -> & _); [|done].
    intros i Hi Hu Hk. apply Hn, Exists_exists. exists i. split; [apply elem_of_seq; lia|done].
Qed.

(** A referenced block is in the cache. *)
Lemma BC_cached k : r k <> 0 ->
  exists i, (i < NBUF)%nat /\ bkey (bufs s !!! i) = k /\ refcnt (bufs s !!! i) = r k.
Proof.
  intros Hr. destruct HBC as [l HB].
  destruct (decide (Exists (fun i => used (bufs s !!! i) /\ bkey (bufs s !!! i) = k) (seq 0 NBUF))) as [Hy|Hn].
  - apply Exists_exists in Hy as (i & Hi & Hu & Hk). apply elem_of_seq in Hi. exists i.
    destruct (bc_used _ _ _ _ _ _ _ HB i ltac:(lia) Hu) as (_ & E & _). cbv zeta in E.
    split_and!; [lia|done|congruence].
  - destruct Hr. apply (bc_unused _ _ _ _ _ _ _ HB). intros i Hi Hu Hk. apply Hn, Exists_exists.
    exists i. split; [apply elem_of_seq; lia|done].
Qed.

(** A block nobody references is clean. *)
Lemma BC_clean k : r k = 0 -> v k = d k.
Proof.
  intros Hr. destruct HBC as [l HB].
  destruct (decide (Exists (fun i => used (bufs s !!! i) /\ bkey (bufs s !!! i) = k) (seq 0 NBUF))) as [Hy|Hn].
  - apply Exists_exists in Hy as (i & Hi & Hu & Hk). apply elem_of_seq in Hi.
    destruct (bc_used _ _ _ _ _ _ _ HB i ltac:(lia) Hu) as (E1 & E2 & _). cbv zeta in *.
    destruct (bi_buf _ _ (bc_inv _ _ _ _ _ _ _ HB) i) as [_ Hv _ _ Hc]; [lia|].
    rewrite Hk in *. rewrite E1. destruct (Z.eqb_spec (valid (bufs s !!! i)) 1) as [E|E]; [|done].
    rewrite Hc by congruence. apply (bc_disk _ _ _ _ _ _ _ HB).
  - apply (bc_unused _ _ _ _ _ _ _ HB). intros i Hi Hu Hk. apply Hn, Exists_exists.
    exists i. split; [apply elem_of_seq; lia|done].
Qed.

(** A buffer's [data] is the content of its block. *)
Lemma is_buf_data i k : is_buf s i k -> data (bufs s !!! i) = v k /\ (i < length (bufs s))%nat
  /\ dev (bufs s !!! i) = k.1 /\ blockno (bufs s !!! i) = k.2.
Proof.
  intros Hb. destruct HBC as [l HB]. pose proof Hb as (Hi & _ & Hk).
  destruct (is_buf_facts _ _ _ _ _ _ _ _ _ HB Hb) as (-> & _ & _ & _ & ->).
  subst k. split_and!; try done. lia.
Qed.

End Contract.

(** ** The cache after boot *)

Definition bcache1 : list buf :=
  match binit (BState bcache0 ∅) with Ok _ s _ => bufs s | _ => [] end.

Lemma binit_eq dk : binit (BState bcache0 dk) = Ok tt (BState bcache1 dk) [].
Proof. vm_compute. reflexivity. Qed.

Definition idleb (bs : list buf) : bool :=
  forallb (fun i => (refcnt (bs !!! i) =? 0) && (valid (bs !!! i) =? 0) &&
                    (locked (lock (bs !!! i)) =? 0)) (seq 0 NBUF).

Lemma idleb_idle bs i : idleb bs = true -> (i < NBUF)%nat ->
  refcnt (bs !!! i) = 0 /\ valid (bs !!! i) = 0 /\ holder (lock (bs !!! i)) = None.
Proof.
  intros H Hi. unfold idleb in H. rewrite forallb_forall in H.
  specialize (H i). rewrite in_seq in H. specialize (H ltac:(lia)). bools.
  destruct H as [[H1 H2] H3]. unfold holder, ctrue. by rewrite H3.
Qed.

Lemma bcache1_idleb : idleb bcache1 = true.
Proof. vm_compute. reflexivity. Qed.

Lemma bcache1_length : length bcache1 = S NBUF.
Proof. vm_compute. reflexivity. Qed.

Lemma bcache1_ring : linked (nxt bcache1) (prv bcache1) HEAD (reverse (seq 0 NBUF)) HEAD.
Proof. vm_compute. repeat split. Qed.

Lemma bcache1_nfree dk : nfree (BState bcache1 dk) = Z.of_nat NBUF.
Proof. vm_compute. reflexivity. Qed.

Opaque bcache1.

Lemma bcache1_idle i : (i < NBUF)%nat ->
  refcnt (bcache1 !!! i) = 0 /\ valid (bcache1 !!! i) = 0 /\ holder (lock (bcache1 !!! i)) = None.
Proof. apply idleb_idle, bcache1_idleb. Qed.

Lemma bcache1_binv dk : binv (BState bcache1 dk) (reverse (seq 0 NBUF)).
Proof.
  constructor; cbn [bufs disks].
  - apply bcache1_length.
  - apply reverse_Permutation.
  - apply bcache1_ring.
  - assert (forall l, (forall i, i ∈ l -> (i < NBUF)%nat) -> StronglySorted (first_rel bcache1) l) as H.
    { induction l as [|x l IH]; intros Hl; constructor.
      - apply IH. intros j Hj. apply Hl. by right.
      - apply Forall_forall. intros j Hj _.
        destruct (bcache1_idle j) as (E1 & E2 & _); [apply Hl; by right|]. unfold used. lia. }
    apply H. intros i Hi. apply elem_of_reverse, elem_of_seq in Hi. lia.
  - intros i Hi. destruct (bcache1_idle i Hi) as (E1 & E2 & E3).
    constructor; rewrite ?E1, ?E2; auto; lia.
Qed.

Lemma binit_BC dk :
  (forall k, blk_ok (disk_block dk k)) ->
  BC (BState bcache1 dk) (disk_block dk) (disk_block dk) (fun _ => 0) (fun _ => None) (Z.of_nat NBUF).
Proof.
  intros Hok. exists (reverse (seq 0 NBUF)).
  constructor; cbn [bufs disks]; [apply bcache1_binv|done|done| |done|by rewrite bcache1_nfree].
  intros i Hi Hu. exfalso. destruct (bcache1_idle i Hi) as (E1 & E2 & _).
  unfold used in Hu. lia.
Qed.

(** ** Properties of the cache *)

(** C21: [bread] returns the buffer of the block: the one that caches it, else
    the least recently used of those nobody references.  The buffer holds the
    block's current content, is locked by the caller and counts one more
    reference; no content, no other lock or count, and no other buffer in use
    changes, and nothing is written to the disk. *)
Theorem bread_returns me s l v d r h f k :
  BCL s l v d r h f -> (forall k, r k = 0 -> h k = None) ->
  h k = None -> 0 <= r k -> r k + 1 < 2 ^ 32 -> 0 < r k \/ 0 < f ->
  wp (bread me k.1 k.2) s (fun i s' t => t = [] /\ bget_pick (bufs s) l k = Some i /\
    BCL s' l v d (<[k:=r k + 1]> r) (<[k:=Some me]> h) (f - Z.b2z (r k =? 0)) /\
    is_buf s' i k /\ data (bufs s' !!! i) = v k /\
    (forall j k', is_buf s j k' -> r k' <> 0 -> is_buf s' j k')).
Proof. apply bread_specL. Qed.

Lemma blank_blk k : blk_ok (disk_block ∅ k).
Proof. unfold disk_block. rewrite lookup_empty. by apply blk_ok_fill. Qed.

Lemma boot_BCL dk : (forall k, blk_ok (disk_block dk k)) ->
  BCL (BState bcache1 dk) (reverse (seq 0 NBUF)) (disk_block dk) (disk_block dk)
      (fun _ => 0) (fun _ => None) (Z.of_nat NBUF).
Proof.
  intros Hok. constructor; cbn [bufs disks]; [apply bcache1_binv|done|done| |done|by rewrite bcache1_nfree].
  intros i Hi Hu. exfalso. destruct (bcache1_idle i Hi) as (E1 & E2 & _).
  unfold used in Hu. lia.
Qed.

Lemma bread_returns_witness :
  wp (bread 1 0 7) (BState bcache1 ∅) (fun i s' t => t = [] /\ is_buf s' i (0, 7)).
Proof.
  eapply wp_mono.
  - apply (bread_returns 1 _ _ _ _ _ _ _ (0, 7) (boot_BCL ∅ blank_blk)); [done|done|lia|lia|right; unfold NBUF; lia].
  - cbv beta. intros i s' t (H1 & _ & _ & H2 & _). exact (conj H1 H2).
Defined.

(** The list of buffers has no room: every buffer is referenced. *)
Lemma nfree_none s i : nfree s = 0 -> (i < NBUF)%nat -> refcnt (bufs s !!! i) <> 0.
Proof.
  intros H Hi E. unfold nfree in H.
  assert (count (fun i => refcnt (bufs s !!! i) =? 0) (seq 0 NBUF) <> 0) as Hn; [|done].
  apply list_elem_of_split_seq in Hi as (l1 & l2 & ->). rewrite count_app, count_cons, E. simpl.
  pose proof (count_nonneg (fun i => refcnt (bufs s !!! i) =? 0) l1).
  pose proof (count_nonneg (fun i => refcnt (bufs s !!! i) =? 0) l2). lia.
Qed.

(** When every buffer is referenced and none of them caches the block,
    [bread] panics. *)
Theorem bread_no_buffers me s l v d r h f k :
  BCL s l v d r h f -> r k = 0 -> f = 0 ->
  bread me k.1 k.2 s = Panic "bget: no buffers" s [].
Proof.
  intros HB Hr Hf. pose proof (bc_inv _ _ _ _ _ _ _ HB) as Hinv. pose proof (bi_len _ _ Hinv) as Hlen.
  pose proof (binv_length _ _ Hinv) as Hll. rewrite (bc_free _ _ _ _ _ _ _ HB) in Hf.
  assert (forall i, i ∈ l -> refcnt (bufs s !!! i) <> 0 /\ bkey (bufs s !!! i) <> k) as Hall.
  { intros i Hi. apply (binv_lt _ _ _ Hinv) in Hi. pose proof (nfree_none s i Hf Hi) as Hi'. split; [done|].
    intros <-. destruct (bc_used _ _ _ _ _ _ _ HB i Hi) as (_ & E & _); [by left|]. cbv zeta in E. congruence. }
  unfold bread, bget, bind. rewrite !bderef_eq by (unfold HEAD; lia).
  change (next (bufs s !!! HEAD)) with (nxt (bufs s) HEAD).
  rewrite (scan_next_spec s k.1 k.2 (prv (bufs s)) l HEAD scan_fuel Hlen (binv_Forall _ _ Hinv) (bi_ring _ _ Hinv))
    by (unfold scan_fuel; lia).
  replace (List.find _ l) with (@None nat).
  2:{ symmetry. apply find_none_all. intros i Hi. rewrite bkey_eqb. by apply bool_decide_eq_false_2, Hall. }
  rewrite bderef_eq by (unfold HEAD; lia). change (prev (bufs s !!! HEAD)) with (prv (bufs s) HEAD).
  rewrite (scan_prev_spec s (nxt (bufs s)) (reverse l) HEAD scan_fuel Hlen).
  - replace (List.find _ (reverse l)) with (@None nat); [done|]. symmetry. apply find_none_all. intros i Hi.
    apply elem_of_reverse, Hall in Hi as [Hi _]. by apply Z.eqb_neq.
  - apply Forall_reverse, (binv_Forall _ _ Hinv).
  - apply linked_reverse, (bi_ring _ _ Hinv).
  - rewrite length_reverse. unfold scan_fuel. lia.
Qed.

(** The cache after reading blocks 0 .. n-1 of a blank disk. *)
Lemma bread_many n : (n <= NBUF)%nat -> exists s l r h,
  BCL s l (disk_block ∅) (disk_block ∅) r h (Z.of_nat NBUF - Z.of_nat n) /\
  (forall k, 0 <= r k <= 1) /\ (forall k, r k = 0 -> h k = None) /\
  (forall i, (n <= i)%nat -> r (0, Z.of_nat i) = 0).
Proof.
  induction n as [|n IH]; intros Hn.
  - exists (BState bcache1 ∅), (reverse (seq 0 NBUF)), (fun _ => 0), (fun _ => None).
    split_and!; [|lia..|done|done]. rewrite Z.sub_0_r. apply boot_BCL, blank_blk.
  - destruct IH as (s & l & r & h & HB & Hr & Hh & H0); [lia|].
    assert (r (0, Z.of_nat n) = 0) as E by (apply H0; lia).
    destruct (wp_run _ _ _ (bread_specL 1 s l _ _ r h _ (0, Z.of_nat n) HB Hh ltac:(auto) ltac:(lia)
      ltac:(lia) ltac:(lia))) as (i & s' & t & _ & _ & _ & HB' & _).
    exists s', l, (<[(0, Z.of_nat n) := r (0, Z.of_nat n) + 1]> r), (<[(0, Z.of_nat n) := Some 1]> h).
    rewrite E in *. simpl in HB'. split_and!.
    + replace (Z.of_nat NBUF - Z.of_nat (S n)) with (Z.of_nat NBUF - Z.of_nat n - 1) by lia. exact HB'.
    + intros k. destruct (decide (k = (0, Z.of_nat n))) as [->|]; [rewrite fn_lookup_insert|rewrite fn_lookup_insert_ne by done]; [lia|apply Hr].
    + intros k. destruct (decide (k = (0, Z.of_nat n))) as [->|]; [rewrite fn_lookup_insert|rewrite !fn_lookup_insert_ne by done]; [lia|apply Hh].
    + intros i' Hi'. rewrite fn_lookup_insert_ne by (intros [= E']; lia). apply H0. lia.
Qed.

Lemma bread_no_buffers_witness : exists s l v d r h f, BCL s l v d r h f /\ f = 0 /\
  bread 1 0 30 s = Panic "bget: no buffers" s [].
Proof.
  destruct (bread_many NBUF (Nat.le_refl _)) as (s & l & r & h & HB & _ & _ & H0).
  exists s, l, (disk_block ∅), (disk_block ∅), r, h, (Z.of_nat NBUF - Z.of_nat NBUF).
  split; [exact HB|]. split; [reflexivity|].
  exact (bread_no_buffers 1 s l _ _ r h _ (0, 30) HB (H0 30%nat (Nat.le_refl _)) eq_refl).
Defined.

(** The first buffer labelled with a block is the one that may be in use. *)
Lemma found_first s l i k : binv s l ->
  List.find (fun i => (dev (bufs s !!! i) =? k.1) && (blockno (bufs s !!! i) =? k.2)) l = Some i ->
  (i < NBUF)%nat /\ bkey (bufs s !!! i) = k /\
  forall j, (j < NBUF)%nat -> used (bufs s !!! j) -> bkey (bufs s !!! j) = k -> j = i.
Proof.
  intros Hinv Hfind. apply find_first in Hfind as (E & l1 & l2 & Hl & Hl1).
  rewrite bkey_eqb in E. apply bool_decide_eq_true in E.
  split; [|split; [done|]].
  - apply (binv_lt _ _ _ Hinv). rewrite Hl. apply elem_of_app. right. by left.
  - intros j Hj Hu Ej. apply (binv_lt _ _ _ Hinv) in Hj. rewrite Hl in Hj.
    apply elem_of_app in Hj as [Hj|[->|Hj]%elem_of_cons]; [|done|].
    + specialize (Hl1 j Hj). rewrite bkey_eqb in Hl1. by apply bool_decide_eq_false in Hl1.
    + exfalso. pose proof (bi_first _ _ Hinv) as Hs. rewrite Hl in Hs.
      apply StronglySorted_app_1_r, StronglySorted_cons in Hs as [Hs _].
      rewrite Forall_forall in Hs. apply (Hs j Hj); [congruence|done].
Qed.

(** When another process has the block locked, [bread] counts a reference
    to its buffer and goes to sleep on the buffer's lock. *)
Theorem bread_waits me s l v d r h f k p :
  BCL s l v d r h f -> h k = Some p ->
  exists i s', (i < NBUF)%nat /\ bkey (bufs s !!! i) = k /\
    bread me k.1 k.2 s = Sleep (ChBufLock i) s' [] /\ disks s' = disks s /\
    bufs s' !!! i = set_refcnt (u32 (refcnt (bufs s !!! i) + 1)) (bufs s !!! i) /\
    forall j, j <> i -> bufs s' !!! j = bufs s !!! j.
Proof.
  intros HB Hh. pose proof (bc_inv _ _ _ _ _ _ _ HB) as Hinv. pose proof (bi_len _ _ Hinv) as Hlen.
  pose proof (binv_length _ _ Hinv) as Hll.
  destruct (decide (Exists (fun i => used (bufs s !!! i) /\ bkey (bufs s !!! i) = k) (seq 0 NBUF))) as [Hy|Hn].
  2:{ destruct (bc_unused _ _ _ _ _ _ _ HB k) as (_ & _ & E); [|congruence]. intros i Hi Hu Hk.
      apply Hn, Exists_exists. exists i. split; [apply elem_of_seq; lia|done]. }
  apply Exists_exists in Hy as (i & Hi & Hu & Hk). apply elem_of_seq in Hi as [_ Hi].
  destruct (bc_used _ _ _ _ _ _ _ HB i Hi Hu) as (_ & _ & Elk). cbv zeta in Elk. rewrite Hk, Hh in Elk.
  unfold bread, bget, bind. rewrite !bderef_eq by (unfold HEAD; lia).
  change (next (bufs s !!! HEAD)) with (nxt (bufs s) HEAD).
  rewrite (scan_next_spec s k.1 k.2 (prv (bufs s)) l HEAD scan_fuel Hlen (binv_Forall _ _ Hinv) (bi_ring _ _ Hinv))
    by (unfold scan_fuel; lia).
  destruct (List.find _ l) as [i'|] eqn:Hfind.
  2:{ pose proof (find_absent _ _ Hfind i (proj2 (binv_lt _ _ _ Hinv) Hi)) as Hx. cbv beta in Hx.
      rewrite bkey_eqb in Hx. by apply bool_decide_eq_false in Hx. }
  destruct (found_first _ _ _ _ Hinv Hfind) as (Hi' & _ & Huniq). rewrite <- (Huniq i Hi Hu Hk) in *.
  rewrite bassign_eq by lia. cbn [after app]. unfold on_lock, bind. rewrite bderef_eq by (simpl; len).
  unfold zoom. cbn [after app]. erewrite acquiresleep_held.
  2:{ cbn [bufs set_bufs]. rewrite list_lookup_alter_eq, (list_lookup_lookup_total_lt _ i) by lia. simpl. by symmetry. }
  exists i. eexists. split_and!; [done|done|reflexivity|done|..].
  - cbn [bufs set_bufs]. rewrite list_lookup_alter_eq, (list_lookup_lookup_total_lt _ i) by lia. simpl.
    bufs_simpl. by destruct (bufs s !!! i).
  - intros j Hj. by bufs_simpl.
Qed.

Lemma bread_waits_witness : exists s i s', bread 2 0 5 s = Sleep (ChBufLock i) s' [].
Proof.
  destruct (wp_run _ _ _ (bread_specL 1 _ _ _ _ _ _ _ (0, 5) (boot_BCL ∅ blank_blk) (fun _ _ => eq_refl)
    eq_refl ltac:(lia) ltac:(lia) ltac:(right; unfold NBUF; lia))) as (i & s & t & _ & _ & _ & HB & _).
  destruct (bread_waits 2 s _ _ _ _ _ _ (0, 5) 1 HB (fn_lookup_insert _ _ _)) as (i' & s' & _ & _ & H & _).
  exists s, i', s'. exact H.
Defined.

(** C22: [brelse] unlocks the buffer, wakes those waiting for it and drops the
    reference; when it was the last one the buffer moves to the front of the
    recency list, and only then. *)
Theorem brelse_returns me s l v d r h f i k :
  BCL s l v d r h f -> is_buf s i k -> h k = Some me -> 0 < r k -> (r k = 1 -> v k = d k) ->
  wp (brelse me i) s (fun _ s' t => t = [EWake (ChBufLock i)] /\
    BCL s' (if r k =? 1 then move_front i l else l) v d
        (<[k:=r k - 1]> r) (<[k:=None]> h) (f + Z.b2z (r k =? 1))).
Proof.
  intros HB Hb Hh Hr Hc. eapply wp_mono; [by apply (brelse_specL me s l v d r h f i k)|].
  intros _ s' t (-> & HB' & _). split; [done|].
  destruct (is_buf_facts _ _ _ _ _ _ _ _ _ HB Hb) as (_ & Er & _).
  pose proof (bo_ref _ _ (bi_buf _ _ (bc_inv _ _ _ _ _ _ _ HB) i (proj1 Hb))) as Hr1.
  rewrite u32_small in HB' by lia. replace (r k =? 0) with false in HB' by lia.
  simpl in HB'. by rewrite Z.sub_0_r in HB'.
Qed.

Lemma brelse_returns_witness : exists s i,
  wp (brelse 1 i) s (fun _ s' t => t = [EWake (ChBufLock i)] /\ nfree s' = 30).
Proof.
  destruct (wp_run _ _ _ (bread_specL 1 _ _ _ _ _ _ _ (0, 5) (boot_BCL ∅ blank_blk) (fun _ _ => eq_refl)
    eq_refl ltac:(lia) ltac:(lia) ltac:(right; unfold NBUF; lia))) as (i & s & t & _ & _ & _ & HB & Hb & _).
  exists s, i. eapply wp_mono.
  - refine (brelse_returns 1 s _ _ _ _ _ _ i (0, 5) HB Hb _ _ _); rewrite ?fn_lookup_insert; [reflexivity|lia|reflexivity].
  - cbv beta. rewrite fn_lookup_insert. intros u s' t' [H1 H2]. split; [exact H1|].
    rewrite <- (bc_free _ _ _ _ _ _ _ H2). reflexivity.
Defined.

(** [binit] leaves every buffer free, unlocked and in the recency list:
    the cache meets its contract, with the contents of the disk. *)
Theorem binit_contract dk :
  (forall k, blk_ok (disk_block dk k)) ->
  wp binit (BState bcache0 dk) (fun _ s t => t = [] /\ disks s = dk /\
    BCL s (reverse (seq 0 NBUF)) (disk_block dk) (disk_block dk) (fun _ => 0) (fun _ => None) (Z.of_nat NBUF)).
Proof. intros Hok. eapply wp_eq; [apply binit_eq|]. split_and!; [done|done|by apply boot_BCL]. Qed.

Lemma binit_contract_witness : wp binit (BState bcache0 ∅) (fun _ s t => t = [] /\ disks s = ∅).
Proof.
  eapply wp_mono; [apply (binit_contract ∅ blank_blk)|]. cbv beta. intros u s t (H1 & H2 & _). exact (conj H1 H2).
Defined.
