(* ===== verification/Log.v ===== *)
(** * The write-ahead log (kernel/log.c)

    One log per disk, [log[NDISK]]; the state holds the logs and, below them,
    the buffer cache.  The spin lock of a log makes the bodies between
    [acquire] and [release] atomic; [commit] runs without it.  LogFacts.v
    proves what the log guarantees across a crash. *)

From Stdlib Require Import ZArith Lia.
From stdpp Require Import base gmap list strings.
From S2P Require Import Prelude Sleeplock Bio.
Local Open Scope xv6_scope.

(** param.h *)
Definition LOGSIZE : nat := 30.
Definition NDISK : nat := 2.

(** struct superblock (fs.h) *)
Record superblock := Superblock {
  sb_magic : Z; sb_size : Z; sb_nblocks : Z; sb_ninodes : Z;
  sb_nlog : Z; sb_logstart : Z; sb_inodestart : Z; sb_bmapstart : Z }.

(** struct log, with its struct logheader [lh] in place. *)
Record log := Log {
  start : Z; size : Z; outstanding : Z; committing : Z; ldev : Z;
  lh_n : Z; lh_block : list Z }.

Definition set_geometry (st sz d : Z) (l : log) : log :=
  Log st sz (outstanding l) (committing l) d (lh_n l) (lh_block l).
Definition set_outstanding (x : Z) (l : log) : log :=
  Log (start l) (size l) x (committing l) (ldev l) (lh_n l) (lh_block l).
Definition set_committing (x : Z) (l : log) : log :=
  Log (start l) (size l) (outstanding l) x (ldev l) (lh_n l) (lh_block l).
Definition set_n (x : Z) (l : log) : log :=
  Log (start l) (size l) (outstanding l) (committing l) (ldev l) x (lh_block l).
Definition set_block (x : list Z) (l : log) : log :=
  Log (start l) (size l) (outstanding l) (committing l) (ldev l) (lh_n l) x.

Definition log0 : log := Log 0 0 0 0 0 0 (replicate LOGSIZE 0).

#[global] Instance log_inhabited : Inhabited log := populate log0.

Record lstate := LState { lbio : bstate; logs : list log }.

Definition set_bio (b : bstate) (s : lstate) : lstate := LState b (logs s).
Definition set_logs (x : list log) (s : lstate) : lstate := LState (lbio s) x.

(** Calls into bio.c. *)
Definition on_bio {A} : M bstate A -> M lstate A := zoom lbio set_bio.

(** [log[dev]], and assignments to its fields. *)
Definition logget (dev : Z) : M lstate log :=
  if dev <? 0 then undef else fetch (fun s => logs s !! Z.to_nat dev).
Definition logassign (dev : Z) (f : log -> log) : M lstate unit :=
  l <- logget dev ;;
  modify (fun s => set_logs (<[Z.to_nat dev := f l]> (logs s)) s).

(** [log[dev].lh.block[i]] and an assignment to it. *)
Definition blockget (dev : Z) (i : nat) : M lstate Z :=
  l <- logget dev ;;
  match lh_block l !! i with Some b => ret b | None => undef end.
Definition blockassign (dev : Z) (i : nat) (b : Z) : M lstate unit :=
  l <- logget dev ;;
  if (i <? length (lh_block l))%nat then
    logassign dev (fun l => set_block (<[i := b]> (lh_block l)) l)
  else undef.

(** The header block as a struct logheader: [n] in bytes 0..3, [block[i]] in
    the four bytes at [4 + 4 * i]. *)
Definition hb_n (d : list Z) : Z := i32 (le_val (bytes_at 0 4 d)).
Definition hb_block (i : nat) (d : list Z) : Z := i32 (le_val (bytes_at (4 + 4 * i) 4 d)).
Definition hb_put_n (n : Z) (d : list Z) : list Z := bytes_put 0 (le_bytes 4 (u32 n)) d.
Definition hb_put_block (i : nat) (b : Z) (d : list Z) : list Z :=
  bytes_put (4 + 4 * i) (le_bytes 4 (u32 b)) d.

(** A store into [b->data]. *)
Definition bupdate (b : nat) (f : list Z -> list Z) : M lstate unit :=
  on_bio (bb <- bderef b ;; bstore b (f (data bb))).

(** One iteration of the loop of [install_trans]. *)
Definition install_block (me dev : Z) (tail : nat) : M lstate unit :=
  l <- logget dev ;;
  lbuf <- on_bio (bread me dev (u32 (start l + Z.of_nat tail + 1))) ;;
  home <- blockget dev tail ;;
  dbuf <- on_bio (bread me dev (u32 home)) ;;
  lb <- on_bio (bderef lbuf) ;;
  on_bio (bstore dbuf (data lb)) ;;;
  on_bio (bwrite me dbuf) ;;;
  on_bio (bunpin dbuf) ;;;
  on_bio (brelse me lbuf) ;;;
  on_bio (brelse me dbuf).

Definition install_trans (me dev : Z) : M lstate unit :=
  l <- logget dev ;;
  for_all (seq 0 (Z.to_nat (lh_n l))) (install_block me dev).

Definition read_head (me dev : Z) : M lstate unit :=
  l <- logget dev ;;
  buf <- on_bio (bread me dev (u32 (start l))) ;;
  bb <- on_bio (bderef buf) ;;
  logassign dev (set_n (hb_n (data bb))) ;;;
  for_all (seq 0 (Z.to_nat (hb_n (data bb)))) (fun i =>
    bb <- on_bio (bderef buf) ;;
    blockassign dev i (hb_block i (data bb))) ;;;
  on_bio (brelse me buf).

Definition write_head (me dev : Z) : M lstate unit :=
  l <- logget dev ;;
  buf <- on_bio (bread me dev (u32 (start l))) ;;
  bupdate buf (hb_put_n (lh_n l)) ;;;
  for_all (seq 0 (Z.to_nat (lh_n l))) (fun i =>
    b <- blockget dev i ;;
    bupdate buf (hb_put_block i b)) ;;;
  on_bio (bwrite me buf) ;;;
  on_bio (brelse me buf).

Definition recover_from_log (me dev : Z) : M lstate unit :=
  read_head me dev ;;;
  install_trans me dev ;;;
  logassign dev (set_n 0) ;;;
  write_head me dev.

(** sizeof(struct logheader) is 124, below BSIZE, so the size check of
    [initlog] never fires. *)
Definition initlog (me dev : Z) (sb : superblock) : M lstate unit :=
  if (BSIZE <=? 4 + 4 * LOGSIZE)%nat then panic "initlog: too big logheader"
  else
    logassign dev (set_geometry (i32 (sb_logstart sb)) (i32 (sb_nlog sb)) dev) ;;;
    recover_from_log me dev.

(** The loop of [begin_op] tests again after each wakeup: a retry of the call. *)
Definition begin_op (dev : Z) : M lstate unit :=
  l <- logget dev ;;
  if ctrue (committing l) then sleep ChLog
  else if Z.of_nat LOGSIZE <? lh_n l + (outstanding l + 1) * MAXOPBLOCKS then sleep ChLog
  else logassign dev (set_outstanding (outstanding l + 1)).

(** One iteration of the loop of [write_log]. *)
Definition write_log_block (me dev : Z) (tail : nat) : M lstate unit :=
  l <- logget dev ;;
  to <- on_bio (bread me dev (u32 (start l + Z.of_nat tail + 1))) ;;
  home <- blockget dev tail ;;
  from <- on_bio (bread me dev (u32 home)) ;;
  fb <- on_bio (bderef from) ;;
  on_bio (bstore to (data fb)) ;;;
  on_bio (bwrite me to) ;;;
  on_bio (brelse me from) ;;;
  on_bio (brelse me to).

Definition write_log (me dev : Z) : M lstate unit :=
  l <- logget dev ;;
  for_all (seq 0 (Z.to_nat (lh_n l))) (write_log_block me dev).

Definition commit (me dev : Z) : M lstate unit :=
  l <- logget dev ;;
  if 0 <? lh_n l then
    write_log me dev ;;;
    write_head me dev ;;;
    install_trans me dev ;;;
    logassign dev (set_n 0) ;;;
    write_head me dev
  else ret tt.

Definition end_op (me dev : Z) : M lstate unit :=
  logassign dev (fun l => set_outstanding (outstanding l - 1) l) ;;;
  l <- logget dev ;;
  if ctrue (committing l) then panic "log[dev].committing"
  else if outstanding l =? 0 then
    logassign dev (set_committing 1) ;;;
    commit me dev ;;;
    logassign dev (set_committing 0) ;;;
    wakeup ChLog
  else wakeup ChLog.

(** for (i = 0; i < lh.n; i++) if (lh.block[i] == b->blockno) break; *)
Definition log_find (dev blockno : Z) : M lstate nat :=
  l <- logget dev ;;
  r <- for_each (seq 0 (Z.to_nat (lh_n l))) (fun i =>
         b <- blockget dev i ;;
         if u32 b =? blockno then ret (inr i) else ret (inl tt)) ;;
  ret (default (Z.to_nat (lh_n l)) r).

Definition log_write (b : nat) : M lstate unit :=
  bb <- on_bio (bderef b) ;;
  let dev := i32 (dev bb) in
  l <- logget dev ;;
  if (Z.of_nat LOGSIZE <=? lh_n l) || (size l - 1 <=? lh_n l) then
    panic "too big a transaction"
  else if outstanding l <? 1 then panic "log_write outside of trans"
  else
    i <- log_find dev (blockno bb) ;;
    blockassign dev i (i32 (blockno bb)) ;;;
    if Z.of_nat i =? lh_n l then
      on_bio (bpin b) ;;;
      logassign dev (fun l => set_n (lh_n l + 1) l)
    else ret tt.

(** The disk-full-crash test hook: close the operation, perhaps commit the log
    without installing it, and stop. *)
Definition crash_op (me dev docommit : Z) : M lstate unit :=
  l <- logget dev ;;
  if (dev <? 0) || (Z.of_nat NDISK <=? dev) then panic "end_op: invalid disk"
  else if outstanding l =? 0 then panic "end_op: already closed"
  else
    logassign dev (set_outstanding (outstanding l - 1)) ;;;
    if ctrue (committing l) then panic "log[dev].committing"
    else
      do_commit <- (if outstanding l - 1 =? 0 then
                      logassign dev (set_committing 1) ;;; ret 1
                    else ret 0) ;;
      (if ctrue (Z.land docommit do_commit) then
         kputs ("crash_op: commit" ++ newline) ;;;
         l <- logget dev ;;
         if 0 <? lh_n l then write_log me dev ;;; write_head me dev else ret tt
       else ret tt) ;;;
      panic ("crashed file system; please restart xv6 and run crashtest" ++ newline).
