(* ===== verification/LogFacts.v ===== *)
(** * What the log guarantees (kernel/log.c)

    The operations of Log.v are specified against the contract of the buffer
    cache, and their disk writes, in order, are what a crash can cut short. *)

From Stdlib Require Import ZArith Lia.
From stdpp Require Import base gmap list strings functions.
From S2P Require Import Prelude Sleeplock Bio BioFacts Log.
Local Open Scope xv6_scope.

(** ** The logs above the cache contract *)

(** The logs are [ls], and the cache meets its contract. *)
Definition LC (ls : list log) (s : lstate) v d r h f : Prop :=
  logs s = ls /\ BC (lbio s) v d r h f.

(** No block is locked without being referenced. *)
Definition idle (r : Z * Z -> Z) (h : Z * Z -> option Z) : Prop :=
  forall k, r k = 0 -> h k = None.

Lemma LC_ext ls s v v' d d' r r' h h' f f' :
  LC ls s v d r h f -> (forall k, v k = v' k) -> (forall k, d k = d' k) ->
  (forall k, r k = r' k) -> (forall k, h k = h' k) -> f = f' -> LC ls s v' d' r' h' f'.
Proof. intros [? HB] ? ? ? ? ?. split; [done|]. by eapply BC_ext. Qed.

Section Calls.
Context (me : Z) (ls : list log) (s : lstate) (v d : Z * Z -> list Z) (r : Z * Z -> Z).
Context (h : Z * Z -> option Z) (f : Z) (H : LC ls s v d r h f).

Lemma LC_bread k Q :
  idle r h -> h k = None -> r k + 1 < 2 ^ 32 -> 0 < r k \/ 0 < f ->
  (forall i s', LC ls s' v d (<[k:=r k + 1]> r) (<[k:=Some me]> h) (f - Z.b2z (r k =? 0)) ->
     is_buf (lbio s') i k -> data (bufs (lbio s') !!! i) = v k ->
     (forall j k', is_buf (lbio s) j k' -> r k' <> 0 -> is_buf (lbio s') j k') ->
     Q i s' []) ->
  wp (on_bio (bread me k.1 k.2)) s Q.
Proof.
  intros Hi Hh Hr Hf HQ. destruct H as [Hl HB]. apply wp_zoom.
  eapply wp_mono; [eapply (bread_spec _ _ _ _ _ _ HB me k); try done; by eapply BC_refs|].
  intros i b t (-> & ? & ? & ? & ?). by apply HQ.
Qed.

Lemma LC_brelse i k Q :
  is_buf (lbio s) i k -> h k = Some me -> (r k = 1 -> v k = d k) ->
  (forall s', LC ls s' v d (<[k:=u32 (r k - 1)]> r) (<[k:=None]> h)
       (f - Z.b2z (r k =? 0) + Z.b2z (r k =? 1)) ->
     (forall j k', is_buf (lbio s) j k' -> is_buf (lbio s') j k') ->
     Q tt s' [EWake (ChBufLock i)]) ->
  wp (on_bio (brelse me i)) s Q.
Proof.
  intros Hb Hh Hc HQ. destruct H as [Hl HB]. apply wp_zoom.
  eapply wp_mono; [by eapply (brelse_spec _ _ _ _ _ _ HB me i k)|].
  intros [] b t (-> & ? & ?). by apply HQ.
Qed.

Lemma LC_bwrite i k Q :
  is_buf (lbio s) i k -> h k = Some me ->
  (forall s', LC ls s' v (<[k:=v k]> d) r h f ->
     (forall j k', is_buf (lbio s) j k' -> is_buf (lbio s') j k') ->
     Q tt s' [EDisk k.1 k.2 (v k)]) ->
  wp (on_bio (bwrite me i)) s Q.
Proof.
  intros Hb Hh HQ. destruct H as [Hl HB]. apply wp_zoom.
  eapply wp_mono; [by eapply (bwrite_spec _ _ _ _ _ _ HB me i k)|].
  intros [] b t (-> & ? & ?). by apply HQ.
Qed.

Lemma LC_bstore i k x Q :
  is_buf (lbio s) i k -> r k <> 0 -> blk_ok x ->
  (forall s', LC ls s' (<[k:=x]> v) d r h f ->
     (forall j k', is_buf (lbio s) j k' -> is_buf (lbio s') j k') -> Q tt s' []) ->
  wp (on_bio (bstore i x)) s Q.
Proof.
  intros Hb Hr Hx HQ. destruct H as [Hl HB]. apply wp_zoom.
  eapply wp_mono; [by eapply (bstore_spec _ _ _ _ _ _ HB i k x)|].
  intros [] b t (-> & ? & ?). by apply HQ.
Qed.

Lemma LC_bderef i k Q :
  is_buf (lbio s) i k ->
  (data (bufs (lbio s) !!! i) = v k -> dev (bufs (lbio s) !!! i) = k.1 ->
   blockno (bufs (lbio s) !!! i) = k.2 -> Q (bufs (lbio s) !!! i) s []) ->
  wp (on_bio (bderef i)) s Q.
Proof.
  intros Hb HQ. destruct H as [Hl HB]. apply wp_zoom.
  destruct (is_buf_data _ _ _ _ _ _ HB i k Hb) as (? & ? & ? & ?).
  apply wp_bderef; [done|]. destruct s. by apply HQ.
Qed.

Lemma LC_bupdate i k g Q :
  is_buf (lbio s) i k -> r k <> 0 -> blk_ok (g (v k)) ->
  (forall s', LC ls s' (<[k:=g (v k)]> v) d r h f ->
     (forall j k', is_buf (lbio s) j k' -> is_buf (lbio s') j k') -> Q tt s' []) ->
  wp (bupdate i g) s Q.
Proof.
  intros Hb Hr Hx HQ. destruct H as [Hl HB]. unfold bupdate. apply wp_zoom. wp_step.
  destruct (is_buf_data _ _ _ _ _ _ HB i k Hb) as (E & ? & ? & ?).
  apply wp_bderef; [done|]. rewrite E.
  eapply wp_mono; [by eapply (bstore_spec _ _ _ _ _ _ HB i k)|].
  intros [] b t (-> & ? & ?). by apply HQ.
Qed.

Lemma LC_bpin i k Q :
  is_buf (lbio s) i k -> 0 < r k -> r k + 1 < 2 ^ 32 ->
  (forall s', LC ls s' v d (<[k:=r k + 1]> r) h f ->
     (forall j k', is_buf (lbio s) j k' -> is_buf (lbio s') j k') -> Q tt s' []) ->
  wp (on_bio (bpin i)) s Q.
Proof.
  intros Hb H0 Hr HQ. destruct H as [Hl HB]. apply wp_zoom.
  eapply wp_mono; [by eapply (bpin_spec _ _ _ _ _ _ HB i k)|].
  intros [] b t (-> & ? & ?). by apply HQ.
Qed.

Lemma LC_bunpin i k Q :
  is_buf (lbio s) i k -> 0 < r k < 2 ^ 32 -> (r k = 1 -> v k = d k) ->
  (forall s', LC ls s' v d (<[k:=r k - 1]> r) h (f + Z.b2z (r k =? 1)) ->
     (forall j k', is_buf (lbio s) j k' -> is_buf (lbio s') j k') -> Q tt s' []) ->
  wp (on_bio (bunpin i)) s Q.
Proof.
  intros Hb H0 Hr HQ. destruct H as [Hl HB]. apply wp_zoom.
  eapply wp_mono; [by eapply (bunpin_spec _ _ _ _ _ _ HB i k)|].
  intros [] b t (-> & ? & ?). by apply HQ.
Qed.

Lemma LC_refs k : 0 <= r k.
Proof. destruct H as [_ HB]. by eapply BC_refs. Qed.

Lemma LC_clean k : r k = 0 -> v k = d k.
Proof. destruct H as [_ HB]. by eapply BC_clean. Qed.

Lemma LC_blk_ok k : blk_ok (v k).
Proof. destruct H as [_ HB]. by eapply BC_blk_ok. Qed.

Lemma wp_logget dev L Q :
  0 <= dev -> ls !! Z.to_nat dev = Some L -> Q L s [] -> wp (logget dev) s Q.
Proof.
  intros Hd HL HQ. destruct H as [Hl _]. unfold logget.
  destruct (Z.ltb_spec dev 0); [lia|]. apply wp_fetch with L; [by rewrite Hl|done].
Qed.

Lemma wp_blockget dev L i b Q :
  0 <= dev -> ls !! Z.to_nat dev = Some L -> lh_block L !! i = Some b ->
  Q b s [] -> wp (blockget dev i) s Q.
Proof.
  intros. unfold blockget. wp_step. eapply wp_logget; [done..|]. case_match; [|done].
  simplify_eq. by wp_step.
Qed.

Lemma wp_logassign dev L g Q :
  0 <= dev -> ls !! Z.to_nat dev = Some L ->
  (forall s', LC (<[Z.to_nat dev := g L]> ls) s' v d r h f -> lbio s' = lbio s -> Q tt s' []) ->
  wp (logassign dev g) s Q.
Proof.
  intros Hd HL HQ. unfold logassign. wp_step. eapply wp_logget; [done..|]. wp_step.
  destruct H as [Hl HB]. apply HQ; [|done]. split; [|done]. simpl. by rewrite Hl.
Qed.

End Calls.

(** ** Disk writes as a list *)

Definition apply_writes (ws : list (Z * Z * list Z)) (d : Z * Z -> list Z) : Z * Z -> list Z :=
  foldl (fun d w => <[w.1 := w.2]> d) d ws.

Lemma apply_writes_app ws1 ws2 d :
  apply_writes (ws1 ++ ws2) d = apply_writes ws2 (apply_writes ws1 d).
Proof. apply foldl_app. Qed.

Lemma apply_writes_other ws d k : k ∉ ws.*1 -> apply_writes ws d k = d k.
Proof.
  induction ws as [|w ws IH] using rev_ind; [done|].
  rewrite fmap_app, apply_writes_app. intros Hk. simpl.
  rewrite fn_lookup_insert_ne by (intros <-; set_solver). apply IH. set_solver.
Qed.

Lemma apply_writes_in ws d k x : NoDup ws.*1 -> (k, x) ∈ ws -> apply_writes ws d k = x.
Proof.
  induction ws as [|w ws IH] using rev_ind; [set_solver|].
  rewrite fmap_app, apply_writes_app. intros Hnd Hin. apply list.NoDup_app in Hnd as (Hnd & Hx & _). simpl.
  apply elem_of_app in Hin as [Hin|Hin].
  - assert (k ∈ ws.*1) by (by apply (list_elem_of_fmap_2 fst _ (k, x))).
    rewrite fn_lookup_insert_ne by (intros <-; apply (Hx w.1); set_solver). by apply IH.
  - apply list_elem_of_singleton in Hin as <-. by rewrite fn_lookup_insert.
Qed.

Lemma apply_writes_ext ws d d' k : d k = d' k -> apply_writes ws d k = apply_writes ws d' k.
Proof.
  induction ws as [|w ws IH] using rev_ind; [done|]. rewrite !apply_writes_app. simpl. intros Hk.
  destruct (decide (k = w.1)) as [->|]; [by rewrite !fn_lookup_insert|].
  rewrite !fn_lookup_insert_ne by done. auto.
Qed.

(** ** One iteration *)

Ltac fn_simpl := repeat first
  [ rewrite fn_lookup_insert
  | rewrite fn_lookup_insert_ne by congruence ].

(** Two functions that agree except perhaps at [a] and [b]. *)
Ltac fn_cases a b :=
  let k := fresh "k" in let E := fresh "E" in let E' := fresh "E" in intros k;
  destruct (decide (k = b)) as [E|E]; [rewrite E; fn_simpl|
    destruct (decide (k = a)) as [E'|E']; [rewrite E'; fn_simpl|fn_simpl]].

Ltac fn_case b :=
  let k := fresh "k" in let E := fresh "E" in intros k;
  destruct (decide (k = b)) as [E|E]; [rewrite E|]; fn_simpl; try done.

Ltac b2z := repeat match goal with
  | |- context [Z.b2z (?a =? ?b)] => destruct (Z.eqb_spec a b); simpl
  end; try lia.

Section Iteration.
Context (me dev : Z) (ls : list log) (L : log) (s : lstate) (v d : Z * Z -> list Z).
Context (r : Z * Z -> Z) (h : Z * Z -> option Z) (f : Z).
Context (H : LC ls s v d r h f) (Hdev : 0 <= dev) (HL : ls !! Z.to_nat dev = Some L).
Context (tail : nat) (home : Z) (Hhome : lh_block L !! tail = Some home).

Let lk : Z * Z := (dev, u32 (start L + Z.of_nat tail + 1)).
Let hk : Z * Z := (dev, u32 home).

(** The reference count of the home block ends one lower, modulo 2^32. *)
Lemma install_block_spec :
  idle r h -> lk <> hk -> h hk = None -> r lk = 0 -> r hk + 1 < 2 ^ 32 ->
  0 < f -> 0 < r hk \/ 1 < f ->
  wp (install_block me dev tail) s (fun _ s' t =>
    disk_writes t = [(hk, v lk)] /\
    LC ls s' (<[hk := v lk]> v) (<[hk := v lk]> d) (<[hk := u32 (r hk - 1)]> r) h
       (f - Z.b2z (r hk =? 0) + Z.b2z (r hk =? 1))).
Proof.
  intros Hidle Hne Hhh Hrl Hrh Hf Hroom. pose proof (LC_refs _ _ _ _ _ _ _ H hk) as Hr0.
  pose proof (Hidle _ Hrl) as Hhl. pose proof (LC_blk_ok _ _ _ _ _ _ _ H lk) as Hblk.
  unfold install_block. wp_step. eapply (wp_logget _ _ _ _ _ _ _ H _ L); [done..|]. wp_step.
  eapply (LC_bread me _ _ _ _ _ _ _ H lk); [done..|lia|lia|].
  intros lb s1 H1 Hlb El _. wp_step. eapply (wp_blockget _ _ _ _ _ _ _ H1 dev L tail home); [done..|].
  wp_step. eapply (LC_bread me _ _ _ _ _ _ _ H1 hk); fn_simpl; [|done|lia|b2z|].
  { intros k. destruct (decide (k = lk)) as [->|]; fn_simpl; [lia|apply Hidle]. }
  intros db s2 H2 Hdb Ed Hkeep. specialize (Hkeep lb lk Hlb).
  wp_step. eapply (LC_bderef _ _ _ _ _ _ _ H2 lb lk); [apply Hkeep; fn_simpl; lia|].
  intros E _ _. rewrite E. wp_step. eapply (LC_bstore _ _ _ _ _ _ _ H2 db hk); [done|fn_simpl; lia|done|].
  intros s3 H3 Hk3. wp_step. eapply (LC_bwrite me _ _ _ _ _ _ _ H3 db hk); [auto|by fn_simpl|].
  intros s4 H4 Hk4. wp_step. eapply (LC_bunpin _ _ _ _ _ _ _ H4 db hk); fn_simpl; [auto|lia|done|].
  intros s5 H5 Hk5. wp_step. eapply (LC_brelse me _ _ _ _ _ _ _ H5 lb lk); fn_simpl;
    [|done|intros _; by apply (LC_clean _ _ _ _ _ _ _ H)|].
  { apply Hk5, Hk4, Hk3, Hkeep. fn_simpl. lia. }
  intros s6 H6 Hk6. eapply (LC_brelse me _ _ _ _ _ _ _ H6 db hk); fn_simpl; [auto 10|done|done|].
  intros s7 H7 _. simpl. split; [done|].
  eapply LC_ext; [exact H7|..]; try (fn_cases lk hk; done).
  - fn_cases lk hk; [by rewrite Z.add_simpl_r|by rewrite Hrl|done].
  - rewrite Hrl. b2z.
Qed.

(** The log block becomes the cached content of the home block. *)
Lemma write_log_block_spec :
  idle r h -> lk <> hk -> h hk = None -> r lk = 0 -> 0 < r hk -> r hk + 1 < 2 ^ 32 -> 0 < f ->
  wp (write_log_block me dev tail) s (fun _ s' t =>
    disk_writes t = [(lk, v hk)] /\
    LC ls s' (<[lk := v hk]> v) (<[lk := v hk]> d) r h f).
Proof.
  intros Hidle Hne Hhh Hrl Hr0 Hrh Hf.
  pose proof (Hidle _ Hrl) as Hhl. pose proof (LC_blk_ok _ _ _ _ _ _ _ H hk) as Hblk.
  unfold write_log_block. wp_step. eapply (wp_logget _ _ _ _ _ _ _ H _ L); [done..|]. wp_step.
  eapply (LC_bread me _ _ _ _ _ _ _ H lk); [done..|lia|lia|].
  intros lb s1 H1 Hlb El _. wp_step. eapply (wp_blockget _ _ _ _ _ _ _ H1 dev L tail home); [done..|].
  wp_step. eapply (LC_bread me _ _ _ _ _ _ _ H1 hk); fn_simpl; [|done|lia|b2z|].
  { intros k. destruct (decide (k = lk)) as [->|]; fn_simpl; [lia|apply Hidle]. }
  intros db s2 H2 Hdb Ed Hkeep. specialize (Hkeep lb lk Hlb).
  wp_step. eapply (LC_bderef _ _ _ _ _ _ _ H2 db hk); [done|].
  intros E _ _. rewrite E. wp_step.
  eapply (LC_bstore _ _ _ _ _ _ _ H2 lb lk); [apply Hkeep; fn_simpl; lia|fn_simpl; lia|done|].
  intros s3 H3 Hk3. wp_step. eapply (LC_bwrite me _ _ _ _ _ _ _ H3 lb lk); [|by fn_simpl|].
  { apply Hk3, Hkeep. fn_simpl. lia. }
  intros s4 H4 Hk4. wp_step. eapply (LC_brelse me _ _ _ _ _ _ _ H4 db hk); fn_simpl; [auto|done|lia|].
  intros s5 H5 Hk5. eapply (LC_brelse me _ _ _ _ _ _ _ H5 lb lk); fn_simpl; [|done|done|].
  { apply Hk5, Hk4, Hk3, Hkeep. fn_simpl. lia. }
  intros s6 H6 _. simpl. split; [done|].
  eapply LC_ext; [exact H6|..]; try (fn_cases lk hk; done).
  - fn_cases lk hk; [rewrite u32_small; lia|by rewrite Hrl|done].
  - rewrite Hrl. b2z.
Qed.

End Iteration.

(** ** The loops *)

(** The blocks of the current transaction. *)
Definition homes (L : log) : list Z := take (Z.to_nat (lh_n L)) (lh_block L).

(** A log in memory: its region of the disk, and a transaction that fits it,
    of distinct blocks outside the region. *)
Record log_ok (L : log) : Prop := {
  lo_start : 0 <= start L;
  lo_end : start L + size L <= 2 ^ 31;
  lo_n : 0 <= lh_n L < size L;
  lo_cap : lh_n L <= Z.of_nat LOGSIZE;
  lo_len : length (lh_block L) = LOGSIZE;
  lo_nodup : NoDup (homes L);
  lo_home : forall b, b ∈ homes L -> 0 <= b < 2 ^ 31 /\ ~ start L <= b < start L + size L }.

Definition in_log (dev : Z) (L : log) (k : Z * Z) : Prop :=
  k.1 = dev /\ start L <= k.2 < start L + size L.

(** The block writes of [write_log] and [install_trans], in order. *)
Definition log_writes (dev : Z) (L : log) (v : Z * Z -> list Z) : list (Z * Z * list Z) :=
  imap (fun j b => ((dev, start L + Z.of_nat j + 1), v (dev, b))) (homes L).
Definition home_writes (dev : Z) (L : log) (v : Z * Z -> list Z) : list (Z * Z * list Z) :=
  imap (fun j b => ((dev, b), v (dev, start L + Z.of_nat j + 1))) (homes L).

(** The header block after [write_head]. *)
Definition hdr (L : log) (x : list Z) : list Z :=
  foldl (fun x i => hb_put_block i (lh_block L !!! i) x) (hb_put_n (lh_n L) x)
        (seq 0 (Z.to_nat (lh_n L))).

(** The reference counts after [install_trans]. *)
Definition unpinned (dev : Z) (bs : list Z) (r : Z * Z -> Z) (k : Z * Z) : Z :=
  if bool_decide (k.1 = dev /\ k.2 ∈ bs) then u32 (r k - 1) else r k.

Lemma homes_length L : log_ok L -> length (homes L) = Z.to_nat (lh_n L).
Proof. intros [_ _ Hn Hc Hlen _ _]. unfold homes. len. Qed.

Lemma homes_lookup L j b : homes L !! j = Some b -> lh_block L !! j = Some b.
Proof. unfold homes. intros H. by apply lookup_take_Some in H as [? _]. Qed.

Lemma lookup_writes (F : nat -> Z -> Z * Z * list Z) L j b :
  homes L !! j = Some b -> imap F (homes L) !! j = Some (F j b).
Proof. intros H. by rewrite list_lookup_imap, H. Qed.

Lemma writes_take (F : nat -> Z -> Z * Z * list Z) L j b :
  homes L !! j = Some b ->
  take (S j) (imap F (homes L)) = take j (imap F (homes L)) ++ [F j b].
Proof. intros H. apply take_S_r. by apply lookup_writes. Qed.

Lemma writes_keys (F : nat -> Z -> Z * Z * list Z) L n k :
  k ∈ (take n (imap F (homes L))).*1 ->
  exists j b, (j < n)%nat /\ homes L !! j = Some b /\ k = (F j b).1.
Proof.
  intros H. apply list_elem_of_fmap in H as (w & -> & Hw).
  apply list_elem_of_lookup in Hw as (j & Hj).
  apply lookup_take_Some in Hj as [Hj Hlt]. rewrite list_lookup_imap in Hj.
  destruct (homes L !! j) as [b|] eqn:E; [|done]. simplify_eq/=. by exists j, b.
Qed.

(** ** The header block *)

Lemma i32_u32 z : - 2 ^ 31 <= z < 2 ^ 31 -> i32 (u32 z) = z.
Proof.
  intros Hz. unfold i32, u32. rewrite Z.mod_mod by lia.
  case_match eqn:E; Z.div_mod_to_equations; lia.
Qed.

Lemma le_word z : le_val (le_bytes 4 (u32 z)) = u32 z.
Proof. apply le_val_bytes. apply u32_range. Qed.

Definition put_blocks (g : nat -> Z) (m : nat) (x : list Z) : list Z :=
  foldl (fun x i => hb_put_block i (g i) x) x (seq 0 m).

Lemma put_blocks_S g m x : put_blocks g (S m) x = hb_put_block m (g m) (put_blocks g m x).
Proof. unfold put_blocks. by rewrite seq_S, foldl_app. Qed.

Lemma put_blocks_length g m x : length (put_blocks g m x) = length x.
Proof.
  induction m as [|m IH]; [done|]. rewrite put_blocks_S. unfold hb_put_block. by len.
Qed.

Lemma put_blocks_n g m x : hb_n (put_blocks g m x) = hb_n x.
Proof.
  induction m as [|m IH]; [done|]. rewrite put_blocks_S. unfold hb_n, hb_put_block in *.
  rewrite bytes_at_put_ne by lia. done.
Qed.

Lemma put_blocks_block g m x i : (i < m)%nat -> (4 + 4 * m <= length x)%nat ->
  hb_block i (put_blocks g m x) = i32 (u32 (g i)).
Proof.
  induction m as [|m IH]; intros Hi Hx; [lia|]. rewrite put_blocks_S. unfold hb_block, hb_put_block in *.
  destruct (decide (i = m)) as [->|Hne].
  - rewrite bytes_at_put_eq, le_word by (rewrite ?length_le_bytes, ?put_blocks_length; lia). done.
  - rewrite bytes_at_put_ne by (rewrite length_le_bytes; lia). apply IH; lia.
Qed.

Lemma put_blocks_ok g m x : blk_ok x -> blk_ok (put_blocks g m x).
Proof.
  intros [Hl Hx]. split; [by rewrite put_blocks_length|].
  induction m as [|m IH]; [done|]. rewrite put_blocks_S. unfold hb_put_block.
  apply bytes_put_ok; [apply le_bytes_ok|done].
Qed.

Lemma hdr_eq L x :
  hdr L x = put_blocks (fun i => lh_block L !!! i) (Z.to_nat (lh_n L)) (hb_put_n (lh_n L) x).
Proof. done. Qed.

Lemma hb_put_n_ok n x : blk_ok x -> blk_ok (hb_put_n n x).
Proof.
  intros [Hl Hx]. unfold hb_put_n. split; [by len|]. apply bytes_put_ok; [apply le_bytes_ok|done].
Qed.

Lemma hb_n_put n x : blk_ok x -> - 2 ^ 31 <= n < 2 ^ 31 -> hb_n (hb_put_n n x) = n.
Proof.
  intros [Hl Hx] Hn. unfold hb_n, hb_put_n.
  rewrite bytes_at_put_eq, le_word by (rewrite ?length_le_bytes, ?Hl; unfold BSIZE; lia).
  by apply i32_u32.
Qed.

(** The header read back is the header written. *)
Lemma hdr_n L x : log_ok L -> blk_ok x -> hb_n (hdr L x) = lh_n L.
Proof.
  intros Hok Hx. rewrite hdr_eq, put_blocks_n. apply hb_n_put; [done|].
  destruct Hok as [_ _ Hn Hc _ _ _]. unfold LOGSIZE in Hc. lia.
Qed.

Lemma hdr_block L x i b : log_ok L -> blk_ok x -> homes L !! i = Some b ->
  hb_block i (hdr L x) = b.
Proof.
  intros Hok Hx Hb. rewrite hdr_eq, put_blocks_block.
  - apply homes_lookup in Hb as Hb'. rewrite (list_lookup_total_correct _ _ _ Hb').
    apply i32_u32. apply list_elem_of_lookup_2 in Hb. apply (lo_home _ Hok) in Hb. lia.
  - apply lookup_lt_Some in Hb. by rewrite homes_length in Hb.
  - destruct Hok as [_ _ Hn Hc _ _ _], Hx as [Hx _]. unfold hb_put_n. len.
    rewrite Hx. unfold LOGSIZE, BSIZE in *. lia.
Qed.

Lemma hdr_ok L x : blk_ok x -> blk_ok (hdr L x).
Proof. intros. by apply put_blocks_ok, hb_put_n_ok. Qed.

(** The log in memory after reading header [x]. *)
Definition read_blocks (x : list Z) (m : nat) (bl : list Z) : list Z :=
  foldl (fun bl i => <[i := hb_block i x]> bl) bl (seq 0 m).
Definition read_log (x : list Z) (L : log) : log :=
  set_block (read_blocks x (Z.to_nat (hb_n x)) (lh_block L)) (set_n (hb_n x) L).

Lemma read_blocks_S x m bl : read_blocks x (S m) bl = <[m := hb_block m x]> (read_blocks x m bl).
Proof. unfold read_blocks. by rewrite seq_S, foldl_app. Qed.

Lemma read_blocks_length x m bl : length (read_blocks x m bl) = length bl.
Proof. induction m; [done|]. rewrite read_blocks_S. by len. Qed.

Lemma read_blocks_take x m bl : (m <= length bl)%nat ->
  take m (read_blocks x m bl) = (fun i => hb_block i x) <$> seq 0 m.
Proof.
  intros Hm. apply list_eq. intros i. destruct (decide (i < m)%nat) as [Hi|Hi].
  - rewrite lookup_take_lt by done. rewrite list_lookup_fmap, lookup_seq_lt by done. simpl.
    induction m as [|m IH]; [lia|]. rewrite read_blocks_S.
    destruct (decide (i = m)) as [->|].
    + apply list_lookup_insert_eq. rewrite read_blocks_length. lia.
    + rewrite list_lookup_insert_ne by done. apply IH; lia.
  - rewrite lookup_take_ge by lia. symmetry. apply lookup_ge_None. len.
Qed.

(** The blocks a header lists. *)
Definition hb_homes (x : list Z) : list Z :=
  (fun i => hb_block i x) <$> seq 0 (Z.to_nat (hb_n x)).

Lemma read_log_homes x L : hb_n x <= Z.of_nat (length (lh_block L)) ->
  homes (read_log x L) = hb_homes x.
Proof. intros Hn. unfold homes, read_log. simpl. apply read_blocks_take. lia. Qed.

Lemma hb_homes_hdr L x : log_ok L -> blk_ok x -> hb_homes (hdr L x) = homes L.
Proof.
  intros Hok Hx. unfold hb_homes. rewrite hdr_n by done. apply list_eq. intros i.
  rewrite list_lookup_fmap. destruct (decide (i < Z.to_nat (lh_n L))%nat) as [Hi|Hi].
  - rewrite lookup_seq_lt by done. simpl. destruct (homes L !! i) as [b|] eqn:Hb.
    + by erewrite hdr_block.
    + apply lookup_ge_None in Hb. rewrite homes_length in Hb by done. lia.
  - rewrite lookup_seq_ge by lia. symmetry. apply lookup_ge_None. rewrite homes_length by done. lia.
Qed.

Section Loops.
Context (me dev : Z) (ls : list log) (L : log) (s : lstate) (v d : Z * Z -> list Z).
Context (r : Z * Z -> Z) (h : Z * Z -> option Z) (f : Z).
Context (H : LC ls s v d r h f) (Hdev : 0 <= dev) (HL : ls !! Z.to_nat dev = Some L).
Context (Hok : log_ok L) (Hidle : idle r h) (Hlog : forall k, in_log dev L k -> r k = 0).

Lemma lkey_in_log j b : homes L !! j = Some b -> in_log dev L (dev, start L + Z.of_nat j + 1).
Proof.
  intros Hj. apply lookup_lt_Some in Hj. rewrite homes_length in Hj by done.
  destruct Hok. split; simpl; [done|lia].
Qed.

Lemma hkey_not_log j b : homes L !! j = Some b -> 0 <= b < 2 ^ 31 /\ ~ in_log dev L (dev, b).
Proof.
  intros Hj. apply list_elem_of_lookup_2 in Hj. destruct (lo_home _ Hok b Hj) as [? Hb].
  split; [done|]. intros [_ ?]. done.
Qed.

(** The two blocks of iteration [j]. *)
Lemma loop_keys j : (j < Z.to_nat (lh_n L))%nat -> exists b,
  homes L !! j = Some b /\ b ∈ homes L /\ lh_block L !! j = Some b /\
  u32 (start L + Z.of_nat j + 1) = start L + Z.of_nat j + 1 /\ u32 b = b /\
  r (dev, start L + Z.of_nat j + 1) = 0 /\ (dev, start L + Z.of_nat j + 1) <> (dev, b).
Proof.
  intros Hj. destruct (homes L !! j) as [b|] eqn:Hb.
  2:{ apply lookup_ge_None in Hb. rewrite homes_length in Hb by done. lia. }
  pose proof (lkey_in_log j b Hb) as Hlk. destruct (hkey_not_log j b Hb) as [Hb0 Hhk].
  exists b. split_and!; auto.
  - by eapply list_elem_of_lookup_2.
  - by apply homes_lookup.
  - apply u32_small. destruct Hlk as [_ Hlk], Hok. simpl in Hlk. lia.
  - apply u32_small. lia.
  - intros E. by rewrite E in Hlk.
Qed.

Lemma log_writes_home n u w j b : homes L !! j = Some b ->
  apply_writes (take n (log_writes dev L u)) w (dev, b) = w (dev, b).
Proof.
  intros Hb. destruct (hkey_not_log j b Hb) as [_ Hhk].
  apply apply_writes_other. intros Hk. apply writes_keys in Hk as (j' & b' & _ & Hj' & E).
  simpl in E. apply Hhk. rewrite E. by eapply lkey_in_log.
Qed.

Lemma home_writes_log n u w k : in_log dev L k ->
  apply_writes (take n (home_writes dev L u)) w k = w k.
Proof.
  intros Hl. apply apply_writes_other. intros Hk. apply writes_keys in Hk as (j' & b' & _ & Hj' & E).
  simpl in E. rewrite E in Hl. by apply (hkey_not_log j' b').
Qed.

Lemma home_writes_log_all u w k : in_log dev L k ->
  apply_writes (home_writes dev L u) w k = w k.
Proof.
  intros Hk. rewrite <- (take_ge (home_writes dev L u) _ (Nat.le_refl _)). by apply home_writes_log.
Qed.

Lemma write_log_spec :
  (forall b, b ∈ homes L -> h (dev, b) = None /\ 0 < r (dev, b) /\ r (dev, b) + 1 < 2 ^ 32) ->
  0 < f ->
  wp (write_log me dev) s (fun _ s' t =>
    disk_writes t = log_writes dev L v /\
    LC ls s' (apply_writes (log_writes dev L v) v) (apply_writes (log_writes dev L v) d) r h f).
Proof.
  intros Hpin Hf. unfold write_log. wp_step. eapply (wp_logget _ _ _ _ _ _ _ H _ L); [done..|].
  eapply wp_mono.
  { apply (wp_for_seq _ (fun j s' t => disk_writes t = take j (log_writes dev L v) /\
      LC ls s' (apply_writes (take j (log_writes dev L v)) v)
         (apply_writes (take j (log_writes dev L v)) d) r h f)); [done|].
    intros j s1 t Hj [Ht H1]. destruct (loop_keys j Hj) as (b & Hb & Hin & Hb' & E1 & E2 & Hrl & Hne).
    destruct (Hpin b Hin) as (Hhb & Hr0 & Hr1).
    eapply wp_mono; [eapply (write_log_block_spec me dev ls L s1 _ _ r h f H1 Hdev HL j b);
      rewrite ?E1, ?E2; auto|].
    rewrite E1, E2, log_writes_home with (1 := Hb). intros [] s2 t2 [Ht2 H2].
    rewrite disk_writes_app, Ht, Ht2. unfold log_writes in *.
    by rewrite (writes_take _ _ _ _ Hb), !apply_writes_app. }
  cbv beta. intros [] s' t Hend. rewrite take_ge in Hend; [by simpl in *|].
  unfold log_writes. rewrite length_imap, homes_length by done. lia.
Qed.

Lemma unpinned_take j b k : homes L !! j = Some b ->
  unpinned dev (take (S j) (homes L)) r k =
  <[(dev, b) := u32 (unpinned dev (take j (homes L)) r (dev, b) - 1)]>
    (unpinned dev (take j (homes L)) r) k.
Proof.
  intros Hb. assert (b ∉ take j (homes L)) as Hn.
  { pose proof (lo_nodup _ Hok) as Hnd. rewrite <- (take_drop_middle _ _ _ Hb) in Hnd.
    apply NoDup_middle in Hnd as [Hnd _]. set_solver. }
  rewrite (take_S_r _ _ _ Hb). unfold unpinned.
  destruct (decide (k = (dev, b))) as [->|Hk]; simpl.
  - rewrite fn_lookup_insert. rewrite bool_decide_eq_true_2 by set_solver.
    by rewrite bool_decide_eq_false_2 by naive_solver.
  - rewrite fn_lookup_insert_ne by done.
    replace (bool_decide (k.1 = dev /\ k.2 ∈ take j (homes L) ++ [b]))
      with (bool_decide (k.1 = dev /\ k.2 ∈ take j (homes L))); [done|].
    apply bool_decide_ext. destruct k as [k1 k2]. simpl in *.
    rewrite elem_of_app, list_elem_of_singleton. naive_solver.
Qed.

Lemma unpinned_home j b : homes L !! j = Some b ->
  unpinned dev (take j (homes L)) r (dev, b) = r (dev, b).
Proof.
  intros Hb. unfold unpinned. rewrite bool_decide_eq_false_2; [done|]. simpl. intros [_ Hn].
  pose proof (lo_nodup _ Hok) as Hnd. rewrite <- (take_drop_middle _ _ _ Hb) in Hnd.
  apply NoDup_middle in Hnd as [Hnd _]. set_solver.
Qed.

Lemma unpinned_log j k : in_log dev L k -> unpinned dev (take j (homes L)) r k = r k.
Proof.
  intros Hk. unfold unpinned. rewrite bool_decide_eq_false_2; [done|]. intros [Hk1 Hk2].
  apply elem_of_take_in, list_elem_of_lookup in Hk2 as (j' & Hj').
  apply (hkey_not_log j' k.2 Hj'). destruct k as [k1 k2]. simpl in *. by subst.
Qed.

Lemma unpinned_idle j : (forall b, b ∈ homes L -> h (dev, b) = None) ->
  idle (unpinned dev (take j (homes L)) r) h.
Proof.
  intros Hpin k. unfold unpinned. case_bool_decide as Hk; [intros _|apply Hidle].
  destruct k as [k1 k2], Hk as [E Hk]. simpl in *. rewrite E. by eapply Hpin, elem_of_take_in.
Qed.

(** Buffers left free by iteration [j]. *)
Definition freed (bs : list Z) : Z :=
  f - count (fun b => r (dev, b) =? 0) bs + count (fun b => r (dev, b) =? 1) bs.

Lemma freed_room j b : homes L !! j = Some b -> count (fun b => r (dev, b) =? 0) (homes L) < f ->
  0 < freed (take j (homes L)) /\ (0 < r (dev, b) \/ 1 < freed (take j (homes L))).
Proof.
  intros Hb Hf. rewrite <- (take_drop_middle _ _ _ Hb), count_app, count_cons in Hf. unfold freed.
  pose proof (count_nonneg (fun b => r (dev, b) =? 1) (take j (homes L))).
  pose proof (count_nonneg (fun b => r (dev, b) =? 0) (drop (S j) (homes L))).
  pose proof (LC_refs _ _ _ _ _ _ _ H (dev, b)).
  destruct (Z.eqb_spec (r (dev, b)) 0); simpl in Hf; lia.
Qed.

Lemma install_trans_spec :
  (forall b, b ∈ homes L -> h (dev, b) = None /\ r (dev, b) + 1 < 2 ^ 32) ->
  0 < f -> count (fun b => r (dev, b) =? 0) (homes L) < f ->
  wp (install_trans me dev) s (fun _ s' t =>
    disk_writes t = home_writes dev L v /\
    LC ls s' (apply_writes (home_writes dev L v) v) (apply_writes (home_writes dev L v) d)
       (unpinned dev (homes L) r) h (freed (homes L))).
Proof.
  intros Hpin Hf0 Hf. unfold install_trans. wp_step. eapply (wp_logget _ _ _ _ _ _ _ H _ L); [done..|].
  eapply wp_mono.
  { apply (wp_for_seq _ (fun j s' t => disk_writes t = take j (home_writes dev L v) /\
      LC ls s' (apply_writes (take j (home_writes dev L v)) v)
         (apply_writes (take j (home_writes dev L v)) d)
         (unpinned dev (take j (homes L)) r) h (freed (take j (homes L))))).
    { split; [done|]. eapply LC_ext; [exact H|done|done| |done|].
      - intros k. unfold unpinned. by rewrite bool_decide_eq_false_2 by set_solver.
      - unfold freed. simpl. lia. }
    intros j s1 t Hj [Ht H1]. destruct (loop_keys j Hj) as (b & Hb & Hin & Hb' & E1 & E2 & Hrl & Hne).
    destruct (Hpin b Hin) as (Hhb & Hr1). destruct (freed_room j b Hb Hf) as [Hf1 Hf2].
    pose proof (unpinned_home j b Hb) as E3.
    eapply wp_mono; [eapply (install_block_spec me dev ls L s1 _ _ _ h _ H1 Hdev HL j b);
      rewrite ?E1, ?E2, ?E3; auto|].
    - apply unpinned_idle. intros ? ?. by apply Hpin.
    - rewrite unpinned_log; [done|]. by eapply lkey_in_log.
    - rewrite E1, E2, home_writes_log by (by eapply lkey_in_log).
      intros [] s2 t2 [Ht2 H2]. rewrite disk_writes_app, Ht, Ht2. unfold home_writes in *.
      rewrite (writes_take _ _ _ _ Hb), !apply_writes_app. split; [done|].
      eapply LC_ext; [exact H2|done|done| |done|].
      + intros k. by rewrite (unpinned_take j b k Hb).
      + rewrite E3. unfold freed. rewrite (take_S_r _ _ _ Hb), !count_app. simpl. lia. }
  cbv beta. intros [] s' t Hend. simpl.
  assert (take (Z.to_nat (lh_n L)) (homes L) = homes L) as E
    by (apply take_ge; rewrite homes_length by done; lia).
  rewrite E, take_ge in Hend; [done|].
  unfold home_writes. rewrite length_imap, homes_length by done. lia.
Qed.

Lemma write_head_spec :
  0 < f ->
  wp (write_head me dev) s (fun _ s' t =>
    disk_writes t = [((dev, start L), hdr L (v (dev, start L)))] /\
    LC ls s' (<[(dev, start L) := hdr L (v (dev, start L))]> v)
       (<[(dev, start L) := hdr L (v (dev, start L))]> d) r h f).
Proof.
  intros Hf. set (k := (dev, start L)).
  assert (r k = 0) as Hr by (apply Hlog; destruct Hok; split; simpl; [done|lia]).
  assert (u32 (start L) = start L) as E1 by (apply u32_small; destruct Hok; lia).
  pose proof (LC_blk_ok _ _ _ _ _ _ _ H k) as Hx.
  unfold write_head. wp_step. eapply (wp_logget _ _ _ _ _ _ _ H _ L); [done..|]. wp_step. rewrite E1.
  eapply (LC_bread me _ _ _ _ _ _ _ H k); [done|by apply Hidle|lia|lia|].
  intros b s1 H1 Hb _ _. wp_step.
  eapply (LC_bupdate _ _ _ _ _ _ _ H1 b k); [done|by fn_simpl; lia|by apply hb_put_n_ok|].
  intros s2 H2 Hk2. wp_step. eapply wp_mono.
  { apply (wp_for_seq _ (fun j s' t => t = [] /\ is_buf (lbio s') b k /\
      LC ls s' (<[k := put_blocks (fun i => lh_block L !!! i) j (hb_put_n (lh_n L) (v k))]> v) d
        (<[k:=r k + 1]> r) (<[k:=Some me]> h) (f - Z.b2z (r k =? 0)))); [by auto|].
    intros j s3 t Hj (-> & Hb3 & H3). destruct (loop_keys j Hj) as (blk & _ & _ & Hblk & _).
    wp_step. eapply (wp_blockget _ _ _ _ _ _ _ H3 dev L j blk); [done..|].
    eapply (LC_bupdate _ _ _ _ _ _ _ H3 b k); [done|by fn_simpl; lia| |].
    - rewrite fn_lookup_insert, <- (list_lookup_total_correct _ _ _ Hblk).
      rewrite <- (put_blocks_S (fun i => lh_block L !!! i)). by apply put_blocks_ok, hb_put_n_ok.
    - intros s4 H4 Hk4. split; [done|]. split; [by auto|]. eapply LC_ext; [exact H4|..]; try done.
      fn_case k.
      by rewrite <- (list_lookup_total_correct _ _ _ Hblk), <- (put_blocks_S (fun i => lh_block L !!! i)). }
  cbv beta. intros [] s3 t (-> & Hb3 & H3). rewrite <- hdr_eq in H3. wp_step.
  eapply (LC_bwrite me _ _ _ _ _ _ _ H3 b k); [done|by fn_simpl|]. intros s4 H4 Hk4.
  eapply (LC_brelse me _ _ _ _ _ _ _ H4 b k); [auto|by fn_simpl|by fn_simpl|]. intros s5 H5 _.
  simpl. rewrite fn_lookup_insert in *. split; [done|].
  eapply LC_ext; [exact H5|done|done|..].
  - fn_case k. by rewrite Hr.
  - fn_case k. by symmetry; apply Hidle.
  - rewrite Hr. fn_simpl. b2z.
Qed.

End Loops.

(** ** commit *)

(** The block writes of [commit], in order: the log, the header that commits
    it, the home locations, the header that erases it. *)
Definition commit_trace (dev : Z) (L : log) (v : Z * Z -> list Z) : list (Z * Z * list Z) :=
  log_writes dev L v ++
  [((dev, start L), hdr L (v (dev, start L)))] ++
  ((fun b => ((dev, b), v (dev, b))) <$> homes L) ++
  [((dev, start L), hdr (set_n 0 L) (hdr L (v (dev, start L))))].

Lemma log_ok_empty L : log_ok L -> log_ok (set_n 0 L).
Proof.
  intros [H1 H2 H3 H4 H5 _ _]. constructor; unfold homes; simpl; try done; try lia;
    [constructor|set_solver].
Qed.

Lemma log_writes_at dev L u w j b : log_ok L -> homes L !! j = Some b ->
  apply_writes (log_writes dev L u) w (dev, start L + Z.of_nat j + 1) = u (dev, b).
Proof.
  intros Hok Hb. apply apply_writes_in.
  - unfold log_writes. rewrite fmap_imap. apply NoDup_alt. intros i1 i2 x H1 H2.
    rewrite list_lookup_imap in H1, H2.
    destruct (homes L !! i1), (homes L !! i2); simplify_eq/=. lia.
  - apply list_elem_of_lookup. exists j. unfold log_writes. by rewrite list_lookup_imap, Hb.
Qed.

Lemma log_writes_hdr dev L u w : apply_writes (log_writes dev L u) w (dev, start L) = w (dev, start L).
Proof.
  apply apply_writes_other. rewrite <- (take_ge (log_writes dev L u) _ (Nat.le_refl _)).
  intros Hk. apply writes_keys in Hk as (j & b & _ & _ & E). simplify_eq/=. lia.
Qed.

Section Commit.
Context (me dev : Z) (ls : list log) (L : log) (s : lstate) (v d : Z * Z -> list Z).
Context (r : Z * Z -> Z) (h : Z * Z -> option Z) (f : Z).
Context (H : LC ls s v d r h f) (Hdev : 0 <= dev) (HL : ls !! Z.to_nat dev = Some L).
Context (Hok : log_ok L) (Hidle : idle r h) (Hlog : forall k, in_log dev L k -> r k = 0).
Context (Hpin : forall b, b ∈ homes L ->
  h (dev, b) = None /\ 0 < r (dev, b) /\ r (dev, b) + 1 < 2 ^ 32).
Context (Hf : 0 < f).

Let hk : Z * Z := (dev, start L).
Let v2 : Z * Z -> list Z := <[hk := hdr L (v hk)]> (apply_writes (log_writes dev L v) v).

Lemma home_writes_eq : home_writes dev L v2 = (fun b => ((dev, b), v (dev, b))) <$> homes L.
Proof.
  unfold home_writes. apply list_eq. intros j. rewrite list_lookup_imap, list_lookup_fmap.
  destruct (homes L !! j) as [b|] eqn:Hb; [|done]. simpl. do 2 f_equal. unfold v2.
  rewrite fn_lookup_insert_ne; [by eapply log_writes_at|]. unfold hk. intros [= E]. lia.
Qed.

Lemma pinned_none : count (fun b => r (dev, b) =? 0) (homes L) = 0.
Proof.
  apply count_none. intros b Hb. destruct (Hpin b Hb) as (_ & ? & _). lia.
Qed.

Lemma commit_spec :
  0 < lh_n L ->
  wp (commit me dev) s (fun _ s' t =>
    disk_writes t = commit_trace dev L v /\
    LC (<[Z.to_nat dev := set_n 0 L]> ls) s'
       (apply_writes (commit_trace dev L v) v) (apply_writes (commit_trace dev L v) d)
       (unpinned dev (homes L) r) h (f + count (fun b => r (dev, b) =? 1) (homes L))).
Proof.
  intros Hn. unfold commit. wp_step. eapply (wp_logget _ _ _ _ _ _ _ H _ L); [done..|].
  replace (0 <? lh_n L) with true by lia. wp_step.
  eapply wp_mono; [by eapply (write_log_spec me dev ls L s v d r h f)|].
  cbv beta. intros [] s1 t1 [Ht1 H1]. wp_step.
  eapply wp_mono; [by eapply (write_head_spec me dev ls L s1 _ _ r h f)|].
  cbv beta. rewrite log_writes_hdr. fold hk v2. intros [] s2 t2 [Ht2 H2]. wp_step.
  eapply wp_mono; [eapply (install_trans_spec me dev ls L s2 v2 _ r h f); try done|].
  { intros b Hb. destruct (Hpin b Hb) as (? & ? & ?). done. }
  { by rewrite pinned_none. }
  cbv beta. unfold freed. rewrite home_writes_eq, pinned_none, Z.sub_0_r. intros [] s3 t3 [Ht3 H3].
  wp_step. eapply (wp_logassign _ _ _ _ _ _ _ H3 dev L); [done..|]. intros s4 H4 _.
  assert (take (length (homes L)) (homes L) = homes L) as Et by (by apply take_ge).
  eapply wp_mono; [eapply (write_head_spec me dev _ (set_n 0 L) s4 _ _ _ h _ H4); try done|].
  - apply list_lookup_insert_eq. by apply lookup_lt_Some in HL.
  - by apply log_ok_empty.
  - rewrite <- Et. apply unpinned_idle; [done|]. intros b Hb. by destruct (Hpin b Hb).
  - intros k Hk. rewrite <- Et. rewrite (unpinned_log dev L r Hok); auto.
  - pose proof (count_nonneg (fun b => r (dev, b) =? 1) (homes L)). lia.
  - cbv beta. intros [] s5 t5 [Ht5 H5]. rewrite !disk_writes_app, Ht1, Ht2, Ht3, Ht5. simpl in *.
    replace (apply_writes _ v2 (dev, start L)) with (hdr L (v hk)) in *.
    + split; [done|]. unfold commit_trace. by rewrite !apply_writes_app.
    + rewrite <- home_writes_eq.
      rewrite (home_writes_log_all dev L Hok) by (destruct Hok; split; simpl; [done|lia]).
      unfold v2. by rewrite fn_lookup_insert.
Qed.

End Commit.

(** ** Recovery *)

(** A header block [x] that describes a transaction of the log [L]. *)
Definition hdr_wf (L : log) (x : list Z) : Prop := log_ok (read_log x L).

Lemma hdr_wf_cap L x : hdr_wf L x -> hb_n x <= Z.of_nat (length (lh_block L)).
Proof.
  intros [_ _ _ Hc Hlen _ _]. simpl in *. rewrite read_blocks_length in Hlen. by rewrite Hlen.
Qed.

Lemma wp_blockassign ls s v d r h f dev L i b Q :
  LC ls s v d r h f -> 0 <= dev -> ls !! Z.to_nat dev = Some L -> (i < length (lh_block L))%nat ->
  (forall s', LC (<[Z.to_nat dev := set_block (<[i:=b]> (lh_block L)) L]> ls) s' v d r h f ->
     lbio s' = lbio s -> Q tt s' []) ->
  wp (blockassign dev i b) s Q.
Proof.
  intros H Hdev HL Hi HQ. unfold blockassign. wp_step. eapply (wp_logget _ _ _ _ _ _ _ H); [done..|].
  replace (i <? length (lh_block L))%nat with true by (symmetry; by apply Nat.ltb_lt).
  by eapply (wp_logassign _ _ _ _ _ _ _ H).
Qed.

Section Recovery.
Context (me dev : Z) (ls : list log) (L : log) (s : lstate) (v d : Z * Z -> list Z).
Context (r : Z * Z -> Z) (h : Z * Z -> option Z) (f : Z).
Context (H : LC ls s v d r h f) (Hdev : 0 <= dev) (HL : ls !! Z.to_nat dev = Some L).

Let hk : Z * Z := (dev, start L).
Let R : log := read_log (v hk) L.
Context (Hwf : hdr_wf L (v hk)) (Hidle : idle r h).
Context (Hlog : forall k, in_log dev L k -> r k = 0).

Lemma read_head_spec :
  0 < f ->
  wp (read_head me dev) s (fun _ s' t => disk_writes t = [] /\
    LC (<[Z.to_nat dev := R]> ls) s' v d r h f).
Proof.
  intros Hf. pose proof (hdr_wf_cap _ _ Hwf) as Hcap.
  assert (r hk = 0) as Hr by (apply Hlog; destruct Hwf; split; simpl in *; [done|lia]).
  assert (u32 (start L) = start L) as E1 by (apply u32_small; destruct Hwf; simpl in *; lia).
  pose proof (lookup_lt_Some _ _ _ HL) as Hlt.
  unfold read_head. wp_step. eapply (wp_logget _ _ _ _ _ _ _ H _ L); [done..|]. wp_step. rewrite E1.
  eapply (LC_bread me _ _ _ _ _ _ _ H hk); [done|by apply Hidle|lia|lia|].
  intros b s1 H1 Hb _ _. wp_step. eapply (LC_bderef _ _ _ _ _ _ _ H1 b hk); [done|].
  intros Ed _ _. rewrite Ed. wp_step. eapply (wp_logassign _ _ _ _ _ _ _ H1 dev L); [done..|].
  intros s2 H2 Es2. wp_step. eapply wp_mono.
  { apply (wp_for_seq _ (fun j s' t => t = [] /\ is_buf (lbio s') b hk /\
      LC (<[Z.to_nat dev := set_block (read_blocks (v hk) j (lh_block L)) (set_n (hb_n (v hk)) L)]> ls)
        s' v d (<[hk:=r hk + 1]> r) (<[hk:=Some me]> h) (f - Z.b2z (r hk =? 0)))).
    { split; [done|]. rewrite Es2. done. }
    intros j s3 t Hj (-> & Hb3 & H3). wp_step. eapply (LC_bderef _ _ _ _ _ _ _ H3 b hk); [done|].
    intros Ed3 _ _. rewrite Ed3.
    eapply (wp_blockassign _ _ _ _ _ _ _ _ _ _ _ _ H3); [done|by apply list_lookup_insert_eq| |].
    - simpl. rewrite read_blocks_length. lia.
    - intros s4 H4 Es4. rewrite Es4. split; [done|]. split; [done|].
      rewrite list_insert_insert_eq in H4. simpl in H4. by rewrite read_blocks_S. }
  cbv beta. intros [] s3 t (-> & Hb3 & H3).
  eapply (LC_brelse me _ _ _ _ _ _ _ H3 b hk); [done|by fn_simpl|by fn_simpl; intros _; apply (LC_clean _ _ _ _ _ _ _ H)|].
  intros s4 H4 _. split; [done|]. eapply LC_ext; [exact H4|done|done|..].
  - fn_case hk. by rewrite Hr.
  - fn_case hk. by symmetry; apply Hidle.
  - rewrite fn_lookup_insert, Hr. simpl. lia.
Qed.

(** The block writes of [recover_from_log]. *)
Definition recover_trace : list (Z * Z * list Z) :=
  home_writes dev R v ++ [(hk, hdr (set_n 0 R) (v hk))].

Lemma recover_spec :
  (forall b, b ∈ homes R -> h (dev, b) = None /\ r (dev, b) + 1 < 2 ^ 32) ->
  count (fun b => r (dev, b) =? 0) (homes R) < f -> 0 < f ->
  wp (recover_from_log me dev) s (fun _ s' t => disk_writes t = recover_trace /\
    LC (<[Z.to_nat dev := set_n 0 R]> ls) s'
       (apply_writes recover_trace v) (apply_writes recover_trace d)
       (unpinned dev (homes R) r) h (freed dev r f (homes R))).
Proof.
  intros Hpin Hf Hf0. pose proof (lookup_lt_Some _ _ _ HL) as Hlt.
  assert (forall k, in_log dev R k -> r k = 0) as HlogR by done.
  unfold recover_from_log. wp_step. eapply wp_mono; [by apply read_head_spec|].
  cbv beta. intros [] s1 t1 [Ht1 H1]. wp_step.
  eapply wp_mono; [eapply (install_trans_spec me dev _ R s1 v d r h f H1); try done;
    by apply list_lookup_insert_eq|].
  cbv beta. intros [] s2 t2 [Ht2 H2]. wp_step.
  eapply (wp_logassign _ _ _ _ _ _ _ H2 dev R); [done|by apply list_lookup_insert_eq|].
  rewrite list_insert_insert_eq. intros s3 H3 _.
  assert (take (length (homes R)) (homes R) = homes R) as Et by (by apply take_ge).
  assert (apply_writes (home_writes dev R v) v hk = v hk) as Ehk.
  { apply (home_writes_log_all dev R Hwf). destruct Hwf. split; simpl in *; [done|lia]. }
  eapply wp_mono; [eapply (write_head_spec me dev _ (set_n 0 R) s3 _ _ _ h _ H3); try done|].
  - by apply list_lookup_insert_eq.
  - by apply log_ok_empty.
  - rewrite <- Et. apply unpinned_idle; [done|]. intros b Hb. by destruct (Hpin b Hb).
  - intros k Hk. rewrite <- Et. rewrite (unpinned_log dev R r Hwf); auto.
  - unfold freed. pose proof (count_nonneg (fun b => r (dev, b) =? 1) (homes R)). lia.
  - cbv beta. intros [] s4 t4 [Ht4 H4]. rewrite !disk_writes_app, Ht1, Ht2, Ht4. simpl in *.
    fold hk in H4 |- *. rewrite Ehk in *.
    split; [done|]. unfold recover_trace. by rewrite !apply_writes_app.
Qed.

End Recovery.
