(* ===== verification/LogCrash.v ===== *)
(** * Crash safety of the log (kernel/log.c)

    A crash keeps the disk and loses the rest, so it cuts the sequence of
    block writes short at any point; so may a crash during the recovery that
    follows.  The content of a disk with a log, [recovered], does not change
    while recovery runs, and changes at one block write of a commit. *)

From Stdlib Require Import ZArith Lia.
From stdpp Require Import base gmap list strings functions.
From S2P Require Import Prelude Sleeplock Bio BioFacts Log LogFacts.
Local Open Scope xv6_scope.

Lemma prefix_app_cases {A} (p l1 l2 : list A) :
  p `prefix_of` l1 ++ l2 -> p `prefix_of` l1 \/ exists q, p = l1 ++ q /\ q `prefix_of` l2.
Proof.
  revert p. induction l1 as [|x l1 IH]; intros p Hp; simpl in *; [by right; exists p|].
  destruct p as [|y p]; [left; apply prefix_nil|].
  apply prefix_cons_inv_1 in Hp as E. apply prefix_cons_inv_2 in Hp. subst y.
  destruct (IH p Hp) as [H|(q & -> & Hq)]; [left; by apply prefix_cons|right; by exists q].
Qed.

Lemma prefix_take_eq {A} (p l : list A) : p `prefix_of` l -> p = take (length p) l.
Proof. intros [q ->]. by rewrite take_app_length. Qed.

Section Content.
Context (dev : Z) (G : log).
Let hk : Z * Z := (dev, start G).

(** The log as recovery would read it off disk [D]. *)
Definition disk_log (D : Z * Z -> list Z) : log := read_log (D (dev, start G)) G.

(** The content of disk [D] once its log is installed. *)
Definition recovered (D : Z * Z -> list Z) : Z * Z -> list Z :=
  apply_writes (home_writes dev (disk_log D) D) D.

(** The writes of a recovery that starts from [D]. *)
Definition recovery (D : Z * Z -> list Z) : list (Z * Z * list Z) :=
  home_writes dev (disk_log D) D ++ [(hk, hdr (set_n 0 (disk_log D)) (D hk))].

(** A disk whose log can be installed with the buffers of a fresh cache. *)
Record disk_ok (D : Z * Z -> list Z) : Prop := {
  do_hdr : log_ok (disk_log D);
  do_room : hb_n (D hk) < Z.of_nat NBUF;
  do_blk : forall k, blk_ok (D k) }.

(** Equality outside the log. *)
Definition same (D D' : Z * Z -> list Z) : Prop := forall k, ~ in_log dev G k -> D k = D' k.

Lemma disk_log_in_log D k : in_log dev (disk_log D) k <-> in_log dev G k.
Proof. done. Qed.

Lemma home_writes_ext L D D' :
  log_ok L -> (forall k, in_log dev L k -> D k = D' k) -> home_writes dev L D = home_writes dev L D'.
Proof.
  intros Hok Hk. unfold home_writes. apply list_eq. intros j. rewrite !list_lookup_imap.
  destruct (homes L !! j) as [b|] eqn:Hb; [|done]. simpl. do 2 f_equal.
  apply Hk. by eapply lkey_in_log.
Qed.

Lemma home_keys_nodup L D : log_ok L -> NoDup (home_writes dev L D).*1.
Proof.
  intros Hok. apply NoDup_alt. intros i1 i2 x H1 H2. unfold home_writes in *.
  rewrite fmap_imap, list_lookup_imap in H1, H2.
  destruct (homes L !! i1) eqn:E1, (homes L !! i2) eqn:E2; simplify_eq/=.
  by eapply NoDup_lookup; [apply (lo_nodup _ Hok)|..].
Qed.

(** Installing again after any part of an installation gives the same. *)
Lemma reinstall ws n D k : NoDup ws.*1 ->
  apply_writes ws (apply_writes (take n ws) D) k = apply_writes ws D k.
Proof.
  intros Hnd. destruct (decide (k ∈ ws.*1)) as [Hk|Hk].
  - apply list_elem_of_fmap in Hk as ([k' x] & -> & Hw). simpl.
    by rewrite !(apply_writes_in ws _ k' x).
  - rewrite !(apply_writes_other ws _ k Hk). apply apply_writes_other. intros Hk'. apply Hk.
    rewrite fmap_take in Hk'. by apply elem_of_take_in in Hk'.
Qed.

Lemma hk_in_log D : disk_ok D -> in_log dev G hk.
Proof. intros [[] _ _]. split; simpl in *; [done|lia]. Qed.

Lemma blk_ok_writes ws D :
  Forall (fun w => blk_ok w.2) ws -> (forall k, blk_ok (D k)) -> forall k, blk_ok (apply_writes ws D k).
Proof.
  intros Hws. revert D. induction Hws as [|w ws Hw _ IH]; intros D HD k; [apply HD|].
  apply IH. intros k'. destruct (decide (k' = w.1)) as [->|]; fn_simpl; auto.
Qed.

Lemma home_writes_blk_ok L D : (forall k, blk_ok (D k)) ->
  Forall (fun w => blk_ok w.2) (home_writes dev L D).
Proof.
  intros HD. apply Forall_lookup. intros j w Hw. unfold home_writes in Hw.
  rewrite list_lookup_imap in Hw. destruct (homes L !! j); simplify_eq/=. apply HD.
Qed.

(** An installation cut short leaves the log and the content as they were. *)
Lemma partial_install D n : disk_ok D ->
  let D' := apply_writes (take n (home_writes dev (disk_log D) D)) D in
  disk_ok D' /\ disk_log D' = disk_log D /\ recovery D' = recovery D /\
  forall k, recovered D' k = recovered D k.
Proof.
  intros HD D'. pose proof (hk_in_log D HD) as Hhk. destruct HD as [Hok Hroom Hblk].
  assert (forall k, in_log dev G k -> D' k = D k) as Hlog
    by (intros k Hk; by apply (home_writes_log dev _ Hok)).
  assert (disk_log D' = disk_log D) as El by (unfold disk_log; by rewrite Hlog).
  assert (home_writes dev (disk_log D') D' = home_writes dev (disk_log D) D) as Ew
    by (rewrite El; by apply home_writes_ext).
  split_and!.
  - constructor; [by rewrite El|by rewrite Hlog|].
    apply blk_ok_writes; [apply Forall_take, home_writes_blk_ok|]; done.
  - done.
  - unfold recovery. by rewrite Ew, El, Hlog.
  - intros k. unfold recovered. rewrite Ew. apply reinstall. by apply home_keys_nodup.
Qed.

(** Erasing the log of an installed disk leaves the content as it was. *)
Lemma hdr_empty R x : blk_ok x -> hb_n (hdr (set_n 0 R) x) = 0.
Proof. intros Hx. change (hdr (set_n 0 R) x) with (hb_put_n 0 x). by apply hb_n_put. Qed.

Lemma disk_log_empty D : hb_n (D hk) = 0 -> recovered D = D.
Proof.
  intros E. unfold recovered, home_writes, homes, disk_log. simpl. fold hk. by rewrite E.
Qed.

Lemma disk_ok_empty D : log_ok (disk_log D) -> forall D', hb_n (D' hk) = 0 ->
  (forall k, blk_ok (D' k)) -> disk_ok D'.
Proof.
  intros [H1 H2 H3 H4 H5 _ _] D' E Hblk. unfold disk_log in *. simpl in *.
  rewrite read_blocks_length in H5.
  constructor; [|by rewrite E; unfold NBUF|done].
  constructor; unfold disk_log, homes; simpl; fold hk; rewrite ?E; simpl; try done; try lia;
    try (unfold LOGSIZE; lia); [constructor|set_solver].
Qed.

Lemma full_recovery D : disk_ok D ->
  let D' := apply_writes (recovery D) D in
  disk_ok D' /\ hb_n (D' hk) = 0 /\ same (recovered D') (recovered D) /\ same D' (recovered D).
Proof.
  intros HD D'. pose proof (hk_in_log D HD) as Hhk. destruct HD as [Hok Hroom Hblk].
  assert (D' hk = hdr (set_n 0 (disk_log D)) (D hk)) as Ehk.
  { unfold D', recovery. rewrite apply_writes_app. simpl. by fn_simpl. }
  assert (hb_n (D' hk) = 0) as E0 by (rewrite Ehk; by apply hdr_empty).
  assert (same D' (recovered D)) as Hsame.
  { intros k Hk. unfold D', recovery. rewrite apply_writes_app. simpl.
    rewrite fn_lookup_insert_ne; [done|]. by intros <-. }
  split_and!; [|done| |done].
  - eapply disk_ok_empty; [done|done|]. apply blk_ok_writes; [|done].
    apply Forall_app. split; [by apply home_writes_blk_ok|]. constructor; [|constructor].
    by apply hdr_ok.
  - by rewrite disk_log_empty.
Qed.

(** Recovery cut short at any write. *)
Lemma partial_recovery D p : disk_ok D -> p `prefix_of` recovery D ->
  disk_ok (apply_writes p D) /\ same (recovered (apply_writes p D)) (recovered D).
Proof.
  intros HD Hp. apply prefix_app_cases in Hp as [Hp|(q & -> & Hq)].
  - apply prefix_take_eq in Hp. rewrite Hp.
    destruct (partial_install D (length p) HD) as (? & _ & _ & Hr). split; [done|].
    intros k _. apply Hr.
  - destruct q as [|w q].
    + rewrite app_nil_r. destruct (partial_install D (length (home_writes dev (disk_log D) D)) HD)
        as (? & _ & _ & Hr). rewrite take_ge in * by done. split; [done|]. intros k _. apply Hr.
    + apply prefix_cons_inv_1 in Hq as E. apply prefix_cons_inv_2 in Hq.
      apply prefix_nil_inv in Hq. subst. destruct (full_recovery D HD) as (? & _ & ? & _). done.
Qed.

End Content.

(** ** The writes of a commit *)

Section Atomic.
Context (dev : Z) (G L : log) (D v : Z * Z -> list Z).
Let hk : Z * Z := (dev, start G).
Context (Hst : start L = start G) (Hsz : size L = size G).
Context (Hok : log_ok L) (Hroom : lh_n L < Z.of_nat NBUF).
Context (HD : disk_ok dev G D) (Hclear : hb_n (D hk) = 0) (Hvhk : v hk = D hk).
Context (Hvblk : forall k, blk_ok (v k)).
Context (Hclean : forall k, ~ in_log dev G k -> ~ (k.1 = dev /\ k.2 ∈ homes L) -> v k = D k).

Lemma in_log_L k : in_log dev L k <-> in_log dev G k.
Proof. unfold in_log. by rewrite Hst, Hsz. Qed.

Lemma log_writes_keys k : k ∈ (log_writes dev L v).*1 -> in_log dev G k /\ k <> hk.
Proof.
  intros Hk. rewrite <- (take_ge (log_writes dev L v) _ (Nat.le_refl _)) in Hk.
  apply writes_keys in Hk as (j & b & _ & Hb & ->). simpl. split.
  - apply in_log_L. by eapply lkey_in_log.
  - unfold hk. rewrite Hst. intros [= E]. lia.
Qed.

(** Before the header is written, the content is the old one. *)
Lemma before_commit p : p `prefix_of` log_writes dev L v ->
  disk_ok dev G (apply_writes p D) /\ same dev G (recovered dev G (apply_writes p D)) D.
Proof.
  intros Hp. pose proof (prefix_take_eq _ _ Hp) as Ep.
  assert (forall k, k ∈ p.*1 -> in_log dev G k /\ k <> hk) as Hk.
  { intros k Hk. apply log_writes_keys. rewrite Ep, fmap_take in Hk. by apply elem_of_take_in in Hk. }
  assert (apply_writes p D hk = D hk) as E.
  { apply apply_writes_other. intros H. by apply Hk in H as [_ ?]. }
  split.
  - eapply disk_ok_empty; [apply HD|by fold hk; rewrite E|]. apply blk_ok_writes; [|apply HD].
    rewrite Ep. apply Forall_take, Forall_lookup. intros j w Hw. unfold log_writes in Hw.
    rewrite list_lookup_imap in Hw. destruct (homes L !! j); simplify_eq/=. apply Hvblk.
  - rewrite disk_log_empty by (fold hk; by rewrite E). intros k Hk'.
    apply apply_writes_other. intros H. by apply Hk in H as [? _].
Qed.

(** The header is the commit point: from then on the content is the new one. *)
Let D2 : Z * Z -> list Z := <[hk := hdr L (v hk)]> (apply_writes (log_writes dev L v) D).

Lemma D2_homes : homes (disk_log dev G D2) = homes L.
Proof.
  unfold disk_log, D2. fold hk. rewrite fn_lookup_insert, read_log_homes, hb_homes_hdr; try done.
  rewrite hdr_n by done. pose proof (lo_len _ (do_hdr _ _ _ HD)) as E. simpl in E.
  rewrite read_blocks_length in E. rewrite E. apply Hok.
Qed.

Lemma D2_log_ok : log_ok (disk_log dev G D2).
Proof.
  pose proof (do_hdr _ _ _ HD) as [H1 H2 _ _ H5 _ _]. pose proof Hok as [_ _ H3 H4 _ H6 H7].
  simpl in *. rewrite read_blocks_length in H5.
  assert (hb_n (D2 hk) = lh_n L) as En by (unfold D2; rewrite fn_lookup_insert; by apply hdr_n).
  constructor; rewrite ?D2_homes; simpl; fold hk; rewrite ?En, ?read_blocks_length; try done.
  - by rewrite <- Hsz.
  - by rewrite <- Hsz, <- Hst.
Qed.

Lemma D2_recovery :
  recovery dev G D2 = ((fun b => ((dev, b), v (dev, b))) <$> homes L) ++
                      [(hk, hdr (set_n 0 L) (hdr L (v hk)))].
Proof.
  unfold recovery. fold hk. f_equal.
  - unfold home_writes. rewrite D2_homes. apply list_eq. intros j.
    rewrite list_lookup_imap, list_lookup_fmap.
    destruct (homes L !! j) as [b|] eqn:Hb; [|done]. simpl. do 2 f_equal. unfold D2.
    rewrite fn_lookup_insert_ne by (unfold hk; intros [= E]; lia).
    rewrite <- Hst. by eapply log_writes_at.
  - unfold D2. rewrite fn_lookup_insert. done.
Qed.

Lemma D2_ok : disk_ok dev G D2.
Proof.
  constructor; [apply D2_log_ok| |].
  - unfold D2. fold hk. rewrite fn_lookup_insert, hdr_n; done.
  - intros k. unfold D2. destruct (decide (k = hk)) as [->|]; fn_simpl; [by apply hdr_ok|].
    destruct (before_commit _ (reflexivity (log_writes dev L v))) as [Hb _]. apply Hb.
Qed.

Lemma D2_recovered : same dev G (recovered dev G D2) v.
Proof.
  intros k Hk. assert (k <> hk) as Hne by (intros ->; by apply Hk, (hk_in_log _ _ _ HD)).
  pose proof D2_recovery as E. unfold recovery in E. apply app_inj_tail in E as [E _].
  unfold recovered. rewrite E.
  destruct (decide (k.1 = dev /\ k.2 ∈ homes L)) as [[E1 Hin]|Hn].
  - destruct k as [k1 k2]. simpl in *. subst k1. apply apply_writes_in.
    + rewrite <- list_fmap_compose. apply NoDup_fmap_2; [by intros ? ? [=]|apply Hok].
    + apply (list_elem_of_fmap_2 (fun b => ((dev, b), v (dev, b)))). done.
  - rewrite apply_writes_other.
    + unfold D2. rewrite fn_lookup_insert_ne by done. rewrite apply_writes_other; [by symmetry; apply Hclean|].
      intros H. by apply log_writes_keys in H as [? _].
    + rewrite <- list_fmap_compose. intros H. apply Hn. apply list_elem_of_fmap in H as (b & -> & Hb). done.
Qed.

Lemma commit_prefix p : p `prefix_of` commit_trace dev L v ->
  disk_ok dev G (apply_writes p D) /\
  (same dev G (recovered dev G (apply_writes p D)) D \/
   same dev G (recovered dev G (apply_writes p D)) v).
Proof.
  unfold commit_trace. rewrite Hst. fold hk. intros Hp.
  apply prefix_app_cases in Hp as [Hp|(q & -> & Hq)].
  { destruct (before_commit p Hp). auto. }
  destruct q as [|w q].
  { rewrite app_nil_r. destruct (before_commit (log_writes dev L v)); auto. }
  simpl in Hq. pose proof (prefix_cons_inv_1 _ _ _ _ Hq) as ->. apply prefix_cons_inv_2 in Hq.
  rewrite <- D2_recovery in Hq. rewrite apply_writes_app.
  destruct (partial_recovery dev G D2 q D2_ok Hq) as [H1 H2].
  split; [exact H1|]. right. intros k Hk. etransitivity; [by apply H2|by apply D2_recovered].
Qed.

(** Once all of them are on disk the log is empty and the content in place. *)
Lemma commit_complete :
  let D' := apply_writes (commit_trace dev L v) D in
  disk_ok dev G D' /\ hb_n (D' hk) = 0 /\ same dev G D' v.
Proof.
  unfold commit_trace. rewrite Hst. fold hk. rewrite apply_writes_app. simpl. fold D2.
  rewrite <- D2_recovery. destruct (full_recovery dev G D2 D2_ok) as (H1 & H2 & _ & H4).
  split_and!; [done|done|]. intros k Hk. etransitivity; [by apply H4|by apply D2_recovered].
Qed.

End Atomic.

(** ** Runs, crashes and reboots *)

(** The disk after some block writes. *)
Definition disk_after (p : list (Z * Z * list Z)) (dk : gmap (Z * Z) (list Z)) :
    gmap (Z * Z) (list Z) :=
  foldl (fun dk w => <[w.1 := w.2]> dk) dk p.

Lemma disk_after_block p dk k : disk_block (disk_after p dk) k = apply_writes p (disk_block dk) k.
Proof.
  induction p as [|w p IH] using rev_ind; [done|]. unfold disk_after, apply_writes in *.
  rewrite !foldl_app. simpl. unfold disk_block at 1.
  destruct (decide (k = w.1)) as [->|Hk]; fn_simpl; [by rewrite lookup_insert_eq|].
  by rewrite lookup_insert_ne.
Qed.

(** The kernel after [binit], before [initlog]. *)
Definition boot (dk : gmap (Z * Z) (list Z)) : lstate :=
  LState (BState bcache1 dk) (replicate NDISK log0).

(** Where the superblock puts the log. *)
Definition geometry (dev : Z) (sb : superblock) : log :=
  set_geometry (i32 (sb_logstart sb)) (i32 (sb_nlog sb)) dev log0.

(** Reboots, each of them interrupted by a crash at some write of recovery. *)
Inductive reboots (me dev : Z) (sb : superblock) :
    gmap (Z * Z) (list Z) -> gmap (Z * Z) (list Z) -> Prop :=
| reboots_refl dk : reboots me dev sb dk dk
| reboots_crash dk dk' s t p :
    reboots me dev sb dk dk' -> initlog me dev sb (boot dk') = Ok tt s t ->
    p `prefix_of` disk_writes t -> reboots me dev sb dk (disk_after p dk').

Lemma disk_ok_ext dev G D D' : (forall k, D k = D' k) -> disk_ok dev G D -> disk_ok dev G D'.
Proof.
  intros E [H1 H2 H3]. constructor; unfold disk_log in *.
  - by rewrite <- E.
  - by rewrite <- E.
  - intros k. by rewrite <- E.
Qed.

Lemma recovered_ext dev G D D' :
  (forall k, D k = D' k) -> forall k, recovered dev G D k = recovered dev G D' k.
Proof.
  intros E k. unfold recovered. unfold disk_log. rewrite (E (dev, start G)).
  replace (home_writes dev _ D) with (home_writes dev (read_log (D' (dev, start G)) G) D').
  - by apply apply_writes_ext.
  - unfold home_writes. apply imap_ext. intros j b _. by rewrite E.
Qed.

Section Boot.
Context (me dev : Z) (sb : superblock) (Hdev : 0 <= dev < Z.of_nat NDISK).
Let G : log := geometry dev sb.

Lemma boot_LC dk : (forall k, blk_ok (disk_block dk k)) ->
  LC (replicate NDISK log0) (boot dk) (disk_block dk) (disk_block dk) (fun _ => 0) (fun _ => None)
     (Z.of_nat NBUF).
Proof. intros H. split; [done|]. by apply binit_BC. Qed.

Lemma initlog_spec dk :
  disk_ok dev G (disk_block dk) ->
  wp (initlog me dev sb) (boot dk) (fun _ s t =>
    disk_writes t = recovery dev G (disk_block dk) /\
    LC (<[Z.to_nat dev := set_n 0 (disk_log dev G (disk_block dk))]> (replicate NDISK log0)) s
       (apply_writes (recovery dev G (disk_block dk)) (disk_block dk))
       (apply_writes (recovery dev G (disk_block dk)) (disk_block dk))
       (unpinned dev (homes (disk_log dev G (disk_block dk))) (fun _ => 0)) (fun _ => None)
       (Z.of_nat NBUF - hb_n (disk_block dk (dev, start G)))).
Proof.
  intros [Hok Hroom Hblk]. set (D := disk_block dk) in *. pose proof (boot_LC dk Hblk) as HB. fold D in HB.
  assert (Z.to_nat dev < NDISK)%nat as Hlt by lia.
  unfold initlog. change (BSIZE <=? 4 + 4 * LOGSIZE)%nat with false. cbv beta iota. wp_step.
  eapply (wp_logassign _ _ _ _ _ _ _ HB dev log0); [lia|by apply lookup_replicate_2|]. fold (geometry dev sb) G.
  intros s1 H1 _.
  assert (<[Z.to_nat dev:=G]> (replicate NDISK log0) !! Z.to_nat dev = Some G) as HG
    by (apply list_lookup_insert_eq; by rewrite length_replicate).
  assert (Z.of_nat (length (homes (disk_log dev G D))) = hb_n (D (dev, start G))) as En.
  { rewrite homes_length by done. simpl. destruct Hok as [_ _ Hn _ _ _ _]. simpl in Hn. lia. }
  assert (count (fun _ : Z => 0 =? 0) (homes (disk_log dev G D)) = hb_n (D (dev, start G))) as Ec
    by (rewrite <- En; by apply count_all).
  eapply wp_mono; [eapply (recover_spec me dev _ G s1 D D _ _ _ H1); try done; [lia|..]|].
  - cbv beta. unfold disk_log in Ec. by rewrite Ec.
  - cbv beta. rewrite list_insert_insert_eq. intros [] s2 t2 [Ht2 H2]. split; [done|].
    eapply LC_ext; [exact H2|done..|]. unfold freed, disk_log in *. rewrite Ec.
    rewrite (count_none (fun b : Z => 0 =? 1)) by done. unfold D. lia.
Qed.

(** The content survives any number of interrupted reboots. *)
Lemma reboots_content dk dk' :
  reboots me dev sb dk dk' -> disk_ok dev G (disk_block dk) ->
  disk_ok dev G (disk_block dk') /\
  same dev G (recovered dev G (disk_block dk')) (recovered dev G (disk_block dk)).
Proof.
  induction 1 as [dk|dk dk' s t p _ IH Hrun Hp]; intros Hdk; [done|].
  destruct (IH Hdk) as [Hok Hsame]. pose proof (wp_Ok _ _ _ _ _ _ (initlog_spec dk' Hok) Hrun) as [Ht _].
  rewrite Ht in Hp. destruct (partial_recovery dev G _ p Hok Hp) as [H1 H2].
  split.
  - eapply disk_ok_ext; [|exact H1]. intros k. by rewrite disk_after_block.
  - intros k Hk. rewrite <- Hsame, <- H2 by done. apply recovered_ext. intros k'. apply disk_after_block.
Qed.

(** A reboot that completes puts the content in place. *)
Lemma initlog_content dk : disk_ok dev G (disk_block dk) ->
  wp (initlog me dev sb) (boot dk) (fun _ s _ =>
    same dev G (disk_block (disks (lbio s))) (recovered dev G (disk_block dk))).
Proof.
  intros Hok. eapply wp_mono; [by apply initlog_spec|]. cbv beta.
  intros [] s t (_ & _ & [l HB]) k Hk. rewrite (bc_disk _ _ _ _ _ _ _ HB).
  by apply (full_recovery dev G _ Hok).
Qed.

(** The end of a sequence of reboots, from a disk with contents [D]. *)
Lemma reboot_recovers D dk0 dk :
  (forall k, D k = disk_block dk0 k) -> disk_ok dev G D -> reboots me dev sb dk0 dk ->
  exists s t, initlog me dev sb (boot dk) = Ok tt s t /\
    same dev G (disk_block (disks (lbio s))) (recovered dev G D).
Proof.
  intros E Hok Hre. destruct (reboots_content _ _ Hre) as [Hok' Hsame]; [by eapply disk_ok_ext|].
  destruct (wp_run _ _ _ (initlog_content dk Hok')) as ([] & s & t & Hrun & H).
  exists s, t. split; [done|]. intros k Hk. rewrite H, Hsame by done. symmetry. by apply recovered_ext.
Qed.

End Boot.
