(* ===== verification/LogTxn.v ===== *)
(** * Transactions (kernel/log.c)

    What the file system relies on: reading and changing blocks inside a
    transaction, and the end of the transaction.  The state is described by
    the log in memory, the current and the on-disk contents of the blocks and
    the list of blocks the running process has locked. *)

From Stdlib Require Import ZArith Lia.
From stdpp Require Import base gmap list strings functions.
From S2P Require Import Prelude Sleeplock Bio BioFacts Log LogFacts LogCrash.
Local Open Scope xv6_scope.

(** The blocks of the transaction. *)
Definition home (dev : Z) (L : log) (k : Z * Z) : Prop := k.1 = dev /\ k.2 ∈ homes L.

#[global] Instance home_dec dev L k : Decision (home dev L k).
Proof. unfold home. apply _. Defined.

(** Reference counts, locks and free buffers, when [me] has the blocks [hs]
    locked and nobody else uses the cache. *)
Definition refs (dev : Z) (L : log) (hs : list (Z * Z)) (k : Z * Z) : Z :=
  Z.b2z (bool_decide (home dev L k)) + Z.b2z (bool_decide (k ∈ hs)).
Definition holds (me : Z) (hs : list (Z * Z)) (k : Z * Z) : option Z :=
  if bool_decide (k ∈ hs) then Some me else None.
Definition free (dev : Z) (L : log) (hs : list (Z * Z)) : Z :=
  Z.of_nat NBUF - lh_n L - count (fun k => negb (bool_decide (home dev L k))) hs.

(** A transaction in progress.  The blocks of the transaction are pinned in
    the cache; every block that is neither one of them nor locked agrees with
    the disk; the log on disk is empty. *)
Record txn (me dev : Z) (sb : superblock) (s : lstate) (L : log) (v d : Z * Z -> list Z)
    (hs : list (Z * Z)) : Prop := {
  tx_dev : 0 <= dev < Z.of_nat NDISK;
  tx_lc : LC (logs s) s v d (refs dev L hs) (holds me hs) (free dev L hs);
  tx_log : logs s !! Z.to_nat dev = Some L;
  tx_start : start L = i32 (sb_logstart sb);
  tx_size : size L = i32 (sb_nlog sb);
  tx_ok : log_ok L;
  tx_room : lh_n L < Z.of_nat NBUF;
  tx_held : NoDup hs;
  tx_region : forall k, k ∈ hs -> ~ in_log dev L k;
  tx_clean : forall k, ~ in_log dev L k -> ~ home dev L k -> k ∉ hs -> v k = d k;
  tx_disk : disk_ok dev (geometry dev sb) d;
  tx_clear : hb_n (d (dev, start L)) = 0 }.

(** The log with block [b] added to the transaction. *)
Definition log_add (b : Z) (L : log) : log :=
  if bool_decide (b ∈ homes L) then L
  else set_n (lh_n L + 1) (set_block (<[Z.to_nat (lh_n L) := b]> (lh_block L)) L).

Lemma home_not_log dev L k : log_ok L -> home dev L k -> ~ in_log dev L k.
Proof. intros Hok [_ Hk] [_ Hl]. by apply (lo_home _ Hok) in Hk as [_ ?]. Qed.

Lemma log_add_homes b L : log_ok L -> lh_n L < Z.of_nat LOGSIZE -> b ∉ homes L ->
  homes (log_add b L) = homes L ++ [b].
Proof.
  intros [_ _ Hn _ Hlen _ _] Hc Hb. unfold log_add. rewrite bool_decide_eq_false_2 by done.
  unfold homes. simpl. replace (Z.to_nat (lh_n L + 1)) with (S (Z.to_nat (lh_n L))) by lia.
  erewrite take_S_r by (apply list_lookup_insert_eq; lia). by rewrite take_insert_ge by lia.
Qed.

Lemma log_add_home dev b L k : log_ok L -> lh_n L < Z.of_nat LOGSIZE ->
  home dev (log_add b L) k <-> home dev L k \/ k = (dev, b).
Proof.
  intros Hok Hc. destruct k as [k1 k2]. unfold home. simpl.
  destruct (decide (b ∈ homes L)) as [Hb|Hb].
  - unfold log_add. rewrite bool_decide_eq_true_2 by done. naive_solver.
  - rewrite log_add_homes by done. rewrite elem_of_app, list_elem_of_singleton. naive_solver.
Qed.

Lemma log_add_ok b L :
  log_ok L -> lh_n L < Z.of_nat LOGSIZE -> lh_n L + 1 < size L ->
  0 <= b < 2 ^ 31 -> ~ start L <= b < start L + size L -> log_ok (log_add b L).
Proof.
  intros Hok Hc Hs Hb Hl. destruct (decide (b ∈ homes L)) as [Hin|Hin].
  { unfold log_add. by rewrite bool_decide_eq_true_2. }
  pose proof (log_add_homes b L Hok Hc Hin) as Eh. destruct Hok as [H1 H2 H3 H4 H5 H6 H7].
  constructor; rewrite ?Eh; unfold log_add; rewrite ?bool_decide_eq_false_2 by done; simpl; try done; try lia.
  - by len.
  - apply list.NoDup_app. split_and!; [done| |apply NoDup_singleton].
    intros x Hx ->%list_elem_of_singleton. done.
  - intros x Hx. apply elem_of_app in Hx as [Hx| ->%list_elem_of_singleton]; auto.
Qed.

Lemma log_add_geom b L :
  start (log_add b L) = start L /\ size (log_add b L) = size L /\
  outstanding (log_add b L) = outstanding L /\ committing (log_add b L) = committing L.
Proof. unfold log_add. by case_bool_decide. Qed.

Lemma in_cons_other {A} (k k' : A) hs : k' <> k -> k' ∈ k :: hs <-> k' ∈ hs.
Proof. intros Hk. rewrite elem_of_cons. naive_solver. Qed.

Lemma refs_cons dev L k hs k' : k ∉ hs ->
  refs dev L (k :: hs) k' = <[k := refs dev L hs k + 1]> (refs dev L hs) k'.
Proof.
  intros Hk. destruct (decide (k' = k)) as [->|Hne]; fn_simpl; unfold refs.
  - rewrite (bool_decide_eq_false_2 (k ∈ hs)), (bool_decide_eq_true_2 (k ∈ k :: hs)) by (done || by left).
    simpl. lia.
  - by rewrite (bool_decide_ext _ _ (in_cons_other k k' hs Hne)).
Qed.

Lemma holds_cons me k hs k' : holds me (k :: hs) k' = <[k := Some me]> (holds me hs) k'.
Proof.
  destruct (decide (k' = k)) as [->|Hne]; fn_simpl; unfold holds.
  - by rewrite bool_decide_eq_true_2 by (by left).
  - by rewrite (bool_decide_ext _ _ (in_cons_other k k' hs Hne)).
Qed.

Lemma txn_perm me dev sb s L v d hs hs' :
  hs ≡ₚ hs' -> txn me dev sb s L v d hs -> txn me dev sb s L v d hs'.
Proof.
  intros Hp [H1 H2 H3 H4 H5 H6 H7 H8 H9 H10 H11 H12].
  assert (forall k, k ∈ hs <-> k ∈ hs') as E by (intros k; by rewrite Hp).
  constructor; try done.
  - eapply LC_ext; [exact H2|done|done|..].
    + intros k. unfold refs. do 2 f_equal. by apply bool_decide_ext.
    + intros k. unfold holds. by rewrite (bool_decide_ext _ _ (E k)).
    + unfold free. by rewrite (count_perm _ _ _ Hp).
  - by rewrite <- Hp.
  - intros k. rewrite <- E. apply H9.
  - intros k. rewrite <- E. apply H10.
Qed.

Section Ops.
Context (me dev : Z) (sb : superblock) (s : lstate) (L : log) (v d : Z * Z -> list Z).
Context (hs : list (Z * Z)) (T : txn me dev sb s L v d hs).

Lemma txn_idle : idle (refs dev L hs) (holds me hs).
Proof.
  intros k. unfold refs, holds. case_bool_decide; case_bool_decide; simpl; (done || lia).
Qed.

Lemma txn_region k : in_log dev L k -> refs dev L hs k = 0 /\ holds me hs k = None.
Proof.
  intros Hk. unfold refs, holds. rewrite !(bool_decide_eq_false_2 (k ∈ hs)).
  - rewrite bool_decide_eq_false_2; [done|]. intros Hh. by eapply home_not_log in Hh; [|apply T].
  - intros Hin. by apply (tx_region _ _ _ _ _ _ _ _ T k).
Qed.

Lemma refs_bound k : 0 <= refs dev L hs k <= 2.
Proof. unfold refs. case_bool_decide; case_bool_decide; simpl; lia. Qed.

(** Every log keeps its place while the cache is used. *)
Lemma txn_cache s' v' d' hs' :
  LC (logs s) s' v' d' (refs dev L hs') (holds me hs') (free dev L hs') ->
  NoDup hs' -> (forall k, k ∈ hs' -> ~ in_log dev L k) ->
  (forall k, ~ in_log dev L k -> ~ home dev L k -> k ∉ hs' -> v' k = d' k) ->
  (forall k, d' k = d k) -> txn me dev sb s' L v' d' hs'.
Proof.
  intros HLC Hnd Hreg Hcl Hd. pose proof HLC as [E _]. destruct T as [H1 _ H3 H4 H5 H6 H7 _ _ _ H11 H12].
  constructor; try done; try (by rewrite E); [|by rewrite Hd].
  by eapply disk_ok_ext; [|exact H11].
Qed.

Lemma txn_bread k Q :
  k ∉ hs -> ~ in_log dev L k -> lh_n L + Z.of_nat (length hs) < Z.of_nat NBUF ->
  (forall b s', txn me dev sb s' L v d (k :: hs) -> is_buf (lbio s') b k ->
     data (bufs (lbio s') !!! b) = v k ->
     (forall j k', k' ∈ hs -> is_buf (lbio s) j k' -> is_buf (lbio s') j k') -> Q b s' []) ->
  wp (on_bio (bread me k.1 k.2)) s Q.
Proof.
  intros Hk Hl Hroom HQ. pose proof (refs_bound k) as Hr.
  assert (0 < free dev L hs) as Hf.
  { unfold free. pose proof (count_le_length (fun k => negb (bool_decide (home dev L k))) hs). lia. }
  eapply (LC_bread me _ _ _ _ _ _ _ (tx_lc _ _ _ _ _ _ _ _ T) k); [apply txn_idle| |lia|by right|].
  { unfold holds. by rewrite bool_decide_eq_false_2. }
  intros b s' H' Hb Hd Hkeep. apply HQ; [|done|done|].
  - apply txn_cache; try done.
    + eapply LC_ext; [exact H'|done|done|..].
      * intros k'. by rewrite refs_cons.
      * intros k'. by rewrite holds_cons.
      * unfold free, refs. rewrite count_cons. rewrite (bool_decide_eq_false_2 (k ∈ hs)) by done.
        case_bool_decide; simpl; lia.
    + constructor; [done|apply T].
    + intros k' [->|Hin]%elem_of_cons; [done|]. by apply T.
    + intros k' ? ? Hn. apply T; [done..|]. intros ?. apply Hn. by right.
  - intros j k' Hin Hbj. apply Hkeep; [done|]. unfold refs. rewrite (bool_decide_eq_true_2 (k' ∈ hs)) by done.
    case_bool_decide; simpl; lia.
Qed.

Lemma txn_bstore b k x Q :
  k ∈ hs -> is_buf (lbio s) b k -> blk_ok x ->
  (forall s', txn me dev sb s' L (<[k:=x]> v) d hs ->
     (forall j k', is_buf (lbio s) j k' -> is_buf (lbio s') j k') -> Q tt s' []) ->
  wp (on_bio (bstore b x)) s Q.
Proof.
  intros Hk Hb Hx HQ.
  eapply (LC_bstore _ _ _ _ _ _ _ (tx_lc _ _ _ _ _ _ _ _ T) b k); [done| |done|].
  { unfold refs. rewrite (bool_decide_eq_true_2 (k ∈ hs)) by done. case_bool_decide; simpl; lia. }
  intros s' H' Hkeep. apply HQ; [|done]. apply txn_cache; try apply T; try done.
  intros k' H1 H2 H3. rewrite fn_lookup_insert_ne by (by intros ->). by apply T.
Qed.

Lemma txn_bupdate b k g Q :
  k ∈ hs -> is_buf (lbio s) b k -> blk_ok (g (v k)) ->
  (forall s', txn me dev sb s' L (<[k:=g (v k)]> v) d hs ->
     (forall j k', is_buf (lbio s) j k' -> is_buf (lbio s') j k') -> Q tt s' []) ->
  wp (bupdate b g) s Q.
Proof.
  intros Hk Hb Hx HQ.
  eapply (LC_bupdate _ _ _ _ _ _ _ (tx_lc _ _ _ _ _ _ _ _ T) b k); [done| |done|].
  { unfold refs. rewrite (bool_decide_eq_true_2 (k ∈ hs)) by done. case_bool_decide; simpl; lia. }
  intros s' H' Hkeep. apply HQ; [|done]. apply txn_cache; try apply T; try done.
  intros k' H1 H2 H3. rewrite fn_lookup_insert_ne by (by intros ->). by apply T.
Qed.

Lemma txn_bderef b k Q :
  is_buf (lbio s) b k ->
  (data (bufs (lbio s) !!! b) = v k -> Bio.dev (bufs (lbio s) !!! b) = k.1 ->
   blockno (bufs (lbio s) !!! b) = k.2 -> Q (bufs (lbio s) !!! b) s []) ->
  wp (on_bio (bderef b)) s Q.
Proof. apply (LC_bderef _ _ _ _ _ _ _ (tx_lc _ _ _ _ _ _ _ _ T)). Qed.

Lemma txn_blk_ok k : blk_ok (v k).
Proof. eapply LC_blk_ok, T. Qed.

End Ops.

(** ** Releasing and logging a block *)

Lemma txn_brelse me dev sb s L v d k hs b Q :
  txn me dev sb s L v d (k :: hs) -> is_buf (lbio s) b k -> home dev L k \/ v k = d k ->
  (forall s', txn me dev sb s' L v d hs ->
     (forall j k', is_buf (lbio s) j k' -> is_buf (lbio s') j k') -> Q tt s' [EWake (ChBufLock b)]) ->
  wp (on_bio (brelse me b)) s Q.
Proof.
  intros T Hb Hcl HQ. pose proof (tx_held _ _ _ _ _ _ _ _ T) as Hnd.
  apply list.NoDup_cons in Hnd as [Hk Hnd].
  assert (forall k', refs dev L (k :: hs) k' = <[k := refs dev L hs k + 1]> (refs dev L hs) k') as Er
    by (intros; by apply refs_cons).
  pose proof (refs_bound dev L hs k) as Hr.
  eapply (LC_brelse me _ _ _ _ _ _ _ (tx_lc _ _ _ _ _ _ _ _ T) b k); [done|..].
  - unfold holds. by rewrite bool_decide_eq_true_2 by (by left).
  - rewrite Er, fn_lookup_insert. destruct Hcl as [Hh|]; [|done]. unfold refs.
    rewrite (bool_decide_eq_true_2 (home dev L k)) by done. case_bool_decide; simpl; lia.
  - intros s' H' Hkeep. apply HQ; [|done]. eapply txn_cache; [exact T| |done|..|done].
    + eapply LC_ext; [exact H'|done|done|..].
      * fn_case k; rewrite Er; fn_simpl; [|done]. rewrite u32_small; lia.
      * fn_case k; [unfold holds; by rewrite bool_decide_eq_false_2|]. by rewrite holds_cons, fn_lookup_insert_ne.
      * rewrite Er, fn_lookup_insert. unfold free, refs. rewrite count_cons.
        rewrite (bool_decide_eq_false_2 (k ∈ hs)) by done. case_bool_decide; simpl; lia.
    + intros k' Hin. apply T. by right.
    + intros k' H1 H2 H3. destruct (decide (k' = k)) as [->|Hne]; [by destruct Hcl|].
      apply T; [done..|]. by rewrite in_cons_other.
Qed.

(** [log_write] searches the transaction for the block. *)
Lemma log_find_eq ls s v d r h f dev L b :
  LC ls s v d r h f -> 0 <= dev -> ls !! Z.to_nat dev = Some L -> log_ok L ->
  log_find dev b s = Ok (default (Z.to_nat (lh_n L))
    (List.find (fun i => (homes L !!! i) =? b) (seq 0 (Z.to_nat (lh_n L))))) s [].
Proof.
  intros H Hdev HL Hok.
  assert (logget dev s = Ok L s []) as Eg.
  { unfold logget. destruct (Z.ltb_spec dev 0); [lia|]. unfold fetch. destruct H as [-> _]. by rewrite HL. }
  unfold log_find, bind at 1. rewrite Eg. unfold bind at 1.
  rewrite (for_each_find _ (fun i => (homes L !!! i) =? b) id).
  - simpl. by destruct (List.find _ _).
  - intros i Hi. apply elem_of_seq in Hi. unfold blockget, bind. rewrite Eg. simpl.
    destruct (homes L !! i) as [x|] eqn:Ex.
    2:{ apply lookup_ge_None in Ex. rewrite homes_length in Ex by done. lia. }
    rewrite (homes_lookup _ _ _ Ex), (list_lookup_total_correct _ _ _ Ex). simpl.
    apply list_elem_of_lookup_2, (lo_home _ Hok) in Ex as [Ex _]. rewrite u32_small by lia.
    by destruct (x =? b).
Qed.

(** The log gains the block, unless it is there already. *)
Lemma log_find_add L b : log_ok L ->
  let i := default (Z.to_nat (lh_n L))
    (List.find (fun i => (homes L !!! i) =? b) (seq 0 (Z.to_nat (lh_n L)))) in
  (b ∈ homes L /\ lh_block L !! i = Some b /\ Z.of_nat i <> lh_n L) \/
  (b ∉ homes L /\ Z.of_nat i = lh_n L).
Proof.
  intros Hok. destruct (List.find _ _) as [i|] eqn:E; simpl.
  - left. apply List.find_some in E as [Hi E]. apply in_seq in Hi. apply Z.eqb_eq in E.
    destruct (homes L !! i) as [x|] eqn:Ex.
    2:{ apply lookup_ge_None in Ex. rewrite homes_length in Ex by done. lia. }
    rewrite (list_lookup_total_correct _ _ _ Ex) in E. subst x. split_and!; [|by apply homes_lookup|lia].
    by eapply list_elem_of_lookup_2.
  - right. split; [|pose proof (lo_n _ Hok); lia]. intros Hin.
    apply list_elem_of_lookup in Hin as (i & Hi).
    pose proof (lookup_lt_Some _ _ _ Hi) as Hlt. rewrite homes_length in Hlt by done.
    pose proof (find_absent _ _ E i) as Hx. cbv beta in Hx. rewrite elem_of_seq in Hx.
    rewrite (list_lookup_total_correct _ _ _ Hi) in Hx. specialize (Hx ltac:(lia)). lia.
Qed.

Lemma refs_add dev L hs b k : log_ok L -> lh_n L < Z.of_nat LOGSIZE -> b ∉ homes L ->
  refs dev (log_add b L) hs k = <[(dev, b) := refs dev L hs (dev, b) + 1]> (refs dev L hs) k.
Proof.
  intros Hok Hc Hb. destruct (decide (k = (dev, b))) as [->|Hne]; fn_simpl; unfold refs.
  - rewrite (bool_decide_eq_true_2 (home dev (log_add b L) _)) by (apply log_add_home; auto).
    rewrite (bool_decide_eq_false_2 (home dev L _)) by (by intros [_ ?]). simpl. lia.
  - by rewrite (bool_decide_ext (home dev (log_add b L) k) (home dev L k)) by (rewrite log_add_home by done; naive_solver).
Qed.

Lemma free_add dev L hs b : log_ok L -> lh_n L < Z.of_nat LOGSIZE -> b ∉ homes L ->
  NoDup hs -> (dev, b) ∈ hs -> free dev (log_add b L) hs = free dev L hs.
Proof.
  intros Hok Hc Hb Hnd Hin. unfold free.
  rewrite (count_update (fun k => negb (bool_decide (home dev L k))) (fun k => negb (bool_decide (home dev (log_add b L) k))) (dev, b) hs Hnd Hin).
  - rewrite (bool_decide_eq_true_2 (home dev (log_add b L) _)) by (apply log_add_home; auto).
    rewrite (bool_decide_eq_false_2 (home dev L _)) by (by intros [_ ?]).
    unfold log_add. rewrite bool_decide_eq_false_2 by done. simpl. lia.
  - intros k _ Hne. f_equal. apply bool_decide_ext. rewrite log_add_home by done. naive_solver.
Qed.

Lemma i32_dev dev : 0 <= dev < Z.of_nat NDISK -> i32 dev = dev.
Proof. intros H. apply i32_small. unfold NDISK in H. lia. Qed.

(** The transaction with a locked block added to it. *)
Lemma txn_add me dev sb s s' L v d hs n :
  txn me dev sb s L v d hs -> (dev, n) ∈ hs -> 0 <= n < 2 ^ 31 ->
  lh_n L < Z.of_nat LOGSIZE -> lh_n L + 1 < size L -> lh_n L + 1 < Z.of_nat NBUF ->
  LC (<[Z.to_nat dev := log_add n L]> (logs s)) s' v d
     (refs dev (log_add n L) hs) (holds me hs) (free dev (log_add n L) hs) ->
  txn me dev sb s' (log_add n L) v d hs.
Proof.
  intros T Hin Hn Hcap Hsz Hroom H'. pose proof (tx_region _ _ _ _ _ _ _ _ T _ Hin) as Hreg.
  destruct (log_add_geom n L) as (G1 & G2 & G3 & G4). pose proof H' as [El _].
  destruct T as [H1 _ HL H4 H5 H6 _ H8 H9 H10 H11 H12]. apply lookup_lt_Some in HL as Hlt.
  constructor; rewrite ?El, ?G1, ?G2; try done.
  - by apply list_lookup_insert_eq.
  - apply log_add_ok; try done. intros Hl. apply Hreg. split; [done|]. simpl. lia.
  - unfold log_add. case_bool_decide; simpl; lia.
  - intros k Hk. unfold in_log. rewrite G1, G2. by apply H9.
  - intros k. unfold in_log. rewrite G1, G2, log_add_home by done. intros ? ? ?. apply H10; naive_solver.
Qed.

Lemma txn_log_write me dev sb s L v d hs b n Q :
  txn me dev sb s L v d hs -> (dev, n) ∈ hs -> is_buf (lbio s) b (dev, n) ->
  0 <= n < 2 ^ 31 -> 1 <= outstanding L -> lh_n L < Z.of_nat LOGSIZE -> lh_n L + 1 < size L ->
  lh_n L + 1 < Z.of_nat NBUF ->
  (forall s', txn me dev sb s' (log_add n L) v d hs ->
     (forall j k', is_buf (lbio s) j k' -> is_buf (lbio s') j k') -> Q tt s' []) ->
  wp (log_write b) s Q.
Proof.
  intros T Hin Hb Hn Hout Hcap Hsz Hroom HQ.
  pose proof (tx_ok _ _ _ _ _ _ _ _ T) as Hok. pose proof (tx_dev _ _ _ _ _ _ _ _ T) as Hdev.
  pose proof (tx_log _ _ _ _ _ _ _ _ T) as HL. pose proof (lookup_lt_Some _ _ _ HL) as Hlt.
  pose proof (tx_lc _ _ _ _ _ _ _ _ T) as HLC.
  unfold log_write. wp_step. eapply (txn_bderef _ _ _ _ _ _ _ _ T b (dev, n)); [done|].
  intros _ E1 E2. simpl in E1, E2. rewrite E1, E2, i32_dev by done. cbv zeta. wp_step.
  eapply (wp_logget _ _ _ _ _ _ _ HLC dev L); [lia|done|].
  replace (_ || _) with false by (symmetry; bools; lia).
  replace (outstanding L <? 1) with false by lia. wp_step.
  eapply wp_eq; [by eapply (log_find_eq _ _ _ _ _ _ _ _ _ n HLC); [lia|..]|]. wp_step.
  rewrite i32_small by lia.
  destruct (log_find_add L n Hok) as [(Hold & Hi & Hne)|(Hnew & Hi)]; set (i := default _ _) in *.
  - eapply (wp_blockassign _ _ _ _ _ _ _ _ _ _ _ _ HLC); [lia|done|by apply lookup_lt_Some in Hi|].
    rewrite (list_insert_id (lh_block L) i n Hi). intros s1 H1 Es1. replace (Z.of_nat i =? lh_n L) with false by lia.
    wp_step. apply HQ; [|by rewrite Es1]. eapply txn_add; try done. unfold log_add. rewrite bool_decide_eq_true_2 by done.
    by destruct L.
  - eapply (wp_blockassign _ _ _ _ _ _ _ _ _ _ _ _ HLC); [lia|done|rewrite (lo_len _ Hok); lia|].
    intros s1 H1 Es1. replace (Z.of_nat i =? lh_n L) with true by lia. wp_step.
    eapply (LC_bpin _ _ _ _ _ _ _ H1 b (dev, n)); [by rewrite Es1|..].
    { unfold refs. rewrite (bool_decide_eq_true_2 (_ ∈ hs)) by done. case_bool_decide; simpl; lia. }
    { pose proof (refs_bound dev L hs (dev, n)). lia. }
    intros s2 H2 Hk2. eapply (wp_logassign _ _ _ _ _ _ _ H2); [lia|by apply list_lookup_insert_eq|].
    intros s3 H3 Es3. apply HQ; [|by rewrite Es3, <- Es1]. eapply txn_add; try done.
    rewrite list_insert_insert_eq in H3. simpl in H3.
    assert (log_add n L = set_n (lh_n L + 1) (set_block (<[i:=n]> (lh_block L)) L)) as ->.
    { unfold log_add. rewrite bool_decide_eq_false_2 by done. do 3 f_equal. lia. }
    eapply LC_ext; [exact H3|done|done|..].
    + intros k. rewrite <- refs_add by done. unfold log_add. rewrite bool_decide_eq_false_2 by done.
      by replace (Z.to_nat (lh_n L)) with i by lia.
    + done.
    + rewrite <- (free_add dev L hs n) by (done || apply T). unfold log_add.
      rewrite bool_decide_eq_false_2 by done. by replace (Z.to_nat (lh_n L)) with i by lia.
Qed.

(** ** The end of a transaction *)

(** The log after the last operation has ended. *)
Definition closed (L : log) : log := set_committing 0 (set_n 0 (set_committing 1 (set_outstanding 0 L))).

Section End.
Context (me dev : Z) (sb : superblock) (s : lstate) (L : log) (v d : Z * Z -> list Z).
Context (T : txn me dev sb s L v d []).

Lemma txn_dev : 0 <= dev.
Proof. apply (tx_dev _ _ _ _ _ _ _ _ T). Qed.

Lemma homes_empty : ~ 0 < lh_n L -> homes L = [].
Proof.
  intros Hn. unfold homes. pose proof (lo_n _ (tx_ok _ _ _ _ _ _ _ _ T)).
  by replace (Z.to_nat (lh_n L)) with 0%nat by lia.
Qed.

Lemma refs_homes k : refs dev L [] k = Z.b2z (bool_decide (home dev L k)).
Proof. unfold refs. rewrite (bool_decide_eq_false_2 (k ∈ [])) by set_solver. simpl. lia. Qed.

Lemma refs_pinned b : b ∈ homes L ->
  holds me [] (dev, b) = None /\ 0 < refs dev L [] (dev, b) /\ refs dev L [] (dev, b) + 1 < 2 ^ 32.
Proof. intros Hb. rewrite refs_homes. by rewrite bool_decide_eq_true_2. Qed.

(** Every pin is dropped when the transaction is installed. *)
Lemma refs_unpinned k : unpinned dev (homes L) (refs dev L []) k = 0.
Proof.
  unfold unpinned. rewrite refs_homes.
  case_bool_decide as E; [by rewrite bool_decide_eq_true_2|by rewrite bool_decide_eq_false_2].
Qed.

Lemma free_unpinned : free dev L [] + count (fun b => refs dev L [] (dev, b) =? 1) (homes L) = Z.of_nat NBUF.
Proof.
  rewrite count_all.
  - rewrite homes_length by apply T. unfold free. simpl.
    pose proof (lo_n _ (tx_ok _ _ _ _ _ _ _ _ T)). lia.
  - intros b Hb. rewrite refs_homes. by rewrite bool_decide_eq_true_2.
Qed.

(** The writes at the end of the transaction. *)
Definition end_trace : list (Z * Z * list Z) :=
  if 0 <? lh_n L then commit_trace dev L v else [].

(** The last operation of a transaction commits it. *)
Lemma end_op_run :
  outstanding L = 1 -> committing L = 0 ->
  wp (end_op me dev) s (fun _ s' t => disk_writes t = end_trace /\
    LC (<[Z.to_nat dev := closed L]> (logs s)) s' (apply_writes end_trace v)
      (apply_writes end_trace d) (fun _ => 0) (fun _ => None) (Z.of_nat NBUF)).
Proof.
  intros Hout Hcom. pose proof txn_dev as Hdev. pose proof (tx_log _ _ _ _ _ _ _ _ T) as HL.
  pose proof (lookup_lt_Some _ _ _ HL) as Hlt. unfold end_op. wp_step.
  eapply (wp_logassign _ _ _ _ _ _ _ (tx_lc _ _ _ _ _ _ _ _ T)); [done..|]. intros s1 H1 _.
  rewrite Hout in H1. change (1 - 1) with 0 in H1. wp_step.
  eapply (wp_logget _ _ _ _ _ _ _ H1); [done|by apply list_lookup_insert_eq|]. simpl.
  rewrite Hcom. simpl. wp_step.
  eapply (wp_logassign _ _ _ _ _ _ _ H1); [done|by apply list_lookup_insert_eq|]. intros s2 H2 _.
  rewrite list_insert_insert_eq in H2. wp_step. unfold end_trace.
  destruct (Z.ltb_spec 0 (lh_n L)) as [Hn|Hn].
  - eapply wp_mono; [eapply (commit_spec me dev _ (set_committing 1 (set_outstanding 0 L)) s2 _ _ _ _ _ H2);
      try apply T; try done; [by apply list_lookup_insert_eq|..]|].
    { by destruct (tx_ok _ _ _ _ _ _ _ _ T). }
    { intros k Hk. by apply (txn_region _ _ _ _ _ _ _ _ T k). }
    { apply refs_pinned. }
    { unfold free. pose proof (tx_room _ _ _ _ _ _ _ _ T). simpl. lia. }
    cbv beta. intros [] s3 t3 [Ht3 H3]. rewrite list_insert_insert_eq in H3. wp_step.
    eapply (wp_logassign _ _ _ _ _ _ _ H3); [done|by apply list_lookup_insert_eq|]. intros s4 H4 _.
    rewrite list_insert_insert_eq in H4. wp_step. simpl. rewrite disk_writes_app. simpl.
    rewrite app_nil_r, Ht3. split; [done|].
    eapply LC_ext; [exact H4|done|done|apply refs_unpinned|done|apply free_unpinned].
  - eapply wp_eq.
    { unfold commit, bind, logget. destruct (Z.ltb_spec dev 0); [lia|].
      unfold fetch. destruct H2 as [E2 _]. rewrite E2, list_lookup_insert_eq by done. simpl.
      by replace (0 <? lh_n L) with false by lia. }
    wp_step. eapply (wp_logassign _ _ _ _ _ _ _ H2); [done|by apply list_lookup_insert_eq|].
    intros s3 H3 _. rewrite list_insert_insert_eq in H3. wp_step. simpl. split; [done|].
    unfold closed. replace (set_n 0 (set_committing 1 (set_outstanding 0 L))) with (set_committing 1 (set_outstanding 0 L)).
    + eapply LC_ext; [exact H3|done|done| |done|].
      * intros k. rewrite refs_homes, bool_decide_eq_false_2; [done|].
        intros [_ Hk]. rewrite homes_empty in Hk by lia. set_solver.
      * unfold free. pose proof (lo_n _ (tx_ok _ _ _ _ _ _ _ _ T)). simpl. lia.
    + pose proof (lo_n _ (tx_ok _ _ _ _ _ _ _ _ T)). destruct L. simpl in *.
      unfold set_n, set_committing, set_outstanding. simpl. f_equal. lia.
Qed.

Lemma txn_same D D' : same dev L D D' <-> same dev (geometry dev sb) D D'.
Proof.
  unfold same, in_log. simpl. rewrite (tx_start _ _ _ _ _ _ _ _ T), (tx_size _ _ _ _ _ _ _ _ T). done.
Qed.

Lemma txn_in_log k : in_log dev L k <-> in_log dev (geometry dev sb) k.
Proof.
  unfold in_log. simpl. by rewrite (tx_start _ _ _ _ _ _ _ _ T), (tx_size _ _ _ _ _ _ _ _ T).
Qed.

Lemma txn_vhk : v (dev, start L) = d (dev, start L).
Proof.
  eapply LC_clean; [apply T|]. eapply txn_region; [exact T|].
  destruct (tx_ok _ _ _ _ _ _ _ _ T). split; simpl; [done|lia].
Qed.

(** The disk at any point of the end of a transaction. *)
Lemma txn_prefix p :
  p `prefix_of` end_trace ->
  disk_ok dev (geometry dev sb) (apply_writes p d) /\
  (same dev L (recovered dev (geometry dev sb) (apply_writes p d)) d \/
   same dev L (recovered dev (geometry dev sb) (apply_writes p d)) v).
Proof.
  pose proof (tx_start _ _ _ _ _ _ _ _ T) as Hst. pose proof txn_vhk as Hv.
  pose proof (tx_clear _ _ _ _ _ _ _ _ T) as Hc. rewrite !txn_same.
  unfold end_trace. destruct (0 <? lh_n L); intros Hp.
  - apply (commit_prefix dev (geometry dev sb) L d v); try apply T; try done; simpl; rewrite <- ?Hst; try done.
    + intros k. eapply LC_blk_ok, T.
    + intros k Hk Hh. apply T; [by rewrite txn_in_log|done|set_solver].
  - apply prefix_nil_inv in Hp as ->. simpl. split; [apply T|]. left.
    rewrite disk_log_empty; [done|]. simpl. by rewrite <- Hst.
Qed.

(** All the writes at the end of the transaction, on a disk [D] that has the
    blocks the transaction did not change. *)
Lemma txn_complete D :
  D (dev, start L) = d (dev, start L) -> (forall k, blk_ok (D k)) ->
  (forall k, ~ in_log dev L k -> ~ home dev L k -> v k = D k) ->
  let D' := apply_writes end_trace D in
  disk_ok dev (geometry dev sb) D' /\ hb_n (D' (dev, start L)) = 0 /\ same dev L D' v.
Proof.
  pose proof (tx_start _ _ _ _ _ _ _ _ T) as Hst. pose proof txn_vhk as Hv.
  pose proof (tx_clear _ _ _ _ _ _ _ _ T) as Hc. intros HDhk HDblk HDclean. cbv zeta. rewrite !txn_same.
  assert (disk_ok dev (geometry dev sb) D) as HD.
  { destruct (tx_disk _ _ _ _ _ _ _ _ T) as [Hd1 Hd2 _]. rewrite Hst in *.
    constructor; unfold disk_log in *; simpl in *; rewrite ?HDhk; done. }
  unfold end_trace. destruct (Z.ltb_spec 0 (lh_n L)) as [Hn|Hn].
  - rewrite Hst in *. apply (commit_complete dev (geometry dev sb) L D v); try apply T; try done;
      try (simpl; congruence).
    + intros k. eapply LC_blk_ok, T.
    + intros k Hk Hh. apply HDclean; [by rewrite txn_in_log|done].
  - simpl. split_and!; [done|congruence|]. intros k Hk. symmetry. apply HDclean; [by rewrite txn_in_log|].
    intros [_ Hin]. rewrite homes_empty in Hin by lia. set_solver.
Qed.

Lemma end_op_txn :
  outstanding L = 1 -> committing L = 0 ->
  wp (end_op me dev) s (fun _ s' t => disk_writes t = end_trace /\ exists v' d',
    txn me dev sb s' (closed L) v' d' [] /\ same dev L v' v /\ same dev L d' v /\
    forall k, disk_block (disks (lbio s')) k = d' k).
Proof.
  intros Hout Hcom. eapply wp_mono; [by apply end_op_run|]. cbv beta. intros [] s' t [Ht H'].
  split; [done|]. exists (apply_writes end_trace v), (apply_writes end_trace d).
  destruct (txn_complete d) as (Hd1 & Hd2 & Hd3); [done|apply T|intros k ? ?; apply T; [done|done|apply not_elem_of_nil]|].
  destruct (txn_complete v) as (Hv1 & Hv2 & Hv3); [apply txn_vhk|intros k; eapply LC_blk_ok, T|done|].
  pose proof H' as [El [l HB]]. pose proof (bc_disk _ _ _ _ _ _ _ HB) as Hdk.
  split; [|done]. pose proof (tx_log _ _ _ _ _ _ _ _ T) as HL. apply lookup_lt_Some in HL.
  assert (homes (closed L) = []) as Eh by done.
  assert (forall k, ~ home dev (closed L) k) as Hnh by (intros k [_ Hk]; rewrite Eh in Hk; set_solver).
  destruct T as [H1 _ H3 H4 H5 H6 H7 _ _ _ _ _]. constructor; rewrite ?El; try done.
  - eapply LC_ext; [exact H'|done|done| |done|done].
    intros k. unfold refs. rewrite !bool_decide_eq_false_2; [done|set_solver|done].
  - by apply list_lookup_insert_eq.
  - destruct (log_ok_empty L H6). by constructor.
  - constructor.
  - intros k Hk. by apply not_elem_of_nil in Hk.
  - intros k Hk _ _. change (~ in_log dev L k) in Hk. by rewrite Hd3, Hv3.
Qed.

End End.

(** ** The start of a transaction *)

(** Recovery of a disk whose log is empty. *)
Lemma txn_boot me dev sb dk :
  0 <= dev < Z.of_nat NDISK -> disk_ok dev (geometry dev sb) (disk_block dk) ->
  hb_n (disk_block dk (dev, i32 (sb_logstart sb))) = 0 ->
  wp (initlog me dev sb) (boot dk) (fun _ s t => exists L v d,
    txn me dev sb s L v d [] /\ homes L = [] /\ outstanding L = 0 /\ committing L = 0 /\
    same dev L v (disk_block dk) /\ same dev L d (disk_block dk)).
Proof.
  intros Hdev Hok H0. eapply wp_mono; [by apply initlog_spec|]. cbv beta.
  set (G := geometry dev sb) in *. set (D := disk_block dk) in *.
  intros [] s t [Ht H]. exists (set_n 0 (disk_log dev G D)).
  exists (apply_writes (recovery dev G D) D), (apply_writes (recovery dev G D) D).
  destruct (full_recovery dev G D Hok) as (Hd1 & Hd2 & _ & Hd3).
  rewrite (disk_log_empty dev G D H0) in Hd3. pose proof H as [El _].
  change (hb_n (D (dev, start G)) = 0) in H0.
  assert (homes (disk_log dev G D) = []) as Eh
    by (unfold homes, disk_log; cbn [lh_n read_log set_block set_n]; by rewrite H0).
  split; [|done].
  assert (forall k, ~ home dev (set_n 0 (disk_log dev G D)) k) as Hnh by (intros k [_ Hk]; set_solver).
  assert (Z.to_nat dev < length (replicate NDISK log0))%nat as Hlt by (rewrite length_replicate; lia).
  constructor; rewrite ?El; try done.
  - eapply LC_ext; [exact H|done|done| |done|].
    + intros k. rewrite Eh. unfold unpinned, refs. rewrite !bool_decide_eq_false_2; [done|set_solver|done|set_solver].
    + unfold free. rewrite H0. done.
  - by apply list_lookup_insert_eq.
  - apply log_ok_empty, Hok.
  - constructor.
  - intros k Hk. by apply not_elem_of_nil in Hk.
Qed.

(** [begin_op] admits an operation when the log has room for it. *)
Lemma txn_begin me dev sb s L v d hs Q :
  txn me dev sb s L v d hs -> committing L = 0 ->
  lh_n L + (outstanding L + 1) * MAXOPBLOCKS <= Z.of_nat LOGSIZE ->
  (forall s', txn me dev sb s' (set_outstanding (outstanding L + 1) L) v d hs ->
     lbio s' = lbio s -> Q tt s' []) ->
  wp (begin_op dev) s Q.
Proof.
  intros T Hc Hn HQ. pose proof (tx_log _ _ _ _ _ _ _ _ T) as HL. pose proof (tx_dev _ _ _ _ _ _ _ _ T) as Hdev.
  pose proof (tx_lc _ _ _ _ _ _ _ _ T) as HLC. pose proof (lookup_lt_Some _ _ _ HL) as Hlt.
  unfold begin_op. wp_step. eapply (wp_logget _ _ _ _ _ _ _ HLC dev L); [lia|done|].
  rewrite Hc. simpl. destruct (Z.ltb_spec (Z.of_nat LOGSIZE) (lh_n L + (outstanding L + 1) * MAXOPBLOCKS)); [lia|].
  eapply (wp_logassign _ _ _ _ _ _ _ HLC); [lia|done|]. intros s' H' Es. apply HQ; [|done].
  pose proof H' as [El _]. destruct T as [H1 _ H3 H4 H5 H6 H7 H8 H9 H10 H11 H12].
  constructor; rewrite ?El; try done.
  - by apply list_lookup_insert_eq.
  - by destruct H6.
Qed.

(** A block changed inside a transaction: [bread], a store, [log_write],
    [brelse]. *)
Definition update_block (me dev n : Z) (g : list Z -> list Z) : M lstate unit :=
  b <- on_bio (bread me dev n) ;;
  bupdate b g ;;;
  log_write b ;;;
  on_bio (brelse me b).

Lemma update_block_spec me dev sb s L v d hs n g Q :
  txn me dev sb s L v d hs -> (dev, n) ∉ hs -> ~ in_log dev L (dev, n) -> 0 <= n < 2 ^ 31 ->
  1 <= outstanding L -> lh_n L < Z.of_nat LOGSIZE -> lh_n L + 1 < size L ->
  lh_n L + Z.of_nat (length hs) + 1 < Z.of_nat NBUF -> blk_ok (g (v (dev, n))) ->
  (forall s' t, txn me dev sb s' (log_add n L) (<[(dev, n) := g (v (dev, n))]> v) d hs ->
     disk_writes t = [] -> Q tt s' t) ->
  wp (update_block me dev n g) s Q.
Proof.
  intros T Hhs Hreg Hn Hout Hc Hs Hroom Hg HQ. unfold update_block. wp_step.
  eapply (txn_bread _ _ _ _ _ _ _ _ T (dev, n)); [done|done|lia|]. intros b s1 T1 Hb1 _ _. wp_step.
  eapply (txn_bupdate _ _ _ _ _ _ _ _ T1 b (dev, n)); [by left|done|done|]. intros s2 T2 Hk2. wp_step.
  eapply (txn_log_write _ _ _ _ _ _ _ _ _ _ _ T2); [by left|auto|done|done|done|done|lia|].
  intros s3 T3 Hk3. eapply (txn_brelse _ _ _ _ _ _ _ _ _ _ _ T3); [auto| |].
  - left. apply log_add_home; [apply T|done|]. by right.
  - intros s4 T4 _. by apply HQ.
Qed.

(** A disk with an empty log. *)
Lemma disk_ok_clear dev sb D :
  0 <= i32 (sb_logstart sb) -> 0 < i32 (sb_nlog sb) ->
  i32 (sb_logstart sb) + i32 (sb_nlog sb) <= 2 ^ 31 ->
  hb_n (D (dev, i32 (sb_logstart sb))) = 0 -> (forall k, blk_ok (D k)) ->
  disk_ok dev (geometry dev sb) D.
Proof.
  intros H1 H2 H3 H0 Hb.
  assert (homes (disk_log dev (geometry dev sb) D) = []) as Eh.
  { unfold homes, disk_log. simpl. by rewrite H0. }
  constructor; [|simpl; by rewrite H0|done].
  constructor; rewrite ?Eh; unfold disk_log; simpl; rewrite ?H0, ?read_blocks_length; try done;
    [constructor|]. intros b Hin. by apply not_elem_of_nil in Hin.
Qed.

(** A transaction of one operation that has written block 40 of a blank disk
    with the layout mkfs gives it. *)
Definition sb0 : superblock := Superblock 270544960 1000 954 200 30 2 32 45.

Lemma blank_ok k : blk_ok (disk_block ∅ k).
Proof. unfold disk_block. rewrite lookup_empty. by apply blk_ok_fill. Qed.

(** One operation begun on a disk with an empty log. *)
Lemma txn_start dk :
  hb_n (disk_block dk (0, 2)) = 0 -> (forall k, blk_ok (disk_block dk k)) ->
  exists s L v d, txn 1 0 sb0 s L v d [] /\ outstanding L = 1 /\ committing L = 0 /\ lh_n L = 0 /\
    homes L = [] /\ start L = 2 /\ size L = 30 /\
    forall k, ~ in_log 0 L k -> v k = disk_block dk k /\ d k = disk_block dk k.
Proof.
  intros Hz Hb.
  destruct (wp_run _ _ _ (txn_boot 1 0 sb0 dk ltac:(done)
    (disk_ok_clear 0 sb0 _ ltac:(done) ltac:(done) ltac:(done) Hz Hb) Hz))
    as ([] & s & t & _ & L & v & d & T & Hh & Ho & Hc & Hv & Hd).
  assert (lh_n L = 0) as Hn.
  { pose proof (homes_length L (tx_ok _ _ _ _ _ _ _ _ T)) as E. rewrite Hh in E. simpl in E.
    pose proof (lo_n _ (tx_ok _ _ _ _ _ _ _ _ T)). lia. }
  assert (size L = 30) as Hs by apply T. assert (start L = 2) as Hst by apply T.
  assert (wp (begin_op 0) s (fun _ s1 _ => txn 1 0 sb0 s1 (set_outstanding (outstanding L + 1) L) v d [])) as Hbo.
  { eapply txn_begin; [exact T|done|unfold MAXOPBLOCKS, LOGSIZE; lia|]. by intros. }
  destruct (wp_run _ _ _ Hbo) as ([] & s1 & t1 & _ & T1).
  exists s1, (set_outstanding (outstanding L + 1) L), v, d. split_and!; try done; [simpl; lia|].
  intros k Hk. split; [by apply Hv|by apply Hd].
Qed.

Lemma txn_example : exists s L v d,
  txn 1 0 sb0 s L v d [] /\ outstanding L = 1 /\ committing L = 0 /\ lh_n L = 1 /\
  v (0, 40) = replicate BSIZE 7 /\ d (0, 40) = replicate BSIZE 0.
Proof.
  destruct (txn_start ∅ ltac:(done) blank_ok) as (s & L & v & d & T & Ho & Hc & Hn & Hh & Hst & Hs & Hv).
  assert (wp (update_block 1 0 40 (fun _ => replicate BSIZE 7)) s (fun _ s' _ => exists L v d,
      txn 1 0 sb0 s' L v d [] /\ outstanding L = 1 /\ committing L = 0 /\ lh_n L = 1 /\
      v (0, 40) = replicate BSIZE 7 /\ d (0, 40) = replicate BSIZE 0)) as H.
  { eapply update_block_spec; [exact T|..]; try (unfold NBUF, LOGSIZE; simpl; lia).
    - apply not_elem_of_nil.
    - unfold in_log. simpl. lia.
    - by apply blk_ok_fill.
    - intros s2 t2 T2 _. do 3 eexists. split; [exact T2|]. unfold log_add.
      rewrite bool_decide_eq_false_2 by (change (40 ∉ homes L); rewrite Hh; apply not_elem_of_nil).
      simpl. rewrite Ho, Hn, fn_lookup_insert. split_and!; try done.
      apply (Hv (0, 40)). unfold in_log. simpl. lia. }
  destruct (wp_run _ _ _ H) as ([] & s2 & t2 & _ & L2 & v2 & d2 & H2). by exists s2, L2, v2, d2.
Qed.

(** ** Crash safety *)

(** C1: the end of the last operation of a transaction is atomic with respect
    to crashes.  It returns with the new contents on disk; and whatever prefix
    of its block writes reaches the disk before a crash, however many times
    recovery is itself interrupted, the recovery that completes finds the disk,
    outside the log, either entirely as it was before the transaction or
    entirely as the transaction left it. *)
Theorem end_op_crash_safe me me' dev sb s L v d :
  txn me dev sb s L v d [] -> outstanding L = 1 -> committing L = 0 ->
  exists s' t, end_op me dev s = Ok tt s' t /\
    same dev L (disk_block (disks (lbio s'))) v /\
    forall p dk, p `prefix_of` disk_writes t ->
      reboots me' dev sb (disk_after p (disks (lbio s))) dk ->
      exists s2 t2, initlog me' dev sb (boot dk) = Ok tt s2 t2 /\
        (same dev L (disk_block (disks (lbio s2))) d \/
         same dev L (disk_block (disks (lbio s2))) v).
Proof.
  intros T Hout Hcom.
  destruct (wp_run _ _ _ (end_op_txn _ _ _ _ _ _ _ T Hout Hcom)) as ([] & s' & t & Hrun & Ht & v' & d' & _ & _ & Hd & Hdk).
  exists s', t. split; [done|]. split; [intros k Hk; rewrite Hdk; by apply Hd|]. intros p dk Hp Hre.
  rewrite Ht in Hp. destruct (txn_prefix _ _ _ _ _ _ _ T p Hp) as [Hok Hc].
  pose proof (tx_dev _ _ _ _ _ _ _ _ T) as Hdev. destruct (tx_lc _ _ _ _ _ _ _ _ T) as [_ [l HB]].
  assert (forall k, apply_writes p d k = disk_block (disk_after p (disks (lbio s))) k) as E.
  { intros k. rewrite disk_after_block. apply apply_writes_ext. symmetry. apply (bc_disk _ _ _ _ _ _ _ HB). }
  destruct (reboot_recovers me' dev sb Hdev _ _ _ E Hok Hre) as (s2 & t2 & Hrun2 & H2).
  exists s2, t2. split; [done|]. apply (txn_same _ _ _ _ _ _ _ T) in H2.
  destruct Hc as [Hc|Hc]; [left|right]; intros k Hk; by rewrite H2, Hc.
Qed.

Lemma end_op_crash_safe_witness : exists s L v d,
  (txn 1 0 sb0 s L v d [] /\ outstanding L = 1 /\ committing L = 0 /\ lh_n L = 1 /\
   v (0, 40) <> d (0, 40)) /\
  exists s' t, end_op 1 0 s = Ok tt s' t /\ same 0 L (disk_block (disks (lbio s'))) v.
Proof.
  destruct txn_example as (s & L & v & d & T & Ho & Hc & Hn & Hv & Hd).
  exists s, L, v, d. split; [split_and!; try assumption; rewrite Hv, Hd; discriminate|].
  destruct (end_op_crash_safe 1 2 0 sb0 s L v d T Ho Hc) as (s' & t & H1 & H2 & _).
  exists s', t. split; assumption.
Defined.

(** C20: after a recovery that installed a transaction, each of its blocks is
    still cached with a reference count of 2^32 - 1, and as many buffers are
    lost: [install_trans] drops a pin that recovery never took. *)
Theorem recovery_leaks_buffers me dev sb dk :
  0 <= dev < Z.of_nat NDISK -> disk_ok dev (geometry dev sb) (disk_block dk) ->
  exists s t, initlog me dev sb (boot dk) = Ok tt s t /\
    nfree (lbio s) = Z.of_nat NBUF - hb_n (disk_block dk (dev, i32 (sb_logstart sb))) /\
    forall b, b ∈ hb_homes (disk_block dk (dev, i32 (sb_logstart sb))) ->
      exists i, (i < NBUF)%nat /\ bkey (bufs (lbio s) !!! i) = (dev, b) /\
        refcnt (bufs (lbio s) !!! i) = 2 ^ 32 - 1.
Proof.
  intros Hdev Hok. destruct (wp_run _ _ _ (initlog_spec me dev sb Hdev dk Hok)) as ([] & s & t & Hrun & _ & H).
  exists s, t. split; [done|]. destruct H as [_ HB]. split.
  - destruct HB as [l HB]. by rewrite <- (bc_free _ _ _ _ _ _ _ HB).
  - intros b Hb.
    assert (homes (disk_log dev (geometry dev sb) (disk_block dk)) =
            hb_homes (disk_block dk (dev, i32 (sb_logstart sb)))) as Eh.
    { apply read_log_homes. apply (hdr_wf_cap (geometry dev sb)), Hok. }
    assert (unpinned dev (homes (disk_log dev (geometry dev sb) (disk_block dk))) (fun _ => 0) (dev, b)
            = 2 ^ 32 - 1) as Eu.
    { unfold unpinned. rewrite Eh, bool_decide_eq_true_2; done. }
    destruct (BC_cached _ _ _ _ _ _ HB (dev, b)) as (i & Hi & Hk & Hr); [by rewrite Eu|].
    exists i. by rewrite Hr, Eu.
Qed.

(** A disk on which a transaction of block 40 is committed but not installed. *)
Definition log_ex : log := Log 2 30 0 0 0 1 (40 :: replicate 29 0).
Definition dk_ex : gmap (Z * Z) (list Z) :=
  {[ (0, 2) := hdr log_ex (replicate BSIZE 0); (0, 3) := replicate BSIZE 7 ]}.

Lemma dk_ex_hdr : disk_block dk_ex (0, 2) = hdr log_ex (replicate BSIZE 0).
Proof. reflexivity. Qed.

Lemma dk_ex_blk k : blk_ok (disk_block dk_ex k).
Proof.
  unfold disk_block, dk_ex. destruct (decide (k = (0, 2))) as [->|H1].
  - rewrite lookup_insert_eq. apply hdr_ok. by apply blk_ok_fill.
  - rewrite lookup_insert_ne by done. destruct (decide (k = (0, 3))) as [->|H2].
    + rewrite lookup_singleton_eq. by apply blk_ok_fill.
    + rewrite lookup_singleton_ne by done. by apply blk_ok_fill.
Qed.

Lemma hb_n_ex : hb_n (hdr log_ex (replicate BSIZE 0)) = 1.
Proof. vm_compute. reflexivity. Qed.

Lemma hb_homes_ex : hb_homes (hdr log_ex (replicate BSIZE 0)) = [40].
Proof. vm_compute. reflexivity. Qed.

Lemma dk_ex_ok : disk_ok 0 (geometry 0 sb0) (disk_block dk_ex).
Proof.
  assert (homes (disk_log 0 (geometry 0 sb0) (disk_block dk_ex)) = [40]) as Eh.
  { rewrite <- hb_homes_ex, <- dk_ex_hdr. apply read_log_homes.
    change (hb_n (disk_block dk_ex (0, 2)) <= 30). by rewrite dk_ex_hdr, hb_n_ex. }
  constructor; [|change (hb_n (disk_block dk_ex (0, 2)) < 30); by rewrite dk_ex_hdr, hb_n_ex|apply dk_ex_blk].
  constructor; rewrite ?Eh; try done.
  - apply NoDup_singleton.
  - intros b ->%list_elem_of_singleton. simpl. change (i32 2) with 2. change (i32 30) with 30. lia.
Qed.

Lemma recovery_leaks_buffers_witness :
  exists s t i, initlog 1 0 sb0 (boot dk_ex) = Ok tt s t /\ nfree (lbio s) = 29 /\
    (i < NBUF)%nat /\ bkey (bufs (lbio s) !!! i) = (0, 40) /\ refcnt (bufs (lbio s) !!! i) = 2 ^ 32 - 1.
Proof.
  destruct (recovery_leaks_buffers 1 0 sb0 dk_ex ltac:(done) dk_ex_ok) as (s & t & H1 & H2 & H3).
  change (i32 (sb_logstart sb0)) with 2 in H2, H3. rewrite dk_ex_hdr, hb_n_ex in H2.
  rewrite dk_ex_hdr, hb_homes_ex in H3.
  destruct (H3 40) as (i & H4 & H5 & H6); [by apply list_elem_of_singleton|].
  exists s, t, i. exact (conj H1 (conj H2 (conj H4 (conj H5 H6)))).
Defined.

(** [crash_op], the test hook that stops the machine at the commit point. *)
Lemma crash_op_run me dev sb s L v d docommit :
  txn me dev sb s L v d [] -> outstanding L = 1 -> committing L = 0 -> docommit = 0 \/ docommit = 1 ->
  wp_panic (crash_op me dev docommit) s (fun _ s' t =>
    forall k, disk_block (disks (lbio s')) k =
      apply_writes (if (docommit =? 1) && (0 <? lh_n L)
                    then log_writes dev L v ++ [((dev, start L), hdr L (v (dev, start L)))]
                    else []) d k).
Proof.
  intros T Hout Hcom Hdc. pose proof (tx_dev _ _ _ _ _ _ _ _ T) as Hdev.
  pose proof (tx_log _ _ _ _ _ _ _ _ T) as HL. pose proof (tx_lc _ _ _ _ _ _ _ _ T) as HLC.
  pose proof (lookup_lt_Some _ _ _ HL) as Hlt. set (L' := set_committing 1 (set_outstanding 0 L)).
  assert (log_ok L') as Hok by (by destruct (tx_ok _ _ _ _ _ _ _ _ T)).
  unfold crash_op. apply wp_panic_bind. eapply (wp_logget _ _ _ _ _ _ _ HLC dev L); [lia|done|].
  replace (_ || _) with false by (symmetry; bools; lia). rewrite Hout, Hcom.
  change (ctrue 0) with false. change (1 - 1) with 0. change (1 =? 0) with false. change (0 =? 0) with true. cbv iota.
  apply wp_panic_bind. eapply (wp_logassign _ _ _ _ _ _ _ HLC dev L); [lia|done|]. intros s1 H1 _.
  apply wp_panic_bind. wp_step. eapply (wp_logassign _ _ _ _ _ _ _ H1); [lia|by apply list_lookup_insert_eq|].
  intros s2 H2 _. rewrite list_insert_insert_eq in H2. fold L' in H2. wp_step. apply wp_panic_bind.
  destruct Hdc as [-> | ->]; [change (ctrue (Z.land 0 1)) with false|change (ctrue (Z.land 1 1)) with true];
    cbn [andb Z.eqb Pos.eqb].
  { wp_step. unfold wp_panic, panic. destruct H2 as [_ [l HB]]. intros k. apply (bc_disk _ _ _ _ _ _ _ HB). }
  wp_step. apply wp_kputs. intros t _. wp_step.
  eapply (wp_logget _ _ _ _ _ _ _ H2 dev L'); [lia|by apply list_lookup_insert_eq|].
  change (lh_n L') with (lh_n L). destruct (Z.ltb_spec 0 (lh_n L)) as [Hn|Hn].
  2:{ wp_step. unfold wp_panic, panic. destruct H2 as [_ [l HB]]. intros k. apply (bc_disk _ _ _ _ _ _ _ HB). }
  assert (forall k, in_log dev L' k -> refs dev L [] k = 0) as Hreg
    by (intros k Hk; by apply (txn_region _ _ _ _ _ _ _ _ T k)).
  assert (0 < free dev L []) as Hf by (unfold free; pose proof (tx_room _ _ _ _ _ _ _ _ T); simpl; lia).
  wp_step. eapply wp_mono; [eapply (write_log_spec me dev _ L' s2 _ _ _ _ _ H2); try done;
    first [lia|by apply list_lookup_insert_eq|apply txn_idle|exact (refs_pinned _ _ _ _ _ _ _ T)]|].
  cbv beta. intros [] s3 t3 [_ H3].
  eapply wp_mono; [eapply (write_head_spec me dev _ L' s3 _ _ _ _ _ H3); try done;
    first [lia|by apply list_lookup_insert_eq|apply txn_idle]|].
  cbv beta. intros [] s4 t4 [_ H4]. unfold wp_panic, panic. destruct H4 as [_ [l HB]].
  intros k. rewrite (bc_disk _ _ _ _ _ _ _ HB), log_writes_hdr, apply_writes_app. done.
Qed.

(** The content of the disk once the header is on it. *)
Lemma txn_committed me dev sb s L v d : txn me dev sb s L v d [] ->
  let D := apply_writes (if 0 <? lh_n L then log_writes dev L v ++ [((dev, start L), hdr L (v (dev, start L)))]
                         else []) d in
  disk_ok dev (geometry dev sb) D /\ same dev L (recovered dev (geometry dev sb) D) v.
Proof.
  intros T D. pose proof (tx_start _ _ _ _ _ _ _ _ T) as Hst. pose proof (txn_vhk _ _ _ _ _ _ _ T) as Hv.
  pose proof (tx_clear _ _ _ _ _ _ _ _ T) as Hc. rewrite (txn_same _ _ _ _ _ _ _ T).
  subst D. destruct (Z.ltb_spec 0 (lh_n L)) as [Hn|Hn].
  - rewrite apply_writes_app, Hst in *. split.
    + apply (D2_ok dev (geometry dev sb) L d v); try apply T; try done; intros k; eapply LC_blk_ok, T.
    + apply (D2_recovered dev (geometry dev sb) L d v); try apply T; try done; [intros k; eapply LC_blk_ok, T|].
      intros k Hk Hh. apply T; [by rewrite (txn_in_log _ _ _ _ _ _ _ T)|done|apply not_elem_of_nil].
  - simpl. split; [apply T|]. rewrite Hst in Hc. rewrite (disk_log_empty dev (geometry dev sb) d Hc).
    intros k Hk. symmetry. apply T; [by rewrite (txn_in_log _ _ _ _ _ _ _ T)| |apply not_elem_of_nil].
    intros [_ Hin]. rewrite (homes_empty _ _ _ _ _ _ _ T) in Hin by lia. by apply not_elem_of_nil in Hin.
Qed.

(** The crash-test hook stops exactly at the commit point: it panics, and
    recovery finds the contents of the transaction if [docommit] was set, and
    the contents before it otherwise. *)
Theorem crash_op_recovers me me' dev sb s L v d docommit :
  txn me dev sb s L v d [] -> outstanding L = 1 -> committing L = 0 -> docommit = 0 \/ docommit = 1 ->
  exists msg s' t, crash_op me dev docommit s = Panic msg s' t /\
    forall dk, reboots me' dev sb (disks (lbio s')) dk ->
      exists s2 t2, initlog me' dev sb (boot dk) = Ok tt s2 t2 /\
        same dev L (disk_block (disks (lbio s2))) (if docommit =? 1 then v else d).
Proof.
  intros T Hout Hcom Hdc. pose proof (crash_op_run _ _ _ _ _ _ _ _ T Hout Hcom Hdc) as Hrun.
  unfold wp_panic in Hrun. destruct (crash_op me dev docommit s) as [| msg s' t | | |]; try done.
  exists msg, s', t. split; [done|]. intros dk Hre. pose proof (tx_dev _ _ _ _ _ _ _ _ T) as Hdev.
  assert (let D := apply_writes (if (docommit =? 1) && (0 <? lh_n L)
              then log_writes dev L v ++ [((dev, start L), hdr L (v (dev, start L)))] else []) d in
    disk_ok dev (geometry dev sb) D /\
    same dev L (recovered dev (geometry dev sb) D) (if docommit =? 1 then v else d)) as [Hok Hsame].
  { destruct Hdc as [-> | ->]; cbn [Z.eqb Pos.eqb andb]; [|by apply (txn_committed _ _ _ _ _ _ _ T)].
    simpl. pose proof (tx_clear _ _ _ _ _ _ _ _ T) as Hc. rewrite (tx_start _ _ _ _ _ _ _ _ T) in Hc.
    rewrite (disk_log_empty dev (geometry dev sb) d Hc). by split; [apply T|]. }
  destruct (reboot_recovers me' dev sb Hdev _ (disks (lbio s')) dk (fun k => eq_sym (Hrun k)) Hok Hre)
    as (s2 & t2 & Hrun2 & H2).
  exists s2, t2. split; [done|]. apply (txn_same _ _ _ _ _ _ _ T) in H2. intros k Hk. by rewrite H2, Hsame.
Qed.

Lemma crash_op_recovers_witness : exists s L v d msg s' t,
  v (0, 40) <> d (0, 40) /\ crash_op 1 0 1 s = Panic msg s' t /\
  exists s2 t2, initlog 2 0 sb0 (boot (disks (lbio s'))) = Ok tt s2 t2 /\
    same 0 L (disk_block (disks (lbio s2))) v.
Proof.
  destruct txn_example as (s & L & v & d & T & Ho & Hc & _ & Hv & Hd).
  destruct (crash_op_recovers 1 2 0 sb0 s L v d 1 T Ho Hc (or_intror eq_refl)) as (msg & s' & t & H1 & H2).
  exists s, L, v, d, msg, s', t. split; [rewrite Hv, Hd; discriminate|]. split; [exact H1|].
  exact (H2 _ (reboots_refl 2 0 sb0 _)).
Defined.
