(* ===== verification/Virtio.v ===== *)
(** * The disk driver (kernel/virtio_disk.c, kernel/virtio.h)

    The state is one element of [disk[NDISK]], the one of disk [n], beside the
    buffers of the cache and what the device sees of kernel stacks.  A call of
    [virtio_disk_rw] holds [vdisk_lock] but while it sleeps, so it is a sequence
    of atomic steps that ends with the local variables the next one needs.
    What the device answers when its registers are read is an argument; the
    stores to them are kept in order. *)

From Stdlib Require Import ZArith Lia.
From stdpp Require Import base gmap list strings.
From S2P Require Import Prelude Sleeplock Bio.
Local Open Scope xv6_scope.

(** ** Registers, descriptors and rings (virtio.h) *)

Definition VIRTIO_MMIO_MAGIC_VALUE : Z := 0x000.
Definition VIRTIO_MMIO_VERSION : Z := 0x004.
Definition VIRTIO_MMIO_DEVICE_ID : Z := 0x008.
Definition VIRTIO_MMIO_VENDOR_ID : Z := 0x00c.
Definition VIRTIO_MMIO_DEVICE_FEATURES : Z := 0x010.
Definition VIRTIO_MMIO_DRIVER_FEATURES : Z := 0x020.
Definition VIRTIO_MMIO_GUEST_PAGE_SIZE : Z := 0x028.
Definition VIRTIO_MMIO_QUEUE_SEL : Z := 0x030.
Definition VIRTIO_MMIO_QUEUE_NUM_MAX : Z := 0x034.
Definition VIRTIO_MMIO_QUEUE_NUM : Z := 0x038.
Definition VIRTIO_MMIO_QUEUE_PFN : Z := 0x040.
Definition VIRTIO_MMIO_QUEUE_NOTIFY : Z := 0x050.
Definition VIRTIO_MMIO_STATUS : Z := 0x070.

Definition VIRTIO_CONFIG_S_ACKNOWLEDGE : Z := 1.
Definition VIRTIO_CONFIG_S_DRIVER : Z := 2.
Definition VIRTIO_CONFIG_S_DRIVER_OK : Z := 4.
Definition VIRTIO_CONFIG_S_FEATURES_OK : Z := 8.

(** Feature bits: BLK_F_RO, BLK_F_SCSI, BLK_F_CONFIG_WCE, BLK_F_MQ,
    F_ANY_LAYOUT, RING_F_EVENT_IDX, RING_F_INDIRECT_DESC, in the order the
    driver turns them off. *)
Definition unwanted_features : list Z := [5; 7; 11; 12; 27; 29; 28].

Definition NUM : nat := 8.
Definition VRING_DESC_F_NEXT : Z := 1.
Definition VRING_DESC_F_WRITE : Z := 2.
Definition VIRTIO_BLK_T_IN : Z := 0.
Definition VIRTIO_BLK_T_OUT : Z := 1.

(** What the driver hands to the device are pointers to three kinds of objects:
    [buf0] on the kernel stack of the calling process (after [kvmpa]),
    [b->data], and [&info[i].status]. *)
Inductive vaddr := ANull | AStack (p : nat) | AData (b : nat) | AStatus (i : nat).

Record VRingDesc := VDesc { d_addr : vaddr; d_len : Z; d_flags : Z; d_next : Z }.
Record VRingUsedElem := UsedElem { ue_id : Z; ue_len : Z }.
Record UsedArea := Used { ua_flags : Z; ua_id : Z; ua_elems : list VRingUsedElem }.

(** struct virtio_blk_outhdr of [virtio_disk_rw] *)
Record virtio_blk_outhdr := OutHdr { oh_type : Z; oh_reserved : Z; oh_sector : Z }.

(** ** struct disk *)

Record vdisk_info := Info { in_b : option nat; in_status : Z }.
Record vdisk := VDisk {
  v_desc : list VRingDesc; v_avail : list Z; v_used : UsedArea;
  v_free : list Z; v_used_idx : Z; v_info : list vdisk_info; v_init : Z }.

Definition set_v_desc x (d : vdisk) := VDisk x (v_avail d) (v_used d) (v_free d) (v_used_idx d) (v_info d) (v_init d).
Definition set_v_avail x (d : vdisk) := VDisk (v_desc d) x (v_used d) (v_free d) (v_used_idx d) (v_info d) (v_init d).
Definition set_v_used x (d : vdisk) := VDisk (v_desc d) (v_avail d) x (v_free d) (v_used_idx d) (v_info d) (v_init d).
Definition set_v_free x (d : vdisk) := VDisk (v_desc d) (v_avail d) (v_used d) x (v_used_idx d) (v_info d) (v_init d).
Definition set_v_used_idx x (d : vdisk) := VDisk (v_desc d) (v_avail d) (v_used d) (v_free d) x (v_info d) (v_init d).
Definition set_v_info x (d : vdisk) := VDisk (v_desc d) (v_avail d) (v_used d) (v_free d) (v_used_idx d) x (v_init d).
Definition set_v_init x (d : vdisk) := VDisk (v_desc d) (v_avail d) (v_used d) (v_free d) (v_used_idx d) (v_info d) x.

Definition desc0 : VRingDesc := VDesc ANull 0 0 0.
Definition set_d_addr x (d : VRingDesc) := VDesc x (d_len d) (d_flags d) (d_next d).
Definition used0 : UsedArea := Used 0 0 (replicate NUM (UsedElem 0 0)).

(** The disk with the buffers, the headers on kernel stacks, and the stores to
    the device's registers. *)
Record vstate := VState {
  vd : vdisk; vbufs : list buf; stacks : gmap nat virtio_blk_outhdr; mmio : list (Z * Z) }.

Definition on_vd (f : vdisk -> vdisk) : M vstate unit :=
  modify (fun s => VState (f (vd s)) (vbufs s) (stacks s) (mmio s)).
Definition put_header (p : nat) (h : virtio_blk_outhdr) : M vstate unit :=
  modify (fun s => VState (vd s) (vbufs s) (<[p := h]> (stacks s)) (mmio s)).
Definition store (r x : Z) : M vstate unit :=
  modify (fun s => VState (vd s) (vbufs s) (stacks s) (mmio s ++ [(r, x)])).

Definition set_disk (x : Z) (b : buf) : buf :=
  Buf (valid b) x (dev b) (blockno b) (lock b) (refcnt b) (prev b) (next b) (data b).
Definition vderef (b : nat) : M vstate buf := fetch (fun s => vbufs s !! b).
Definition vassign (b : nat) (f : buf -> buf) : M vstate unit :=
  _ <- vderef b ;; modify (fun s => VState (vd s) (alter f b (vbufs s)) (stacks s) (mmio s)).

Definition free_get (i : nat) : M vstate Z := fetch (fun s => v_free (vd s) !! i).
Definition free_put (i : nat) (x : Z) : M vstate unit := on_vd (fun d => set_v_free (<[i := x]> (v_free d)) d).
Definition desc_get (i : nat) : M vstate VRingDesc := fetch (fun s => v_desc (vd s) !! i).
Definition desc_put (i : nat) (x : VRingDesc) : M vstate unit :=
  _ <- desc_get i ;; on_vd (fun d => set_v_desc (<[i := x]> (v_desc d)) d).
Definition info_get (i : nat) : M vstate vdisk_info := fetch (fun s => v_info (vd s) !! i).
Definition info_put (i : nat) (x : vdisk_info) : M vstate unit :=
  _ <- info_get i ;; on_vd (fun d => set_v_info (<[i := x]> (v_info d)) d).
Definition avail_get (i : nat) : M vstate Z := fetch (fun s => v_avail (vd s) !! i).
Definition avail_put (i : nat) (x : Z) : M vstate unit :=
  _ <- avail_get i ;; on_vd (fun d => set_v_avail (<[i := x]> (v_avail d)) d).

Section Driver.
Context (n : nat).

(** ** Initialisation

    [reg] is what reading a register answers, [pages] the address of
    [disk[n].pages]. *)

Definition virtio_disk_init (reg : Z -> Z) (pages : Z) : M vstate unit :=
  i <- get (fun s => v_init (vd s)) ;;
  if ctrue i then ret tt
  else
    kputs "virtio disk init " ;;; emit (EPutc (48 + Z.of_nat n)) ;;; emit (EPutc 10) ;;;
    if negb (reg VIRTIO_MMIO_MAGIC_VALUE =? 0x74726976) || negb (reg VIRTIO_MMIO_VERSION =? 1)
       || negb (reg VIRTIO_MMIO_DEVICE_ID =? 2) || negb (reg VIRTIO_MMIO_VENDOR_ID =? 0x554d4551)
    then panic "could not find virtio disk"
    else
      let status := VIRTIO_CONFIG_S_ACKNOWLEDGE in
      store VIRTIO_MMIO_STATUS status ;;;
      let status := Z.lor status VIRTIO_CONFIG_S_DRIVER in
      store VIRTIO_MMIO_STATUS status ;;;
      let features := fold_left (fun f k => Z.land f (Z.lnot (Z.shiftl 1 k))) unwanted_features (reg VIRTIO_MMIO_DEVICE_FEATURES) in
      store VIRTIO_MMIO_DRIVER_FEATURES features ;;;
      let status := Z.lor status VIRTIO_CONFIG_S_FEATURES_OK in
      store VIRTIO_MMIO_STATUS status ;;;
      let status := Z.lor status VIRTIO_CONFIG_S_DRIVER_OK in
      store VIRTIO_MMIO_STATUS status ;;;
      store VIRTIO_MMIO_GUEST_PAGE_SIZE 4096 ;;;
      store VIRTIO_MMIO_QUEUE_SEL 0 ;;;
      let max := reg VIRTIO_MMIO_QUEUE_NUM_MAX in
      if max =? 0 then panic "virtio disk has no queue 0"
      else if max <? Z.of_nat NUM then panic "virtio disk max queue too short"
      else
        store VIRTIO_MMIO_QUEUE_NUM (Z.of_nat NUM) ;;;
        on_vd (fun d => set_v_desc (replicate NUM desc0) (set_v_avail (replicate (2 + NUM) 0) (set_v_used used0 d))) ;;;
        store VIRTIO_MMIO_QUEUE_PFN (u32 (Z.shiftr pages 12)) ;;;
        for_all (seq 0 NUM) (fun i => free_put i 1) ;;;
        on_vd (set_v_init 1).

(** ** Descriptors *)

(** find a free descriptor, mark it non-free, return its index. *)
Definition alloc_desc : M vstate (option nat) :=
  for_each (seq 0 NUM) (fun i =>
    f <- free_get i ;;
    if ctrue f then free_put i 0 ;;; ret (inr i) else ret (inl tt)).

(** mark a descriptor as free. *)
Definition free_desc (i : nat) : M vstate unit :=
  if (NUM <=? i)%nat then panic "virtio_disk_intr 1"
  else
    f <- free_get i ;;
    if ctrue f then panic "virtio_disk_intr 2"
    else
      d <- desc_get i ;;
      desc_put i (set_d_addr ANull d) ;;;
      free_put i 1 ;;;
      wakeup (ChDesc n).

(** free a chain of descriptors.  Freeing one twice panics, so [NUM] rounds
    are enough. *)
Fixpoint free_chain (fuel : nat) (i : nat) : M vstate unit :=
  match fuel with
  | O => diverge
  | S fuel' =>
      free_desc i ;;;
      d <- desc_get i ;;
      if ctrue (Z.land (d_flags d) VRING_DESC_F_NEXT) then free_chain fuel' (Z.to_nat (d_next d)) else ret tt
  end.

(** [idx] holds the descriptors the loop has got so far. *)
Fixpoint alloc_descs (k : nat) (idx : list nat) : M vstate (option (list nat)) :=
  match k with
  | O => ret (Some idx)
  | S k' =>
      r <- alloc_desc ;;
      match r with
      | Some i => alloc_descs k' (idx ++ [i])
      | None => for_all idx free_desc ;;; ret None
      end
  end.
Definition alloc3_desc : M vstate (option (list nat)) := alloc_descs 3 [].

(** ** Requests *)

(** Where [virtio_disk_rw] sleeps: for descriptors, or for the disk with
    [idx[0]] in hand. *)
Inductive rwcont := ForDesc | ForDisk (idx0 : nat).

(** From the loop that waits for the disk on. *)
Definition rw_wait (b idx0 : nat) : M vstate (unit + rwcont) :=
  bb <- vderef b ;;
  if disk bb =? 1 then ret (inr (ForDisk idx0))
  else
    i <- info_get idx0 ;;
    info_put idx0 (Info None (in_status i)) ;;;
    free_chain (S NUM) idx0 ;;;
    ret (inl tt).

(** Formatting the descriptors, up to the notification of the device. *)
Definition rw_submit (p b : nat) (write : bool) (i0 i1 i2 : nat) : M vstate unit :=
  bb <- vderef b ;;
  let sector := u32 (blockno bb * (Z.of_nat BSIZE / 512)) in
  put_header p (OutHdr (if write then VIRTIO_BLK_T_OUT else VIRTIO_BLK_T_IN) 0 sector) ;;;
  desc_put i0 (VDesc (AStack p) 16 VRING_DESC_F_NEXT (Z.of_nat i1)) ;;;
  desc_put i1 (VDesc (AData b) (Z.of_nat BSIZE) (Z.lor (if write then 0 else VRING_DESC_F_WRITE) VRING_DESC_F_NEXT) (Z.of_nat i2)) ;;;
  i <- info_get i0 ;;
  info_put i0 (Info (in_b i) 0) ;;;
  desc_put i2 (VDesc (AStatus i0) 1 VRING_DESC_F_WRITE 0) ;;;
  vassign b (set_disk 1) ;;;
  i <- info_get i0 ;;
  info_put i0 (Info (Some b) (in_status i)) ;;;
  a <- avail_get 1 ;;
  avail_put (2 + Z.to_nat (a mod Z.of_nat NUM)) (Z.of_nat i0) ;;;
  avail_put 1 (u16 (a + 1)) ;;;
  store VIRTIO_MMIO_QUEUE_NOTIFY 0.

Definition virtio_disk_rw (p b : nat) (write : bool) : M vstate (unit + rwcont) :=
  r <- alloc3_desc ;;
  match r with
  | Some [i0; i1; i2] => rw_submit p b write i0 i1 i2 ;;; rw_wait b i0
  | _ => ret (inr ForDesc)
  end.

(** ** Completion *)

(** The counters are compared modulo [NUM], so the loop runs less than [NUM]
    times. *)
Fixpoint intr_loop (fuel : nat) : M vstate unit :=
  match fuel with
  | O => diverge
  | S fuel' =>
      d <- get vd ;;
      if v_used_idx d mod Z.of_nat NUM =? ua_id (v_used d) mod Z.of_nat NUM then ret tt
      else
        e <- fetch (fun s => ua_elems (v_used (vd s)) !! Z.to_nat (v_used_idx (vd s))) ;;
        i <- info_get (Z.to_nat (ue_id e)) ;;
        if negb (in_status i =? 0) then panic "virtio_disk_intr status"
        else
          b <- fetch (fun _ => in_b i) ;;
          vassign b (set_disk 0) ;;;
          wakeup (ChBuf b) ;;;
          on_vd (fun d => set_v_used_idx ((v_used_idx d + 1) mod Z.of_nat NUM) d) ;;;
          intr_loop fuel'
  end.
Definition virtio_disk_intr : M vstate unit := intr_loop NUM.

End Driver.
