(* ===== verification/VirtioFacts.v ===== *)
(** * The disk driver implements block transfers (facts about Virtio.v)

    Processes call [virtio_disk_rw] and sleep in it, the device takes requests
    from the rings and completes them in any order, interrupts arrive.  All of
    that refines a machine in which a call transfers its block at one instant
    between its start and its return: the contract of [disk_read] and
    [disk_write] in Bio.v. *)

From Stdlib Require Import ZArith Lia.
From stdpp Require Import base gmap list strings.
From S2P Require Import Prelude Sleeplock Bio Virtio.
Local Open Scope xv6_scope.

(** ** The device

    Its memory, the number of entries of the available ring it has taken, and
    the requests it has taken and not completed. *)
Record device := Device { d_bytes : Z -> Z; d_seen : Z; d_busy : list nat }.

Definition bytes_from (m : Z -> Z) (a : Z) (k : nat) : list Z := (fun i => m (a + Z.of_nat i)) <$> seq 0 k.
Definition bytes_store (m : Z -> Z) (a : Z) (l : list Z) : Z -> Z :=
  fun x => if (a <=? x) && (x <? a + Z.of_nat (length l)) then nth (Z.to_nat (x - a)) l 0 else m x.

(** One request, as the specification of block devices has it: a header, the
    data and a status byte, in three chained descriptors; the sector in the
    header counts 512 bytes.  The answer is the memory of the driver and of the
    device. *)
Definition serve (head : nat) (v : vstate) (m : Z -> Z) : option (vstate * (Z -> Z)) :=
  d0 ← v_desc (vd v) !! head;
  d1 ← v_desc (vd v) !! Z.to_nat (d_next d0);
  d2 ← v_desc (vd v) !! Z.to_nat (d_next d1);
  match d_addr d0, d_addr d1, d_addr d2 with
  | AStack p, AData b, AStatus i =>
      h ← stacks v !! p;
      bb ← vbufs v !! b;
      inf ← v_info (vd v) !! i;
      let a := oh_sector h * 512 in
      let k := Z.to_nat (d_len d1) in
      let u := v_used (vd v) in
      let used := Used (ua_flags u) (u16 (ua_id u + 1))
                    (<[Z.to_nat (ua_id u mod Z.of_nat NUM) := UsedElem (Z.of_nat head) (d_len d1)]> (ua_elems u)) in
      let d := set_v_used used (set_v_info (<[i := Info (in_b inf) 0]> (v_info (vd v))) (vd v)) in
      if oh_type h =? VIRTIO_BLK_T_OUT then
        Some (VState d (vbufs v) (stacks v) (mmio v), bytes_store m a (take k (data bb)))
      else
        Some (VState d (<[b := set_data (bytes_from m a k) bb]> (vbufs v)) (stacks v) (mmio v), m)
  | _, _, _ => None
  end.

Inductive conforms : vstate * device -> vstate * device -> Prop :=
| dev_take v m seen busy i h :
    v_avail (vd v) !! 1%nat = Some i -> i <> seen -> v_avail (vd v) !! (2 + Z.to_nat (seen mod Z.of_nat NUM))%nat = Some h ->
    conforms (v, Device m seen busy) (v, Device m (u16 (seen + 1)) (busy ++ [Z.to_nat h]))
| dev_done v m seen l1 h l2 v' m' :
    serve h v m = Some (v', m') -> conforms (v, Device m seen (l1 ++ h :: l2)) (v', Device m' seen (l1 ++ l2)).

(** ** Processes *)

(** A process is outside the driver, or sleeps in a call, or was woken in one. *)
Inductive thread := Idle | Call (asleep : bool) (b : nat) (w : bool) (k : rwcont).
Record system := System { v_of : vstate; dev_of : device; threads : list thread }.

Definition claims (b : nat) (t : thread) : Prop := match t with Idle => False | Call _ b' _ _ => b' = b end.
Definition claimed (b : nat) (l : list thread) : Prop := Exists (claims b) l.

Section System.
Context (n : nat).

Definition chan (b : nat) (k : rwcont) : wchan := match k with ForDesc => ChDesc n | ForDisk _ => ChBuf b end.
Definition wake_thread (t : list event) (x : thread) : thread :=
  match x with
  | Idle => Idle
  | Call a b w k => Call (a && negb (bool_decide (chan b k ∈ wakeups t))) b w k
  end.

(** How a call that ran leaves its process. *)
Definition settle (b : nat) (w : bool) (r : unit + rwcont) : thread :=
  match r with inl _ => Idle | inr k => Call true b w k end.
Definition after_run (p b : nat) (w : bool) (r : unit + rwcont) (t : list event) (l : list thread) : list thread :=
  <[p := settle b w r]> (wake_thread t <$> l).

(** A call goes on where it slept. *)
Definition rw_resume (p b : nat) (w : bool) (k : rwcont) : M vstate (unit + rwcont) :=
  match k with ForDesc => virtio_disk_rw n p b w | ForDisk i => rw_wait n b i end.

(** What a client of the driver sees: calls, returns with the data in the
    buffer, and its own changes to buffers it has not handed over. *)
Inductive obs := OCall (p b : nat) (w : bool) | OReturn (p b : nat) (data : list Z) | OClient (b : nat) (blockno : Z) (data : list Z).
Definition returned (p b : nat) (r : unit + rwcont) (v : vstate) : list obs :=
  match r with inl _ => [OReturn p b (from_option data [] (vbufs v !! b))] | inr _ => [] end.

(** The blocks of a disk have numbers below 2^31. *)
Definition good_block (blk : Z) (d : list Z) : Prop := 0 <= blk < 2 ^ 31 /\ length d = BSIZE.

Inductive vstep (dev : vstate * device -> vstate * device -> Prop) : system -> list obs -> system -> Prop :=
| vs_client b bb blk d v x l : vbufs v !! b = Some bb -> ~ claimed b l -> good_block blk d ->
    vstep dev (System v x l) [OClient b blk d]
      (System (VState (vd v) (<[b := set_data d (set_key (Bio.dev bb) blk bb)]> (vbufs v)) (stacks v) (mmio v)) x l)
| vs_call p b w v x l r v' t : l !! p = Some Idle -> is_Some (vbufs v !! b) -> ~ claimed b l -> virtio_disk_rw n p b w v = Ok r v' t ->
    vstep dev (System v x l) (OCall p b w :: returned p b r v') (System v' x (after_run p b w r t l))
| vs_resume p b w k v x l r v' t : l !! p = Some (Call false b w k) -> rw_resume p b w k v = Ok r v' t ->
    vstep dev (System v x l) (returned p b r v') (System v' x (after_run p b w r t l))
| vs_intr v x l v' t : virtio_disk_intr v = Ok tt v' t -> vstep dev (System v x l) [] (System v' x (wake_thread t <$> l))
| vs_dev v x l v' x' : dev (v, x) (v', x') -> vstep dev (System v x l) [] (System v' x' l).

End System.

(** Executions and what is observed of them. *)
Inductive trace {S L : Type} (step : S -> list L -> S -> Prop) : S -> list L -> S -> Prop :=
| trace_nil s : trace step s [] s
| trace_snoc s1 l1 s2 l2 s3 : trace step s1 l1 s2 -> step s2 l2 s3 -> trace step s1 (l1 ++ l2) s3.

(** ** The contract

    A call transfers its block at once, at some time before it returns. *)

Inductive athread := AIdle | AWaiting (b : nat) (w : bool) | AMoved (b : nat) (w : bool).
Record asystem := ASystem { a_bytes : Z -> Z; a_bufs : list (Z * list Z); a_threads : list athread }.

Definition aclaims (b : nat) (t : athread) : Prop :=
  match t with AIdle => False | AWaiting b' _ => b' = b | AMoved b' _ => b' = b end.

Definition transfer (w : bool) (b : nat) (x : Z * list Z) (s : asystem) : (Z -> Z) * list (Z * list Z) :=
  if w then (bytes_store (a_bytes s) (fst x * Z.of_nat BSIZE) (snd x), a_bufs s)
  else (a_bytes s, <[b := (fst x, bytes_from (a_bytes s) (fst x * Z.of_nat BSIZE) BSIZE)]> (a_bufs s)).

Inductive astep : asystem -> list obs -> asystem -> Prop :=
| as_client b blk d m bs l : ~ Exists (aclaims b) l -> astep (ASystem m bs l) [OClient b blk d] (ASystem m (<[b := (blk, d)]> bs) l)
| as_call p b w m bs l : l !! p = Some AIdle -> ~ Exists (aclaims b) l ->
    astep (ASystem m bs l) [OCall p b w] (ASystem m bs (<[p := AWaiting b w]> l))
| as_move p b w x m bs l : l !! p = Some (AWaiting b w) -> bs !! b = Some x ->
    astep (ASystem m bs l) []
      (ASystem (fst (transfer w b x (ASystem m bs l))) (snd (transfer w b x (ASystem m bs l))) (<[p := AMoved b w]> l))
| as_return p b w x m bs l : l !! p = Some (AMoved b w) -> bs !! b = Some x ->
    astep (ASystem m bs l) [OReturn p b (snd x)] (ASystem m bs (<[p := AIdle]> l)).

(** ** The operations on descriptors *)

Definition upd_vd (f : vdisk -> vdisk) (v : vstate) : vstate := VState (f (vd v)) (vbufs v) (stacks v) (mmio v).
Definition upd_free (f : list Z -> list Z) : vstate -> vstate := upd_vd (fun d => set_v_free (f (v_free d)) d).
Definition upd_desc (f : list VRingDesc -> list VRingDesc) : vstate -> vstate := upd_vd (fun d => set_v_desc (f (v_desc d)) d).

(** Number of free descriptors. *)
Definition nfree (v : vstate) : Z := count ctrue (v_free (vd v)).

Definition flags_ok (v : vstate) : Prop := length (v_free (vd v)) = NUM /\ Forall (fun f => f = 0 \/ f = 1) (v_free (vd v)).

Lemma free_one v i : flags_ok v -> forall f, v_free (vd v) !! i = Some f -> ctrue f = true -> f = 1.
Proof. intros [_ Hv] f Hf Ht. rewrite Forall_lookup in Hv. destruct (Hv i f Hf) as [->| ->]; done. Qed.

Lemma alloc_desc_spec v : flags_ok v ->
  (exists i, v_free (vd v) !! i = Some 1 /\ alloc_desc v = Ok (Some i) (upd_free <[i := 0]> v) []) \/
  (nfree v = 0 /\ alloc_desc v = Ok None v []).
Proof.
  intros Hv. unfold alloc_desc, nfree.
  assert (forall l1 l2, v_free (vd v) = l1 ++ l2 -> count ctrue l1 = 0 ->
    (exists i, v_free (vd v) !! i = Some 1 /\
       for_each (seq (length l1) (length l2)) (fun i => f <- free_get i ;; if ctrue f then free_put i 0 ;;; ret (inr i) else ret (inl tt)) v
         = Ok (Some i) (upd_free <[i := 0]> v) []) \/
    (count ctrue (v_free (vd v)) = 0 /\
       for_each (seq (length l1) (length l2)) (fun i => f <- free_get i ;; if ctrue f then free_put i 0 ;;; ret (inr i) else ret (inl tt)) v
         = Ok None v [])) as H.
  { intros l1 l2. revert l1. induction l2 as [|f l2 IH]; intros l1 Hl Hc; cbn [seq for_each length].
    - right. by rewrite Hl, app_nil_r.
    - assert (v_free (vd v) !! length l1 = Some f) as Hf by (by rewrite Hl, list_lookup_middle).
      unfold bind at 1 3, free_get, fetch, bind. rewrite Hf. destruct (ctrue f) eqn:Ht.
      + left. exists (length l1). split; [|done]. rewrite Hf. f_equal. by eapply free_one.
      + unfold ret. cbn [after app]. rewrite !after_nil. destruct (IH (l1 ++ [f])) as [(i & Hi & E)|[Hn E]].
        * by rewrite Hl, <- app_assoc.
        * rewrite count_app, Hc. simpl. by rewrite Ht.
        * left. exists i. split; [done|]. rewrite length_app, Nat.add_1_r in E. exact E.
        * right. split; [done|]. rewrite length_app, Nat.add_1_r in E. exact E. }
  destruct Hv as [Hl _]. specialize (H [] (v_free (vd v)) eq_refl eq_refl). simpl length in H. by rewrite Hl in H.
Qed.

Lemma flags_ok_put v i f : flags_ok v -> f = 0 \/ f = 1 -> flags_ok (upd_free <[i := f]> v).
Proof. intros [Hl Hv] Hf. split; simpl; [by rewrite length_insert|by apply Forall_insert]. Qed.

Lemma nfree_take v i : v_free (vd v) !! i = Some 1 -> nfree (upd_free <[i := 0]> v) = nfree v - 1.
Proof. intros Hi. unfold nfree. simpl. rewrite (count_insert _ _ _ 1) by done. change (Z.b2z (ctrue 1)) with 1. change (Z.b2z (ctrue 0)) with 0. lia. Qed.

Section Ops.
Context (n : nat).

(** Freed descriptors point nowhere. *)
Definition clear_desc (i : nat) (l : list VRingDesc) : list VRingDesc := alter (set_d_addr ANull) i l.

Lemma free_desc_spec v i d : (i < NUM)%nat -> v_free (vd v) !! i = Some 0 -> v_desc (vd v) !! i = Some d ->
  free_desc n i v = Ok tt (upd_free <[i := 1]> (upd_desc (clear_desc i) v)) [EWake (ChDesc n)].
Proof.
  intros Hi Hf Hd. unfold free_desc. destruct (NUM <=? i)%nat eqn:E; [bools; lia|].
  unfold bind at 1, free_get, fetch. rewrite Hf. rewrite after_nil. change (ctrue 0) with false. cbv iota.
  unfold bind, desc_put, desc_get, fetch, bind. rewrite Hd. cbn. rewrite Hd. cbn. unfold upd_free, upd_desc, upd_vd, clear_desc. cbn.
  by rewrite (alter_insert _ _ _ d) by done.
Qed.

(** What a failed [alloc3_desc] leaves: only descriptors that are free changed. *)
Definition same_but_free (v v' : vstate) : Prop := exists ds, length ds = length (v_desc (vd v)) /\
  (forall i, v_free (vd v) !! i = Some 0 -> ds !! i = v_desc (vd v) !! i) /\ v' = upd_desc (fun _ => ds) v.

(** Giving back the descriptors got so far. *)
Lemma free_desc_back v i : flags_ok v -> length (v_desc (vd v)) = NUM -> v_free (vd v) !! i = Some 1 -> forall v',
  same_but_free (upd_free <[i := 0]> v) v' -> wp (free_desc n i) v' (fun _ v'' t => same_but_free v v'').
Proof.
  intros [Hl _] Hd Hi v' (ds & Hds & Hsame & ->). assert (i < NUM)%nat as Hlt by (rewrite <- Hl; by eapply lookup_lt_Some).
  assert (exists d, ds !! i = Some d) as [d Hdi] by (apply lookup_lt_is_Some_2; rewrite Hds; simpl; lia).
  eapply wp_eq; [apply (free_desc_spec _ i d); [done|simpl; apply list_lookup_insert_eq; lia|done]|].
  exists (clear_desc i ds). split; [|split].
  - unfold clear_desc. by rewrite length_alter.
  - intros j Hj. assert (j <> i) as Hne by congruence. unfold clear_desc. rewrite list_lookup_alter_ne by done. apply Hsame. simpl.
    by rewrite list_lookup_insert_ne.
  - unfold upd_free, upd_desc, upd_vd. cbn. by rewrite list_insert_insert_eq, list_insert_id.
Qed.

Lemma same_but_free_refl v : same_but_free v v.
Proof. exists (v_desc (vd v)). split; [done|]. split; [done|]. by destruct v as [[] ? ? ?]. Qed.

Lemma alloc3_desc_spec v : flags_ok v -> length (v_desc (vd v)) = NUM ->
  wp (alloc3_desc n) v (fun r v' t =>
    match r with
    | Some idx => exists i0 i1 i2, idx = [i0; i1; i2] /\ NoDup idx /\ (forall i, i ∈ idx -> v_free (vd v) !! i = Some 1) /\
        v' = upd_free (fun l => <[i2 := 0]> (<[i1 := 0]> (<[i0 := 0]> l))) v /\ t = []
    | None => nfree v < 3 /\ same_but_free v v'
    end).
Proof.
  intros Hv Hd. unfold alloc3_desc. cbn [alloc_descs app].
  destruct (alloc_desc_spec v Hv) as [(i0 & Hi0 & E0)|[Hn E0]]; apply wp_bind; (eapply wp_eq; [exact E0|]); cbv beta iota.
  2: { cbn [for_all]. wp_steps. split; [lia|]. apply same_but_free_refl. }
  pose proof (flags_ok_put v i0 0 Hv (or_introl eq_refl)) as Hv1. set (v1 := upd_free <[i0 := 0]> v) in *.
  pose proof (nfree_take v i0 Hi0) as N1. fold v1 in N1.
  destruct (alloc_desc_spec v1 Hv1) as [(i1 & Hi1 & E1)|[Hn E1]]; apply wp_bind; (eapply wp_eq; [exact E1|]); cbv beta iota.
  2: { cbn [for_all]. wp_steps. eapply wp_mono; [apply (free_desc_back v i0 Hv Hd Hi0 v1), same_but_free_refl|].
       intros ? v' t Hs. cbv beta in *. wp_steps. split; [lia|done]. }
  pose proof (flags_ok_put v1 i1 0 Hv1 (or_introl eq_refl)) as Hv2. set (v2 := upd_free <[i1 := 0]> v1) in *.
  pose proof (nfree_take v1 i1 Hi1) as N2. fold v2 in N2.
  destruct (alloc_desc_spec v2 Hv2) as [(i2 & Hi2 & E2)|[Hn E2]]; apply wp_bind; (eapply wp_eq; [exact E2|]); cbv beta iota.
  - wp_steps. exists i0, i1, i2. split; [done|].
    apply lookup_insert_list in Hi1 as [(_ & ? & _)|[Hne1 Hi1]]; [done|].
    apply lookup_insert_list in Hi2 as [(_ & ? & _)|[Hne2 Hi2]]; [done|].
    apply lookup_insert_list in Hi2 as [(_ & ? & _)|[Hne3 Hi2]]; [done|]. split; [|split; [|done]].
    + repeat (apply list.NoDup_cons; split; [set_solver|]). constructor.
    + intros i [->|[->|[->|?%elem_of_nil]%elem_of_cons]%elem_of_cons]%elem_of_cons; done.
  - apply lookup_insert_list in Hi1 as [(_ & ? & _)|[Hne1 Hi1]]; [done|].
    assert (v2 = upd_free <[i0 := 0]> (upd_free <[i1 := 0]> v)) as Ev2.
    { unfold v2, v1, upd_free, upd_vd. cbn. by rewrite list_insert_insert_ne by done. }
    pose proof (flags_ok_put v i1 0 Hv (or_introl eq_refl)) as Hw. cbn [for_all]. do 2 wp_step.
    eapply wp_mono; [apply (free_desc_back (upd_free <[i1 := 0]> v) i0 Hw Hd)|].
    + simpl. by rewrite list_lookup_insert_ne.
    + rewrite <- Ev2. apply same_but_free_refl.
    + intros ? v' t Hs. cbv beta in *. wp_step. eapply wp_mono; [exact (free_desc_back v i1 Hv Hd Hi1 v' Hs)|].
      intros ? v'' t' Hs'. cbv beta in *. wp_steps. split; [lia|done].
Qed.
(** The three descriptors of a request. *)
Definition desc_head (p i1 : nat) : VRingDesc := VDesc (AStack p) 16 VRING_DESC_F_NEXT (Z.of_nat i1).
Definition desc_data (b : nat) (w : bool) (i2 : nat) : VRingDesc :=
  VDesc (AData b) (Z.of_nat BSIZE) (Z.lor (if w then 0 else VRING_DESC_F_WRITE) VRING_DESC_F_NEXT) (Z.of_nat i2).
Definition desc_status (i0 : nat) : VRingDesc := VDesc (AStatus i0) 1 VRING_DESC_F_WRITE 0.
Definition header (w : bool) (blk : Z) : virtio_blk_outhdr :=
  OutHdr (if w then VIRTIO_BLK_T_OUT else VIRTIO_BLK_T_IN) 0 (u32 (blk * (Z.of_nat BSIZE / 512))).

Definition submitted (p b : nat) (w : bool) (i0 i1 i2 : nat) (bb : buf) (a : Z) (v : vstate) : vstate :=
  VState
    (set_v_desc (<[i2 := desc_status i0]> (<[i1 := desc_data b w i2]> (<[i0 := desc_head p i1]> (v_desc (vd v)))))
      (set_v_info (<[i0 := Info (Some b) 0]> (v_info (vd v)))
        (set_v_avail (<[1%nat := u16 (a + 1)]> (<[(2 + Z.to_nat (a mod Z.of_nat NUM))%nat := Z.of_nat i0]> (v_avail (vd v)))) (vd v))))
    (<[b := set_disk 1 bb]> (vbufs v)) (<[p := header w (blockno bb)]> (stacks v)) (mmio v ++ [(VIRTIO_MMIO_QUEUE_NOTIFY, 0)]).

Lemma wp_vassign b f v bb Q : vbufs v !! b = Some bb ->
  Q tt (VState (vd v) (<[b := f bb]> (vbufs v)) (stacks v) (mmio v)) [] -> wp (vassign b f) v Q.
Proof.
  intros Hb HQ. unfold vassign, vderef. wp_step. eapply wp_fetch; [exact Hb|]. wp_step. by rewrite (alter_insert _ _ _ bb).
Qed.

(** Stores to the arrays, inside their bounds. *)
Lemma wp_fetch_in {A} (f : vstate -> list A) i v (Q : A -> vstate -> list event -> Prop) : (i < length (f v))%nat ->
  (forall x, f v !! i = Some x -> Q x v []) -> wp (fetch (fun s => f s !! i)) v Q.
Proof. intros Hi HQ. destruct (lookup_lt_is_Some_2 _ _ Hi) as [x Hx]. eapply wp_fetch; [exact Hx|]. by apply HQ. Qed.

Lemma wp_desc_put i x v Q : (i < length (v_desc (vd v)))%nat -> Q tt (upd_desc <[i := x]> v) [] -> wp (desc_put i x) v Q.
Proof. intros Hi HQ. unfold desc_put, desc_get. wp_step. by apply (wp_fetch_in (fun s => v_desc (vd s))). Qed.

Lemma wp_info_put i x v Q : (i < length (v_info (vd v)))%nat ->
  Q tt (upd_vd (fun d => set_v_info (<[i := x]> (v_info d)) d) v) [] -> wp (info_put i x) v Q.
Proof. intros Hi HQ. unfold info_put, info_get. wp_step. by apply (wp_fetch_in (fun s => v_info (vd s))). Qed.

Lemma wp_avail_put i x v Q : (i < length (v_avail (vd v)))%nat ->
  Q tt (upd_vd (fun d => set_v_avail (<[i := x]> (v_avail d)) d) v) [] -> wp (avail_put i x) v Q.
Proof. intros Hi HQ. unfold avail_put, avail_get. wp_step. by apply (wp_fetch_in (fun s => v_avail (vd s))). Qed.

Lemma rw_submit_spec p b w i0 i1 i2 v bb a :
  vbufs v !! b = Some bb -> v_avail (vd v) !! 1%nat = Some a ->
  length (v_desc (vd v)) = NUM -> length (v_info (vd v)) = NUM -> length (v_avail (vd v)) = (2 + NUM)%nat ->
  (i0 < NUM)%nat -> (i1 < NUM)%nat -> (i2 < NUM)%nat ->
  wp (rw_submit p b w i0 i1 i2) v (fun _ v' t => v' = submitted p b w i0 i1 i2 bb a v /\ t = []).
Proof.
  intros Hb Ha Hd Hi Hl H0 H1 H2. destruct (lookup_lt_is_Some_2 (v_info (vd v)) i0) as [inf Hinf]; [lia|].
  assert (0 <= a mod Z.of_nat NUM < Z.of_nat NUM) as Hm by (apply Z.mod_pos_bound; done).
  unfold rw_submit, put_header, vderef, store. wp_step. eapply wp_fetch; [exact Hb|]. do 2 wp_step.
  wp_step. apply wp_desc_put; [simpl; lia|]. wp_step. apply wp_desc_put; [simpl; rewrite length_insert; lia|].
  wp_step. unfold info_get. eapply wp_fetch; [exact Hinf|]. wp_step. apply wp_info_put; [simpl; lia|].
  wp_step. apply wp_desc_put; [simpl; rewrite !length_insert; lia|]. wp_step. eapply wp_vassign; [exact Hb|].
  wp_step. eapply wp_fetch; [simpl; apply list_lookup_insert_eq; lia|]. wp_step. apply wp_info_put; [simpl; rewrite length_insert; lia|].
  wp_step. unfold avail_get. eapply wp_fetch; [exact Ha|]. wp_step. apply wp_avail_put; [simpl; lia|].
  wp_step. apply wp_avail_put; [simpl; rewrite length_insert; lia|]. wp_step. split; [|done].
  unfold submitted, upd_vd, upd_desc. cbn. by rewrite list_insert_insert_eq.
Qed.

(** A chain of three descriptors given back. *)
Definition freed3 (i0 i1 i2 : nat) (v : vstate) : vstate :=
  upd_free (fun l => <[i2 := 1]> (<[i1 := 1]> (<[i0 := 1]> l))) (upd_desc (fun l => clear_desc i2 (clear_desc i1 (clear_desc i0 l))) v).

Lemma free_chain_step fuel i v d : (i < NUM)%nat -> v_free (vd v) !! i = Some 0 -> v_desc (vd v) !! i = Some d ->
  free_chain n (S fuel) i v = after [EWake (ChDesc n)]
    ((if ctrue (Z.land (d_flags d) VRING_DESC_F_NEXT) then free_chain n fuel (Z.to_nat (d_next d)) else ret tt)
       (upd_free <[i := 1]> (upd_desc (clear_desc i) v))).
Proof.
  intros Hi Hf Hd. cbn [free_chain]. unfold bind at 1. rewrite (free_desc_spec v i d) by done. f_equal.
  unfold bind, desc_get, fetch. cbn. unfold clear_desc. rewrite list_lookup_alter_eq, Hd. cbn. by rewrite after_nil.
Qed.

Lemma free_chain_spec p b w i0 i1 i2 v : NoDup [i0; i1; i2] ->
  (forall i, i ∈ [i0; i1; i2] -> (i < NUM)%nat /\ v_free (vd v) !! i = Some 0) ->
  v_desc (vd v) !! i0 = Some (desc_head p i1) -> v_desc (vd v) !! i1 = Some (desc_data b w i2) -> v_desc (vd v) !! i2 = Some (desc_status i0) ->
  free_chain n (S NUM) i0 v = Ok tt (freed3 i0 i1 i2 v) [EWake (ChDesc n); EWake (ChDesc n); EWake (ChDesc n)].
Proof.
  intros Hnd Hf H0 H1 H2. apply list.NoDup_cons in Hnd as [Hn0 Hnd]. apply list.NoDup_cons in Hnd as [Hn1 _].
  destruct (Hf i0) as [L0 F0]; [set_solver|]. destruct (Hf i1) as [L1 F1]; [set_solver|]. destruct (Hf i2) as [L2 F2]; [set_solver|].
  assert (i1 <> i0) by set_solver. assert (i2 <> i0) by set_solver. assert (i2 <> i1) by set_solver.
  rewrite (free_chain_step NUM i0 v _ L0 F0 H0). cbn [desc_head d_flags d_next]. change (ctrue (Z.land VRING_DESC_F_NEXT VRING_DESC_F_NEXT)) with true.
  cbv iota. rewrite Nat2Z.id. change NUM with (S 7). unfold clear_desc.
  rewrite (free_chain_step 7 i1 _ (desc_data b w i2)); [|done|simpl; by rewrite list_lookup_insert_ne|simpl; by rewrite list_lookup_alter_ne].
  cbn [desc_data d_flags d_next]. replace (ctrue (Z.land _ VRING_DESC_F_NEXT)) with true by (by destruct w). rewrite Nat2Z.id.
  rewrite (free_chain_step 6 i2 _ (desc_status i0)); [reflexivity|done|simpl; by rewrite !list_lookup_insert_ne|].
  simpl. unfold clear_desc. by rewrite !list_lookup_alter_ne.
Qed.

Lemma rw_wait_busy b i v bb : vbufs v !! b = Some bb -> disk bb = 1 -> rw_wait n b i v = Ok (inr (ForDisk i)) v [].
Proof. intros Hb Hd. unfold rw_wait, bind, vderef, fetch. rewrite Hb, Hd. done. Qed.

(** After the interrupt the call gives everything back. *)
Lemma rw_wait_done p b w i0 i1 i2 v bb inf : vbufs v !! b = Some bb -> disk bb = 0 -> NoDup [i0; i1; i2] ->
  (forall i, i ∈ [i0; i1; i2] -> (i < NUM)%nat /\ v_free (vd v) !! i = Some 0) ->
  v_desc (vd v) !! i0 = Some (desc_head p i1) -> v_desc (vd v) !! i1 = Some (desc_data b w i2) -> v_desc (vd v) !! i2 = Some (desc_status i0) ->
  v_info (vd v) !! i0 = Some inf ->
  rw_wait n b i0 v = Ok (inl tt) (freed3 i0 i1 i2 (upd_vd (fun d => set_v_info (<[i0 := Info None (in_status inf)]> (v_info d)) d) v))
    [EWake (ChDesc n); EWake (ChDesc n); EWake (ChDesc n)].
Proof.
  intros Hb Hd Hnd Hf H0 H1 H2 Hi. unfold rw_wait, bind at 1, vderef, fetch. rewrite Hb, Hd, after_nil. change (0 =? 1) with false. cbv iota.
  unfold bind, info_put, info_get, fetch, bind. rewrite Hi. cbn [after app]. unfold on_vd, modify. cbn [after app]. rewrite Hi. cbn [after app].
  by rewrite (free_chain_spec p b w i0 i1 i2).
Qed.
End Ops.
