(* ===== verification/VirtioRefine.v ===== *)
(** * The disk driver refines its contract (facts about Virtio.v)

    The invariant of the rings, descriptors and requests, that every step keeps
    it, and the simulation of VirtioFacts.v's contract. *)

From Stdlib Require Import ZArith Lia.
From stdpp Require Import base gmap list strings.
From S2P Require Import Prelude Sleeplock Bio Virtio VirtioFacts.
Local Open Scope xv6_scope.

(** ** Requests in flight *)

Record req := Req { rp : nat; rb : nat; rw : bool; r0 : nat; r1 : nat; r2 : nat }.
#[global] Instance req_eq_dec : EqDecision req.
Proof. solve_decision. Defined.
Definition idxs (r : req) : list nat := [r0 r; r1 r; r2 r].
Definition all_idx (R : list req) : list nat := R ≫= idxs.
Arguments all_idx : simpl never.
Arguments idxs : simpl never.

(** What the driver's memory holds for a request; [C] are the heads of those
    that are complete. *)
Record req_ok (C : list nat) (v : vstate) (r : req) : Prop := {
  q_head : v_desc (vd v) !! r0 r = Some (desc_head (rp r) (r1 r));
  q_data : v_desc (vd v) !! r1 r = Some (desc_data (rb r) (rw r) (r2 r));
  q_status : v_desc (vd v) !! r2 r = Some (desc_status (r0 r));
  q_info : v_info (vd v) !! r0 r = Some (Info (Some (rb r)) 0);
  q_buf : exists bb, vbufs v !! rb r = Some bb /\ stacks v !! rp r = Some (header (rw r) (blockno bb)) /\
            disk bb = if bool_decide (r0 r ∈ C) then 0 else 1 }.

(** The heads of the requests: in the available ring ([A]), taken by the device
    ([F]), in the used ring ([U]), complete ([C]). *)
Record dinv (R : list req) (A F U C : list nat) (v : vstate) (x : device) : Prop := {
  di_desc : length (v_desc (vd v)) = NUM;
  di_info : length (v_info (vd v)) = NUM;
  di_alen : length (v_avail (vd v)) = (2 + NUM)%nat;
  di_elems : length (ua_elems (v_used (vd v))) = NUM;
  di_flen : length (v_free (vd v)) = NUM;
  di_nodup : NoDup (all_idx R);
  di_free : forall i, (i < NUM)%nat -> v_free (vd v) !! i = Some (if bool_decide (i ∈ all_idx R) then 0 else 1);
  di_bound : forall i, i ∈ all_idx R -> (i < NUM)%nat;
  di_procs : NoDup (rp <$> R);
  di_bufs : NoDup (rb <$> R);
  di_reqs : forall r, r ∈ R -> req_ok C v r;
  di_heads : A ++ F ++ U ++ C ≡ₚ r0 <$> R;
  di_seen : 0 <= d_seen x < 2 ^ 16;
  di_idx : v_avail (vd v) !! 1%nat = Some (u16 (d_seen x + Z.of_nat (length A)));
  di_avail : forall k h, A !! k = Some h -> v_avail (vd v) !! (2 + Z.to_nat ((d_seen x + Z.of_nat k) mod Z.of_nat NUM))%nat = Some (Z.of_nat h);
  di_busy : d_busy x = F;
  di_used_idx : 0 <= v_used_idx (vd v) < Z.of_nat NUM;
  di_used_id : ua_id (v_used (vd v)) mod Z.of_nat NUM = (v_used_idx (vd v) + Z.of_nat (length U)) mod Z.of_nat NUM;
  di_used : forall k h, U !! k = Some h ->
    exists e, ua_elems (v_used (vd v)) !! Z.to_nat ((v_used_idx (vd v) + Z.of_nat k) mod Z.of_nat NUM) = Some e /\ ue_id e = Z.of_nat h }.

Lemma nodup_key {X Y} (f : X -> Y) l x y : NoDup (f <$> l) -> x ∈ l -> y ∈ l -> f x = f y -> x = y.
Proof.
  induction l as [|z l IH]; intros Hnd Hx Hy E; [by apply elem_of_nil in Hx|].
  cbn in Hnd. apply list.NoDup_cons in Hnd as [Hz Hnd]. rewrite list_elem_of_fmap in Hz.
  apply elem_of_cons in Hx as [->|Hx]; apply elem_of_cons in Hy as [->|Hy]; [done|..|by apply IH].
  - destruct Hz. by exists y.
  - destruct Hz. by exists x.
Qed.

Lemma all_idx_cons r R : all_idx (r :: R) = idxs r ++ all_idx R.
Proof. done. Qed.

Lemma elem_of_all_idx i R : i ∈ all_idx R <-> exists r, r ∈ R /\ i ∈ idxs r.
Proof. unfold all_idx. rewrite list_elem_of_bind. naive_solver. Qed.

Lemma nodup_idx R i r r' : NoDup (all_idx R) -> r ∈ R -> r' ∈ R -> i ∈ idxs r -> i ∈ idxs r' -> r = r'.
Proof.
  induction R as [|z R IH]; intros Hnd Hr Hr' Hi Hi'; [by apply elem_of_nil in Hr|].
  rewrite all_idx_cons in Hnd. apply list.NoDup_app in Hnd as (_ & Hdis & Hnd).
  apply elem_of_cons in Hr as [->|Hr]; apply elem_of_cons in Hr' as [->|Hr']; [done|..|by apply IH].
  - destruct (Hdis i Hi). apply elem_of_all_idx. by exists r'.
  - destruct (Hdis i Hi'). apply elem_of_all_idx. by exists r.
Qed.

#[export] Instance all_idx_perm : Proper ((≡ₚ) ==> (≡ₚ)) all_idx.
Proof. intros R R' H. unfold all_idx. by rewrite H. Qed.

Lemma elem_of_idxs r : r0 r ∈ idxs r /\ r1 r ∈ idxs r /\ r2 r ∈ idxs r.
Proof. unfold idxs. set_solver. Qed.

Section Inv.
Context {R : list req} {A F U C : list nat} {v : vstate} {x : device} (Hv : dinv R A F U C v x).

Lemma few : (3 * length R <= NUM)%nat.
Proof.
  assert (length (all_idx R) = 3 * length R)%nat as <-.
  { clear. induction R as [|r l IH]; [done|]. rewrite all_idx_cons, length_app, IH. simpl. lia. }
  rewrite <- (length_seq NUM 0). apply submseteq_length, NoDup_submseteq; [apply Hv|].
  intros i Hi. apply elem_of_seq. pose proof (di_bound _ _ _ _ _ _ _ Hv i Hi). lia.
Qed.

Lemma few_heads : (length A + length F + length U + length C = length R)%nat.
Proof. pose proof (Permutation_length (di_heads _ _ _ _ _ _ _ Hv)) as E. rewrite !length_app, length_fmap in E. lia. Qed.

Lemma inv_flags : flags_ok v.
Proof.
  split; [apply Hv|]. apply Forall_lookup. intros i f Hf. pose proof (lookup_lt_Some _ _ _ Hf) as Hl. rewrite (di_flen _ _ _ _ _ _ _ Hv) in Hl.
  rewrite (di_free _ _ _ _ _ _ _ Hv i Hl) in Hf. case_match; injection Hf as <-; auto.
Qed.

Lemma inv_free_new i : v_free (vd v) !! i = Some 1 -> (i < NUM)%nat /\ i ∉ all_idx R.
Proof.
  intros Hi. pose proof (lookup_lt_Some _ _ _ Hi) as Hl. rewrite (di_flen _ _ _ _ _ _ _ Hv) in Hl. split; [done|].
  rewrite (di_free _ _ _ _ _ _ _ Hv i Hl) in Hi. case_bool_decide; done.
Qed.

Lemma inv_taken i : i ∈ all_idx R -> v_free (vd v) !! i = Some 0.
Proof. intros Hi. rewrite (di_free _ _ _ _ _ _ _ Hv i (di_bound _ _ _ _ _ _ _ Hv i Hi)). by rewrite bool_decide_true. Qed.

Lemma inv_nodup_heads : NoDup (A ++ F ++ U ++ C).
Proof.
  rewrite (di_heads _ _ _ _ _ _ _ Hv). pose proof (di_nodup _ _ _ _ _ _ _ Hv) as Hnd. clear Hv. revert Hnd.
  induction R as [|r l IH]; intros Hnd; [constructor|]. rewrite all_idx_cons in Hnd. apply list.NoDup_app in Hnd as (_ & Hdis & Hnd).
  cbn. apply list.NoDup_cons. split; [|by apply IH]. intros (r' & E & Hr')%list_elem_of_fmap.
  apply (Hdis (r0 r)); [apply elem_of_idxs|]. apply elem_of_all_idx. exists r'. split; [done|]. rewrite E. apply elem_of_idxs.
Qed.

Lemma inv_head h : h ∈ A ++ F ++ U ++ C -> exists r, r ∈ R /\ r0 r = h.
Proof. rewrite (di_heads _ _ _ _ _ _ _ Hv), list_elem_of_fmap. naive_solver. Qed.

End Inv.

(** ** Every operation keeps the invariant *)

Lemma req_ok_frame C C' v v' r : req_ok C v r ->
  (forall i, i ∈ idxs r -> v_desc (vd v') !! i = v_desc (vd v) !! i) -> v_info (vd v') !! r0 r = v_info (vd v) !! r0 r ->
  vbufs v' !! rb r = vbufs v !! rb r -> stacks v' !! rp r = stacks v !! rp r -> (r0 r ∈ C <-> r0 r ∈ C') -> req_ok C' v' r.
Proof.
  intros [H1 H2 H3 H4 (bb & H5 & H6 & H7)] Hd Hi Hb Hs HC. destruct (elem_of_idxs r) as (E0 & E1 & E2).
  split; [by rewrite Hd..|by rewrite Hi|]. exists bb. rewrite Hb, Hs, H7. by rewrite (bool_decide_ext _ _ HC).
Qed.

Lemma u16_mod_NUM z : u16 z mod Z.of_nat NUM = z mod Z.of_nat NUM.
Proof. unfold u16. apply Z.mod_mod_divide. by exists (2 ^ 13). Qed.

Lemma u16_shift z k : u16 (u16 z + k) = u16 (z + k).
Proof. unfold u16. apply Zplus_mod_idemp_l. Qed.

(** Slots of a ring that are less than [NUM] apart differ. *)
Lemma slot_ne z k m : 0 <= k -> 0 <= m -> k < Z.of_nat NUM -> m < Z.of_nat NUM -> k <> m ->
  Z.to_nat ((z + k) mod Z.of_nat NUM) <> Z.to_nat ((z + m) mod Z.of_nat NUM).
Proof. change (Z.of_nat NUM) with 8. intros. Z.div_mod_to_equations. lia. Qed.

Lemma slot_lt z : (Z.to_nat (z mod Z.of_nat NUM) < NUM)%nat.
Proof. unfold NUM. pose proof (Z.mod_pos_bound z (Z.of_nat 8)). lia. Qed.

Lemma not_in3 {X} (i a b c : X) : i ∉ [a; b; c] -> i <> a /\ i <> b /\ i <> c.
Proof. rewrite !not_elem_of_cons. tauto. Qed.

(** Three slots assigned at once. *)
Lemma lookup_insert3 {X} (l : list X) i0 i1 i2 a i : (i < length l)%nat ->
  <[i2 := a]> (<[i1 := a]> (<[i0 := a]> l)) !! i = if bool_decide (i ∈ [i0; i1; i2]) then Some a else l !! i.
Proof.
  intros Hi. case_bool_decide as E.
  - rewrite !list_lookup_insert, !length_insert. repeat case_decide; try done; [set_solver by lia|lia..].
  - apply not_in3 in E as (? & ? & ?). by rewrite !list_lookup_insert_ne by done.
Qed.

Lemma dinv_submit R A F U C v x p b w i0 i1 i2 bb a : dinv R A F U C v x ->
  NoDup [i0; i1; i2] -> (forall i, i ∈ [i0; i1; i2] -> v_free (vd v) !! i = Some 1) -> vbufs v !! b = Some bb -> v_avail (vd v) !! 1%nat = Some a ->
  p ∉ rp <$> R -> b ∉ rb <$> R ->
  dinv (Req p b w i0 i1 i2 :: R) (A ++ [i0]) F U C
    (submitted p b w i0 i1 i2 bb a (upd_free (fun l => <[i2 := 0]> (<[i1 := 0]> (<[i0 := 0]> l))) v)) x.
Proof.
  intros Hv Hnd Hfree Hb Ha Hp Hbn. pose proof (few_heads Hv) as Hfh. pose proof (few Hv) as Hfew.
  assert (forall i, i ∈ [i0; i1; i2] -> (i < NUM)%nat /\ i ∉ all_idx R) as Hnew by (intros i Hi; by apply (inv_free_new Hv), Hfree).
  assert (a = u16 (d_seen x + Z.of_nat (length A))) as -> by (pose proof (di_idx _ _ _ _ _ _ _ Hv); congruence).
  destruct (Hnew i0) as [L0 N0]; [set_solver|]. destruct (Hnew i1) as [L1 N1]; [set_solver|]. destruct (Hnew i2) as [L2 N2]; [set_solver|].
  assert (i1 <> i0 /\ i2 <> i0 /\ i2 <> i1) as (Ne1 & Ne2 & Ne3).
  { apply list.NoDup_cons in Hnd as [? Hnd]. apply list.NoDup_cons in Hnd as [? _]. set_solver. }
  pose proof (inv_head Hv) as Hhead.
  destruct Hv as [Ld Li La Le Lf Hnd' Hf Hbd Hpr Hbf Hrq Hhd Hsn Hix Hav Hby Hui Huid Hus].
  split; simpl; rewrite ?length_insert; rewrite ?u16_mod_NUM; try done.
  - rewrite all_idx_cons. apply list.NoDup_app. split; [done|]. split; [|done]. intros i Hi. by apply Hnew.
  - intros i Hi. rewrite all_idx_cons, lookup_insert3 by lia. rewrite (Hf i Hi). change (idxs _) with [i0; i1; i2].
    destruct (bool_decide (i ∈ [i0; i1; i2])) eqn:E; bools; [by rewrite bool_decide_true by (apply elem_of_app; by left)|].
    rewrite (bool_decide_ext (i ∈ [i0; i1; i2] ++ all_idx R) (i ∈ all_idx R)); [done|]. rewrite elem_of_app. tauto.
  - intros i Hi. rewrite all_idx_cons in Hi. apply elem_of_app in Hi as [Hi|Hi]; [by apply Hnew|by apply Hbd].
  - apply list.NoDup_cons. done.
  - apply list.NoDup_cons. done.
  - intros r [->|Hr]%elem_of_cons.
    + split; simpl.
      * rewrite !list_lookup_insert_ne by done. apply list_lookup_insert_eq. lia.
      * rewrite list_lookup_insert_ne by done. apply list_lookup_insert_eq. rewrite length_insert. lia.
      * apply list_lookup_insert_eq. rewrite !length_insert. lia.
      * apply list_lookup_insert_eq. lia.
      * exists (set_disk 1 bb). split; [apply list_lookup_insert_eq; by eapply lookup_lt_Some|].
        split; [by rewrite lookup_insert_eq|]. rewrite bool_decide_false; [done|]. intros HC.
        destruct (Hhead i0) as (r & Hr & <-); [set_solver|]. apply N0, elem_of_all_idx. exists r. split; [done|]. apply elem_of_idxs.
    + assert (forall i, i ∈ idxs r -> i ∉ [i0; i1; i2]) as Hdis.
      { intros i Hi Hin. apply (proj2 (Hnew i Hin)), elem_of_all_idx. by exists r. }
      eapply req_ok_frame; [by apply Hrq|..]; simpl.
      * intros i Hi. apply Hdis, not_in3 in Hi as (? & ? & ?). by rewrite !list_lookup_insert_ne by done.
      * destruct (not_in3 _ _ _ _ (Hdis _ (proj1 (elem_of_idxs r)))) as (? & ? & ?). by rewrite !list_lookup_insert_ne by done.
      * rewrite list_lookup_insert_ne; [done|]. intros ->. apply Hbn. by apply list_elem_of_fmap_2.
      * rewrite lookup_insert_ne; [done|]. intros ->. apply Hp. by apply list_elem_of_fmap_2.
      * done.
  - rewrite <- app_assoc. rewrite <- Hhd. simpl. by rewrite <- Permutation_middle.
  - rewrite list_lookup_insert_eq by (rewrite length_insert; lia). rewrite u16_shift. do 2 f_equal. rewrite length_app. simpl. lia.
  - intros k h Hk. rewrite list_lookup_insert_ne by lia. apply lookup_app_Some in Hk as [Hk|[Hk1 Hk]].
    + pose proof (lookup_lt_Some _ _ _ Hk) as Hl. rewrite list_lookup_insert_ne; [by apply Hav|].
      intros E. injection E. apply slot_ne; unfold NUM in *; lia.
    + apply list_lookup_singleton_Some in Hk as [Hk <-]. replace k with (length A) by lia. apply list_lookup_insert_eq.
      pose proof (slot_lt (d_seen x + Z.of_nat (length A))). lia.
Qed.

(** [alloc3_desc] fails. *)
Lemma dinv_failed R A F U C v v' x : dinv R A F U C v x -> same_but_free v v' -> dinv R A F U C v' x.
Proof.
  intros Hv (ds & Hl & Hsame & ->). pose proof (inv_taken Hv) as Htk.
  destruct Hv as [Ld Li La Le Lf Hnd' Hf Hbd Hpr Hbf Hrq Hhd Hsn Hix Hav Hby Hui Huid Hus]. split; simpl; try done; [congruence|].
  intros r Hr. eapply req_ok_frame; [by apply Hrq|..]; simpl; try done. intros i Hi. apply Hsame, Htk, elem_of_all_idx. by exists r.
Qed.

(** The order of requests and of complete heads does not matter. *)
Lemma dinv_perm R R' A F U C C' v x : dinv R A F U C v x -> R ≡ₚ R' -> C ≡ₚ C' -> dinv R' A F U C' v x.
Proof.
  intros [Ld Li La Le Lf Hnd' Hf Hbd Hpr Hbf Hrq Hhd Hsn Hix Hav Hby Hui Huid Hus] HR HC. split; try done.
  - by rewrite <- HR.
  - intros i Hi. rewrite (Hf i Hi). f_equal. by rewrite (bool_decide_ext _ _ (elem_of_Permutation_proper i _ _ (all_idx_perm _ _ HR))).
  - intros i Hi. apply Hbd. by rewrite HR.
  - by rewrite <- HR.
  - by rewrite <- HR.
  - intros r Hr. eapply req_ok_frame; [apply Hrq; by rewrite HR|done..|]. by rewrite HC.
  - by rewrite <- HR, <- HC.
Qed.

(** A call returns: its descriptors are given back. *)
Lemma dinv_finish r R A F U C v x inf : dinv (r :: R) A F U (r0 r :: C) v x ->
  dinv R A F U C (freed3 (r0 r) (r1 r) (r2 r) (upd_vd (fun d => set_v_info (<[r0 r := inf]> (v_info d)) d) v)) x.
Proof.
  intros Hv. pose proof (few Hv) as Hfew.
  destruct Hv as [Ld Li La Le Lf Hnd' Hf Hbd Hpr Hbf Hrq Hhd Hsn Hix Hav Hby Hui Huid Hus].
  rewrite all_idx_cons in Hnd'. apply list.NoDup_app in Hnd' as (Hnd0 & Hdis & Hnd').
  split; simpl; rewrite ?length_insert; unfold clear_desc; rewrite ?length_alter; try done.
  - intros i Hi. rewrite lookup_insert3 by lia. specialize (Hf i Hi). rewrite all_idx_cons in Hf. fold (idxs r).
    destruct (decide (i ∈ idxs r)) as [E|E]; [by rewrite bool_decide_true, bool_decide_false by (done || by apply Hdis)|].
    rewrite (bool_decide_false (i ∈ idxs r)), Hf by done. f_equal.
    rewrite (bool_decide_ext (i ∈ idxs r ++ all_idx R) (i ∈ all_idx R)); [done|]. rewrite elem_of_app. tauto.
  - intros i Hi. apply Hbd. rewrite all_idx_cons. apply elem_of_app. by right.
  - by apply list.NoDup_cons in Hpr as [_ ?].
  - by apply list.NoDup_cons in Hbf as [_ ?].
  - intros r' Hr'. assert (forall i, i ∈ idxs r' -> i ∉ idxs r) as Hd.
    { intros i Hi Hin. apply (Hdis i Hin), elem_of_all_idx. by exists r'. }
    destruct (not_in3 _ _ _ _ (Hd _ (proj1 (elem_of_idxs r')))) as (N0 & N1 & N2).
    eapply req_ok_frame; [apply Hrq; by right|..]; simpl; try done.
    + intros i Hi. apply Hd, not_in3 in Hi as (? & ? & ?). unfold clear_desc. by rewrite !list_lookup_alter_ne.
    + by rewrite list_lookup_insert_ne.
    + rewrite elem_of_cons. tauto.
  - apply (Permutation_cons_inv (a := r0 r)). rewrite <- Hhd. rewrite !(assoc_L (++)). apply Permutation_middle.
Qed.

(** The device takes a request from the available ring. *)
Lemma dinv_take R A F U C v m seen busy i h : dinv R A F U C v (Device m seen busy) ->
  v_avail (vd v) !! 1%nat = Some i -> i <> seen -> v_avail (vd v) !! (2 + Z.to_nat (seen mod Z.of_nat NUM))%nat = Some h ->
  exists A', A = Z.to_nat h :: A' /\ dinv R A' (F ++ [Z.to_nat h]) U C v (Device m (u16 (seen + 1)) (busy ++ [Z.to_nat h])).
Proof.
  intros Hv Hi Hne Hh. destruct A as [|h' A'].
  { destruct Hne. pose proof (di_idx _ _ _ _ _ _ _ Hv) as E. pose proof (di_seen _ _ _ _ _ _ _ Hv) as Hs. simpl in *.
    rewrite Z.add_0_r, u16_small in E by done. congruence. }
  pose proof (di_avail _ _ _ _ _ _ _ Hv 0%nat h' eq_refl) as E. simpl d_seen in E. rewrite Z.add_0_r in E. rewrite Hh in E. injection E as ->.
  rewrite Nat2Z.id. exists A'. split; [done|]. clear Hh.
  destruct Hv as [Ld Li La Le Lf Hnd' Hf Hbd Hpr Hbf Hrq Hhd Hsn Hix Hav Hby Hui Huid Hus]. split; simpl in *; try done.
  - rewrite <- Hhd. rewrite <- !app_assoc. simpl. by rewrite <- !(Permutation_middle).
  - apply Z.mod_pos_bound. lia.
  - rewrite Hix, u16_shift. do 2 f_equal. lia.
  - intros k y Hk. rewrite <- (Hav (S k) y Hk). rewrite <- Zplus_mod_idemp_l, u16_mod_NUM, Zplus_mod_idemp_l. by replace (seen + 1 + Z.of_nat k) with (seen + Z.of_nat (S k)) by lia.
  - by rewrite Hby.
Qed.

(** The device completes a request. *)
Definition push_used (h : nat) (v : vstate) : vstate :=
  let u := v_used (vd v) in
  upd_vd (set_v_used (Used (ua_flags u) (u16 (ua_id u + 1))
    (<[Z.to_nat (ua_id u mod Z.of_nat NUM) := UsedElem (Z.of_nat h) (Z.of_nat BSIZE)]> (ua_elems u)))) v.
Definition put_buf (b : nat) (bb : buf) (v : vstate) : vstate := VState (vd v) (<[b := bb]> (vbufs v)) (stacks v) (mmio v).

Definition sector_addr (blk : Z) : Z := u32 (blk * (Z.of_nat BSIZE / 512)) * 512.

Lemma sector_addr_block blk : 0 <= blk < 2 ^ 31 -> sector_addr blk = blk * Z.of_nat BSIZE.
Proof. intros H. unfold sector_addr. change (Z.of_nat BSIZE / 512) with 2. rewrite u32_small by lia. change (Z.of_nat BSIZE) with 1024. lia. Qed.

Lemma length_bytes_from m a k : length (bytes_from m a k) = k.
Proof. unfold bytes_from. by rewrite length_fmap, length_seq. Qed.

Lemma serve_spec C v r m bb : req_ok C v r -> vbufs v !! rb r = Some bb ->
  serve (r0 r) v m = Some
    (if rw r then (push_used (r0 r) v, bytes_store m (sector_addr (blockno bb)) (take BSIZE (data bb)))
     else (push_used (r0 r) (put_buf (rb r) (set_data (bytes_from m (sector_addr (blockno bb)) BSIZE) bb) v), m)).
Proof.
  intros [H1 H2 H3 H4 (bb' & H5 & H6 & _)] Hb. assert (bb' = bb) as -> by congruence. clear H5.
  unfold serve, mbind, option_bind. rewrite H1. cbn [desc_head d_next]. rewrite Nat2Z.id, H2. cbn [desc_data d_next]. rewrite Nat2Z.id, H3.
  cbn [desc_head desc_data desc_status d_addr d_len]. rewrite H6, Hb, H4. cbn [in_b]. rewrite (list_insert_id (v_info (vd v))) by done. unfold header. cbn [oh_type oh_sector].
  destruct (rw r); by destruct v as [[] ? ? ?].
Qed.

Lemma dinv_push R A l1 h l2 U C v m m' seen : dinv R A (l1 ++ h :: l2) U C v (Device m seen (l1 ++ h :: l2)) ->
  dinv R A (l1 ++ l2) (U ++ [h]) C (push_used h v) (Device m' seen (l1 ++ l2)).
Proof.
  intros Hv. pose proof (few_heads Hv) as Hfh. pose proof (few Hv) as Hfew.
  destruct Hv as [Ld Li La Le Lf Hnd' Hf Hbd Hpr Hbf Hrq Hhd Hsn Hix Hav Hby Hui Huid Hus]. split; simpl in *; rewrite ?length_insert; try done.
  - intros r Hr. by eapply req_ok_frame; [apply Hrq|..].
  - rewrite <- Hhd. apply Permutation_app_head. rewrite <- !app_assoc. apply Permutation_app_head. simpl. by rewrite !Permutation_middle.
  - rewrite u16_mod_NUM, <- Zplus_mod_idemp_l, Huid, Zplus_mod_idemp_l, length_app. f_equal. simpl. lia.
  - intros k y Hk. rewrite Huid. apply lookup_app_Some in Hk as [Hk|[Hk1 Hk]].
    + pose proof (lookup_lt_Some _ _ _ Hk) as Hl. rewrite list_lookup_insert_ne; [by apply Hus|].
      apply not_eq_sym, slot_ne; unfold NUM in *; lia.
    + apply list_lookup_singleton_Some in Hk as [Hk <-]. replace k with (length U) by lia.
      eexists. rewrite list_lookup_insert_eq; [done|]. rewrite Le. apply slot_lt.
Qed.

(** Changing a buffer, but not what requests depend on. *)
Lemma dinv_put_buf R A F U C v x b bb bb' : dinv R A F U C v x -> vbufs v !! b = Some bb ->
  (b ∉ rb <$> R \/ (blockno bb' = blockno bb /\ disk bb' = disk bb)) -> dinv R A F U C (put_buf b bb' v) x.
Proof.
  intros [Ld Li La Le Lf Hnd' Hf Hbd Hpr Hbf Hrq Hhd Hsn Hix Hav Hby Hui Huid Hus] Hb Hor. split; simpl; try done.
  intros r Hr. specialize (Hrq r Hr). destruct (decide (rb r = b)) as [<-|Hne].
  - destruct Hor as [Hout|[E1 E2]]; [destruct Hout; by apply list_elem_of_fmap_2|].
    destruct Hrq as [H1 H2 H3 H4 (bb0 & H5 & H6 & H7)]. split; try done. exists bb'. split; [simpl; apply list_lookup_insert_eq; by eapply lookup_lt_Some|].
    rewrite E1, E2. by replace bb with bb0 by congruence.
  - eapply req_ok_frame; [exact Hrq|done..| |done|done]. simpl. by rewrite list_lookup_insert_ne.
Qed.

(** The interrupt handler takes a request from the used ring. *)
Definition pop_used (v : vstate) : vstate := upd_vd (fun d => set_v_used_idx ((v_used_idx d + 1) mod Z.of_nat NUM) d) v.

Lemma dinv_complete R A F U C v x r bb : dinv R A F (r0 r :: U) C v x -> r ∈ R -> vbufs v !! rb r = Some bb ->
  dinv R A F U (C ++ [r0 r]) (pop_used (put_buf (rb r) (set_disk 0 bb) v)) x.
Proof.
  intros Hv Hr Hb. pose proof (inv_nodup_heads Hv) as Hndh.
  destruct Hv as [Ld Li La Le Lf Hnd' Hf Hbd Hpr Hbf Hrq Hhd Hsn Hix Hav Hby Hui Huid Hus]. split; simpl in *; try done.
  - intros r' Hr'. pose proof (Hrq r' Hr') as Hq. destruct (decide (r' = r)) as [->|Hne].
    + destruct Hq as [H1 H2 H3 H4 (bb0 & H5 & H6 & H7)]. split; try done. exists (set_disk 0 bb).
      replace bb0 with bb in * by congruence. split; [simpl; apply list_lookup_insert_eq; by eapply lookup_lt_Some|].
      split; [done|]. rewrite bool_decide_true by (apply elem_of_app; right; set_solver). done.
    + eapply req_ok_frame; [exact Hq|done..| |done|]; simpl.
      * rewrite list_lookup_insert_ne; [done|]. intros E. apply Hne. by apply (nodup_key rb R).
      * rewrite elem_of_app, list_elem_of_singleton. split; [tauto|]. intros [?|E]; [done|]. destruct Hne.
        apply (nodup_idx R (r0 r)); try done; [rewrite <- E|]; apply elem_of_idxs.
  - rewrite <- Hhd. do 2 apply Permutation_app_head. simpl. rewrite (assoc_L (++)). apply Permutation_sym, Permutation_cons_append.
  - apply Z.mod_pos_bound. done.
  - rewrite Huid, Zplus_mod_idemp_l. f_equal. lia.
  - intros k y Hk. rewrite Zplus_mod_idemp_l. replace (v_used_idx (vd v) + 1 + Z.of_nat k) with (v_used_idx (vd v) + Z.of_nat (S k)) by lia.
    by apply (Hus (S k)).
Qed.

Definition block_of (bb : buf) : Z * list Z := (blockno bb, data bb).

Lemma put_buf_blocks b bb bb' v : vbufs v !! b = Some bb -> block_of bb' = block_of bb -> block_of <$> vbufs (put_buf b bb' v) = block_of <$> vbufs v.
Proof. intros Hb E. simpl. rewrite list_fmap_insert, E. apply list_insert_id. by rewrite list_lookup_fmap, Hb. Qed.

Lemma intr_loop_spec R A F x U : forall fuel C v, (length U < fuel)%nat -> dinv R A F U C v x ->
  wp (intr_loop fuel) v (fun _ v' t => dinv R A F [] (C ++ U) v' x /\ v_free (vd v') = v_free (vd v) /\
    block_of <$> vbufs v' = block_of <$> vbufs v /\ forall r, r ∈ R -> r0 r ∈ U -> ChBuf (rb r) ∈ wakeups t).
Proof.
  induction U as [|h U IH]; intros [|fuel] C v Hlt Hv; simpl in Hlt; [lia| |lia|]; cbn [intr_loop]; do 2 wp_step.
  - rewrite (di_used_id _ _ _ _ _ _ _ Hv). simpl length. rewrite Z.add_0_r, Z.eqb_refl. wp_step. rewrite app_nil_r. set_solver.
  - pose proof (few Hv) as Hfew. pose proof (few_heads Hv) as Hfh. simpl in Hfh. pose proof (di_used_idx _ _ _ _ _ _ _ Hv) as Hui.
    rewrite (di_used_id _ _ _ _ _ _ _ Hv). destruct (_ =? _) eqn:E; [bools|].
    { exfalso. apply (slot_ne (v_used_idx (vd v)) 0 (Z.of_nat (length (h :: U)))); unfold NUM in *; simpl length in *; rewrite ?Z.add_0_r; lia. }
    clear E. destruct (di_used _ _ _ _ _ _ _ Hv 0%nat h eq_refl) as (e & He & Eid). rewrite Z.add_0_r, Z.mod_small in He by lia.
    destruct (inv_head Hv h) as (r & Hr & <-); [set_solver|]. destruct (di_reqs _ _ _ _ _ _ _ Hv r Hr) as [_ _ _ Hinf (bb & Hb & _)].
    wp_step. eapply wp_fetch; [exact He|]. rewrite Eid, Nat2Z.id. unfold info_get. wp_step. eapply wp_fetch; [exact Hinf|].
    cbn [in_status in_b]. change (negb (0 =? 0)) with false. cbv iota. wp_step. eapply wp_fetch; [done|].
    wp_step. eapply wp_vassign; [exact Hb|]. do 3 wp_step. unfold on_vd. wp_step.
    eapply wp_mono; [apply (IH fuel (C ++ [r0 r])); [lia|exact (dinv_complete _ _ _ _ _ _ _ _ _ Hv Hr Hb)]|].
    intros ? v' t (Hv' & Hf & Hbl & Hw). rewrite <- (assoc_L (++)) in Hv'. split; [exact Hv'|]. split; [exact Hf|]. split.
    + rewrite Hbl. by apply (put_buf_blocks _ bb).
    + intros r' Hr' Hin. simpl. apply elem_of_cons. apply elem_of_cons in Hin as [E|Hin].
      * left. f_equal. assert (r' = r) as ->; [|done]. apply (nodup_idx R (r0 r)); try done; [apply Hv|rewrite <- E|]; apply elem_of_idxs.
      * right. by apply Hw.
Qed.

(** ** Processes *)

(** Why a process may sleep. *)
Definition sleep_ok (v : vstate) (b : nat) (k : rwcont) : Prop :=
  match k with ForDesc => nfree v < 3 | ForDisk _ => exists bb, vbufs v !! b = Some bb /\ disk bb = 1 end.

Record tinv (R : list req) (v : vstate) (l : list thread) : Prop := {
  t_req : forall r, r ∈ R -> exists a, l !! rp r = Some (Call a (rb r) (rw r) (ForDisk (r0 r)));
  t_disk : forall p a b w i, l !! p = Some (Call a b w (ForDisk i)) -> exists r, r ∈ R /\ rp r = p /\ rb r = b /\ rw r = w /\ r0 r = i;
  t_claim : forall p q a b w k a' w' k', l !! p = Some (Call a b w k) -> l !! q = Some (Call a' b w' k') -> p = q;
  t_buf : forall p a b w k, l !! p = Some (Call a b w k) -> is_Some (vbufs v !! b);
  t_good : forall b bb, vbufs v !! b = Some bb -> good_block (blockno bb) (data bb);
  t_sleep : forall p b w k, l !! p = Some (Call true b w k) -> sleep_ok v b k }.

Section Threads.
Context (n : nat).

Lemma wake_Call t (l : list thread) p a b w k : (wake_thread n t <$> l) !! p = Some (Call a b w k) ->
  exists a', l !! p = Some (Call a' b w k) /\ (a = true -> a' = true /\ chan n b k ∉ wakeups t).
Proof.
  rewrite list_lookup_fmap. destruct (l !! p) as [[|a' b' w' k']|]; intros [=]; subst. exists a'. split; [done|].
  intros [-> Hw]%andb_true_iff. split; [done|]. by bools.
Qed.

Lemma wake_lookup t (l : list thread) p a b w k : l !! p = Some (Call a b w k) -> exists a', (wake_thread n t <$> l) !! p = Some (Call a' b w k).
Proof. intros Hl. rewrite list_lookup_fmap, Hl. by eexists. Qed.

(** What the contents of the buffers say does not change. *)
Lemma same_blocks_lookup v v' b bb : block_of <$> vbufs v' = block_of <$> vbufs v -> vbufs v' !! b = Some bb ->
  exists bb', vbufs v !! b = Some bb' /\ blockno bb = blockno bb' /\ data bb = data bb'.
Proof.
  intros E Hb. assert ((block_of <$> vbufs v) !! b = Some (block_of bb)) as H by (rewrite <- E, list_lookup_fmap, Hb; done).
  rewrite list_lookup_fmap in H. destruct (vbufs v !! b) as [bb'|]; [|done]. injection H as E1 E2. by exists bb'.
Qed.

Lemma same_blocks_some v v' b : block_of <$> vbufs v' = block_of <$> vbufs v -> is_Some (vbufs v !! b) -> is_Some (vbufs v' !! b).
Proof. intros E [bb Hb]. destruct (same_blocks_lookup v' v b bb) as (bb' & ? & _); [done|done|]. by exists bb'. Qed.

(** After wakeups. *)
Lemma tinv_wake R v v' l t : tinv R v l -> block_of <$> vbufs v' = block_of <$> vbufs v ->
  (forall p b w k, l !! p = Some (Call true b w k) -> chan n b k ∉ wakeups t -> sleep_ok v' b k) -> tinv R v' (wake_thread n t <$> l).
Proof.
  intros [H1 H2 H3 H4 H5 H6] E Hs. split.
  - intros r Hr. destruct (H1 r Hr) as [a Ha]. by eapply wake_lookup.
  - intros p a b w i (a' & Hp & _)%wake_Call. by eapply H2.
  - intros p q a b w k a' w' k' (? & Hp & _)%wake_Call (? & Hq & _)%wake_Call. by eapply H3.
  - intros p a b w k (? & Hp & _)%wake_Call. eapply same_blocks_some; [exact E|]. by eapply H4.
  - intros b bb Hb. destruct (same_blocks_lookup v v' b bb E Hb) as (bb' & Hb' & -> & ->). by eapply H5.
  - intros p b w k (a & Hp & Hw)%wake_Call. destruct Hw as [-> Hw]; [done|]. by eapply Hs.
Qed.

(** The thread that ran is settled. *)
Lemma tinv_set R R' v l p b w r : tinv R v l -> (p < length l)%nat -> is_Some (vbufs v !! b) ->
  (forall q a w' k, l !! q = Some (Call a b w' k) -> q = p) ->
  (forall q, rp q <> p -> q ∈ R' <-> q ∈ R) ->
  (forall q, q ∈ R' -> rp q = p -> r = inr (ForDisk (r0 q)) /\ rb q = b /\ rw q = w) ->
  (forall i, r = inr (ForDisk i) -> exists q, q ∈ R' /\ rp q = p /\ rb q = b /\ rw q = w /\ r0 q = i) ->
  (forall k, r = inr k -> sleep_ok v b k) -> tinv R' v (<[p := settle b w r]> l).
Proof.
  intros [H1 H2 H3 H4 H5 H6] Hp Hb Hcl HR Hown Hnew Hsl.
  assert (forall q a b' w' k, <[p := settle b w r]> l !! q = Some (Call a b' w' k) ->
    (q = p /\ b' = b /\ w' = w /\ a = true /\ r = inr k) \/ (q <> p /\ l !! q = Some (Call a b' w' k))) as Hlk.
  { intros q a b' w' k Hq. apply lookup_insert_list in Hq as [(-> & Hq & _)|[Hne Hq]]; [left|by right].
    unfold settle in Hq. destruct r as [|k']; [done|]. injection Hq as -> -> -> ->. done. }
  split.
  - intros q Hq. destruct (decide (rp q = p)) as [E|Hne].
    + destruct (Hown q Hq E) as (-> & -> & ->). exists true. rewrite E. by apply list_lookup_insert_eq.
    + rewrite list_lookup_insert_ne by done. apply H1. by apply HR.
  - intros q a b' w' i [(-> & -> & -> & _ & E)|[Hne Hq]]%Hlk; [by apply Hnew|].
    destruct (H2 q a b' w' i Hq) as (z & Hz & E & ?). exists z. split; [|done]. apply HR; [by rewrite E|done].
  - intros q q' a b' w' k a' w'' k' [(-> & -> & _)|[Hne Hq]]%Hlk [(-> & ? & _)|[Hne' Hq']]%Hlk; [done| | |by eapply H3].
    + destruct Hne'. by eapply Hcl.
    + destruct Hne. subst b'. by eapply Hcl.
  - intros q a b' w' k [(-> & -> & _)|[_ Hq]]%Hlk; [done|]. by eapply H4.
  - done.
  - intros q b' w' k [(-> & -> & -> & _ & ->)|[_ Hq]]%Hlk; [by apply Hsl|]. by eapply H6.
Qed.

End Threads.

(** ** The simulation *)

(** A call has its transfer before it while its head is in [W]. *)
Definition abs_thread (W : list nat) (t : thread) : athread :=
  match t with
  | Idle => AIdle
  | Call _ b w ForDesc => AWaiting b w
  | Call _ b w (ForDisk i) => if bool_decide (i ∈ W) then AWaiting b w else AMoved b w
  end.
Definition abs (W : list nat) (s : system) : asystem :=
  ASystem (d_bytes (dev_of s)) (block_of <$> vbufs (v_of s)) (abs_thread W <$> threads s).

Definition rel (s : system) (a : asystem) : Prop := exists R A F U C,
  dinv R A F U C (v_of s) (dev_of s) /\ tinv R (v_of s) (threads s) /\ a = abs (A ++ F) s.

Lemma abs_claims W b t : aclaims b (abs_thread W t) <-> claims b t.
Proof. destruct t as [|a b' w [|i]]; simpl; [done|done|]. by case_bool_decide. Qed.

Lemma abs_claimed W b (l : list thread) : Exists (aclaims b) (abs_thread W <$> l) <-> claimed b l.
Proof. unfold claimed. rewrite Exists_fmap. apply Exists_proper; [|done]. intros t. apply abs_claims. Qed.

Lemma claimed_lookup b l : claimed b l <-> exists p a w k, l !! p = Some (Call a b w k).
Proof.
  unfold claimed. rewrite Exists_exists. split.
  - intros ([|a b' w k] & [p Hp]%list_elem_of_lookup & E); simpl in E; [done|]. subst. by eauto.
  - intros (p & a & w & k & Hp). exists (Call a b w k). split; [by eapply list_elem_of_lookup_2|done].
Qed.

Section Simulation.
Context (n : nat).

Lemma abs_wake W t (l : list thread) : abs_thread W <$> (wake_thread n t <$> l) = abs_thread W <$> l.
Proof. rewrite <- list_fmap_compose. apply list_fmap_ext. intros i [|a b w [|]] _; done. Qed.

Lemma abs_ext W W' (l : list thread) : (forall q a b w i, l !! q = Some (Call a b w (ForDisk i)) -> i ∈ W' <-> i ∈ W) -> abs_thread W' <$> l = abs_thread W <$> l.
Proof.
  intros H. apply list_fmap_ext. intros q [|a b w [|i]] Hq; try done. simpl. by rewrite (bool_decide_ext _ _ (H q a b w i Hq)).
Qed.

Lemma abs_run W W' p b w r t l :
  (forall q a b w i, q <> p -> l !! q = Some (Call a b w (ForDisk i)) -> i ∈ W' <-> i ∈ W) ->
  abs_thread W' <$> after_run n p b w r t l = <[p := abs_thread W' (settle b w r)]> (abs_thread W <$> l).
Proof.
  intros H. unfold after_run. rewrite list_fmap_insert, abs_wake. apply list_eq. intros q. destruct (decide (q = p)) as [->|Hne].
  - rewrite !list_lookup_insert, !length_fmap. case_decide; [done|]. rewrite !list_lookup_fmap. rewrite (proj2 (lookup_ge_None l p)); [done|]. lia.
  - rewrite !list_lookup_insert_ne, !list_lookup_fmap by done. destruct (l !! q) as [[|a b' w' [|i]]|] eqn:E; try done.
    simpl. by rewrite (bool_decide_ext _ _ (H q a b' w' i Hne E)).
Qed.

Lemma count_zero_le (l : list Z) i : count ctrue (<[i := 0]> l) <= count ctrue l.
Proof.
  destruct (l !! i) as [f|] eqn:E.
  - rewrite (count_insert _ _ _ f) by done. change (Z.b2z (ctrue 0)) with 0. destruct (ctrue f); simpl; lia.
  - rewrite list_insert_ge by (by apply lookup_ge_None). lia.
Qed.

(** A call from its start, or again after it was woken for descriptors. *)
Section RunRw.
Context (R : list req) (A F U C : list nat) (v : vstate) (x : device) (l : list thread) (p b : nat) (w : bool) (bb : buf).
Context (Hv : dinv R A F U C v x) (Ht : tinv R v l) (Hp : l !! p = Some Idle \/ l !! p = Some (Call false b w ForDesc)).
Context (Hcl : forall q a w' k, l !! q = Some (Call a b w' k) -> q = p) (Hb : vbufs v !! b = Some bb).

Definition ran (r : unit + rwcont) (v' : vstate) (t : list event) : Prop := exists R' A' k,
  r = inr k /\ dinv R' A' F U C v' x /\ tinv R' v' (after_run n p b w r t l) /\ block_of <$> vbufs v' = block_of <$> vbufs v /\
  abs_thread (A' ++ F) <$> after_run n p b w r t l = <[p := AWaiting b w]> (abs_thread (A ++ F) <$> l).

Lemma run_lt : (p < length l)%nat.
Proof. destruct Hp; by eapply lookup_lt_Some. Qed.

Lemma run_new_proc r : r ∈ R -> rp r <> p.
Proof. intros Hr E. destruct (t_req _ _ _ Ht r Hr) as [a Ha]. rewrite E in Ha. destruct Hp; congruence. Qed.

Lemma run_new_buf : b ∉ rb <$> R.
Proof. intros (r & E & Hr)%list_elem_of_fmap. destruct (t_req _ _ _ Ht r Hr) as [a Ha]. rewrite <- E in Ha. apply (run_new_proc r Hr). by eapply Hcl. Qed.

Lemma ran_failed v' t : nfree v < 3 -> same_but_free v v' -> ran (inr ForDesc) v' t.
Proof.
  intros Hn Hs. exists R, A, ForDesc. split; [done|]. split; [by eapply dinv_failed|]. destruct Hs as (ds & _ & _ & ->). split; [|split; [done|by apply abs_run]].
  unfold after_run. eapply tinv_set; [eapply (tinv_wake _ _ v); [exact Ht|done|]|..]; try done.
  - intros q b' w' k Hq _. pose proof (t_sleep _ _ _ Ht q b' w' k Hq) as Hok. by destruct k.
  - rewrite length_fmap. apply run_lt.
  - intros q a w' k (a' & Hq & _)%wake_Call. by eapply Hcl.
  - intros q Hq E. by destruct (run_new_proc q Hq).
  - by intros k [= <-].
Qed.

Lemma ran_submitted i0 i1 i2 a : NoDup [i0; i1; i2] -> (forall i, i ∈ [i0; i1; i2] -> v_free (vd v) !! i = Some 1) ->
  v_avail (vd v) !! 1%nat = Some a ->
  ran (inr (ForDisk i0)) (submitted p b w i0 i1 i2 bb a (upd_free (fun l => <[i2 := 0]> (<[i1 := 0]> (<[i0 := 0]> l))) v)) [].
Proof.
  intros Hnd Hfree Ha. set (v' := submitted _ _ _ _ _ _ _ _ _).
  assert (p ∉ rp <$> R) as Hp' by (intros (r & E & Hr)%list_elem_of_fmap; by apply (run_new_proc r)).
  exists (Req p b w i0 i1 i2 :: R), (A ++ [i0]), (ForDisk i0). split; [done|].
  split; [exact (dinv_submit _ _ _ _ _ _ _ _ _ _ _ _ _ _ _ Hv Hnd Hfree Hb Ha Hp' run_new_buf)|].
  assert (block_of <$> vbufs v' = block_of <$> vbufs v) as Hbl by (exact (put_buf_blocks b bb (set_disk 1 bb) v Hb eq_refl)). split; [|split; [done|]].
  - unfold after_run. eapply tinv_set; [eapply (tinv_wake _ _ v); [exact Ht|done|]|..].
    + intros q b' w' k Hq _. pose proof (t_sleep _ _ _ Ht q b' w' k Hq) as Hok. destruct k; simpl in *.
      * unfold nfree in *. simpl. repeat (eapply Z.le_lt_trans; [apply count_zero_le|]). done.
      * destruct Hok as (bb' & Hb' & Hd). destruct (decide (b' = b)) as [->|Hne]; [|exists bb'; by rewrite list_lookup_insert_ne].
        exists (set_disk 1 bb). split; [apply list_lookup_insert_eq; by eapply lookup_lt_Some|done].
    + rewrite length_fmap. apply run_lt.
    + eapply same_blocks_some; [exact Hbl|]. by exists bb.
    + intros q a' w' k (a'' & Hq & _)%wake_Call. by eapply Hcl.
    + intros q Hne. rewrite elem_of_cons. split; [intros [->|?]; done|by right].
    + intros q [->|Hq]%elem_of_cons E; [done|]. by destruct (run_new_proc q Hq).
    + intros i [= <-]. eexists. split; [by left|done].
    + intros k [= <-]. exists (set_disk 1 bb). split; [simpl; apply list_lookup_insert_eq; by eapply lookup_lt_Some|done].
  - rewrite (abs_run (A ++ F)).
    + simpl. rewrite bool_decide_true; [done|]. set_solver.
    + intros q a' b' w' i Hne Hq. destruct (t_disk _ _ _ Ht q a' b' w' i Hq) as (r & Hr & _ & _ & _ & <-).
      assert (r0 r <> i0) as Hi; [|set_solver]. intros E. destruct (inv_free_new Hv i0) as [_ Hout]; [apply Hfree; set_solver|].
      apply Hout. rewrite <- E. apply elem_of_all_idx. exists r. split; [done|]. apply elem_of_idxs.
Qed.

Lemma run_rw : wp (virtio_disk_rw n p b w) v ran.
Proof.
  unfold virtio_disk_rw. wp_step. eapply wp_mono; [apply alloc3_desc_spec; [apply (inv_flags Hv)|apply Hv]|]. intros [idx|] v' t; cbv beta iota.
  - intros (i0 & i1 & i2 & -> & Hnd & Hfree & -> & ->). wp_step. pose proof (di_idx _ _ _ _ _ _ _ Hv) as Ha.
    assert (forall i, i ∈ [i0; i1; i2] -> (i < NUM)%nat) as Hlti by (intros i Hi; by apply (inv_free_new Hv), Hfree).
    eapply wp_mono; [apply (rw_submit_spec p b w i0 i1 i2 (upd_free (fun l => <[i2 := 0]> (<[i1 := 0]> (<[i0 := 0]> l))) v) bb _ Hb Ha); [apply Hv..| | |]; apply Hlti; set_solver|].
    intros ? v' t [-> ->]. cbv beta. eapply wp_eq; [apply (rw_wait_busy _ _ _ _ (set_disk 1 bb)); [simpl; apply list_lookup_insert_eq; by eapply lookup_lt_Some|done]|].
    by apply ran_submitted.
  - intros [Hn Hs]. wp_step. by apply ran_failed.
Qed.
End RunRw.
(** A call that was woken while it waited for the disk. *)
Definition waited (A F U : list nat) (x : device) (l : list thread) (p b : nat) (w : bool) (v : vstate) (r : unit + rwcont) (v' : vstate) (t : list event) : Prop :=
  exists R' C', dinv R' A F U C' v' x /\ tinv R' v' (after_run n p b w r t l) /\ vbufs v' = vbufs v /\
  ((exists i, r = inr (ForDisk i) /\ abs_thread (A ++ F) <$> after_run n p b w r t l = abs_thread (A ++ F) <$> l) \/
   (r = inl tt /\ abs_thread (A ++ F) <$> l !! p = Some (AMoved b w) /\
    abs_thread (A ++ F) <$> after_run n p b w r t l = <[p := AIdle]> (abs_thread (A ++ F) <$> l))).

Section RunWait.
Context (R : list req) (A F U C : list nat) (v : vstate) (x : device) (l : list thread) (r : req) (bb : buf).
Context (Hv : dinv R A F U C v x) (Ht : tinv R v l) (Hr : r ∈ R).
Context (Hl : l !! rp r = Some (Call false (rb r) (rw r) (ForDisk (r0 r)))) (Hb : vbufs v !! rb r = Some bb).

Lemma waited_unique q : q ∈ R -> rp q = rp r -> q = r.
Proof. intros Hq E. eapply nodup_key; [exact (di_procs _ _ _ _ _ _ _ Hv)|done..]. Qed.

Lemma waited_busy : disk bb = 1 -> waited A F U x l (rp r) (rb r) (rw r) v (inr (ForDisk (r0 r))) v [].
Proof.
  intros Hd. exists R, C. split; [done|]. split; [|split; [done|left; exists (r0 r); split; [done|]]].
  - unfold after_run. eapply tinv_set; [eapply (tinv_wake _ _ v); [exact Ht|done|]|..].
    + intros q b' w' k Hq _. by eapply (t_sleep _ _ _ Ht).
    + rewrite length_fmap. by eapply lookup_lt_Some.
    + by exists bb.
    + intros q a w' k (a' & Hq & _)%wake_Call. by eapply (t_claim _ _ _ Ht).
    + done.
    + intros q Hq E. by rewrite (waited_unique q Hq E).
    + intros i [= <-]. by exists r.
    + intros k [= <-]. by exists bb.
  - rewrite (abs_run (A ++ F)) by done. apply list_insert_id. by rewrite list_lookup_fmap, Hl.
Qed.

Lemma waited_done inf : r0 r ∈ C -> waited A F U x l (rp r) (rb r) (rw r) v (inl tt)
  (freed3 (r0 r) (r1 r) (r2 r) (upd_vd (fun d => set_v_info (<[r0 r := inf]> (v_info d)) d) v))
  [EWake (ChDesc n); EWake (ChDesc n); EWake (ChDesc n)].
Proof.
  intros HC. apply elem_of_Permutation in HC as [C' HC]. destruct (elem_of_Permutation R r) as [HR _]. specialize (HR Hr) as [R' HR].
  pose proof (dinv_perm _ _ _ _ _ _ _ _ _ Hv HR HC) as Hv'. exists R', C'. split; [by apply dinv_finish|]. split; [|split; [done|right; split; [done|split]]].
  - unfold after_run. eapply tinv_set; [eapply (tinv_wake _ _ v); [exact Ht|done|]|..]; try done.
    + intros q b' w' k Hq Hw. destruct k; [destruct Hw; set_solver|]. exact (t_sleep _ _ _ Ht _ _ _ _ Hq).
    + rewrite length_fmap. by eapply lookup_lt_Some.
    + intros q a w' k (a' & Hq & _)%wake_Call. by eapply (t_claim _ _ _ Ht).
    + intros q Hne. rewrite HR, elem_of_cons. split; [by right|]. by intros [->|?].
    + intros q Hq E. exfalso. pose proof (di_procs _ _ _ _ _ _ _ Hv') as Hnd. cbn in Hnd. apply list.NoDup_cons in Hnd as [Hout _].
      apply Hout. rewrite <- E. by apply list_elem_of_fmap_2.
  - rewrite Hl. simpl. rewrite bool_decide_false; [done|]. pose proof (inv_nodup_heads Hv') as Hnd. rewrite !(assoc_L (++)) in Hnd.
    rewrite <- (assoc_L (++)) in Hnd. apply list.NoDup_app in Hnd as (_ & Hd & _). intros Hin. apply (Hd _ Hin). set_solver.
  - by rewrite (abs_run (A ++ F)).
Qed.

Lemma run_wait : wp (rw_wait n (rb r) (r0 r)) v (waited A F U x l (rp r) (rb r) (rw r) v).
Proof.
  destruct (di_reqs _ _ _ _ _ _ _ Hv r Hr) as [H1 H2 H3 H4 (bb' & H5 & _ & H7)]. assert (bb' = bb) as -> by congruence.
  case_bool_decide as HC; [|eapply wp_eq; [by eapply rw_wait_busy|by apply waited_busy]].
  eapply wp_eq; [eapply (rw_wait_done n (rp r) (rb r) (rw r)); try done|by apply waited_done].
  - destruct (elem_of_Permutation R r) as [HR _]. specialize (HR Hr) as [R' HR].
    pose proof (di_nodup _ _ _ _ _ _ _ Hv) as Hnd. rewrite HR, all_idx_cons in Hnd. by apply list.NoDup_app in Hnd as [? _].
  - intros i Hi. assert (i ∈ all_idx R) as Hin by (apply elem_of_all_idx; by exists r).
    split; [exact (di_bound _ _ _ _ _ _ _ Hv i Hin)|exact (inv_taken Hv i Hin)].
Qed.
End RunWait.

(** A buffer changes, but not its ownership. *)
Lemma tinv_put R v v' l b bb bb' : tinv R v l -> v_free (vd v') = v_free (vd v) -> vbufs v' = <[b := bb']> (vbufs v) ->
  vbufs v !! b = Some bb -> disk bb' = disk bb -> good_block (blockno bb') (data bb') -> tinv R v' l.
Proof.
  intros [H1 H2 H3 H4 H5 H6] Hf E Hb Hd Hg. split; try done.
  - intros p a b' w k Hp. rewrite E. apply list_lookup_insert_is_Some. by eapply H4.
  - intros b' bb0 Hb'. rewrite E in Hb'. apply lookup_insert_list in Hb' as [(-> & -> & _)|[_ Hb']]; [done|]. by eapply H5.
  - intros p b' w k Hp. specialize (H6 p b' w k Hp). destruct k; simpl in *; [unfold nfree in *; by rewrite Hf|].
    destruct H6 as (bb0 & Hb0 & E0). rewrite E. destruct (decide (b' = b)) as [->|Hne].
    + exists bb'. split; [apply list_lookup_insert_eq; by eapply lookup_lt_Some|congruence].
    + exists bb0. by rewrite list_lookup_insert_ne.
Qed.
End Simulation.

(** ** The steps of the system *)

Lemma trace_one {S L} (step : S -> list L -> S -> Prop) s l s' : step s l s' -> trace step s l s'.
Proof. intros H. apply (trace_snoc _ s [] s l s'); [constructor|done]. Qed.

Lemma trace_app {S L} (step : S -> list L -> S -> Prop) s1 l1 s2 l2 s3 :
  trace step s1 l1 s2 -> trace step s2 l2 s3 -> trace step s1 (l1 ++ l2) s3.
Proof.
  intros H1 H2. induction H2 as [s|s2 l2 s3 l3 s4 _ IH Hst]; [by rewrite app_nil_r|]. rewrite (assoc_L (++)). eapply trace_snoc; [by apply IH|done].
Qed.

Section Steps.
Context (n : nat).

Lemma sim_call R A F U C v x l p b w r v' t : dinv R A F U C v x -> tinv R v l -> l !! p = Some Idle -> is_Some (vbufs v !! b) -> ~ claimed b l ->
  virtio_disk_rw n p b w v = Ok r v' t ->
  exists a', trace astep (abs (A ++ F) (System v x l)) (OCall p b w :: returned p b r v') a' /\ rel (System v' x (after_run n p b w r t l)) a'.
Proof.
  intros Hv Ht Hp [bb Hb] Hnc E. pose proof (wp_Ok _ _ _ _ _ _ (run_rw n R A F U C v x l p b w bb Hv Ht (or_introl Hp)
    ltac:(intros q a w' k Hq; destruct Hnc; apply claimed_lookup; eauto) Hb) E) as (R' & A' & k & -> & Hv' & Ht' & Hbl & Hth).
  eexists. split; [|exists R', A', F, U, C; split; [exact Hv'|split; [exact Ht'|reflexivity]]].
  apply trace_one. unfold abs. simpl. rewrite Hbl, Hth. apply as_call; [by rewrite list_lookup_fmap, Hp|by rewrite abs_claimed].
Qed.

Lemma sim_resume R A F U C v x l p b w k r v' t : dinv R A F U C v x -> tinv R v l -> l !! p = Some (Call false b w k) ->
  rw_resume n p b w k v = Ok r v' t ->
  exists a', trace astep (abs (A ++ F) (System v x l)) (returned p b r v') a' /\ rel (System v' x (after_run n p b w r t l)) a'.
Proof.
  intros Hv Ht Hp E. destruct (t_buf _ _ _ Ht _ _ _ _ _ Hp) as [bb Hb]. destruct k as [|i]; simpl in E.
  - pose proof (wp_Ok _ _ _ _ _ _ (run_rw n R A F U C v x l p b w bb Hv Ht (or_intror Hp)
      ltac:(intros q a w' k Hq; by eapply (t_claim _ _ _ Ht)) Hb) E) as (R' & A' & k & -> & Hv' & Ht' & Hbl & Hth).
    eexists. split; [apply trace_nil|]. exists R', A', F, U, C. split; [exact Hv'|]. split; [exact Ht'|]. unfold abs. simpl. rewrite Hbl, Hth.
    f_equal. symmetry. apply list_insert_id. by rewrite list_lookup_fmap, Hp.
  - destruct (t_disk _ _ _ Ht _ _ _ _ _ Hp) as (q & Hq & <- & <- & <- & <-).
    pose proof (wp_Ok _ _ _ _ _ _ (run_wait n R A F U C v x l q bb Hv Ht Hq Hp Hb) E) as (R' & C' & Hv' & Ht' & Hbl & [(i & -> & Hth)|(-> & Hm & Hth)]).
    + eexists. split; [apply trace_nil|]. exists R', A, F, U, C'. split; [exact Hv'|]. split; [exact Ht'|]. unfold abs. simpl. by rewrite Hbl, Hth.
    + eexists. split; [|exists R', A, F, U, C'; split; [exact Hv'|split; [exact Ht'|reflexivity]]]. apply trace_one.
      unfold abs. simpl. rewrite Hbl, Hth. rewrite Hb. simpl. change (data bb) with (snd (block_of bb)). eapply as_return; rewrite list_lookup_fmap; [exact Hm|by rewrite Hb].
Qed.

Lemma sim_intr R A F U C v x l v' t : dinv R A F U C v x -> tinv R v l -> virtio_disk_intr v = Ok tt v' t ->
  rel (System v' x (wake_thread n t <$> l)) (abs (A ++ F) (System v x l)).
Proof.
  intros Hv Ht E. pose proof (few Hv) as Hfew. pose proof (few_heads Hv) as Hfh.
  pose proof (wp_Ok _ _ _ _ _ _ (intr_loop_spec R A F x U NUM C v ltac:(unfold NUM in *; lia) Hv) E) as (Hv' & Hf & Hbl & Hw).
  exists R, A, F, [], (C ++ U). split; [exact Hv'|]. split; [|unfold abs; simpl; by rewrite Hbl, abs_wake].
  apply (tinv_wake n R v); [done|done|]. intros p b w k Hp Hc. pose proof (t_sleep _ _ _ Ht p b w k Hp) as Hok.
  destruct k as [|i]; simpl in *; [unfold nfree in *; by rewrite Hf|]. destruct (t_disk _ _ _ Ht _ _ _ _ _ Hp) as (r & Hr & _ & <- & _ & <-).
  destruct (di_reqs _ _ _ _ _ _ _ Hv r Hr) as [_ _ _ _ (bb & Hb & _ & Hd)]. destruct Hok as (bb' & Hb' & Hd'). assert (bb' = bb) as -> by congruence.
  destruct (di_reqs _ _ _ _ _ _ _ Hv' r Hr) as [_ _ _ _ (bb2 & Hb2 & _ & Hd2)]. exists bb2. split; [done|].
  rewrite Hd2, bool_decide_false; [done|]. rewrite elem_of_app. intros [HC|HU]; [|by apply Hc, Hw].
  rewrite bool_decide_true in Hd by done. congruence.
Qed.
Lemma sim_take R A F U C v m seen busy l i h : dinv R A F U C v (Device m seen busy) -> tinv R v l ->
  v_avail (vd v) !! 1%nat = Some i -> i <> seen -> v_avail (vd v) !! (2 + Z.to_nat (seen mod Z.of_nat NUM))%nat = Some h ->
  rel (System v (Device m (u16 (seen + 1)) (busy ++ [Z.to_nat h])) l) (abs (A ++ F) (System v (Device m seen busy) l)).
Proof.
  intros Hv Ht Hi Hne Hh. destruct (dinv_take _ _ _ _ _ _ _ _ _ _ _ Hv Hi Hne Hh) as (A' & -> & Hv').
  exists R, A', (F ++ [Z.to_nat h]), U, C. split; [exact Hv'|]. split; [done|]. unfold abs. simpl. f_equal. symmetry. apply abs_ext.
  intros. rewrite !elem_of_app. simpl. rewrite !elem_of_cons, elem_of_nil, elem_of_app. tauto.
Qed.

(** The head leaves the device: the transfer has happened. *)
Lemma abs_moved R A l1 h l2 U C v x l r : dinv R A (l1 ++ h :: l2) U C v x -> tinv R v l -> r ∈ R -> r0 r = h ->
  abs_thread (A ++ l1 ++ l2) <$> l = <[rp r := AMoved (rb r) (rw r)]> (abs_thread (A ++ l1 ++ h :: l2) <$> l).
Proof.
  intros Hv Ht Hr <-. pose proof (inv_nodup_heads Hv) as Hnd.
  assert (r0 r ∉ A ++ l1 ++ l2) as Hout.
  { rewrite <- (app_assoc l1), (app_assoc A) in Hnd. simpl in Hnd. rewrite <- Permutation_middle in Hnd.
    apply list.NoDup_cons in Hnd as [Hout _]. rewrite !elem_of_app in *. tauto. }
  destruct (t_req _ _ _ Ht r Hr) as [a Ha]. apply list_eq. intros q. destruct (decide (q = rp r)) as [->|Hne].
  - rewrite list_lookup_insert_eq by (rewrite length_fmap; by eapply lookup_lt_Some). rewrite list_lookup_fmap, Ha. simpl.
    by rewrite bool_decide_false.
  - rewrite list_lookup_insert_ne, !list_lookup_fmap by done. destruct (l !! q) as [[|a' b w [|i]]|] eqn:Eq; try done. simpl.
    rewrite (bool_decide_ext (i ∈ A ++ l1 ++ l2) (i ∈ A ++ l1 ++ r0 r :: l2)); [done|].
    assert (i <> r0 r) as Hi; [|rewrite !elem_of_app, elem_of_cons; tauto]. intros ->.
    destruct (t_disk _ _ _ Ht _ _ _ _ _ Eq) as (r' & Hr' & E & _ & _ & E0). destruct Hne. rewrite <- E. f_equal.
    apply (nodup_idx R (r0 r)); try done; [apply Hv|rewrite <- E0|]; apply elem_of_idxs.
Qed.

Lemma sim_done R A l1 h l2 U C v m seen l v' m' : dinv R A (l1 ++ h :: l2) U C v (Device m seen (l1 ++ h :: l2)) -> tinv R v l ->
  serve h v m = Some (v', m') ->
  exists a', trace astep (abs (A ++ l1 ++ h :: l2) (System v (Device m seen (l1 ++ h :: l2)) l)) [] a' /\
    rel (System v' (Device m' seen (l1 ++ l2)) l) a'.
Proof.
  intros Hv Ht Hs. destruct (inv_head Hv h) as (r & Hr & Eh); [set_solver|]. pose proof (di_reqs _ _ _ _ _ _ _ Hv r Hr) as Hq.
  destruct (q_buf _ _ _ Hq) as (bb & Hb & _). rewrite <- Eh, (serve_spec C v r m bb Hq Hb) in Hs. subst h.
  destruct (t_good _ _ _ Ht _ _ Hb) as [Hblk Hlen]. rewrite sector_addr_block in Hs by done. rewrite take_ge in Hs by (by rewrite Hlen).
  pose proof (abs_moved _ _ _ _ _ _ _ _ _ _ r Hv Ht Hr eq_refl) as Hab. destruct (t_req _ _ _ Ht r Hr) as [a Ha].
  assert ((abs_thread (A ++ l1 ++ r0 r :: l2) <$> l) !! rp r = Some (AWaiting (rb r) (rw r))) as Hw.
  { rewrite list_lookup_fmap, Ha. simpl. rewrite bool_decide_true; [done|]. set_solver. }
  assert ((block_of <$> vbufs v) !! rb r = Some (block_of bb)) as Hbb by (by rewrite list_lookup_fmap, Hb).
  pose proof (as_move (rp r) (rb r) (rw r) (block_of bb) m (block_of <$> vbufs v) _ Hw Hbb) as Hst.
  destruct (rw r) eqn:Ew; injection Hs as <- <-; (eexists; split; [exact (trace_one _ _ _ _ Hst)|]); exists R, A, (l1 ++ l2), (U ++ [r0 r]), C.
  - split; [exact (dinv_push _ _ _ _ _ _ _ _ _ _ _ Hv)|]. split; [by destruct Ht|]. unfold abs. simpl. by rewrite Hab.
  - split; [|split].
    + apply (dinv_push R A l1 (r0 r) l2 U C _ m). eapply dinv_put_buf; [exact Hv|exact Hb|by right].
    + eapply (tinv_put R v _ l (rb r) bb); [done..|]. split; [done|]. apply length_bytes_from.
    + unfold abs. simpl. rewrite Hab. f_equal. by rewrite list_fmap_insert.
Qed.

Lemma sim_client R A F U C v x l b bb blk d : dinv R A F U C v x -> tinv R v l -> vbufs v !! b = Some bb -> ~ claimed b l -> good_block blk d ->
  let s' := System (put_buf b (set_data d (set_key (dev bb) blk bb)) v) x l in
  exists a', trace astep (abs (A ++ F) (System v x l)) [OClient b blk d] a' /\ rel s' a'.
Proof.
  intros Hv Ht Hb Hnc Hg s'. eexists. split.
  - apply trace_one, as_client. by rewrite abs_claimed.
  - exists R, A, F, U, C. split; [|split].
    + eapply dinv_put_buf; [exact Hv|exact Hb|left]. intros (r & -> & Hr)%list_elem_of_fmap. destruct (t_req _ _ _ Ht r Hr) as [a Ha].
      apply Hnc, claimed_lookup. eauto.
    + by eapply (tinv_put R v _ l b bb).
    + unfold abs. simpl. by rewrite list_fmap_insert.
Qed.

Context (dev : vstate * device -> vstate * device -> Prop) (Hdev : forall a b, dev a b -> conforms a b).

Lemma sim_step s a L s' : rel s a -> vstep n dev s L s' -> exists a', trace astep a L a' /\ rel s' a'.
Proof.
  intros (R & A & F & U & C & Hv & Ht & ->) Hst.
  destruct Hst as [b bb blk d v x l Hb Hnc Hg|p b w v x l r v' t Hp Hb Hnc E|p b w k v x l r v' t Hp E|v x l v' t E|v x l v' x' E]; simpl in Hv, Ht.
  - by eapply sim_client.
  - by eapply sim_call.
  - by eapply sim_resume.
  - eexists. split; [apply trace_nil|]. by eapply sim_intr.
  - apply Hdev in E. inversion E as [v0 m seen busy i h Hi Hne Hh|v0 m seen l1 h l2 v0' m' Hs]; subst.
    + eexists. split; [apply trace_nil|]. by eapply sim_take.
    + pose proof (di_busy _ _ _ _ _ _ _ Hv) as EF. simpl in EF. subst F. by eapply sim_done.
Qed.

Lemma sim_trace s a L s' : rel s a -> trace (vstep n dev) s L s' -> exists a', trace astep a L a' /\ rel s' a'.
Proof.
  intros Hr Htr. revert a Hr. induction Htr as [s|s1 l1 s2 l2 s3 _ IH Hst]; intros a Hr; [exists a; split; [constructor|done]|].
  destruct (IH a Hr) as (a2 & Ha2 & Hr2). destruct (sim_step s2 a2 l2 s3 Hr2 Hst) as (a3 & Ha3 & Hr3).
  exists a3. split; [by eapply trace_app|done].
Qed.
End Steps.

(** ** From boot on *)

(** The static [disk[n]] before [virtio_disk_init]: zero, and no queue. *)
Definition vdisk0 : vdisk := VDisk [] [] (Used 0 0 []) (replicate NUM 0) 0 (replicate NUM (Info None 0)) 0.
Definition vdisk_ready : vdisk :=
  VDisk (replicate NUM desc0) (replicate (2 + NUM) 0) used0 (replicate NUM 1) 0 (replicate NUM (Info None 0)) 1.

Lemma bind_Ok {S A B} (m : M S A) (k : A -> M S B) s b s2 t : bind m k s = Ok b s2 t ->
  exists a s1 t1 t2, m s = Ok a s1 t1 /\ k a s1 = Ok b s2 t2.
Proof.
  unfold bind. destruct (m s) as [a s1 t1| | | |]; try done. destruct (k a s1) as [b' s2' t2| | | |] eqn:E; try done.
  intros [= -> -> _]. eauto 10.
Qed.

(** A store to a register changes neither the disk nor the buffers. *)
Lemma store_Ok {A} r x (k : M vstate A) v a v' t : (store r x ;;; k) v = Ok a v' t ->
  exists v1 t1, vd v1 = vd v /\ vbufs v1 = vbufs v /\ k v1 = Ok a v' t1.
Proof. intros (? & v1 & ? & t1 & [= _ <- _] & E)%bind_Ok. eexists _, t1. split; [|split; [|exact E]]; done. Qed.

Lemma init_queue v pages v' t :
  (on_vd (fun d => set_v_desc (replicate NUM desc0) (set_v_avail (replicate (2 + NUM) 0) (set_v_used used0 d))) ;;;
   store VIRTIO_MMIO_QUEUE_PFN (u32 (Z.shiftr pages 12)) ;;; for_all (seq 0 NUM) (fun i => free_put i 1) ;;; on_vd (set_v_init 1)) v = Ok tt v' t ->
  vd v = vdisk0 -> vd v' = vdisk_ready /\ vbufs v' = vbufs v.
Proof.
  destruct v as [d bs st mm]. cbn [vd]. intros E ->. apply bind_Ok in E as ([] & ? & ? & ? & [= <- _] & E).
  apply store_Ok in E as (v1 & t1 & E1 & E2 & E). destruct v1 as [d1 bs1 st1 mm1]. cbn [vd vbufs upd_vd] in *. subst d1 bs1.
  refine (wp_Ok _ _ _ _ _ (fun _ v' _ => vd v' = vdisk_ready /\ vbufs v' = bs) _ E). vm_compute. split; reflexivity.
Qed.

Lemma init_spec n reg pages bs v t : virtio_disk_init n reg pages (VState vdisk0 bs ∅ []) = Ok tt v t ->
  vd v = vdisk_ready /\ vbufs v = bs.
Proof.
  intros E. apply bind_Ok in E as (i & s & ? & ? & [= <- <- _] & E). change (ctrue _) with false in E. cbv iota in E.
  apply bind_Ok in E as ([] & s & t1 & ? & E1 & E).
  assert (s = VState vdisk0 bs ∅ []) as -> by (eapply (wp_Ok _ _ _ _ _ (fun _ s _ => s = VState vdisk0 bs ∅ [])); [|exact E1]; by apply wp_kputs).
  clear E1 t1. do 2 apply bind_Ok in E as ([] & ? & ? & ? & [= <- _] & E). case_match; [done|].
  do 7 (apply store_Ok in E as (? & ? & ? & ? & E)).
  cbv zeta in E. do 2 (case_match; [done|]). apply store_Ok in E as (? & ? & ? & ? & E).
  cbn [vd vbufs] in *. apply init_queue in E as [-> ->]; [split; congruence|congruence].
Qed.

Lemma rel_start v m bs k : vd v = vdisk_ready -> vbufs v = bs -> Forall (fun bb => good_block (blockno bb) (data bb)) bs ->
  rel (System v (Device m 0 []) (replicate k Idle)) (ASystem m (block_of <$> bs) (replicate k AIdle)).
Proof.
  intros Hv Hb Hg. exists [], [], [], [], []. split; [|split].
  - split; simpl; rewrite ?Hv; try done; try constructor; try set_solver.
    intros i Hi. by apply lookup_replicate_2.
  - assert (forall p a b w c, replicate k Idle !! p <> Some (Call a b w c)) as Hno by (intros p a b w c [? _]%lookup_replicate_1; done).
    split; simpl; try (intros; exfalso; by eapply Hno); [set_solver|]. rewrite Hb. rewrite Forall_lookup in Hg. exact Hg.
  - unfold abs. simpl. by rewrite Hb, fmap_replicate.
Qed.


(** One process writes a buffer: the device takes the request and completes it,
    the interrupt arrives, and the call returns. *)
Definition regs_ex (r : Z) : Z :=
  if r =? VIRTIO_MMIO_MAGIC_VALUE then 0x74726976 else if r =? VIRTIO_MMIO_VERSION then 1 else if r =? VIRTIO_MMIO_DEVICE_ID then 2
  else if r =? VIRTIO_MMIO_VENDOR_ID then 0x554d4551 else if r =? VIRTIO_MMIO_QUEUE_NUM_MAX then 1024 else 0.
Definition bufs_ex : list buf := [inhabitant].
Definition end_of {A} (o : outcome vstate A) : vstate := match o with Ok _ v _ => v | _ => VState vdisk0 [] ∅ [] end.
Definition ready_ex : vstate := end_of (virtio_disk_init 0 regs_ex 0x80010000 (VState vdisk0 bufs_ex ∅ [])).
Definition sent_ex : vstate := end_of (virtio_disk_rw 0 0 0 true ready_ex).
Definition served_ex : vstate * (Z -> Z) := default (sent_ex, fun _ => 0) (serve 0 sent_ex (fun _ => 7)).
Definition done_ex : vstate := end_of (virtio_disk_intr (fst served_ex)).
Definition back_ex : vstate := end_of (rw_wait 0 0 0 done_ex).

Lemma run_ex :
  virtio_disk_init 0 regs_ex 0x80010000 (VState vdisk0 bufs_ex ∅ []) = Ok tt ready_ex
    (EPutc <$> [118; 105; 114; 116; 105; 111; 32; 100; 105; 115; 107; 32; 105; 110; 105; 116; 32; 48; 10]) /\
  virtio_disk_rw 0 0 0 true ready_ex = Ok (inr (ForDisk 0)) sent_ex [] /\
  v_avail (vd sent_ex) !! 1%nat = Some 1 /\ v_avail (vd sent_ex) !! 2%nat = Some 0 /\
  serve 0 sent_ex (fun _ => 7) = Some (fst served_ex, snd served_ex) /\
  virtio_disk_intr (fst served_ex) = Ok tt done_ex [EWake (ChBuf 0)] /\
  rw_wait 0 0 0 done_ex = Ok (inl tt) back_ex (replicate 3 (EWake (ChDesc 0))) /\
  from_option data [] (vbufs back_ex !! 0%nat) = replicate BSIZE 0 /\ vbufs ready_ex !! 0%nat = Some inhabitant.
Proof. do 8 (split; [vm_compute; reflexivity|]). vm_compute. reflexivity. Qed.

Lemma trace_ex : exists s, trace (vstep 0 conforms) (System ready_ex (Device (fun _ => 7) 0 []) (replicate 1 Idle))
  [OCall 0 0 true; OReturn 0 0 (replicate BSIZE 0)] s.
Proof.
  destruct run_ex as (_ & E1 & A1 & A2 & E2 & E3 & E4 & Hd & Hb). eexists.
  change [OCall 0 0 true; OReturn 0 0 (replicate BSIZE 0)] with (((([OCall 0 0 true] ++ []) ++ []) ++ []) ++ [OReturn 0 0 (replicate BSIZE 0)]).
  rewrite <- Hd. eapply trace_snoc; [eapply trace_snoc; [eapply trace_snoc; [eapply trace_snoc|]|]|].
  - apply trace_one. eapply (vs_call 0 conforms 0 0 true ready_ex _ _ (inr (ForDisk 0)) sent_ex []); [done|by rewrite Hb| |exact E1].
    intros H. inversion H as [? ? Hc|? ? Hc]; [exact Hc|inversion Hc].
  - eapply vs_dev. eapply (dev_take sent_ex (fun _ => 7) 0 [] 1 0); [exact A1|done|exact A2].
  - eapply vs_dev. apply (dev_done sent_ex (fun _ => 7) 1 [] 0%nat [] (fst served_ex) (snd served_ex)). exact E2.
  - eapply (vs_intr 0 conforms (fst served_ex) _ _ done_ex [EWake (ChBuf 0)]). exact E3.
  - eapply (vs_resume 0 conforms 0 0 true (ForDisk 0) done_ex _ _ (inl tt) back_ex (replicate 3 (EWake (ChDesc 0)))); [reflexivity|exact E4].
Qed.

