(* ===== verification/Fs.v ===== *)
(** * The file system (kernel/fs.c, kernel/fs.h, kernel/file.h, kernel/stat.h)

    The layers of fs.c above the log: block allocator, inodes and their cache,
    file contents, directories, path names.  The state holds the inode cache
    and the superblock above the log; [me] is the running process.  Reading
    and writing a file moves bytes between buffers and memory outside the
    file system, so those operations run on a pair of the file system and
    that memory. *)

From Stdlib Require Import ZArith Lia.
From stdpp Require Import base gmap list strings.
From S2P Require Import Prelude Sleeplock Bio Log CString.
Local Open Scope xv6_scope.

(** ** Constants (fs.h, param.h, stat.h) *)

Definition ROOTINO : Z := 1.
Definition ROOTDEV : Z := 0.
Definition FSMAGIC : Z := 270544960.
Definition NDIRECT : nat := 12.
Definition NINDIRECT : nat := 256.
Definition MAXFILE : Z := Z.of_nat NDIRECT + Z.of_nat NINDIRECT.
Definition IPB : Z := 16.
Definition BPB : Z := Z.of_nat BSIZE * 8.
Definition NINODE : nat := 50.

(** Block containing inode i; block of the free map containing bit b. *)
Definition IBLOCK (i : Z) (sb : superblock) : Z := u32 (i / IPB + sb_inodestart sb).
Definition BBLOCK (b : Z) (sb : superblock) : Z := u32 (b / BPB + sb_bmapstart sb).

(** ** In-memory inodes (file.h) *)

Record inode := Inode {
  i_dev : Z; i_inum : Z; i_ref : Z; i_lock : sleeplock; i_valid : Z;
  i_type : Z; i_major : Z; i_minor : Z; i_nlink : Z; i_size : Z; i_addrs : list Z }.

Definition inode0 : inode :=
  Inode 0 0 0 initsleeplock 0 0 0 0 0 0 (replicate (S NDIRECT) 0).
#[global] Instance inode_inhabited : Inhabited inode := populate inode0.

Definition set_ident (d n : Z) (i : inode) : inode :=
  Inode d n (i_ref i) (i_lock i) (i_valid i) (i_type i) (i_major i) (i_minor i) (i_nlink i) (i_size i) (i_addrs i).
Definition set_ref (x : Z) (i : inode) : inode :=
  Inode (i_dev i) (i_inum i) x (i_lock i) (i_valid i) (i_type i) (i_major i) (i_minor i) (i_nlink i) (i_size i) (i_addrs i).
Definition set_ilock (x : sleeplock) (i : inode) : inode :=
  Inode (i_dev i) (i_inum i) (i_ref i) x (i_valid i) (i_type i) (i_major i) (i_minor i) (i_nlink i) (i_size i) (i_addrs i).
Definition set_ivalid (x : Z) (i : inode) : inode :=
  Inode (i_dev i) (i_inum i) (i_ref i) (i_lock i) x (i_type i) (i_major i) (i_minor i) (i_nlink i) (i_size i) (i_addrs i).
Definition set_type (x : Z) (i : inode) : inode :=
  Inode (i_dev i) (i_inum i) (i_ref i) (i_lock i) (i_valid i) x (i_major i) (i_minor i) (i_nlink i) (i_size i) (i_addrs i).
Definition set_major_minor (x y : Z) (i : inode) : inode :=
  Inode (i_dev i) (i_inum i) (i_ref i) (i_lock i) (i_valid i) (i_type i) x y (i_nlink i) (i_size i) (i_addrs i).
Definition set_nlink (x : Z) (i : inode) : inode :=
  Inode (i_dev i) (i_inum i) (i_ref i) (i_lock i) (i_valid i) (i_type i) (i_major i) (i_minor i) x (i_size i) (i_addrs i).
Definition set_size (x : Z) (i : inode) : inode :=
  Inode (i_dev i) (i_inum i) (i_ref i) (i_lock i) (i_valid i) (i_type i) (i_major i) (i_minor i) (i_nlink i) x (i_addrs i).
Definition set_addr (n : nat) (a : Z) (i : inode) : inode :=
  Inode (i_dev i) (i_inum i) (i_ref i) (i_lock i) (i_valid i) (i_type i) (i_major i) (i_minor i) (i_nlink i) (i_size i)
        (<[n := a]> (i_addrs i)).

(** The cache [icache.inode[NINODE]] and the superblock [sb]. *)
Record fstate := FState { flog : lstate; inodes : list inode; fsb : superblock }.

Definition set_flog (l : lstate) (s : fstate) : fstate := FState l (inodes s) (fsb s).
Definition set_inodes (l : list inode) (s : fstate) : fstate := FState (flog s) l (fsb s).
Definition set_fsb (sb : superblock) (s : fstate) : fstate := FState (flog s) (inodes s) sb.

Definition on_log {A} : M lstate A -> M fstate A := zoom flog set_flog.
Definition bread_ (me d n : Z) : M fstate nat := on_log (on_bio (bread me d n)).
Definition brelse_ (me : Z) (b : nat) : M fstate unit := on_log (on_bio (brelse me b)).
Definition log_write_ (b : nat) : M fstate unit := on_log (log_write b).
Definition bdata (b : nat) : M fstate (list Z) :=
  bb <- on_log (on_bio (bderef b)) ;; ret (data bb).
Definition bput (b : nat) (f : list Z -> list Z) : M fstate unit := on_log (bupdate b f).

(** [ip->field] through a pointer, an index into the cache. *)
Definition ideref (i : nat) : M fstate inode := fetch (fun s => inodes s !! i).
Definition iassign (i : nat) (f : inode -> inode) : M fstate unit :=
  ip <- ideref i ;;
  modify (fun s => set_inodes (<[i := f ip]> (inodes s)) s).
Definition on_ilock {A} (i : nat) (m : M sleeplock A) : M fstate A :=
  ip <- ideref i ;;
  zoom (fun s => from_option i_lock initsleeplock (inodes s !! i))
       (fun l s => set_inodes (alter (set_ilock l) i (inodes s)) s) m.

(** ** Superblock *)

Definition word (i : nat) (d : list Z) : Z := le_val (bytes_at (4 * i) 4 d).

Definition sb_decode (d : list Z) : superblock :=
  Superblock (word 0 d) (word 1 d) (word 2 d) (word 3 d) (word 4 d) (word 5 d) (word 6 d) (word 7 d).

Definition readsb (me dev : Z) : M fstate unit :=
  bp <- bread_ me dev 1 ;;
  d <- bdata bp ;;
  modify (set_fsb (sb_decode d)) ;;;
  brelse_ me bp.

Definition fsinit (me dev : Z) : M fstate unit :=
  readsb me dev ;;;
  sb <- get fsb ;;
  if negb (sb_magic sb =? FSMAGIC) then panic "invalid file system"
  else on_log (initlog me dev sb).

(** ** Blocks *)

Definition bzero (me dev bno : Z) : M fstate unit :=
  bp <- bread_ me dev (u32 bno) ;;
  bput bp (fun d => replicate (length d) 0) ;;;
  log_write_ bp ;;;
  brelse_ me bp.

(** The bit of the free map. *)
Definition bit_get (bi : Z) (d : list Z) : Z :=
  Z.land (nth (Z.to_nat (bi / 8)) d 0) (Z.shiftl 1 (bi mod 8)).
Definition bit_set (bi : Z) (d : list Z) : list Z :=
  alter (fun x => u8 (Z.lor x (Z.shiftl 1 (bi mod 8)))) (Z.to_nat (bi / 8)) d.
Definition bit_clear (bi : Z) (d : list Z) : list Z :=
  alter (fun x => u8 (Z.land x (Z.lnot (Z.shiftl 1 (bi mod 8))))) (Z.to_nat (bi / 8)) d.

(** The values of b in for(b = 0; b < sb.size; b += BPB), and of bi in
    for(bi = 0; bi < BPB && b + bi < sb.size; bi++). *)
Definition balloc_outer (size : Z) : list Z :=
  (fun i => Z.of_nat i * BPB) <$> seq 0 (Z.to_nat ((size + BPB - 1) / BPB)).
Definition balloc_inner (size b : Z) : list Z :=
  Z.of_nat <$> seq 0 (Z.to_nat (Z.min BPB (size - b))).

Definition balloc (me dev : Z) : M fstate Z :=
  sb <- get fsb ;;
  r <- for_each (balloc_outer (sb_size sb)) (fun b =>
         bp <- bread_ me dev (BBLOCK b sb) ;;
         r <- for_each (balloc_inner (sb_size sb) b) (fun bi =>
                d <- bdata bp ;;
                if bit_get bi d =? 0 then
                  bput bp (bit_set bi) ;;;
                  log_write_ bp ;;;
                  brelse_ me bp ;;;
                  bzero me dev (b + bi) ;;;
                  ret (inr (b + bi))
                else ret (inl tt)) ;;
         match r with
         | Some a => ret (inr a)
         | None => brelse_ me bp ;;; ret (inl tt)
         end) ;;
  match r with
  | Some a => ret a
  | None => panic "balloc: out of blocks"
  end.

Definition bfree (me dev b : Z) : M fstate unit :=
  sb <- get fsb ;;
  bp <- bread_ me dev (BBLOCK b sb) ;;
  let bi := b mod BPB in
  d <- bdata bp ;;
  if bit_get bi d =? 0 then panic "freeing free block"
  else
    bput bp (bit_clear bi) ;;;
    log_write_ bp ;;;
    brelse_ me bp.

(** ** Inodes *)

Definition iinit : M fstate unit :=
  for_all (seq 0 NINODE) (fun i => iassign i (set_ilock initsleeplock)).

(** struct dinode, at byte [64 * (inum % IPB)] of its block. *)
Definition dip_off (inum : Z) : nat := Z.to_nat (64 * (inum mod IPB)).
Definition dip_short (o k : nat) (d : list Z) : Z := i16 (le_val (bytes_at (o + 2 * k) 2 d)).
Definition dip_type (o : nat) (d : list Z) : Z := dip_short o 0 d.
Definition dip_size (o : nat) (d : list Z) : Z := le_val (bytes_at (o + 8) 4 d).
Definition dip_addrs (o : nat) (d : list Z) : list Z :=
  (fun i => le_val (bytes_at (o + 12 + 4 * i) 4 d)) <$> seq 0 (S NDIRECT).

Definition put_short (o k : nat) (x : Z) (d : list Z) : list Z :=
  bytes_put (o + 2 * k) (le_bytes 2 (u16 x)) d.
Definition put_word (o : nat) (x : Z) (d : list Z) : list Z := bytes_put o (le_bytes 4 (u32 x)) d.
Definition put_addrs (o : nat) (l : list Z) (d : list Z) : list Z :=
  bytes_put (o + 12) (concat (le_bytes 4 <$> l)) d.

(** The scan of the cache in [iget]: the entry of the inode, or the first
    empty slot. *)
Fixpoint iget_scan (l : list nat) (dev inum : Z) (empty : option nat) : M fstate (nat + option nat) :=
  match l with
  | [] => ret (inr empty)
  | i :: l' =>
      ip <- ideref i ;;
      if (0 <? i_ref ip) && (i_dev ip =? dev) && (i_inum ip =? inum) then
        iassign i (set_ref (i_ref ip + 1)) ;;; ret (inl i)
      else
        iget_scan l' dev inum
          (match empty with None => if i_ref ip =? 0 then Some i else None | Some e => Some e end)
  end.

Definition iget (dev inum : Z) : M fstate nat :=
  r <- iget_scan (seq 0 NINODE) dev inum None ;;
  match r with
  | inl i => ret i
  | inr None => panic "iget: no inodes"
  | inr (Some i) =>
      iassign i (set_ident dev inum) ;;;
      iassign i (set_ref 1) ;;;
      iassign i (set_ivalid 0) ;;;
      ret i
  end.

Definition ialloc (me dev type : Z) : M fstate nat :=
  sb <- get fsb ;;
  r <- for_each (Z.of_nat <$> seq 1 (Z.to_nat (sb_ninodes sb - 1))) (fun inum =>
         bp <- bread_ me dev (IBLOCK inum sb) ;;
         d <- bdata bp ;;
         if dip_type (dip_off inum) d =? 0 then
           bput bp (bytes_put (dip_off inum) (replicate 64 0)) ;;;
           bput bp (put_short (dip_off inum) 0 type) ;;;
           log_write_ bp ;;;
           brelse_ me bp ;;;
           i <- iget dev inum ;;
           ret (inr i)
         else brelse_ me bp ;;; ret (inl tt)) ;;
  match r with
  | Some i => ret i
  | None => panic "ialloc: no inodes"
  end.

Definition iupdate (me : Z) (i : nat) : M fstate unit :=
  ip <- ideref i ;;
  sb <- get fsb ;;
  bp <- bread_ me (i_dev ip) (IBLOCK (i_inum ip) sb) ;;
  let o := dip_off (i_inum ip) in
  bput bp (put_short o 0 (i_type ip)) ;;;
  bput bp (put_short o 1 (i_major ip)) ;;;
  bput bp (put_short o 2 (i_minor ip)) ;;;
  bput bp (put_short o 3 (i_nlink ip)) ;;;
  bput bp (put_word (o + 8) (i_size ip)) ;;;
  bput bp (put_addrs o (i_addrs ip)) ;;;
  log_write_ bp ;;;
  brelse_ me bp.

Definition idup (i : nat) : M fstate nat :=
  iassign i (fun ip => set_ref (i_ref ip + 1) ip) ;;; ret i.

(** The fields of a disk inode, copied into the cache entry. *)
Definition load_dinode (o : nat) (d : list Z) (ip : inode) : inode :=
  Inode (i_dev ip) (i_inum ip) (i_ref ip) (i_lock ip) (i_valid ip)
        (dip_type o d) (dip_short o 1 d) (dip_short o 2 d) (dip_short o 3 d)
        (dip_size o d) (dip_addrs o d).

Definition ilock (me : Z) (p : option nat) : M fstate unit :=
  match p with
  | None => panic "ilock"
  | Some i =>
      ip <- ideref i ;;
      if i_ref ip <? 1 then panic "ilock"
      else
        on_ilock i (acquiresleep (ChInodeLock i) me) ;;;
        ip <- ideref i ;;
        if i_valid ip =? 0 then
          sb <- get fsb ;;
          bp <- bread_ me (i_dev ip) (IBLOCK (i_inum ip) sb) ;;
          d <- bdata bp ;;
          iassign i (load_dinode (dip_off (i_inum ip)) d) ;;;
          brelse_ me bp ;;;
          iassign i (set_ivalid 1) ;;;
          ip <- ideref i ;;
          if i_type ip =? 0 then panic "ilock: no type" else ret tt
        else ret tt
  end.

Definition iunlock (me : Z) (p : option nat) : M fstate unit :=
  match p with
  | None => panic "iunlock"
  | Some i =>
      ip <- ideref i ;;
      if negb (holdingsleep me (i_lock ip)) || (i_ref ip <? 1) then panic "iunlock"
      else on_ilock i (releasesleep (ChInodeLock i))
  end.

(** ** Inode content *)

Definition bmap (me : Z) (i : nat) (bn : Z) : M fstate Z :=
  ip <- ideref i ;;
  if bn <? Z.of_nat NDIRECT then
    let addr := nth (Z.to_nat bn) (i_addrs ip) 0 in
    if addr =? 0 then
      addr <- balloc me (i_dev ip) ;;
      iassign i (set_addr (Z.to_nat bn) addr) ;;;
      ret addr
    else ret addr
  else
    let bn := bn - Z.of_nat NDIRECT in
    if bn <? Z.of_nat NINDIRECT then
      addr <- (let addr := nth NDIRECT (i_addrs ip) 0 in
               if addr =? 0 then
                 addr <- balloc me (i_dev ip) ;;
                 iassign i (set_addr NDIRECT addr) ;;;
                 ret addr
               else ret addr) ;;
      bp <- bread_ me (i_dev ip) addr ;;
      d <- bdata bp ;;
      let addr := word (Z.to_nat bn) d in
      addr <- (if addr =? 0 then
                 addr <- balloc me (i_dev ip) ;;
                 bput bp (put_word (4 * Z.to_nat bn) addr) ;;;
                 log_write_ bp ;;;
                 ret addr
               else ret addr) ;;
      brelse_ me bp ;;;
      ret addr
    else panic "bmap: out of range".

Definition itrunc (me : Z) (i : nat) : M fstate unit :=
  for_all (seq 0 NDIRECT) (fun n =>
    ip <- ideref i ;;
    if ctrue (nth n (i_addrs ip) 0) then
      bfree me (i_dev ip) (nth n (i_addrs ip) 0) ;;;
      iassign i (set_addr n 0)
    else ret tt) ;;;
  ip <- ideref i ;;
  (if ctrue (nth NDIRECT (i_addrs ip) 0) then
     bp <- bread_ me (i_dev ip) (nth NDIRECT (i_addrs ip) 0) ;;
     for_all (seq 0 NINDIRECT) (fun j =>
       d <- bdata bp ;;
       if ctrue (word j d) then bfree me (i_dev ip) (word j d) else ret tt) ;;;
     brelse_ me bp ;;;
     bfree me (i_dev ip) (nth NDIRECT (i_addrs ip) 0) ;;;
     iassign i (set_addr NDIRECT 0)
   else ret tt) ;;;
  iassign i (set_size 0) ;;;
  iupdate me i.

Definition iput (me : Z) (i : nat) : M fstate unit :=
  ip <- ideref i ;;
  (if (i_ref ip =? 1) && ctrue (i_valid ip) && (i_nlink ip =? 0) then
     on_ilock i (acquiresleep (ChInodeLock i) me) ;;;
     itrunc me i ;;;
     iassign i (set_type 0) ;;;
     iupdate me i ;;;
     iassign i (set_ivalid 0) ;;;
     on_ilock i (releasesleep (ChInodeLock i))
   else ret tt) ;;;
  iassign i (fun ip => set_ref (i_ref ip - 1) ip).

Definition iunlockput (me : Z) (i : nat) : M fstate unit :=
  iunlock me (Some i) ;;; iput me i.

(** struct stat *)
Record stat := Stat { st_dev : Z; st_ino : Z; st_type : Z; st_nlink : Z; st_size : Z }.

Definition stati (i : nat) : M fstate stat :=
  ip <- ideref i ;;
  ret (Stat (i32 (i_dev ip)) (i_inum ip) (i_type ip) (i_nlink ip) (i_size ip)).

(** *** Reading and writing

    [X] is the memory the bytes come from or go to.  [either_copyout dst bs x]
    is the memory after storing [bs] at [dst], and the result; on failure part
    of the bytes may have been stored.  [either_copyin src m x] are the bytes
    that were fetched from [src], and the result; on failure they are fewer
    than [m]. *)
Section ReadWrite.
Context {X : Type}.
Context (either_copyout : Z -> list Z -> X -> X * Z) (either_copyin : Z -> nat -> X -> list Z * Z).

Definition on_fs {A} : M fstate A -> M (fstate * X) A := zoom fst (fun f s => (f, snd s)).

Definition BSZ : Z := Z.of_nat BSIZE.

(** One iteration moves [m] bytes, [1 <= m <= BSIZE]. *)
Definition chunk (off n tot : Z) : Z := Z.min (u32 (n - tot)) (BSZ - off mod BSZ).

Fixpoint readi_loop (fuel : nat) (me : Z) (i : nat) (dst off n tot : Z) : M (fstate * X) unit :=
  if tot <? n then
    match fuel with
    | O => diverge
    | S fuel' =>
        a <- on_fs (bmap me i (off / BSZ)) ;;
        ip <- on_fs (ideref i) ;;
        bp <- on_fs (bread_ me (i_dev ip) a) ;;
        let m := chunk off n tot in
        d <- on_fs (bdata bp) ;;
        rc <- (fun s =>
                 let '(x, rc) := either_copyout dst (bytes_at (Z.to_nat (off mod BSZ)) (Z.to_nat m) d) (snd s) in
                 Ok rc (fst s, x) []) ;;
        if rc =? -1 then on_fs (brelse_ me bp)
        else
          on_fs (brelse_ me bp) ;;;
          readi_loop fuel' me i (u64 (dst + m)) (u32 (off + m)) n (u32 (tot + m))
    end
  else ret tt.

(** [n] bytes span at most [n / BSIZE + 2] blocks. *)
Definition rw_fuel (n : Z) : nat := Z.to_nat (n / BSZ) + 2.

Definition readi (me : Z) (i : nat) (dst off n : Z) : M (fstate * X) Z :=
  ip <- on_fs (ideref i) ;;
  if (i_size ip <? off) || (u32 (off + n) <? off) then ret (-1)
  else
    let n := if i_size ip <? u32 (off + n) then u32 (i_size ip - off) else n in
    readi_loop (rw_fuel n) me i dst off n 0 ;;;
    ret (i32 n).

(** The loop of [writei] yields the offset it reached. *)
Fixpoint writei_loop (fuel : nat) (me : Z) (i : nat) (src off n tot : Z) : M (fstate * X) Z :=
  if tot <? n then
    match fuel with
    | O => diverge
    | S fuel' =>
        a <- on_fs (bmap me i (off / BSZ)) ;;
        ip <- on_fs (ideref i) ;;
        bp <- on_fs (bread_ me (i_dev ip) a) ;;
        let m := chunk off n tot in
        r <- get (fun s => either_copyin src (Z.to_nat m) (snd s)) ;;
        on_fs (bput bp (bytes_put (Z.to_nat (off mod BSZ)) (fst r))) ;;;
        if snd r =? -1 then on_fs (brelse_ me bp) ;;; ret off
        else
          on_fs (log_write_ bp) ;;;
          on_fs (brelse_ me bp) ;;;
          writei_loop fuel' me i (u64 (src + m)) (u32 (off + m)) n (u32 (tot + m))
    end
  else ret off.

Definition writei (me : Z) (i : nat) (src off n : Z) : M (fstate * X) Z :=
  ip <- on_fs (ideref i) ;;
  if (i_size ip <? off) || (u32 (off + n) <? off) then ret (-1)
  else if MAXFILE * BSZ <? u32 (off + n) then ret (-1)
  else
    off <- writei_loop (rw_fuel n) me i src off n 0 ;;
    ip <- on_fs (ideref i) ;;
    (if (0 <? n) && (i_size ip <? off) then
       on_fs (iassign i (set_size off)) ;;;
       on_fs (iupdate me i)
     else ret tt) ;;;
    ret (i32 n).

End ReadWrite.

(** ** Directories *)

(** struct dirent: 16 bytes, a local variable of the functions below, the
    [X] of [readi] and [writei] there; its address stands for 0. *)
Definition local_out (dst : Z) (bs : list Z) (x : list Z) : list Z * Z := (bytes_put (Z.to_nat dst) bs x, 0).
Definition local_in (src : Z) (m : nat) (x : list Z) : list Z * Z := (bytes_at (Z.to_nat src) m x, 0).

Definition DIRENT : Z := 16.
Definition de_inum (de : list Z) : Z := le_val (bytes_at 0 2 de).
Definition de_name (de : list Z) : list Z := bytes_at 2 DIRSIZ de.
Definition dirent0 : list Z := replicate 16 0.

Definition readi_local (me : Z) (i : nat) (off n : Z) (x : list Z) : M fstate (Z * list Z) :=
  with_local x (readi local_out me i 0 off n).
Definition writei_local (me : Z) (i : nat) (off n : Z) (x : list Z) : M fstate (Z * list Z) :=
  with_local x (writei local_in me i 0 off n).

Definition namecmp (s t : list Z) : Z := strncmp s t DIRSIZ.

(** The offsets of the entries of a directory of [size] bytes. *)
Definition dir_offsets (size : Z) : list Z :=
  (fun k => Z.of_nat k * DIRENT) <$> seq 0 (Z.to_nat ((size + DIRENT - 1) / DIRENT)).

(** The entry's inode and its offset, which [dirlookup] stores in [*poff]. *)
Definition dirlookup (me : Z) (dp : nat) (name : list Z) : M fstate (option (nat * Z)) :=
  ip <- ideref dp ;;
  if negb (i_type ip =? T_DIR) then panic "dirlookup not DIR"
  else
    for_each (dir_offsets (i_size ip)) (fun off =>
      r <- readi_local me dp off DIRENT dirent0 ;;
      let de := snd r in
      if negb (fst r =? DIRENT) then panic "dirlookup read"
      else if de_inum de =? 0 then ret (inl tt)
      else if namecmp name (de_name de) =? 0 then
        i <- iget (i_dev ip) (de_inum de) ;;
        ret (inr (i, off))
      else ret (inl tt)).

Definition dirent_bytes (name : list Z) (inum : Z) : list Z :=
  le_bytes 2 (u16 inum) ++ strncpy name DIRSIZ.

Definition dirlink (me : Z) (dp : nat) (name : list Z) (inum : Z) : M fstate Z :=
  r <- dirlookup me dp name ;;
  match r with
  | Some (i, _) => iput me i ;;; ret (-1)
  | None =>
      ip <- ideref dp ;;
      r <- for_each (dir_offsets (i_size ip)) (fun off =>
             r <- readi_local me dp off DIRENT dirent0 ;;
             if negb (fst r =? DIRENT) then panic "dirlink read"
             else if de_inum (snd r) =? 0 then ret (inr off)
             else ret (inl tt)) ;;
      let off := default (Z.of_nat (length (dir_offsets (i_size ip))) * DIRENT) r in
      r <- writei_local me dp off DIRENT (dirent_bytes name inum) ;;
      if negb (fst r =? DIRENT) then panic "dirlink"
      else ret 0
  end.

(** ** Paths *)

Definition SLASH : Z := 47.

Fixpoint skip_slashes (path : list Z) : list Z :=
  match path with
  | c :: p => if c =? SLASH then skip_slashes p else path
  | [] => []
  end.

(** while( *path != '/' && *path != 0) path++; the element and what follows. *)
Fixpoint skip_name (path : list Z) : list Z * list Z :=
  match path with
  | c :: p =>
      if (c =? SLASH) || (c =? 0) then ([], path)
      else let '(s, r) := skip_name p in (c :: s, r)
  | [] => ([], [])
  end.

(** The rest of the path and the buffer [name] after the call. *)
Definition skipelem (path name : list Z) : option (list Z * list Z) :=
  let path := skip_slashes path in
  if chr path 0 =? 0 then None
  else
    let '(s, path) := skip_name path in
    let name := if (DIRSIZ <=? length s)%nat then bytes_put 0 (take DIRSIZ s) name
                else bytes_put 0 (s ++ [0]) name in
    Some (skip_slashes path, name).

(** Each iteration of the loop of [namex] shortens the path. *)
Fixpoint namex_loop (fuel : nat) (me : Z) (nameiparent : bool) (ip : nat) (path name : list Z)
    : M fstate (option nat * list Z) :=
  match skipelem path name with
  | None =>
      if nameiparent then iput me ip ;;; ret (None, name)
      else ret (Some ip, name)
  | Some (path, name) =>
      match fuel with
      | O => diverge
      | S fuel' =>
          ilock me (Some ip) ;;;
          p <- ideref ip ;;
          if negb (i_type p =? T_DIR) then iunlockput me ip ;;; ret (None, name)
          else if nameiparent && (chr path 0 =? 0) then
            iunlock me (Some ip) ;;; ret (Some ip, name)
          else
            r <- dirlookup me ip name ;;
            match r with
            | None => iunlockput me ip ;;; ret (None, name)
            | Some (next, _) => iunlockput me ip ;;; namex_loop fuel' me nameiparent next path name
            end
      end
  end.

Definition namex (me : Z) (cwd : nat) (path : list Z) (parent : bool) (name : list Z)
    : M fstate (option nat * list Z) :=
  ip <- (if chr path 0 =? SLASH then iget ROOTDEV ROOTINO else idup cwd) ;;
  namex_loop (S (length path)) me parent ip path name.

Definition namei (me : Z) (cwd : nat) (path : list Z) : M fstate (option nat) :=
  r <- namex me cwd path false (replicate DIRSIZ 0) ;; ret (fst r).

Definition nameiparent (me : Z) (cwd : nat) (path name : list Z) : M fstate (option nat * list Z) :=
  namex me cwd path true name.
