(* ===== verification/FsFacts.v ===== *)
(** * Facts about the file system: blocks and inodes (kernel/fs.c)

    The operations of Fs.v inside a transaction, against the contract of the
    log: what they do to the contents of the blocks. *)

From Stdlib Require Import ZArith Lia.
From stdpp Require Import base gmap list strings functions.
From S2P Require Import Prelude Sleeplock Bio BioFacts Log LogFacts LogCrash LogTxn CString Fs.
Local Open Scope xv6_scope.

(** ** Runs that write nothing to the disk

    Inside a transaction the disk is not written; what remains of the events
    are wakeups. *)

Definition fwp {S A} (m : M S A) (s : S) (Q : A -> S -> Prop) : Prop :=
  wp m s (fun a s' t => disk_writes t = [] /\ Q a s').

Section Rules.
Context {S : Type}.

Lemma fwp_bind {A B} (m : M S A) (k : A -> M S B) s Q :
  fwp m s (fun a s1 => fwp (k a) s1 Q) -> fwp (bind m k) s Q.
Proof.
  intros H. apply wp_bind. eapply wp_mono; [exact H|]. intros a s1 t1 [H1 H2].
  eapply wp_mono; [exact H2|]. intros b s2 t2 [H3 H4]. by rewrite disk_writes_app, H1, H3.
Qed.

Lemma fwp_mono {A} (m : M S A) s (P Q : A -> S -> Prop) :
  fwp m s P -> (forall a s', P a s' -> Q a s') -> fwp m s Q.
Proof. intros H HPQ. eapply wp_mono; [exact H|]. intros a s' t [? ?]. auto. Qed.

Lemma fwp_ret {A} (a : A) (s : S) (Q : A -> S -> Prop) : Q a s -> fwp (ret a) s Q.
Proof. by intros. Qed.

Lemma fwp_get {A} (f : S -> A) (s : S) (Q : A -> S -> Prop) : Q (f s) s -> fwp (get f) s Q.
Proof. by intros. Qed.

Lemma fwp_modify (f : S -> S) (s : S) (Q : unit -> S -> Prop) : Q tt (f s) -> fwp (modify f) s Q.
Proof. by intros. Qed.

Lemma fwp_run {A} (m : M S A) s Q :
  fwp m s Q -> exists a s' t, m s = Ok a s' t /\ disk_writes t = [] /\ Q a s'.
Proof. intros H. apply wp_run in H as (a & s' & t & ? & ? & ?). by exists a, s', t. Qed.

(** A search: the elements before [x] are passed over, [x] ends it. *)
Lemma fwp_search {X R} (body : X -> M S (unit + R)) (I : S -> Prop) l1 x l2 s Q :
  I s ->
  (forall y s', y ∈ l1 -> I s' -> fwp (body y) s' (fun r s'' => r = inl tt /\ I s'')) ->
  (forall s', I s' -> fwp (body x) s' (fun r s'' => exists v, r = inr v /\ Q (Some v) s'')) ->
  fwp (for_each (l1 ++ x :: l2) body) s Q.
Proof.
  revert s. induction l1 as [|y l1 IH]; intros s HI Hpass Hhit; cbn [for_each app]; apply fwp_bind.
  - eapply fwp_mono; [by apply Hhit|]. intros r s' (v & -> & HQ). by apply fwp_ret.
  - eapply fwp_mono; [apply Hpass; [by left|done]|]. intros r s' [-> HI']. apply IH; auto.
    intros y' s'' Hy'. apply Hpass. by right.
Qed.

Lemma fwp_search_none {X R} (body : X -> M S (unit + R)) (I : S -> Prop) l s Q :
  I s ->
  (forall y s', y ∈ l -> I s' -> fwp (body y) s' (fun r s'' => r = inl tt /\ I s'')) ->
  (forall s', I s' -> Q None s') -> fwp (for_each l body) s Q.
Proof.
  revert s. induction l as [|y l IH]; intros s HI Hpass HQ; cbn [for_each]; [apply fwp_ret; auto|].
  apply fwp_bind. eapply fwp_mono; [apply Hpass; [by left|done]|]. intros r s' [-> HI']. apply IH; auto.
  intros y' s'' Hy'. apply Hpass. by right.
Qed.

(** A loop without a break. *)
Lemma fwp_for_all {X} (body : X -> M S unit) (I : list X -> S -> Prop) l s :
  I [] s ->
  (forall done x rest s', l = done ++ x :: rest -> I done s' ->
     fwp (body x) s' (fun _ s'' => I (done ++ [x]) s'')) ->
  fwp (for_all l body) s (fun _ s' => I l s').
Proof.
  intros H0 Hstep. unfold fwp.
  eapply wp_mono; [apply (wp_for_all body (fun done s' t => disk_writes t = [] /\ I done s')); [done|]|].
  - intros done x rest s' t Hl [Ht HI]. eapply wp_mono; [by eapply Hstep|].
    intros u s'' t' [Ht' HI']. by rewrite disk_writes_app, Ht, Ht'.
  - by cbv beta.
Qed.

End Rules.

Lemma fwp_zoom {S T A} (view : S -> T) (upd : T -> S -> S) (m : M T A) s Q :
  fwp m (view s) (fun a u => Q a (upd u s)) -> fwp (zoom view upd m) s Q.
Proof. intros H. by apply wp_zoom. Qed.

Ltac fstep :=
  lazymatch goal with
  | |- fwp (bind _ _) _ _ => apply fwp_bind
  | |- fwp (ret _) _ _ => apply fwp_ret
  | |- fwp (get _) _ _ => apply fwp_get
  | |- fwp (modify _) _ _ => apply fwp_modify
  end; cbv beta.

(** ** Blocks inside a transaction *)

Section Ops.
Context (me dev : Z) (s : fstate) (L : log) (v d : Z * Z -> list Z) (hs : list (Z * Z)).
Context (T : txn me dev (fsb s) (flog s) L v d hs).

Lemma f_bread n Q :
  (dev, n) ∉ hs -> ~ in_log dev L (dev, n) -> lh_n L + Z.of_nat (length hs) < Z.of_nat NBUF ->
  (forall b l, txn me dev (fsb s) l L v d ((dev, n) :: hs) -> is_buf (lbio l) b (dev, n) ->
     (forall j k', k' ∈ hs -> is_buf (lbio (flog s)) j k' -> is_buf (lbio l) j k') ->
     Q b (set_flog l s)) ->
  fwp (bread_ me dev n) s Q.
Proof.
  intros H1 H2 H3 HQ. apply fwp_zoom.
  eapply (txn_bread _ _ _ _ _ _ _ _ T (dev, n)); [done..|]. intros b l T' Hb _ Hk. split; [done|]. by apply HQ.
Qed.

Lemma f_bdata b k Q : is_buf (lbio (flog s)) b k -> Q (v k) s -> fwp (bdata b) s Q.
Proof.
  intros Hb HQ. unfold bdata. apply fwp_bind, fwp_zoom.
  eapply (txn_bderef _ _ _ _ _ _ _ _ T b k); [done|]. intros E _ _. split; [done|].
  apply fwp_ret. rewrite E. by destruct s.
Qed.

Lemma f_bput b k g Q :
  k ∈ hs -> is_buf (lbio (flog s)) b k -> blk_ok (g (v k)) ->
  (forall l, txn me dev (fsb s) l L (<[k:=g (v k)]> v) d hs ->
     (forall j k', is_buf (lbio (flog s)) j k' -> is_buf (lbio l) j k') -> Q tt (set_flog l s)) ->
  fwp (bput b g) s Q.
Proof.
  intros H1 H2 H3 HQ. apply fwp_zoom.
  eapply (txn_bupdate _ _ _ _ _ _ _ _ T b k); [done..|]. intros l T' Hk. split; [done|]. by apply HQ.
Qed.

Lemma f_log_write b n Q :
  (dev, n) ∈ hs -> is_buf (lbio (flog s)) b (dev, n) -> 0 <= n < 2 ^ 31 -> 1 <= outstanding L ->
  lh_n L < Z.of_nat LOGSIZE -> lh_n L + 1 < size L -> lh_n L + 1 < Z.of_nat NBUF ->
  (forall l, txn me dev (fsb s) l (log_add n L) v d hs ->
     (forall j k', is_buf (lbio (flog s)) j k' -> is_buf (lbio l) j k') -> Q tt (set_flog l s)) ->
  fwp (log_write_ b) s Q.
Proof.
  intros. apply fwp_zoom.
  eapply (txn_log_write _ _ _ _ _ _ _ _ _ _ _ T); [done..|]. intros l T' Hk. split; [done|]. auto.
Qed.

End Ops.

Lemma f_brelse me dev s L v d k hs b Q :
  txn me dev (fsb s) (flog s) L v d (k :: hs) -> is_buf (lbio (flog s)) b k ->
  home dev L k \/ v k = d k ->
  (forall l, txn me dev (fsb s) l L v d hs ->
     (forall j k', is_buf (lbio (flog s)) j k' -> is_buf (lbio l) j k') -> Q tt (set_flog l s)) ->
  fwp (brelse_ me b) s Q.
Proof.
  intros T H1 H2 HQ. apply fwp_zoom. eapply (txn_brelse _ _ _ _ _ _ _ _ _ _ _ T); [done..|].
  intros l T' Hk. split; [done|]. by apply HQ.
Qed.

Lemma f_ideref s i ip Q : inodes s !! i = Some ip -> Q ip s -> fwp (ideref i) s Q.
Proof. intros H HQ. eapply wp_fetch; [exact H|]. done. Qed.

Lemma f_iassign s i ip g Q :
  inodes s !! i = Some ip -> Q tt (set_inodes (<[i := g ip]> (inodes s)) s) -> fwp (iassign i g) s Q.
Proof. intros H HQ. unfold iassign. fstep. eapply f_ideref; [done|]. fstep. done. Qed.

(** A block that is not locked can be released as it is. *)
Lemma txn_unlocked me dev sb l L v d hs k :
  txn me dev sb l L v d hs -> ~ in_log dev L k -> k ∉ hs -> home dev L k \/ v k = d k.
Proof.
  intros T H1 H2. destruct (decide (home dev L k)) as [|Hh]; [by left|right].
  by apply (tx_clean _ _ _ _ _ _ _ _ T).
Qed.

(** ** Room in the log and in the cache *)

(** Room for [n] more blocks in the transaction and [c] more locked ones. *)
Definition room (n c : Z) (L : log) (hs : list (Z * Z)) : Prop :=
  1 <= outstanding L /\ lh_n L + n < size L /\ lh_n L + n + Z.of_nat (length hs) + c <= Z.of_nat NBUF.

Lemma log_add_n b L : lh_n (log_add b L) <= lh_n L + 1.
Proof. unfold log_add. case_bool_decide; simpl; lia. Qed.

Lemma room_add n c L hs b : room n c L hs -> room (n - 1) c (log_add b L) hs.
Proof.
  intros (H1 & H2 & H3). destruct (log_add_geom b L) as (_ & E2 & E3 & _).
  pose proof (log_add_n b L). unfold room. rewrite E2, E3. lia.
Qed.

Lemma room_hold n c L hs k : room n c L hs -> room n (c - 1) L (k :: hs).
Proof. intros (H1 & H2 & H3). unfold room. cbn [length]. lia. Qed.

Lemma room_drop n c L hs k : room n c L (k :: hs) -> room n (c + 1) L hs.
Proof. intros (H1 & H2 & H3). unfold room. cbn [length] in *. lia. Qed.

Lemma room_le n c n' c' L hs : room n c L hs -> n' <= n -> c' <= c -> room n' c' L hs.
Proof. unfold room. lia. Qed.

(** The buffers of the locked blocks stay where they are. *)
Definition keeps (hs : list (Z * Z)) (l l' : lstate) : Prop :=
  forall j k, k ∈ hs -> is_buf (lbio l) j k -> is_buf (lbio l') j k.

Lemma keeps_refl hs l : keeps hs l l.
Proof. by intros j k. Qed.

Lemma keeps_trans hs l1 l2 l3 : keeps hs l1 l2 -> keeps hs l2 l3 -> keeps hs l1 l3.
Proof. intros H1 H2 j k Hk Hb. by apply H2, H1. Qed.

Lemma keeps_weaken hs k l1 l2 : keeps (k :: hs) l1 l2 -> keeps hs l1 l2.
Proof. intros H j k' Hk. apply H. by right. Qed.

(** Reading a block that is not going to be changed. *)
Lemma f_bread' me dev s L v d hs n Q m c :
  txn me dev (fsb s) (flog s) L v d hs -> room m c L hs -> 0 <= m -> 1 <= c ->
  (dev, n) ∉ hs -> ~ in_log dev L (dev, n) ->
  (forall b l, txn me dev (fsb s) l L v d ((dev, n) :: hs) -> is_buf (lbio l) b (dev, n) ->
     keeps hs (flog s) l -> Q b (set_flog l s)) ->
  fwp (bread_ me dev n) s Q.
Proof.
  intros T (R1 & R2 & R3) Hm Hc Hk Hl HQ. eapply f_bread; [exact T|done|done|lia|].
  intros b l T' Hb Hkeep. by apply HQ.
Qed.

(** A store into a locked block, logged. *)
Lemma f_logged {A} me dev s L v d hs n b g m c (K : M fstate A) Q :
  txn me dev (fsb s) (flog s) L v d ((dev, n) :: hs) -> room m c L ((dev, n) :: hs) -> 1 <= m -> 0 <= c ->
  is_buf (lbio (flog s)) b (dev, n) -> 0 <= n < 2 ^ 31 -> blk_ok (g (v (dev, n))) ->
  (forall l, txn me dev (fsb s) l (log_add n L) (<[(dev, n) := g (v (dev, n))]> v) d hs ->
     keeps hs (flog s) l -> fwp K (set_flog l s) Q) ->
  fwp (bput b g ;;; log_write_ b ;;; brelse_ me b ;;; K) s Q.
Proof.
  intros T (R1 & R2 & R3) Hm Hc Hb Hn Hg HQ. pose proof (tx_ok _ _ _ _ _ _ _ _ T) as Hok.
  cbn [length] in R3. fstep. eapply (f_bput _ _ _ _ _ _ _ T b (dev, n)); [by left|done|done|].
  intros l1 T1 K1. fstep. eapply (f_log_write _ _ (set_flog l1 s) _ _ _ _ T1 b n); [by left|by apply K1|done|done|
    unfold LOGSIZE; unfold NBUF in R3; lia|lia|lia|].
  intros l2 T2 K2. fstep. eapply (f_brelse _ _ (set_flog l2 s) _ _ _ _ _ _ _ T2); [by apply K2, K1| |].
  { left. apply log_add_home; [done|unfold LOGSIZE; unfold NBUF in R3; lia|]. by right. }
  intros l3 T3 K3. apply HQ; [done|]. intros j k' _ Hj. by apply K3, K2, K1.
Qed.

Lemma f_logged_end me dev s L v d hs n b g m c (Q : unit -> fstate -> Prop) :
  txn me dev (fsb s) (flog s) L v d ((dev, n) :: hs) -> room m c L ((dev, n) :: hs) -> 1 <= m -> 0 <= c ->
  is_buf (lbio (flog s)) b (dev, n) -> 0 <= n < 2 ^ 31 -> blk_ok (g (v (dev, n))) ->
  (forall l, txn me dev (fsb s) l (log_add n L) (<[(dev, n) := g (v (dev, n))]> v) d hs ->
     keeps hs (flog s) l -> Q tt (set_flog l s)) ->
  fwp (bput b g ;;; log_write_ b ;;; brelse_ me b) s Q.
Proof.
  intros T (R1 & R2 & R3) Hm Hc Hb Hn Hg HQ. pose proof (tx_ok _ _ _ _ _ _ _ _ T) as Hok.
  cbn [length] in R3. fstep. eapply (f_bput _ _ _ _ _ _ _ T b (dev, n)); [by left|done|done|].
  intros l1 T1 K1. fstep. eapply (f_log_write _ _ (set_flog l1 s) _ _ _ _ T1 b n); [by left|by apply K1|done|done|
    unfold LOGSIZE; unfold NBUF in R3; lia|lia|lia|].
  intros l2 T2 K2. eapply (f_brelse _ _ (set_flog l2 s) _ _ _ _ _ _ _ T2); [by apply K2, K1| |].
  { left. apply log_add_home; [done|unfold LOGSIZE; unfold NBUF in R3; lia|]. by right. }
  intros l3 T3 K3. apply HQ; [done|]. intros j k' _ Hj. by apply K3, K2, K1.
Qed.

(** ** The layout of the disk (fs.h) *)

Record sb_ok (sb : superblock) : Prop := {
  so_log : 1 < sb_logstart sb;
  so_nlog : 0 < sb_nlog sb;
  so_inode : sb_logstart sb + sb_nlog sb <= sb_inodestart sb;
  so_bmap : sb_inodestart sb + sb_ninodes sb / IPB < sb_bmapstart sb;
  so_data : sb_bmapstart sb + sb_size sb / BPB < sb_size sb;
  so_size : sb_size sb < 2 ^ 31;
  so_ninodes : 0 < sb_ninodes sb }.

(** The first data block. *)
Definition datastart (sb : superblock) : Z := sb_bmapstart sb + sb_size sb / BPB + 1.

Section Layout.
Context (sb : superblock) (Hsb : sb_ok sb).

Lemma sb_small : 0 <= sb_ninodes sb / IPB /\ 0 <= sb_size sb / BPB /\ 0 < sb_size sb.
Proof.
  destruct Hsb. assert (0 <= sb_ninodes sb / IPB) by (apply Z.div_pos; unfold IPB; lia).
  destruct (decide (0 <= sb_size sb)) as [Hs|Hs].
  - assert (0 <= sb_size sb / BPB) by (apply Z.div_pos; unfold BPB, BSIZE; lia). lia.
  - assert (sb_size sb / BPB <= 0) by (apply Z.div_le_upper_bound; unfold BPB, BSIZE; lia).
    exfalso. unfold BPB, BSIZE in *. Z.div_mod_to_equations. lia.
Qed.

Lemma BBLOCK_eq b : 0 <= b < sb_size sb -> BBLOCK b sb = sb_bmapstart sb + b / BPB.
Proof.
  intros Hb. destruct Hsb. unfold BBLOCK. rewrite u32_small; [lia|].
  assert (0 <= b / BPB <= sb_size sb / BPB) by (split; [apply Z.div_pos|apply Z.div_le_mono]; unfold BPB, BSIZE; lia).
  assert (0 <= sb_ninodes sb / IPB) by (apply Z.div_pos; unfold IPB; lia). lia.
Qed.

Lemma BBLOCK_range b : 0 <= b < sb_size sb -> sb_bmapstart sb <= BBLOCK b sb < datastart sb.
Proof.
  intros Hb. rewrite BBLOCK_eq by done. unfold datastart.
  assert (0 <= b / BPB <= sb_size sb / BPB) by (split; [apply Z.div_pos|apply Z.div_le_mono]; unfold BPB, BSIZE; lia).
  lia.
Qed.

Lemma IBLOCK_range i : 0 <= i < sb_ninodes sb -> sb_inodestart sb <= IBLOCK i sb < sb_bmapstart sb.
Proof.
  intros Hi. destruct Hsb. unfold IBLOCK.
  assert (0 <= i / IPB <= sb_ninodes sb / IPB) by (split; [apply Z.div_pos|apply Z.div_le_mono]; unfold IPB; lia).
  pose proof sb_small. rewrite u32_small; lia.
Qed.

Lemma not_in_log me dev l L v d hs n :
  txn me dev sb l L v d hs -> sb_inodestart sb <= n -> ~ in_log dev L (dev, n).
Proof.
  intros T Hn [_ Hl]. simpl in Hl. rewrite (tx_start _ _ _ _ _ _ _ _ T), (tx_size _ _ _ _ _ _ _ _ T) in Hl.
  destruct Hsb. pose proof sb_small. rewrite !i32_small in Hl by lia. lia.
Qed.

Lemma datastart_pos : 0 < sb_inodestart sb < datastart sb /\ datastart sb <= sb_size sb.
Proof. pose proof sb_small. destruct Hsb. unfold datastart. lia. Qed.

End Layout.

(** ** The free map *)

Lemma byte_bits x : byte_ok x -> forall n, 8 <= n -> Z.testbit x n = false.
Proof.
  intros Hx n Hn. unfold byte_ok in Hx. destruct (decide (x = 0)) as [->|]; [apply Z.testbit_0_l|].
  apply Z.bits_above_log2; [lia|]. assert (Z.log2 x < 8) by (apply Z.log2_lt_pow2; lia). lia.
Qed.

(** Bit [bi] of a free-map block. *)
Definition bitv (d : list Z) (bi : Z) : bool := Z.testbit (nth (Z.to_nat (bi / 8)) d 0) (bi mod 8).

Lemma bit_get_eq bi d : (bit_get bi d =? 0) = negb (bitv d bi).
Proof. unfold bit_get, bitv. apply land_bit. apply Z.mod_pos_bound. lia. Qed.

(** Changing one byte of a block bit by bit. *)
Lemma bitv_alter g d bi bj :
  0 <= bi < 8 * Z.of_nat (length d) -> 0 <= bj ->
  bitv (alter g (Z.to_nat (bi / 8)) d) bj =
    if bi / 8 =? bj / 8 then Z.testbit (g (nth (Z.to_nat (bi / 8)) d 0)) (bj mod 8) else bitv d bj.
Proof.
  intros Hi Hj. unfold bitv.
  assert (Z.to_nat (bi / 8) < length d)%nat as Hlt by (Z.div_mod_to_equations; lia).
  rewrite !nth_lookup. destruct (Z.eqb_spec (bi / 8) (bj / 8)) as [E|E].
  - rewrite <- E, list_lookup_alter_eq. destruct (lookup_lt_is_Some_2 _ _ Hlt) as [x ->]. done.
  - rewrite list_lookup_alter_ne; [done|]. intros E'. apply E.
    apply Z2Nat.inj in E'; [done| |]; apply Z.div_pos; lia.
Qed.

Lemma same_bit bi bj : 0 <= bi -> 0 <= bj -> bi / 8 = bj / 8 -> bi mod 8 = bj mod 8 -> bi = bj.
Proof. intros. Z.div_mod_to_equations. lia. Qed.

Lemma bit_set_get d bi bj : 0 <= bi < 8 * Z.of_nat (length d) -> 0 <= bj ->
  bitv (bit_set bi d) bj = if bi =? bj then true else bitv d bj.
Proof.
  intros Hi Hj. unfold bit_set. rewrite bitv_alter by done.
  assert (0 <= bi mod 8 < 8) by (apply Z.mod_pos_bound; lia).
  assert (0 <= bj mod 8 < 8) by (apply Z.mod_pos_bound; lia).
  destruct (Z.eqb_spec (bi / 8) (bj / 8)) as [E|E].
  - unfold u8. rewrite Z.mod_pow2_bits_low, Z.lor_spec, Z.shiftl_1_l by lia.
    destruct (Z.eqb_spec bi bj) as [->|Hne].
    + rewrite Z.pow2_bits_true by lia. apply orb_true_r.
    + rewrite Z.pow2_bits_false, orb_false_r by (intros E'; apply Hne; apply same_bit; [lia|lia|done|done]).
      unfold bitv. by rewrite E.
  - destruct (Z.eqb_spec bi bj) as [->|]; done.
Qed.

Lemma bit_clear_get d bi bj : 0 <= bi < 8 * Z.of_nat (length d) -> 0 <= bj ->
  bitv (bit_clear bi d) bj = if bi =? bj then false else bitv d bj.
Proof.
  intros Hi Hj. unfold bit_clear. rewrite bitv_alter by done.
  assert (0 <= bi mod 8 < 8) by (apply Z.mod_pos_bound; lia).
  assert (0 <= bj mod 8 < 8) by (apply Z.mod_pos_bound; lia).
  destruct (Z.eqb_spec (bi / 8) (bj / 8)) as [E|E].
  - unfold u8. rewrite Z.mod_pow2_bits_low, Z.land_spec, Z.lnot_spec, Z.shiftl_1_l by lia.
    destruct (Z.eqb_spec bi bj) as [->|Hne].
    + rewrite Z.pow2_bits_true by lia. apply andb_false_r.
    + rewrite Z.pow2_bits_false, andb_true_r by (intros E'; apply Hne; apply same_bit; [lia|lia|done|done]).
      unfold bitv. by rewrite E.
  - destruct (Z.eqb_spec bi bj) as [->|]; done.
Qed.

Lemma alter_blk_ok g n x : (forall y, byte_ok (u8 (g y))) -> blk_ok x -> blk_ok (alter (fun y => u8 (g y)) n x).
Proof.
  intros Hg [Hl Hx]. split; [by rewrite length_alter|]. apply Forall_lookup. intros i y Hy.
  destruct (decide (i = n)) as [->|Hne].
  - rewrite list_lookup_alter_eq in Hy. destruct (x !! n); simplify_eq/=. apply Hg.
  - rewrite list_lookup_alter_ne in Hy by done. by eapply Forall_lookup in Hx.
Qed.

Lemma bit_set_ok bi x : blk_ok x -> blk_ok (bit_set bi x).
Proof. apply (alter_blk_ok (fun y => Z.lor y _)). intros y. apply u8_range. Qed.

Lemma bit_clear_ok bi x : blk_ok x -> blk_ok (bit_clear bi x).
Proof. apply (alter_blk_ok (fun y => Z.land y _)). intros y. apply u8_range. Qed.

(** Whether block [b] is marked in use. *)
Definition marked (dev : Z) (sb : superblock) (v : Z * Z -> list Z) (b : Z) : bool :=
  bitv (v (dev, BBLOCK b sb)) (b mod BPB).

(** The values the loops of [balloc] run through. *)
Lemma balloc_outer_split size b : 0 <= b < size ->
  exists l1 l2, balloc_outer size = l1 ++ (b / BPB * BPB) :: l2 /\
    forall y, y ∈ l1 -> exists i, y = i * BPB /\ 0 <= i < b / BPB.
Proof.
  intros Hb. assert (0 < BPB) as HB by done. set (q := b / BPB).
  assert (0 <= q) as Hq by (apply Z.div_pos; lia).
  assert (q < (size + BPB - 1) / BPB) as Hlt.
  { unfold q. apply Z.lt_le_trans with (b / BPB + 1); [lia|].
    replace (b / BPB + 1) with ((b + 1 * BPB) / BPB) by (by rewrite Z.div_add by lia).
    apply Z.div_le_mono; lia. }
  exists ((fun i => Z.of_nat i * BPB) <$> seq 0 (Z.to_nat q)),
    ((fun i => Z.of_nat i * BPB) <$> seq (S (Z.to_nat q)) (Z.to_nat ((size + BPB - 1) / BPB) - S (Z.to_nat q))).
  split.
  - unfold balloc_outer.
    replace (Z.to_nat ((size + BPB - 1) / BPB)) with
      (Z.to_nat q + S (Z.to_nat ((size + BPB - 1) / BPB) - S (Z.to_nat q)))%nat at 1 by lia.
    rewrite seq_app, fmap_app. simpl. f_equal. f_equal. lia.
  - intros y Hy. apply list_elem_of_fmap in Hy as (i & -> & Hi). apply elem_of_seq in Hi.
    exists (Z.of_nat i). split; [done|lia].
Qed.

Lemma balloc_inner_split size b bi : 0 <= bi < BPB -> b + bi < size ->
  exists l1 l2, balloc_inner size b = l1 ++ bi :: l2 /\ forall y, y ∈ l1 -> 0 <= y < bi.
Proof.
  intros Hbi Hs. set (m := Z.to_nat (Z.min BPB (size - b))).
  exists (Z.of_nat <$> seq 0 (Z.to_nat bi)), (Z.of_nat <$> seq (S (Z.to_nat bi)) (m - S (Z.to_nat bi))).
  split.
  - unfold balloc_inner. fold m.
    replace m with (Z.to_nat bi + S (m - S (Z.to_nat bi)))%nat at 1 by lia.
    rewrite seq_app, fmap_app. simpl. f_equal. f_equal. lia.
  - intros y Hy. apply list_elem_of_fmap in Hy as (i & -> & Hi). apply elem_of_seq in Hi. lia.
Qed.

Lemma balloc_inner_elem size b y : y ∈ balloc_inner size b -> 0 <= y < BPB /\ b + y < size.
Proof.
  intros Hy. apply list_elem_of_fmap in Hy as (i & -> & Hi). apply elem_of_seq in Hi. lia.
Qed.

(** ** Allocating and freeing blocks *)

Lemma bzero_spec me dev s L v d hs n m c (Q : unit -> fstate -> Prop) :
  txn me dev (fsb s) (flog s) L v d hs -> room m c L hs -> 1 <= m -> 1 <= c ->
  (dev, n) ∉ hs -> ~ in_log dev L (dev, n) -> 0 <= n < 2 ^ 31 ->
  (forall l, txn me dev (fsb s) l (log_add n L) (<[(dev, n) := replicate BSIZE 0]> v) d hs ->
     keeps hs (flog s) l -> Q tt (set_flog l s)) ->
  fwp (bzero me dev n) s Q.
Proof.
  intros T R Hm Hc Hk Hl Hn HQ. unfold bzero. rewrite u32_small by lia. fstep.
  eapply (f_bread' _ _ _ _ _ _ _ _ _ _ _ T R); [lia|lia|done|done|]. intros b l1 T1 Hb1 K1.
  pose proof (txn_blk_ok _ _ _ _ _ _ _ _ T (dev, n)) as [Hlen _].
  eapply (f_logged_end _ _ (set_flog l1 s) _ _ _ _ _ _ _ m (c - 1)); [exact T1|by apply room_hold|lia|lia|done|done| |].
  - rewrite Hlen. by apply blk_ok_fill.
  - intros l2 T2 K2. rewrite Hlen in T2. apply HQ; [done|]. by eapply keeps_trans.
Qed.

(** The view after allocating block [b]: marked, and zeroed. *)
Definition allocated (dev : Z) (sb : superblock) (b : Z) (v : Z * Z -> list Z) : Z * Z -> list Z :=
  <[(dev, b) := replicate BSIZE 0]>
    (<[(dev, BBLOCK b sb) := bit_set (b mod BPB) (v (dev, BBLOCK b sb))]> v).
Definition freed_view (dev : Z) (sb : superblock) (b : Z) (v : Z * Z -> list Z) : Z * Z -> list Z :=
  <[(dev, BBLOCK b sb) := bit_clear (b mod BPB) (v (dev, BBLOCK b sb))]> v.

Section Alloc.
Context (me dev : Z) (s : fstate) (L : log) (v d : Z * Z -> list Z) (hs : list (Z * Z)) (m c : Z).
Let sb : superblock := fsb s.
Context (T : txn me dev sb (flog s) L v d hs) (Hsb : sb_ok sb) (R : room m c L hs) (Hm0 : 0 <= m) (Hc : 1 <= c).
Context (Hbm : forall b, 0 <= b < sb_size sb -> (dev, BBLOCK b sb) ∉ hs).

Lemma BBLOCK_same b bi : (exists i, b = i * BPB) -> 0 <= b -> 0 <= bi < BPB ->
  BBLOCK (b + bi) sb = BBLOCK b sb /\ (b + bi) mod BPB = bi.
Proof.
  intros [i ->] Hb Hbi. unfold BBLOCK. split.
  - do 2 f_equal. rewrite Z.div_mul by done. rewrite Z.add_comm, Z.div_add by done.
    rewrite Z.div_small; lia.
  - rewrite Z.add_comm, Z.mod_add by done. by apply Z.mod_small.
Qed.

Lemma free_map_key b : 0 <= b < sb_size sb ->
  ~ in_log dev L (dev, BBLOCK b sb) /\ 0 <= BBLOCK b sb < 2 ^ 31 /\ BBLOCK b sb < datastart sb.
Proof.
  intros Hb. destruct (BBLOCK_range sb Hsb b Hb) as [H1 H2].
  pose proof (sb_small sb Hsb) as (H3 & H4 & H5). destruct Hsb. split_and!.
  - eapply not_in_log; [done|exact T|]. lia.
  - lia.
  - unfold datastart in H2. lia.
  - done.
Qed.

(** A block of the free map without a free bit is passed over. *)
Lemma free_map_pass {R'} b (body : Z -> nat -> M fstate (unit + R')) :
  (exists i, b = i * BPB) -> 0 <= b < sb_size sb ->
  (forall bi, 0 <= bi < BPB -> b + bi < sb_size sb -> marked dev sb v (b + bi) = true) ->
  (forall bi bp s', bitv (v (dev, BBLOCK b sb)) bi = true ->
     fwp (bdata bp) s' (fun x s'' => x = v (dev, BBLOCK b sb) /\ s'' = s') ->
     fwp (body bi bp) s' (fun r s'' => r = inl tt /\ s'' = s')) ->
  forall l, txn me dev sb l L v d hs -> keeps hs (flog s) l ->
  fwp (bp <- bread_ me dev (BBLOCK b sb) ;;
       r <- for_each (balloc_inner (sb_size sb) b) (fun bi => body bi bp) ;;
       match r with
       | Some a => ret (inr a)
       | None => brelse_ me bp ;;; ret (inl tt)
       end) (set_flog l s)
    (fun r s' => r = inl tt /\ exists l', s' = set_flog l' s /\ txn me dev sb l' L v d hs /\ keeps hs (flog s) l').
Proof.
  intros Hi Hb Hall Hbody l Tl Kl. destruct (free_map_key b Hb) as (K1 & K2 & K3). pose proof R as (R1 & R2 & R3).
  fstep. eapply (f_bread _ _ (set_flog l s) _ _ _ _ Tl); [by apply Hbm|done|lia|].
  intros bp l1 T1 Hb1 Kp1. fstep.
  eapply (fwp_search_none _ (fun s' => s' = set_flog l1 s)); [done| |].
  - intros bi s' Hbi ->. apply balloc_inner_elem in Hbi as [Hbi Hsz].
    destruct (BBLOCK_same b bi Hi ltac:(lia) Hbi) as [E1 E2].
    apply Hbody.
    + pose proof (Hall bi Hbi Hsz) as Hm. unfold marked in Hm. by rewrite E1, E2 in Hm.
    + eapply (f_bdata _ _ (set_flog l1 s) _ _ _ _ T1); [done|]. done.
  - intros s' ->. fstep. eapply (f_brelse _ _ (set_flog l1 s) _ _ _ _ _ _ _ T1); [done| |].
    + eapply txn_unlocked; [exact T|done|by apply Hbm].
    + intros l2 T2 K2'. fstep. split; [done|]. exists l2. split_and!; [done|done|].
      intros j k Hk Hj. apply K2', Kp1; [done|]. by apply Kl.
Qed.

(** The scan of one block of the free map in [balloc]. *)
Let scan (b : Z) : M fstate (unit + Z) :=
  bp <- bread_ me dev (BBLOCK b sb) ;;
  r <- for_each (balloc_inner (sb_size sb) b) (fun bi =>
         d <- bdata bp ;;
         if bit_get bi d =? 0 then
           bput bp (bit_set bi) ;;;
           log_write_ bp ;;;
           brelse_ me bp ;;;
           bzero me dev (b + bi) ;;;
           ret (inr (b + bi))
         else ret (inl tt)) ;;
  match r with
  | Some a => ret (inr a)
  | None => brelse_ me bp ;;; ret (inl tt)
  end.

(** The block of the free map with the first free bit ends the search. *)
Lemma free_map_hit fb l (Q : unit + Z -> fstate -> Prop) :
  1 <= m -> room 1 c (log_add (BBLOCK fb sb) L) hs ->
  datastart sb <= fb < sb_size sb -> (dev, fb) ∉ hs -> marked dev sb v fb = false ->
  (forall b, 0 <= b < fb -> marked dev sb v b = true) ->
  txn me dev sb l L v d hs -> keeps hs (flog s) l ->
  (forall l, txn me dev sb l (log_add fb (log_add (BBLOCK fb sb) L)) (allocated dev sb fb v) d hs ->
     keeps hs (flog s) l -> Q (inr fb) (set_flog l s)) ->
  fwp (scan (fb / BPB * BPB)) (set_flog l s) Q.
Proof.
  intros Hm R' Hfb Hk Hfree Hused Tl Kl HQ. pose proof (datastart_pos sb Hsb) as S4. pose proof (so_size sb Hsb) as S5.
  set (b := fb / BPB * BPB). set (bi := fb mod BPB).
  assert (0 <= bi < BPB) as Hbi by (by apply Z.mod_pos_bound).
  assert (fb = b + bi) as Efb by (unfold b, bi; pose proof (Z.div_mod fb BPB); lia).
  assert (0 <= fb / BPB) as Hq by (apply Z.div_pos; lia).
  assert (0 <= b) as Hb by (unfold b; apply Z.mul_nonneg_nonneg; [lia|done]).
  destruct (BBLOCK_same b bi (ex_intro _ (fb / BPB) eq_refl) Hb Hbi) as [E1 E2]. rewrite <- Efb in E1, E2.
  destruct (free_map_key fb ltac:(lia)) as (F1 & F2 & F3). unfold scan. rewrite <- E1. fstep.
  eapply (f_bread' _ _ (set_flog l s) _ _ _ _ _ _ m c); [exact Tl|exact R|lia|lia|by apply Hbm; lia|done|].
  intros bp l3 T3 Hb3 K3. fstep.
  destruct (balloc_inner_split (sb_size sb) b bi Hbi ltac:(lia)) as (i1 & i2 & Ei & Hi1). rewrite Ei.
  eapply (fwp_search _ (fun s' => s' = set_flog l3 s)); [done| |].
  - intros bj s' Hbj ->. specialize (Hi1 bj Hbj). fstep.
    eapply (f_bdata _ _ (set_flog l3 s) _ _ _ _ T3); [done|].
    destruct (BBLOCK_same b bj (ex_intro _ (fb / BPB) eq_refl) Hb ltac:(lia)) as [E3 E4].
    pose proof (Hused (b + bj) ltac:(lia)) as Hu. unfold marked in Hu. rewrite E3, E4, <- E1 in Hu.
    rewrite bit_get_eq, Hu. simpl. by fstep.
  - intros s' ->. fstep. eapply (f_bdata _ _ (set_flog l3 s) _ _ _ _ T3); [done|].
    unfold marked in Hfree. fold bi in Hfree. rewrite bit_get_eq, Hfree. simpl.
    pose proof (txn_blk_ok _ _ _ _ _ _ _ _ T (dev, BBLOCK fb sb)) as Hblk.
    eapply (f_logged _ _ (set_flog l3 s) _ _ _ _ _ _ _ m (c - 1)); [exact T3|by apply room_hold|lia|lia|done|done|by apply bit_set_ok|].
    intros l4 T4 K4. fstep. rewrite <- Efb.
    eapply (bzero_spec _ _ (set_flog l4 s) _ _ _ _ _ 1 c); [exact T4|exact R'|lia|lia|done| |lia|].
    { eapply not_in_log; [exact Hsb|exact T4|]. lia. }
    intros l5 T5 K5. fstep. exists fb. split; [done|]. fstep.
    apply HQ; [exact T5|]. repeat (eapply keeps_trans; [done|]). apply keeps_refl.
Qed.

Lemma balloc_spec fb (Q : Z -> fstate -> Prop) :
  1 <= m -> room 1 c (log_add (BBLOCK fb sb) L) hs ->
  datastart sb <= fb < sb_size sb -> (dev, fb) ∉ hs -> marked dev sb v fb = false ->
  (forall b, 0 <= b < fb -> marked dev sb v b = true) ->
  (forall l, txn me dev sb l (log_add fb (log_add (BBLOCK fb sb) L)) (allocated dev sb fb v) d hs ->
     keeps hs (flog s) l -> Q fb (set_flog l s)) ->
  fwp (balloc me dev) s Q.
Proof.
  intros Hm R' Hfb Hk Hfree Hused HQ. pose proof (datastart_pos sb Hsb) as S4.
  unfold balloc. fstep. fstep. fold sb.
  destruct (balloc_outer_split (sb_size sb) fb ltac:(lia)) as (l1 & l2 & El & Hl1). rewrite El. fstep.
  eapply (fwp_search _ (fun s' => exists l, s' = set_flog l s /\ txn me dev sb l L v d hs /\ keeps hs (flog s) l)).
  - exists (flog s). split_and!; [by destruct s|done|apply keeps_refl].
  - intros y s' Hy (l & -> & Tl & Kl). destruct (Hl1 y Hy) as (i & -> & Hi).
    assert (i * BPB + BPB <= fb) as Hle.
    { pose proof (Z.div_mod fb BPB ltac:(done)). pose proof (Z.mod_pos_bound fb BPB ltac:(done)).
      assert (0 < BPB) by done. nia. }
    assert (0 <= i * BPB) as Hi0 by (apply Z.mul_nonneg_nonneg; [lia|done]). assert (0 < BPB) as HB by done.
    eapply (free_map_pass (i * BPB)); [by exists i|lia| | |done|done].
    + intros bj Hbj Hsz. apply Hused. lia.
    + intros bj bp s' Hbit Hd. fstep. eapply fwp_mono; [exact Hd|]. intros x s'' [-> ->]. cbv beta.
      rewrite bit_get_eq, Hbit. simpl. by fstep.
  - intros s' (l & -> & Tl & Kl). eapply free_map_hit; [done..|].
    intros l' T' K'. exists fb. split; [done|]. fstep. by apply HQ.
Qed.

(** Freeing a block clears its mark; a second time it panics. *)
Lemma bfree_spec b (Q : unit -> fstate -> Prop) :
  1 <= m -> 0 <= b < sb_size sb -> marked dev sb v b = true ->
  (forall l, txn me dev sb l (log_add (BBLOCK b sb) L) (freed_view dev sb b v) d hs ->
     keeps hs (flog s) l -> Q tt (set_flog l s)) ->
  fwp (bfree me dev b) s Q.
Proof.
  intros Hm Hb Hu HQ. destruct (free_map_key b Hb) as (F1 & F2 & F3). unfold bfree. fstep. fstep. fold sb. fstep.
  eapply (f_bread' _ _ s _ _ _ _ _ _ m c); [exact T|exact R|lia|lia|by apply Hbm|done|].
  intros bp l1 T1 Hb1 K1. cbv zeta. fstep. eapply (f_bdata _ _ (set_flog l1 s) _ _ _ _ T1); [done|].
  unfold marked in Hu. rewrite bit_get_eq, Hu. cbn [negb].
  eapply (f_logged_end _ _ (set_flog l1 s) _ _ _ _ _ _ _ m (c - 1)); [exact T1|by apply room_hold|lia|lia|done|done| |].
  - apply bit_clear_ok. by eapply txn_blk_ok.
  - intros l2 T2 K2. apply HQ; [done|]. by eapply keeps_trans.
Qed.

Lemma bfree_free b :
  0 <= b < sb_size sb -> marked dev sb v b = false ->
  exists s' t, bfree me dev b s = Panic "freeing free block" s' t.
Proof.
  intros Hb Hu. destruct (free_map_key b Hb) as (F1 & F2 & F3).
  assert (wp_panic (bfree me dev b) s (fun e _ _ => e = "freeing free block"%string)) as Hp.
  { unfold bfree. apply wp_panic_bind. wp_step. fold sb. apply wp_panic_bind.
    eapply wp_mono; [eapply (f_bread' _ _ s _ _ _ _ _ (fun bp s' =>
      wp_panic (d <- bdata bp ;; if bit_get (b mod BPB) d =? 0 then panic "freeing free block"
        else bput bp (bit_clear (b mod BPB)) ;;; log_write_ bp ;;; brelse_ me bp) s'
        (fun e _ _ => e = "freeing free block"%string)) m c); [exact T|exact R|lia|lia|by apply Hbm|done|]|].
    - intros bp l1 T1 Hb1 _. apply wp_panic_bind.
      eapply wp_mono; [eapply (f_bdata _ _ (set_flog l1 s) _ _ _ _ T1 bp _ (fun x s' => x = v (dev, BBLOCK b sb))); [done|done]|].
      cbv beta. intros x s' t [_ ->]. unfold marked in Hu. by rewrite bit_get_eq, Hu.
    - cbv beta. by intros bp s' t [_ H]. }
  unfold wp_panic in Hp. destruct (bfree me dev b s); try done. subst. by eexists _, _.
Qed.

End Alloc.

(** The bits of the free map after an allocation and after a release. *)
Lemma allocated_marked dev sb v b b' :
  sb_ok sb -> (forall k, blk_ok (v k)) -> datastart sb <= b < sb_size sb -> 0 <= b' < sb_size sb ->
  marked dev sb (allocated dev sb b v) b' = (b =? b') || marked dev sb v b'.
Proof.
  intros Hsb Hv Hb Hb'. pose proof (datastart_pos sb Hsb) as S4.
  pose proof (BBLOCK_range sb Hsb b' Hb') as Hr. pose proof (Z.mod_pos_bound b BPB ltac:(done)) as Hm.
  pose proof (Z.mod_pos_bound b' BPB ltac:(done)) as Hm'. destruct (Hv (dev, BBLOCK b sb)) as [Hlen _].
  unfold marked, allocated. rewrite fn_lookup_insert_ne by (intros [=]; lia).
  destruct (decide (BBLOCK b sb = BBLOCK b' sb)) as [E|E].
  - rewrite <- E, fn_lookup_insert, bit_set_get by (rewrite ?Hlen; unfold BPB in *; lia).
    rewrite !BBLOCK_eq in E by (done || lia). destruct (Z.eqb_spec b b') as [->|Hne].
    + by rewrite Z.eqb_refl.
    + destruct (Z.eqb_spec (b mod BPB) (b' mod BPB)) as [E2|]; [|done].
      exfalso. apply Hne. rewrite (Z.div_mod b BPB), (Z.div_mod b' BPB) by done. rewrite E2. lia.
  - rewrite fn_lookup_insert_ne by (by intros [=]).
    destruct (Z.eqb_spec b b') as [->|]; done.
Qed.

Lemma freed_marked dev sb v b b' :
  sb_ok sb -> (forall k, blk_ok (v k)) -> 0 <= b < sb_size sb -> 0 <= b' < sb_size sb ->
  marked dev sb (freed_view dev sb b v) b' = negb (b =? b') && marked dev sb v b'.
Proof.
  intros Hsb Hv Hb Hb'. pose proof (Z.mod_pos_bound b BPB ltac:(done)) as Hm.
  pose proof (Z.mod_pos_bound b' BPB ltac:(done)) as Hm'. destruct (Hv (dev, BBLOCK b sb)) as [Hlen _].
  unfold marked, freed_view. destruct (decide (BBLOCK b sb = BBLOCK b' sb)) as [E|E].
  - rewrite <- E, fn_lookup_insert, bit_clear_get by (rewrite ?Hlen; unfold BPB in *; lia).
    rewrite !BBLOCK_eq in E by done. destruct (Z.eqb_spec b b') as [->|Hne].
    + by rewrite Z.eqb_refl.
    + destruct (Z.eqb_spec (b mod BPB) (b' mod BPB)) as [E2|]; [|done].
      exfalso. apply Hne. rewrite (Z.div_mod b BPB), (Z.div_mod b' BPB) by done. rewrite E2. lia.
  - rewrite fn_lookup_insert_ne by (by intros [=]).
    destruct (Z.eqb_spec b b') as [->|]; done.
Qed.

(** C23: inside a transaction with room for two blocks, [balloc] returns the
    first block the free map has free, writes nothing to the disk, and leaves
    the transaction with that block zeroed, its mark set, every other mark and
    every block outside the free map as before; both blocks are logged. *)
Theorem balloc_first_free me dev s L v d hs m c fb :
  txn me dev (fsb s) (flog s) L v d hs -> sb_ok (fsb s) -> room m c L hs -> 2 <= m -> 1 <= c ->
  (forall b, 0 <= b < sb_size (fsb s) -> (dev, BBLOCK b (fsb s)) ∉ hs) ->
  datastart (fsb s) <= fb < sb_size (fsb s) -> (dev, fb) ∉ hs -> marked dev (fsb s) v fb = false ->
  (forall b, 0 <= b < fb -> marked dev (fsb s) v b = true) ->
  exists l t v', balloc me dev s = Ok fb (set_flog l s) t /\ disk_writes t = [] /\
    txn me dev (fsb s) l (log_add fb (log_add (BBLOCK fb (fsb s)) L)) v' d hs /\
    v' (dev, fb) = replicate BSIZE 0 /\
    (forall b, 0 <= b < sb_size (fsb s) -> marked dev (fsb s) v' b = (fb =? b) || marked dev (fsb s) v b) /\
    (forall k, k <> (dev, fb) -> k <> (dev, BBLOCK fb (fsb s)) -> v' k = v k).
Proof.
  intros T Hsb R Hm Hc Hbm Hfb Hk Hfree Hused.
  assert (fwp (balloc me dev) s (fun a s' => exists l, a = fb /\ s' = set_flog l s /\
    txn me dev (fsb s) l (log_add fb (log_add (BBLOCK fb (fsb s)) L)) (allocated dev (fsb s) fb v) d hs)) as H.
  { eapply (balloc_spec _ _ s L v d hs m c); [done|done|done|lia|lia|done|lia| |done|done|done|done|].
    { eapply room_le; [by apply room_add|lia|lia]. }
    intros l T' _. by exists l. }
  apply fwp_run in H as (a & s' & t & Hrun & Ht & l & -> & -> & T'). exists l, t. eexists.
  split; [done|]. split; [done|]. split; [exact T'|]. split_and!.
  - unfold allocated. by rewrite fn_lookup_insert.
  - intros b Hb. apply allocated_marked; [done|by eapply txn_blk_ok|done|done].
  - intros k H1 H2. unfold allocated. by rewrite !fn_lookup_insert_ne by done.
Qed.

(** A disk whose free map marks the metadata blocks and the first two data
    blocks, 46 and 47. *)
Definition dk_map : gmap (Z * Z) (list Z) :=
  {[ (0, 45) := replicate 6 255 ++ replicate (BSIZE - 6) 0 ]}.

Lemma dk_map_blk k : blk_ok (disk_block dk_map k).
Proof.
  unfold disk_block, dk_map. destruct (decide (k = (0, 45))) as [->|H].
  - rewrite lookup_singleton_eq. split; [done|].
    apply Forall_app. split; apply Forall_replicate; unfold byte_ok; lia.
  - rewrite lookup_singleton_ne by done. by apply blk_ok_fill.
Qed.

Lemma dk_map_marked v b : v (0, 45) = disk_block dk_map (0, 45) -> 0 <= b < 1000 ->
  marked 0 sb0 v b = (b <? 48).
Proof.
  intros E Hb. unfold marked, BBLOCK. change BPB with 8192. rewrite Z.div_small, Z.mod_small by lia.
  change (u32 (0 + sb_bmapstart sb0)) with 45. rewrite E.
  assert (forallb (fun b => Bool.eqb (bitv (disk_block dk_map (0, 45)) (Z.of_nat b)) (Z.of_nat b <? 48)) (seq 0 1000) = true) as H
    by (vm_compute; reflexivity).
  rewrite forallb_forall in H. specialize (H (Z.to_nat b)). rewrite Z2Nat.id in H by lia.
  apply Bool.eqb_prop, H, in_seq. lia.
Qed.

Lemma sb0_ok : sb_ok sb0.
Proof. by constructor. Qed.

(** A file system over a disk with an empty log, one operation begun. *)
Lemma fs_start dk :
  hb_n (disk_block dk (0, 2)) = 0 -> (forall k, blk_ok (disk_block dk k)) ->
  exists l L v d, txn 1 0 sb0 l L v d [] /\ outstanding L = 1 /\ committing L = 0 /\ homes L = [] /\ room 10 3 L [] /\
    forall k, 32 <= k.2 -> v k = disk_block dk k.
Proof.
  intros Hz Hb. destruct (txn_start dk Hz Hb) as (l & L & v & d & T & Ho & Hc & Hn & Hh & Hst & Hs & Hv).
  exists l, L, v, d. split_and!; try done.
  - unfold room. rewrite Ho, Hn, Hs. unfold NBUF. simpl. lia.
  - intros k Hk. apply Hv. unfold in_log. rewrite Hst, Hs. lia.
Qed.

Lemma balloc_first_free_witness : exists l l' t,
  balloc 1 0 (FState l [] sb0) = Ok 48 (FState l' [] sb0) t.
Proof.
  destruct (fs_start dk_map eq_refl dk_map_blk) as (l & L & v & d & T & Ho & Hc & Hh & R & Hv).
  specialize (Hv (0, 45) ltac:(simpl; lia)).
  destruct (balloc_first_free 1 0 (FState l [] sb0) L v d [] 10 3 48) as (l' & t & v' & H & _).
  - exact T.
  - exact sb0_ok.
  - exact R.
  - lia.
  - lia.
  - intros b _. apply not_elem_of_nil.
  - by vm_compute.
  - apply not_elem_of_nil.
  - exact (dk_map_marked v 48 Hv ltac:(lia)).
  - intros b Hb. etransitivity; [exact (dk_map_marked v b Hv ltac:(lia))|apply Z.ltb_lt; lia].
  - exists l, l', t. exact H.
Defined.

(** C24: [bfree] clears the mark of a used block and changes no other mark
    and no block outside the free map; on a block that is already free it
    panics. *)
Theorem bfree_clears me dev s L v d hs m c b :
  txn me dev (fsb s) (flog s) L v d hs -> sb_ok (fsb s) -> room m c L hs -> 1 <= m -> 1 <= c ->
  (forall b, 0 <= b < sb_size (fsb s) -> (dev, BBLOCK b (fsb s)) ∉ hs) ->
  0 <= b < sb_size (fsb s) ->
  if marked dev (fsb s) v b then
    exists l t v', bfree me dev b s = Ok tt (set_flog l s) t /\ disk_writes t = [] /\
      txn me dev (fsb s) l (log_add (BBLOCK b (fsb s)) L) v' d hs /\
      (forall b', 0 <= b' < sb_size (fsb s) ->
         marked dev (fsb s) v' b' = negb (b =? b') && marked dev (fsb s) v b') /\
      (forall k, k <> (dev, BBLOCK b (fsb s)) -> v' k = v k)
  else exists s' t, bfree me dev b s = Panic "freeing free block" s' t.
Proof.
  intros T Hsb R Hm Hc Hbm Hb. destruct (marked dev (fsb s) v b) eqn:Hu.
  - assert (fwp (bfree me dev b) s (fun _ s' => exists l, s' = set_flog l s /\
      txn me dev (fsb s) l (log_add (BBLOCK b (fsb s)) L) (freed_view dev (fsb s) b v) d hs)) as H.
    { eapply (bfree_spec _ _ s L v d hs m c); [done|done|done|lia|lia|done|done|done|done|].
      intros l T' _. by exists l. }
    apply fwp_run in H as ([] & s' & t & Hrun & Ht & l & -> & T'). exists l, t. eexists.
    split; [done|]. split; [done|]. split; [exact T'|]. split.
    + intros b' Hb'. apply freed_marked; [done|by eapply txn_blk_ok|done|done].
    + intros k Hk. unfold freed_view. by rewrite fn_lookup_insert_ne by done.
  - eapply (bfree_free _ _ s L v d hs m c); [done|done|done|lia|lia|done|done|done].
Qed.

Lemma bfree_clears_witness : exists l l' t s' t',
  bfree 1 0 46 (FState l [] sb0) = Ok tt (FState l' [] sb0) t /\
  bfree 1 0 48 (FState l [] sb0) = Panic "freeing free block" s' t'.
Proof.
  destruct (fs_start dk_map eq_refl dk_map_blk) as (l & L & v & d & T & Ho & Hc & Hh & R & Hv).
  specialize (Hv (0, 45) ltac:(simpl; lia)).
  pose proof (bfree_clears 1 0 (FState l [] sb0) L v d [] 10 3 46 T sb0_ok R ltac:(lia) ltac:(lia)
    (fun b _ => not_elem_of_nil _) ltac:(by vm_compute)) as H1.
  pose proof (bfree_clears 1 0 (FState l [] sb0) L v d [] 10 3 48 T sb0_ok R ltac:(lia) ltac:(lia)
    (fun b _ => not_elem_of_nil _) ltac:(by vm_compute)) as H2.
  change (fsb (FState l [] sb0)) with sb0 in H1, H2.
  rewrite (dk_map_marked v 46 Hv ltac:(lia)) in H1. rewrite (dk_map_marked v 48 Hv ltac:(lia)) in H2.
  destruct H1 as (l' & t & v' & H1 & _). destruct H2 as (s' & t' & H2).
  exists l, l', t, s', t'. split; [exact H1|exact H2].
Defined.
