(* ===== verification/FsInode.v ===== *)
(** * Facts about inodes (kernel/fs.c)

    The layout of a disk inode and what [iupdate] and [ilock] do with it; the
    cache of inodes and [iget]. *)

From Stdlib Require Import ZArith Lia.
From stdpp Require Import base gmap list strings functions.
From S2P Require Import Prelude Sleeplock Bio BioFacts Log LogFacts LogCrash LogTxn CString Fs FsFacts.
Local Open Scope xv6_scope.

(** ** The disk inode *)

(** The stores of [iupdate], in order. *)
Definition store_dinode (o : nat) (ip : inode) (d : list Z) : list Z :=
  put_addrs o (i_addrs ip) (put_word (o + 8) (i_size ip)
    (put_short o 3 (i_nlink ip) (put_short o 2 (i_minor ip)
      (put_short o 1 (i_major ip) (put_short o 0 (i_type ip) d))))).

(** Fields within the ranges of their C types. *)
Record inode_ok (ip : inode) : Prop := {
  io_type : - 2 ^ 15 <= i_type ip < 2 ^ 15;
  io_major : - 2 ^ 15 <= i_major ip < 2 ^ 15;
  io_minor : - 2 ^ 15 <= i_minor ip < 2 ^ 15;
  io_nlink : - 2 ^ 15 <= i_nlink ip < 2 ^ 15;
  io_size : 0 <= i_size ip < 2 ^ 32;
  io_len : length (i_addrs ip) = S NDIRECT;
  io_addrs : Forall (fun a => 0 <= a < 2 ^ 32) (i_addrs ip) }.

Lemma i16_u16 x : - 2 ^ 15 <= x < 2 ^ 15 -> i16 (u16 x) = x.
Proof.
  intros Hx. unfold i16, u16. rewrite Z.mod_mod by lia. destruct (decide (0 <= x)).
  - rewrite Z.mod_small by lia. by destruct (Z.ltb_spec x (2 ^ 15)); [|lia].
  - rewrite <- (Z_mod_plus_full x 1), Z.mod_small by lia. destruct (Z.ltb_spec (x + 1 * 2 ^ 16) (2 ^ 15)); lia.
Qed.

Lemma length_words l : length (concat (le_bytes 4 <$> l)) = (4 * length l)%nat.
Proof. induction l as [|a l IH]; [done|]. cbn [fmap list_fmap concat length]. rewrite length_app, IH, length_le_bytes. lia. Qed.

Lemma words_ok l : Forall byte_ok (concat (le_bytes 4 <$> l)).
Proof.
  induction l as [|a l IH]; cbn [fmap list_fmap concat]; [constructor|]. apply Forall_app. split; [apply le_bytes_ok|done].
Qed.

(** Word [i] of a block of words. *)
Lemma words_at l i a : l !! i = Some a -> bytes_at (4 * i) 4 (concat (le_bytes 4 <$> l)) = le_bytes 4 a.
Proof.
  revert i. induction l as [|b l IH]; intros i Hi; [done|]. cbn [fmap list_fmap concat]. unfold bytes_at.
  destruct i as [|i].
  - simplify_eq/=. by rewrite take_0.
  - replace (4 * S i)%nat with (length (le_bytes 4 b) + 4 * i)%nat by (rewrite length_le_bytes; lia).
    rewrite drop_app_add. by apply IH.
Qed.

Lemma bytes_at_sub o k n m d : (k + n <= m)%nat -> bytes_at (o + k) n d = bytes_at k n (bytes_at o m d).
Proof.
  intros H. unfold bytes_at. rewrite skipn_firstn_comm, take_take, drop_drop. f_equal. lia.
Qed.

Lemma bytes_put_blk o new x : Forall byte_ok new -> blk_ok x -> blk_ok (bytes_put o new x).
Proof. intros Hn [Hl Hx]. split; [by rewrite length_bytes_put|by apply bytes_put_ok]. Qed.

Lemma put_short_ok o k x d : blk_ok d -> blk_ok (put_short o k x d).
Proof. apply bytes_put_blk, le_bytes_ok. Qed.
Lemma put_word_ok o x d : blk_ok d -> blk_ok (put_word o x d).
Proof. apply bytes_put_blk, le_bytes_ok. Qed.
Lemma put_addrs_ok o l d : blk_ok d -> blk_ok (put_addrs o l d).
Proof. apply bytes_put_blk, words_ok. Qed.

#[export] Hint Resolve put_short_ok put_word_ok put_addrs_ok : blk.

Lemma store_dinode_ok o ip d : blk_ok d -> blk_ok (store_dinode o ip d).
Proof. intros H. unfold store_dinode. eauto 10 with blk. Qed.

(** What is read outside the stores of a disk inode is unchanged. *)
Lemma store_dinode_other o ip d o' n :
  length (i_addrs ip) = S NDIRECT -> (o' + n <= o \/ o + 64 <= o')%nat ->
  bytes_at o' n (store_dinode o ip d) = bytes_at o' n d.
Proof.
  intros Hl H. unfold store_dinode, put_addrs, put_word, put_short.
  rewrite !bytes_at_put_ne by (rewrite ?length_words, ?length_le_bytes, ?Hl; unfold NDIRECT; lia). done.
Qed.

(** [load_dinode] reads back what was stored. *)
Lemma load_store_dinode o ip d jp :
  inode_ok ip -> (o + 64 <= length d)%nat ->
  load_dinode o (store_dinode o ip d) jp =
    Inode (i_dev jp) (i_inum jp) (i_ref jp) (i_lock jp) (i_valid jp)
          (i_type ip) (i_major ip) (i_minor ip) (i_nlink ip) (i_size ip) (i_addrs ip).
Proof.
  intros [H1 H2 H3 H4 H5 H6 H7] Ho. unfold load_dinode, dip_type, dip_short, dip_size, dip_addrs, store_dinode.
  unfold put_addrs, put_word, put_short.
  set (a := concat (le_bytes 4 <$> i_addrs ip)).
  assert (length a = 52%nat) as Ha by (unfold a; rewrite length_words, H6; done).
  f_equal.
  1-5: rewrite ?bytes_at_put_ne by (rewrite ?Ha, ?length_le_bytes; lia);
       rewrite bytes_at_put_eq by (rewrite ?length_bytes_put, ?length_le_bytes; lia);
       rewrite le_val_bytes by (try (unfold u16, u32; apply Z.mod_pos_bound; lia));
       rewrite ?u32_small by lia; try apply i16_u16; lia.
  apply list_eq. intros i. rewrite list_lookup_fmap.
  destruct (decide (i < S NDIRECT)%nat) as [Hi|Hi].
  - rewrite lookup_seq_lt by done. cbn [fmap option_fmap option_map Nat.add].
    destruct (lookup_lt_is_Some_2 (i_addrs ip) i ltac:(lia)) as [x Hx]. rewrite Hx. f_equal.
    unfold NDIRECT in Hi. rewrite (bytes_at_sub (o + 12) (4 * i) 4 52) by lia.
    rewrite bytes_at_put_eq by (rewrite ?length_bytes_put; lia). unfold a. rewrite (words_at _ _ _ Hx).
    apply le_val_bytes. by eapply Forall_lookup in H7.
  - rewrite lookup_seq_ge, lookup_ge_None_2 by lia. done.
Qed.

(** ** Storing and loading inodes *)

Lemma txn_ext me dev sb l L v v' d hs :
  txn me dev sb l L v d hs -> (forall k, v k = v' k) -> txn me dev sb l L v' d hs.
Proof.
  intros [H1 H2 H3 H4 H5 H6 H7 H8 H9 H10 H11 H12] Hv. constructor; auto.
  - by eapply LC_ext.
  - intros k Hk1 Hk2 Hk3. rewrite <- Hv. auto.
Qed.

(** A block that has been given the contents [x] is given [g x]. *)
Lemma f_bput_acc {A} me dev s L v d hs k x b g (K : M fstate A) Q :
  txn me dev (fsb s) (flog s) L (<[k := x]> v) d hs -> k ∈ hs -> is_buf (lbio (flog s)) b k -> blk_ok (g x) ->
  (forall l, txn me dev (fsb s) l L (<[k := g x]> v) d hs ->
     (forall j k', is_buf (lbio (flog s)) j k' -> is_buf (lbio l) j k') -> fwp K (set_flog l s) Q) ->
  fwp (bput b g ;;; K) s Q.
Proof.
  intros T Hk Hb Hg HQ. fstep.
  eapply (f_bput _ _ _ _ _ _ _ T b k); [done|done|by rewrite fn_lookup_insert|].
  intros l T' Kl. rewrite fn_lookup_insert in T'. apply HQ; [|done]. eapply txn_ext; [exact T'|].
  intros k'. destruct (decide (k' = k)) as [->|Hne]; [by rewrite !fn_lookup_insert|].
  by rewrite !fn_lookup_insert_ne by done.
Qed.

Lemma f_ilock_acquire me s i ip Q :
  inodes s !! i = Some ip -> holder (i_lock ip) = None ->
  Q tt (set_inodes (<[i := set_ilock (Sleeplock 1 me) ip]> (inodes s)) s) ->
  fwp (on_ilock i (acquiresleep (ChInodeLock i) me)) s Q.
Proof.
  intros Hi Hl HQ. unfold on_ilock. fstep. eapply f_ideref; [exact Hi|]. apply fwp_zoom. rewrite Hi.
  cbn [from_option]. unfold fwp. eapply wp_eq; [by apply acquiresleep_free|]. split; [done|].
  by rewrite (alter_insert _ _ _ _ Hi).
Qed.

Section Inodes.
Context (me dev : Z) (s : fstate) (L : log) (v d : Z * Z -> list Z) (hs : list (Z * Z)) (m c : Z).
Let sb : superblock := fsb s.
Context (T : txn me dev sb (flog s) L v d hs) (Hsb : sb_ok sb) (R : room m c L hs) (Hm0 : 0 <= m) (Hc : 1 <= c).
Context (i : nat) (ip : inode) (Hi : inodes s !! i = Some ip) (Hdev : i_dev ip = dev).
Context (Hin : 0 <= i_inum ip < sb_ninodes sb) (Hhs : (dev, IBLOCK (i_inum ip) sb) ∉ hs).

Let key : Z * Z := (dev, IBLOCK (i_inum ip) sb).
Let off : nat := dip_off (i_inum ip).

Lemma iblock_key : ~ in_log dev L key /\ 0 <= IBLOCK (i_inum ip) sb < 2 ^ 31.
Proof.
  pose proof (IBLOCK_range sb Hsb _ Hin) as Hr. pose proof (datastart_pos sb Hsb) as S4. pose proof (so_size sb Hsb) as S5.
  pose proof (sb_small sb Hsb). assert (sb_bmapstart sb < datastart sb) by (unfold datastart; lia).
  split; [eapply not_in_log; [exact Hsb|exact T|]|]; lia.
Qed.

Lemma iupdate_spec (Q : unit -> fstate -> Prop) :
  1 <= m ->
  (forall l, txn me dev sb l (log_add (IBLOCK (i_inum ip) sb) L) (<[key := store_dinode off ip (v key)]> v) d hs ->
     keeps hs (flog s) l -> Q tt (set_flog l s)) ->
  fwp (iupdate me i) s Q.
Proof.
  intros Hm HQ. destruct iblock_key as [F1 F2]. pose proof (txn_blk_ok _ _ _ _ _ _ _ _ T key) as Hv.
  unfold iupdate. fstep. eapply f_ideref; [exact Hi|]. fstep. fstep. fold sb. rewrite Hdev. fstep.
  eapply (f_bread' _ _ s _ _ _ _ _ _ m c); [exact T|exact R|lia|lia|done|done|].
  intros bp l1 T1 Hb1 K1. cbv zeta. fold off.
  apply (txn_ext _ _ _ _ _ _ (<[key := v key]> v)) in T1; [|intros k; symmetry; by apply fn_insert_id].
  do 5 (eapply f_bput_acc; [eassumption|by left|eauto|eauto 10 with blk|]; intros ? ? ?).
  eapply (f_logged_end _ _ _ _ _ _ hs (IBLOCK (i_inum ip) sb) _ _ m (c - 1));
    [eassumption|by apply room_hold|lia|lia|eauto 10|done|rewrite fn_lookup_insert; eauto 10 with blk|].
  intros l' T' K'. apply HQ.
  - eapply txn_ext; [exact T'|]. intros k. fold key. rewrite fn_lookup_insert.
    destruct (decide (k = key)) as [->|Hne]; [by rewrite !fn_lookup_insert|by rewrite !fn_lookup_insert_ne by done].
  - intros j k Hk Hj. apply K'; [done|]. cbn [flog set_flog]. eauto 10.
Qed.

(** Locking an entry that is not valid loads it from its block. *)
Lemma ilock_load_spec (Q : unit -> fstate -> Prop) :
  1 <= i_ref ip -> holder (i_lock ip) = None -> i_valid ip = 0 -> dip_type off (v key) <> 0 ->
  (forall l, txn me dev sb l L v d hs -> keeps hs (flog s) l ->
     Q tt (FState l (<[i := set_ivalid 1 (load_dinode off (v key) (set_ilock (Sleeplock 1 me) ip))]> (inodes s)) sb)) ->
  fwp (ilock me (Some i)) s Q.
Proof.
  intros Href Hlk Hval Hty HQ. destruct iblock_key as [F1 F2].
  assert (i < length (inodes s))%nat as Hlen by (by eapply lookup_lt_Some).
  unfold ilock. fstep. eapply f_ideref; [exact Hi|]. destruct (Z.ltb_spec (i_ref ip) 1) as [|_]; [lia|].
  fstep. eapply f_ilock_acquire; [exact Hi|done|]. fstep.
  eapply f_ideref; [by apply list_lookup_insert_eq|]. cbn [i_valid set_ilock]. rewrite Hval. cbn [Z.eqb].
  fstep. fstep. cbn [fsb set_inodes i_dev i_inum set_ilock]. fold sb. rewrite Hdev. fold off. fstep.
  eapply (f_bread' _ _ _ _ _ _ _ _ _ m c); [exact T|exact R|lia|lia|done|done|].
  intros bp l1 T1 Hb1 K1. fstep. eapply (f_bdata _ _ (set_flog l1 _) _ _ _ _ T1); [exact Hb1|]. fstep.
  eapply f_iassign; [by apply list_lookup_insert_eq|]. fstep.
  eapply f_brelse; [exact T1|exact Hb1|by eapply (txn_unlocked _ _ _ _ _ _ _ _ _ T)|]. intros l2 T2 K2. fstep.
  cbn [inodes set_flog set_inodes]. rewrite list_insert_insert_eq.
  eapply f_iassign; [by apply list_lookup_insert_eq|]. fstep.
  cbn [inodes set_flog set_inodes]. rewrite list_insert_insert_eq.
  eapply f_ideref; [by apply list_lookup_insert_eq|]. cbn [i_type set_ivalid load_dinode].
  fold key. destruct (Z.eqb_spec (dip_type off (v key)) 0) as [|_]; [done|]. fstep. apply HQ; [exact T2|].
  intros j k Hk Hj. by apply K2, K1.
Qed.

End Inodes.

Lemma dip_off_bound n : (dip_off n + 64 <= BSIZE)%nat.
Proof.
  unfold dip_off. pose proof (Z.mod_pos_bound n IPB ltac:(done)) as H. unfold IPB in *. unfold BSIZE. lia.
Qed.

(** Different inodes lie in different blocks or at different offsets. *)
Lemma dinode_disjoint sb n n' :
  sb_ok sb -> 0 <= n < sb_ninodes sb -> 0 <= n' < sb_ninodes sb -> n <> n' -> IBLOCK n sb = IBLOCK n' sb ->
  (dip_off n' + 64 <= dip_off n \/ dip_off n + 64 <= dip_off n')%nat.
Proof.
  intros Hsb Hn Hn' Hne E. pose proof (IBLOCK_range sb Hsb n Hn) as H1. pose proof (IBLOCK_range sb Hsb n' Hn') as H2.
  pose proof (sb_small sb Hsb) as S. pose proof (datastart_pos sb Hsb) as S4. pose proof (so_size sb Hsb) as S5.
  pose proof (so_bmap sb Hsb) as S6. assert (sb_bmapstart sb < datastart sb) by (unfold datastart; lia).
  assert (0 <= n / IPB <= sb_ninodes sb / IPB) by (split; [apply Z.div_pos|apply Z.div_le_mono]; unfold IPB; lia).
  assert (0 <= n' / IPB <= sb_ninodes sb / IPB) by (split; [apply Z.div_pos|apply Z.div_le_mono]; unfold IPB; lia).
  unfold IBLOCK in E. rewrite !u32_small in E by lia. unfold dip_off, IPB in *. Z.div_mod_to_equations. lia.
Qed.

(** C25: [iupdate] stores an inode so that locking any cache entry of the same
    inode, once it has to be loaded again, reads back exactly the same type,
    device, link count, size and block addresses; the other inodes of the
    block keep their bytes. *)
Theorem iupdate_ilock_roundtrip me dev s L v d hs m c i ip :
  txn me dev (fsb s) (flog s) L v d hs -> sb_ok (fsb s) -> room m c L hs -> 1 <= m -> 1 <= c ->
  inodes s !! i = Some ip -> inode_ok ip -> i_type ip <> 0 -> i_dev ip = dev ->
  0 <= i_inum ip < sb_ninodes (fsb s) -> (dev, IBLOCK (i_inum ip) (fsb s)) ∉ hs ->
  exists l t v', iupdate me i s = Ok tt (set_flog l s) t /\ disk_writes t = [] /\
    txn me dev (fsb s) l (log_add (IBLOCK (i_inum ip) (fsb s)) L) v' d hs /\
    (forall n, 0 <= n < sb_ninodes (fsb s) -> n <> i_inum ip ->
       bytes_at (dip_off n) 64 (v' (dev, IBLOCK n (fsb s))) = bytes_at (dip_off n) 64 (v (dev, IBLOCK n (fsb s)))) /\
    (forall cache j jp, cache !! j = Some jp -> i_dev jp = dev -> i_inum jp = i_inum ip -> 1 <= i_ref jp ->
       holder (i_lock jp) = None -> i_valid jp = 0 ->
       exists l' t', ilock me (Some j) (FState l cache (fsb s)) =
         Ok tt (FState l' (<[j := Inode dev (i_inum ip) (i_ref jp) (Sleeplock 1 me) 1 (i_type ip) (i_major ip)
                                   (i_minor ip) (i_nlink ip) (i_size ip) (i_addrs ip)]> cache) (fsb s)) t').
Proof.
  intros T Hsb R Hm Hc Hi Hok Hty Hdev Hin Hhs. set (key := (dev, IBLOCK (i_inum ip) (fsb s))).
  set (v' := <[key := store_dinode (dip_off (i_inum ip)) ip (v key)]> v).
  destruct (txn_blk_ok _ _ _ _ _ _ _ _ T key) as [Hlen _]. pose proof (dip_off_bound (i_inum ip)) as Ho.
  assert (fwp (iupdate me i) s (fun _ s' => exists l, s' = set_flog l s /\
    txn me dev (fsb s) l (log_add (IBLOCK (i_inum ip) (fsb s)) L) v' d hs)) as H.
  { eapply (iupdate_spec me dev s L v d hs m c); try done; [lia|]. intros l T' _. by exists l. }
  apply fwp_run in H as ([] & s' & t & Hrun & Ht & l & -> & T'). exists l, t, v'.
  split; [done|]. split; [done|]. split; [exact T'|]. split.
  - intros n Hn Hne. unfold v'. destruct (decide (IBLOCK n (fsb s) = IBLOCK (i_inum ip) (fsb s))) as [E|E].
    + rewrite E. fold key. rewrite fn_lookup_insert. apply store_dinode_other; [by apply Hok|].
      pose proof (dinode_disjoint (fsb s) (i_inum ip) n Hsb Hin Hn ltac:(done) (eq_sym E)). lia.
    + rewrite fn_lookup_insert_ne; [done|]. unfold key. intros [=]. by apply E.
  - intros cache j jp Hj Hjd Hji Hr Hlk Hval.
    assert (v' key = store_dinode (dip_off (i_inum ip)) ip (v key)) as Ev by apply fn_lookup_insert.
    pose proof (load_store_dinode (dip_off (i_inum ip)) ip (v key) (set_ilock (Sleeplock 1 me) jp) Hok ltac:(lia)) as Hld.
    rewrite <- Ev in Hld. unfold key in Hld. rewrite <- Hji in Hld.
    assert (fwp (ilock me (Some j)) (FState l cache (fsb s)) (fun _ s' => exists l', s' = 
      FState l' (<[j := set_ivalid 1 (load_dinode (dip_off (i_inum jp)) (v' (dev, IBLOCK (i_inum jp) (fsb s))) (set_ilock (Sleeplock 1 me) jp))]> cache) (fsb s))) as H.
    { eapply (ilock_load_spec me dev (FState l cache (fsb s)) _ v' d hs (m - 1) c); try done; [by apply room_add|lia|by rewrite Hji|by rewrite Hji| |].
      - apply (f_equal i_type) in Hld. simpl in Hld. by rewrite <- Hld in Hty.
      - intros l' _ _. by exists l'. }
    apply fwp_run in H as ([] & s2 & t2 & Hrun2 & _ & l' & ->). exists l', t2. rewrite Hrun2, Hld. simpl. by rewrite Hjd, Hji.
Qed.

Lemma iupdate_ilock_roundtrip_witness : exists l l' t t',
  let ip := Inode 0 1 1 initsleeplock 1 T_DIR 0 0 1 1024 (46 :: replicate 12 0) in
  let jp := Inode 0 1 1 initsleeplock 0 0 0 0 0 0 (replicate 13 0) in
  iupdate 1 0 (FState l [ip] sb0) = Ok tt (FState l' [ip] sb0) t /\
  exists l2, ilock 1 (Some 0%nat) (FState l' [jp] sb0) =
    Ok tt (FState l2 [Inode 0 1 1 (Sleeplock 1 1) 1 T_DIR 0 0 1 1024 (46 :: replicate 12 0)] sb0) t'.
Proof.
  destruct (fs_start dk_map eq_refl dk_map_blk) as (l & L & v & d & T & Ho & Hc & Hh & R & Hv).
  set (ip := Inode 0 1 1 initsleeplock 1 T_DIR 0 0 1 1024 (46 :: replicate 12 0)).
  destruct (iupdate_ilock_roundtrip 1 0 (FState l [ip] sb0) L v d [] 10 3 0 ip)
    as (l' & t & v' & H1 & _ & _ & _ & H2); try (exact T || exact sb0_ok || exact R || done || lia).
  - constructor; first [done|repeat constructor; lia].
  - apply not_elem_of_nil.
  - destruct (H2 [Inode 0 1 1 initsleeplock 0 0 0 0 0 0 (replicate 13 0)] 0%nat _ eq_refl) as (l2 & t' & H3); try (done || simpl; lia).
    exists l, l', t, t'. split; [exact H1|]. exists l2. exact H3.
Defined.

(** ** The inode cache *)

(** A cache entry in use, for inode [inum] of [dev]. *)
Definition in_use (dev inum : Z) (ip : inode) : Prop := 0 < i_ref ip /\ i_dev ip = dev /\ i_inum ip = inum.

(** At most one entry per inode. *)
Record icache_ok (l : list inode) : Prop := {
  ic_len : length l = NINODE;
  ic_ref : forall i ip, l !! i = Some ip -> 0 <= i_ref ip;
  ic_unique : forall i j ip jp dev inum, l !! i = Some ip -> l !! j = Some jp ->
    in_use dev inum ip -> in_use dev inum jp -> i = j }.

#[global] Instance in_use_dec dev inum ip : Decision (in_use dev inum ip).
Proof. unfold in_use. apply _. Defined.

Lemma in_use_bool dev inum ip :
  ((0 <? i_ref ip) && (i_dev ip =? dev) && (i_inum ip =? inum)) = bool_decide (in_use dev inum ip).
Proof.
  unfold in_use. apply eq_bool_prop_intro. rewrite bool_decide_spec, !andb_True.
  rewrite !Is_true_true, Z.ltb_lt, !Z.eqb_eq. tauto.
Qed.

(** The scan yields the entry of the inode, with one more reference, or the
    first free slot. *)
Lemma iget_scan_hit dev inum s i ip l1 l2 e :
  inodes s !! i = Some ip -> in_use dev inum ip ->
  (forall j, j ∈ l1 -> exists jp, inodes s !! j = Some jp /\ ~ in_use dev inum jp) ->
  iget_scan (l1 ++ i :: l2) dev inum e s = Ok (inl i) (set_inodes (<[i := set_ref (i_ref ip + 1) ip]> (inodes s)) s) [].
Proof.
  intros Hi Hu. revert e. induction l1 as [|j l1 IH]; intros e Hl1; cbn [iget_scan app].
  - unfold iassign, ideref, bind, fetch. rewrite Hi, in_use_bool, bool_decide_eq_true_2 by done. simpl. rewrite Hi. done.
  - destruct (Hl1 j ltac:(by left)) as (jp & Hj & Hn).
    unfold ideref at 1, fetch, bind at 1. rewrite Hj, in_use_bool, bool_decide_eq_false_2 by done.
    rewrite IH; [done|]. intros j' Hj'. apply Hl1. by right.
Qed.

Lemma iget_scan_miss dev inum s l e :
  (forall j, j ∈ l -> exists jp, inodes s !! j = Some jp /\ ~ in_use dev inum jp) ->
  iget_scan l dev inum e s =
    Ok (inr (match e with Some _ => e | None => find (fun j => i_ref (inodes s !!! j) =? 0) l end)) s [].
Proof.
  revert e. induction l as [|j l IH]; intros e Hl; cbn [iget_scan find]; [by destruct e|].
  destruct (Hl j ltac:(by left)) as (jp & Hj & Hn).
  unfold ideref at 1, fetch, bind at 1. rewrite Hj, in_use_bool, bool_decide_eq_false_2 by done.
  rewrite IH by (intros j' Hj'; apply Hl; by right). simpl.
  rewrite (list_lookup_total_correct _ _ _ Hj). destruct e; [done|]. by destruct (i_ref jp =? 0).
Qed.

Lemma icache_lookup l i : icache_ok l -> (i < NINODE)%nat -> exists ip, l !! i = Some ip.
Proof. intros H Hi. apply lookup_lt_is_Some_2. by rewrite (ic_len _ H). Qed.

(** Replacing an entry by one for the same inode, or by one for an inode that
    has none. *)
Lemma icache_insert l i x dev inum :
  icache_ok l -> in_use dev inum x ->
  (forall j jp, l !! j = Some jp -> in_use dev inum jp -> j = i) -> icache_ok (<[i := x]> l).
Proof.
  intros [H1 H2 H3] [Hx Hid] Hu. constructor.
  - by rewrite length_insert.
  - intros j jp Hj. apply lookup_insert_list in Hj as [(-> & -> & _)|[_ Hj]]; [lia|eauto].
  - intros j k jp kp d n Hj Hk Uj Uk.
    apply lookup_insert_list in Hj as [(-> & -> & _)|[Hnj Hj]]; apply lookup_insert_list in Hk as [(-> & -> & _)|[Hnk Hk]];
      [done| | |by eapply H3]; exfalso.
    + destruct Uj as (_ & <- & <-). destruct Hid as [<- <-]. by eapply Hnk, Hu.
    + destruct Uk as (_ & <- & <-). destruct Hid as [<- <-]. by eapply Hnj, Hu.
Qed.

(** What [iget] makes of the cache. *)
Definition iget_fresh (dev inum : Z) (ip : inode) : inode := set_ivalid 0 (set_ref 1 (set_ident dev inum ip)).

Lemma iget_recycle dev inum s i ip : inodes s !! i = Some ip ->
  (iassign i (set_ident dev inum) ;;; iassign i (set_ref 1) ;;; iassign i (set_ivalid 0) ;;; ret i) s =
    Ok i (set_inodes (<[i := iget_fresh dev inum ip]> (inodes s)) s) [].
Proof.
  intros Hi. assert (i < length (inodes s))%nat as Hlen by (by eapply lookup_lt_Some).
  unfold iassign, ideref, bind, fetch, modify, ret, after. rewrite Hi. cbn [inodes set_inodes].
  rewrite list_lookup_insert_eq by done. cbn [inodes set_inodes].
  rewrite list_insert_insert_eq, list_lookup_insert_eq by done. cbn [inodes set_inodes].
  rewrite list_insert_insert_eq. done.
Qed.

(** C26: the cache never holds two entries for one inode.  [iget] returns the
    entry the inode has, with one more reference and otherwise untouched; or
    else recycles an unreferenced slot, not yet valid, with one reference; or
    panics when there is none. *)
Theorem iget_unique dev inum s :
  icache_ok (inodes s) ->
  (exists i ip, inodes s !! i = Some ip /\ in_use dev inum ip /\
     let l := <[i := set_ref (i_ref ip + 1) ip]> (inodes s) in
     iget dev inum s = Ok i (set_inodes l s) [] /\ icache_ok l) \/
  (exists i ip, inodes s !! i = Some ip /\ i_ref ip = 0 /\
     (forall j jp, inodes s !! j = Some jp -> ~ in_use dev inum jp) /\
     let l := <[i := iget_fresh dev inum ip]> (inodes s) in
     iget dev inum s = Ok i (set_inodes l s) [] /\ icache_ok l) \/
  ((forall j jp, inodes s !! j = Some jp -> ~ in_use dev inum jp /\ 0 < i_ref jp) /\
     iget dev inum s = Panic "iget: no inodes" s []).
Proof.
  intros Hok. pose proof (ic_len _ Hok) as Hlen.
  destruct (decide (Exists (in_use dev inum) (inodes s))) as [Hex|Hno].
  - left. apply list.Exists_exists in Hex as (ip & Hin & Hu). apply list_elem_of_lookup in Hin as [i Hi].
    exists i, ip. split; [done|]. split; [done|]. cbv zeta. unfold iget, bind.
    assert (i < NINODE)%nat as Hlt by (rewrite <- Hlen; by eapply lookup_lt_Some).
    rewrite (seq_split_at i NINODE Hlt), (iget_scan_hit dev inum s i ip); [|done|done|].
    + split; [done|]. eapply icache_insert; [done|split; [|apply Hu]; simpl; destruct Hu; lia|].
      intros j jp Hj Uj. by eapply (ic_unique _ Hok).
    + intros j Hj. apply elem_of_seq in Hj. destruct (icache_lookup _ j Hok ltac:(lia)) as [jp Hjp].
      exists jp. split; [done|]. intros Uj. assert (j = i) by (by eapply (ic_unique _ Hok)). lia.
  - right. assert (forall j jp, inodes s !! j = Some jp -> ~ in_use dev inum jp) as Hn.
    { intros j jp Hj Uj. apply Hno, list.Exists_exists. exists jp. split; [by eapply list_elem_of_lookup_2|done]. }
    assert (iget_scan (seq 0 NINODE) dev inum None s =
      Ok (inr (find (fun j => i_ref (inodes s !!! j) =? 0) (seq 0 NINODE))) s []) as Hscan.
    { apply iget_scan_miss. intros j Hj. apply elem_of_seq in Hj. destruct (icache_lookup _ j Hok ltac:(lia)) as [jp Hjp]. eauto. }
    destruct (find _ _) as [i|] eqn:Hf.
    + left. apply find_some in Hf as [Hin H0]. apply in_seq in Hin. apply Z.eqb_eq in H0.
      destruct (icache_lookup _ i Hok ltac:(lia)) as [ip Hi]. rewrite (list_lookup_total_correct _ _ _ Hi) in H0.
      exists i, ip. do 3 (split; [done|]). split; [|].
      { unfold iget, bind at 1. by rewrite Hscan, (iget_recycle _ _ _ _ _ Hi). }
      eapply icache_insert; [done|by apply conj|]. intros j jp Hj Uj. by apply Hn in Hj.
    + right. split; [|unfold iget, bind; by rewrite Hscan]. intros j jp Hj. split; [by eapply Hn|].
      assert (j < NINODE)%nat as Hlt by (rewrite <- Hlen; by eapply lookup_lt_Some).
      pose proof (find_none _ _ Hf j ltac:(apply in_seq; lia)) as H0. apply Z.eqb_neq in H0.
      rewrite (list_lookup_total_correct _ _ _ Hj) in H0. pose proof (ic_ref _ Hok _ _ Hj). lia.
Qed.

Lemma iget_unique_witness : exists s i s', iget 0 1 s = Ok i s' [] /\ icache_ok (inodes s').
Proof.
  set (s := FState (boot ∅) (replicate NINODE inode0) sb0).
  assert (icache_ok (inodes s)) as Hok.
  { constructor; [done| |].
    - intros i ip Hi. apply lookup_replicate in Hi as [-> _]. done.
    - intros i j ip jp dev inum Hi _ [Hu _]. apply lookup_replicate in Hi as [-> _]. simpl in Hu. lia. }
  destruct (iget_unique 0 1 s Hok) as [(i & ip & Hi & Hu & _)|[(i & ip & _ & _ & _ & H & H')|[H _]]].
  - exfalso. apply lookup_replicate in Hi as [-> _]. destruct Hu as [Hu _]. simpl in Hu. lia.
  - exists s, i. eexists. split; [exact H|exact H'].
  - exfalso. destruct (H 0%nat inode0 eq_refl) as [_ H0]. simpl in H0. lia.
Defined.
