(* ===== verification/FsPath.v ===== *)
(** * Facts about path names (kernel/fs.c)

    What the elements of a path are, and that [namex] visits them one by one:
    the loop over the characters of the path refines a walk over the list of
    its elements, with no bound on the number of iterations. *)

From Stdlib Require Import ZArith Lia.
From stdpp Require Import base gmap list strings.
From S2P Require Import Prelude Sleeplock Bio Log CString Fs.
Local Open Scope xv6_scope.

(** ** The elements of a path *)

Definition flush (cur : list Z) : list (list Z) := match cur with [] => [] | _ => [cur] end.

(** The maximal runs of characters other than slashes, up to the NUL. *)
Fixpoint elems_from (cur path : list Z) : list (list Z) :=
  match path with
  | [] => flush cur
  | c :: p =>
      if c =? 0 then flush cur
      else if c =? SLASH then flush cur ++ elems_from [] p
      else elems_from (cur ++ [c]) p
  end.

Definition path_elems (path : list Z) : list (list Z) := elems_from [] path.

(** The buffer [name] with an element stored in it: cut to DIRSIZ bytes, with
    a NUL when there is room for it. *)
Definition put_elem (e name : list Z) : list Z :=
  if (DIRSIZ <=? length e)%nat then bytes_put 0 (take DIRSIZ e) name else bytes_put 0 (e ++ [0]) name.

Lemma skip_slashes_elems p : path_elems (skip_slashes p) = path_elems p.
Proof.
  induction p as [|c p IH]; [done|]. cbn [skip_slashes]. destruct (c =? SLASH) eqn:E; [|done].
  rewrite IH. unfold path_elems at 2. cbn [elems_from]. apply Z.eqb_eq in E as ->. done.
Qed.

Lemma skip_slashes_length p : (length (skip_slashes p) <= length p)%nat.
Proof. induction p as [|c p IH]; [done|]. cbn [skip_slashes]. destruct (c =? SLASH); simpl in *; lia. Qed.

Lemma skip_slashes_head p : chr (skip_slashes p) 0 <> SLASH.
Proof.
  induction p as [|c p IH]; [done|]. cbn [skip_slashes]. destruct (c =? SLASH) eqn:E; [done|].
  by apply Z.eqb_neq in E.
Qed.

(** A path that does not start with a slash has no elements exactly when it
    is the empty string. *)
Lemma elems_empty p : chr p 0 <> SLASH -> path_elems p = [] <-> chr p 0 = 0.
Proof.
  destruct p as [|c p]; [done|]. unfold path_elems. cbn [chr nth elems_from]. intros Hs.
  destruct (Z.eqb_spec c 0) as [->|H0]; [done|]. destruct (Z.eqb_spec c SLASH) as [->|_]; [done|].
  split; [|done]. cbn [app]. intros H. exfalso. revert H. generalize [c] (ltac:(done) : [c] <> []).
  induction p as [|c' p IH]; intros cur Hcur; cbn [elems_from]; [by destruct cur|].
  destruct (c' =? 0); [by destruct cur|]. destruct (c' =? SLASH); [by destruct cur|]. apply IH. by destruct cur.
Qed.

Lemma skip_name_elems p cur : let '(s, r) := skip_name p in
  elems_from cur p = flush (cur ++ s) ++ path_elems (skip_slashes r) /\ (length s + length r = length p)%nat.
Proof.
  revert cur. induction p as [|c p IH]; intros cur; cbn [skip_name].
  { simpl. by rewrite !app_nil_r. }
  destruct (Z.eqb_spec c SLASH) as [->|Hs]; cbn [orb].
  - rewrite skip_slashes_elems. unfold path_elems. cbn [elems_from]. by rewrite app_nil_r.
  - destruct (Z.eqb_spec c 0) as [->|H0].
    + rewrite skip_slashes_elems. unfold path_elems. cbn [elems_from]. by rewrite !app_nil_r.
    + specialize (IH (cur ++ [c])). destruct (skip_name p) as [s r]. cbn [elems_from].
      rewrite (proj2 (Z.eqb_neq c 0)), (proj2 (Z.eqb_neq c SLASH)) by done. destruct IH as [-> IH].
      rewrite <- (assoc_L (++)). simpl. split; [done|lia].
Qed.

(** [skipelem] takes the first element off the path. *)
Lemma skipelem_elems path name :
  match skipelem path name with
  | None => path_elems path = []
  | Some (rest, name') => exists e, path_elems path = e :: path_elems rest /\ name' = put_elem e name /\
      (length rest < length path)%nat /\ chr rest 0 <> SLASH
  end.
Proof.
  unfold skipelem. pose proof (skip_slashes_head path) as Hh. pose proof (skip_slashes_length path) as Hl.
  rewrite <- (skip_slashes_elems path). destruct (Z.eqb_spec (chr (skip_slashes path) 0) 0) as [E|E].
  { by apply elems_empty. }
  pose proof (skip_name_elems (skip_slashes path) []) as H. destruct (skip_slashes path) as [|c p]; [done|].
  cbn [chr nth] in *. cbn [skip_name] in *.
  rewrite (proj2 (Z.eqb_neq c 0)), (proj2 (Z.eqb_neq c SLASH)) in * by done. cbn [orb] in *.
  destruct (skip_name p) as [s r]. destruct H as [H1 H2]. exists (c :: s). split_and!.
  - exact H1.
  - done.
  - pose proof (skip_slashes_length r). simpl in *. lia.
  - apply skip_slashes_head.
Qed.

(** ** The walk *)

Fixpoint walk (me : Z) (nameiparent : bool) (ip : nat) (es : list (list Z)) (name : list Z)
    : M fstate (option nat * list Z) :=
  match es with
  | [] =>
      if nameiparent then iput me ip ;;; ret (None, name)
      else ret (Some ip, name)
  | e :: es' =>
      let name := put_elem e name in
      ilock me (Some ip) ;;;
      p <- ideref ip ;;
      if negb (i_type p =? T_DIR) then iunlockput me ip ;;; ret (None, name)
      else if nameiparent && bool_decide (es' = []) then iunlock me (Some ip) ;;; ret (Some ip, name)
      else
        r <- dirlookup me ip name ;;
        match r with
        | None => iunlockput me ip ;;; ret (None, name)
        | Some (next, _) => iunlockput me ip ;;; walk me nameiparent next es' name
        end
  end.

Lemma bind_ext {S A B} (m : M S A) (k k' : A -> M S B) s :
  (forall a s', k a s' = k' a s') -> bind m k s = bind m k' s.
Proof. intros H. unfold bind. destruct (m s); try done. by rewrite H. Qed.

Lemma namex_loop_walk fuel me parent ip path name s :
  (length path <= fuel)%nat -> namex_loop fuel me parent ip path name s = walk me parent ip (path_elems path) name s.
Proof.
  revert ip path name s. induction fuel as [|fuel IH]; intros ip path name s Hf; cbn [namex_loop];
    pose proof (skipelem_elems path name) as H; destruct (skipelem path name) as [[rest name']|].
  - destruct H as (e & _ & _ & H & _). lia.
  - by rewrite H.
  - destruct H as (e & -> & -> & Hr & Hs). cbn [walk]. cbv zeta. apply bind_ext. intros _ s1.
    apply bind_ext. intros p s2. destruct (negb (i_type p =? T_DIR)); [done|].
    assert ((chr rest 0 =? 0) = bool_decide (path_elems rest = [])) as ->.
    { apply eq_bool_prop_intro. rewrite bool_decide_spec, Is_true_true, Z.eqb_eq, elems_empty by done. done. }
    destruct (parent && _); [done|]. apply bind_ext. intros [[next off]|] s3; [|done].
    apply bind_ext. intros _ s4. apply IH. lia.
  - by rewrite H.
Qed.

(** C27: [namex] starts at the root or at the current directory and follows
    the elements of the path, however the slashes are repeated and however
    long the path is: its loop is the walk over the list of the elements, in
    every state and with every outcome. *)
Theorem namex_walks me cwd path parent name s :
  namex me cwd path parent name s =
    (ip <- (if chr path 0 =? SLASH then iget ROOTDEV ROOTINO else idup cwd) ;;
     walk me parent ip (path_elems path) name) s.
Proof. unfold namex. apply bind_ext. intros ip s'. apply namex_loop_walk. lia. Qed.
