(* ===== verification/FsRead.v ===== *)
(** * Facts about file contents and directories (kernel/fs.c)

    The contents of a file as a sequence of bytes; [bmap], [readi] and
    [dirlookup] on a file whose blocks are allocated. *)

From Stdlib Require Import ZArith Lia.
From stdpp Require Import base gmap list strings functions.
From S2P Require Import Prelude Sleeplock Bio BioFacts Log LogFacts LogCrash LogTxn CString Fs FsFacts FsInode.
Local Open Scope xv6_scope.

(** ** The contents of a file *)

(** The block that holds block [bn] of the file, and byte [o] of the file. *)
Definition file_addr (v : Z * Z -> list Z) (ip : inode) (bn : Z) : Z :=
  if bn <? Z.of_nat NDIRECT then nth (Z.to_nat bn) (i_addrs ip) 0
  else word (Z.to_nat (bn - Z.of_nat NDIRECT)) (v (i_dev ip, nth NDIRECT (i_addrs ip) 0)).
Definition file_byte (v : Z * Z -> list Z) (ip : inode) (o : Z) : Z :=
  nth (Z.to_nat (o mod BSZ)) (v (i_dev ip, file_addr v ip (o / BSZ))) 0.
Definition file_bytes (v : Z * Z -> list Z) (ip : inode) (off : Z) (n : nat) : list Z :=
  (fun k => file_byte v ip (off + Z.of_nat k)) <$> seq 0 n.

(** The part of a file that lies in one block. *)
Lemma file_bytes_block v ip off n :
  0 <= off -> off mod BSZ + Z.of_nat n <= BSZ -> blk_ok (v (i_dev ip, file_addr v ip (off / BSZ))) ->
  file_bytes v ip off n = bytes_at (Z.to_nat (off mod BSZ)) n (v (i_dev ip, file_addr v ip (off / BSZ))).
Proof.
  intros Ho Hn [Hlen _]. assert (0 <= off mod BSZ) as Hm by (by apply Z.mod_pos_bound).
  apply list_eq. intros k. unfold file_bytes, bytes_at. rewrite list_lookup_fmap.
  destruct (decide (k < n)%nat) as [Hk|Hk].
  - rewrite lookup_seq_lt, lookup_take_lt, lookup_drop by done. cbn [fmap option_fmap option_map Nat.add]. unfold file_byte.
    assert ((off + Z.of_nat k) / BSZ = off / BSZ /\ (off + Z.of_nat k) mod BSZ = off mod BSZ + Z.of_nat k) as [-> ->].
    { pose proof (Z.div_mod off BSZ ltac:(done)) as E.
      apply (Z.div_mod_unique BSZ); [left; apply Z.mod_pos_bound; done|left; lia|].
      rewrite <- Z.div_mod by done. lia. }
    rewrite nth_lookup. replace (Z.to_nat (off mod BSZ + Z.of_nat k)) with (Z.to_nat (off mod BSZ) + k)%nat by lia.
    unfold BSZ in *. destruct (lookup_lt_is_Some_2 (v (i_dev ip, file_addr v ip (off / Z.of_nat BSIZE)))
      (Z.to_nat (off mod Z.of_nat BSIZE) + k) ltac:(lia)) as [x ->]. done.
  - rewrite lookup_seq_ge, lookup_take_ge by lia. done.
Qed.

Lemma file_bytes_app v ip off n m :
  file_bytes v ip off (n + m) = file_bytes v ip off n ++ file_bytes v ip (off + Z.of_nat n) m.
Proof.
  unfold file_bytes. rewrite seq_app, fmap_app. f_equal. cbn [Nat.add]. rewrite <- (Nat.add_0_r n) at 1. rewrite <- fmap_add_seq, <- list_fmap_compose.
  apply list_fmap_ext. intros ? x _. simpl. f_equal. lia.
Qed.

Lemma nth_byte_ok n l : Forall byte_ok l -> byte_ok (nth n l 0).
Proof. intros H. revert n. induction H as [|x l Hx _ IH]; intros [|n]; simpl; auto; split; simpl; lia. Qed.

(** ** Where the bytes of a read go *)

(** [out] stores the bytes at [dst], in steps or at once, for addresses
    between [lo] and [hi]. *)
Class CopyOut {X} (out : Z -> list Z -> X -> X * Z) (stored : Z -> list Z -> X -> X) (lo hi : Z) : Prop := {
  cp_ok dst bs x : lo <= dst -> dst + Z.of_nat (length bs) <= hi -> out dst bs x = (stored dst bs x, 0);
  cp_nil dst x : stored dst [] x = x;
  cp_app dst a b x : lo <= dst -> stored dst (a ++ b) x = stored (dst + Z.of_nat (length a)) b (stored dst a x);
  cp_lo : 0 <= lo;
  cp_hi : hi < 2 ^ 64 }.

#[global] Instance local_copy_out : CopyOut local_out (fun dst bs x => bytes_put (Z.to_nat dst) bs x) 0 (2 ^ 63).
Proof.
  constructor; [done|done| |lia|lia].
  intros dst a b x H. unfold bytes_put. rewrite list_inserts_app_l. f_equal. lia.
Qed.

Section Read.
Context (me dev : Z) (s : fstate) (L : log) (v d : Z * Z -> list Z) (hs : list (Z * Z)) (m c : Z).
Let sb : superblock := fsb s.
Context (Hsb : sb_ok sb) (R : room m c L hs) (Hm0 : 0 <= m) (Hc : 1 <= c).
Context (i : nat) (ip : inode) (Hi : inodes s !! i = Some ip) (Hdev : i_dev ip = dev).

(** A data block that is not locked. *)
Definition data_block (a : Z) : Prop := datastart sb <= a /\ (dev, a) ∉ hs.

(** Block [bn] of the file is allocated. *)
Definition mapped (bn : Z) : Prop :=
  0 <= bn < MAXFILE /\ data_block (file_addr v ip bn) /\
  (Z.of_nat NDIRECT <= bn -> data_block (nth NDIRECT (i_addrs ip) 0)).

(** What reading does to the file system: the cache below may change. *)
Definition reads (s' : fstate) : Prop :=
  exists l, s' = set_flog l s /\ txn me dev sb l L v d hs /\ keeps hs (flog s) l.

Lemma reads_bread a (Q : nat -> fstate -> Prop) s' :
  data_block a -> reads s' ->
  (forall bp l, txn me dev sb l L v d ((dev, a) :: hs) -> is_buf (lbio l) bp (dev, a) -> keeps hs (flog s) l ->
     Q bp (set_flog l s)) ->
  fwp (bread_ me dev a) s' Q.
Proof.
  intros [H1 H2] (l & -> & T & K) HQ. pose proof (datastart_pos sb Hsb) as S4.
  eapply (f_bread' _ _ (set_flog l s) _ _ _ _ _ _ m c); [exact T|exact R|lia|lia|done| |].
  - eapply not_in_log; [exact Hsb|exact T|lia].
  - intros bp l' T' Hb K'. apply HQ; [done|done|]. by eapply keeps_trans.
Qed.

Lemma reads_brelse a bp l (Q : unit -> fstate -> Prop) :
  data_block a -> txn me dev sb l L v d ((dev, a) :: hs) -> is_buf (lbio l) bp (dev, a) -> keeps hs (flog s) l ->
  home dev L (dev, a) \/ v (dev, a) = d (dev, a) ->
  (forall s', reads s' -> Q tt s') -> fwp (brelse_ me bp) (set_flog l s) Q.
Proof.
  intros Ha T Hb K Hv HQ. eapply (f_brelse _ _ (set_flog l s)); [exact T|done|done|].
  intros l' T' K'. apply HQ. exists l'. split_and!; [done|done|]. intros j k Hk Hj. by apply K', K.
Qed.

Lemma reads_clean a s' : data_block a -> reads s' -> home dev L (dev, a) \/ v (dev, a) = d (dev, a).
Proof.
  intros [H1 H2] (l & -> & T & K). pose proof (datastart_pos sb Hsb) as S4.
  eapply txn_unlocked; [exact T| |done]. eapply not_in_log; [exact Hsb|exact T|lia].
Qed.

Lemma bmap_mapped bn s' (Q : Z -> fstate -> Prop) :
  mapped bn -> reads s' -> (forall s'', reads s'' -> Q (file_addr v ip bn) s'') -> fwp (bmap me i bn) s' Q.
Proof.
  intros (Hbn & Ha & Hind) Hs HQ. pose proof (datastart_pos sb Hsb) as S4.
  assert (inodes s' !! i = Some ip) as Hi' by (by destruct Hs as (l & -> & _)).
  unfold bmap. fstep. eapply f_ideref; [exact Hi'|]. destruct Ha as [Ha1 Ha2]. unfold file_addr in Ha1, HQ.
  destruct (Z.ltb_spec bn (Z.of_nat NDIRECT)) as [Hlt|Hge].
  - cbv zeta. rewrite (proj2 (Z.eqb_neq _ 0)) by lia. apply fwp_ret. by apply HQ.
  - cbv zeta. destruct (Z.ltb_spec (bn - Z.of_nat NDIRECT) (Z.of_nat NINDIRECT)); [|unfold MAXFILE in Hbn; lia].
    specialize (Hind Hge). pose proof Hind as [Hi1 Hi2].
    rewrite (proj2 (Z.eqb_neq (nth NDIRECT (i_addrs ip) 0) 0)) by lia. fstep. fstep. rewrite Hdev. fstep.
    eapply reads_bread; [exact Hind|done|]. intros bp l T Hb K. fstep.
    eapply (f_bdata _ _ (set_flog l s) _ _ _ _ T); [exact Hb|]. rewrite Hdev in Ha1, HQ.
    rewrite (proj2 (Z.eqb_neq (word _ _) 0)) by lia. fstep. fstep. fstep.
    eapply reads_brelse; [exact Hind|done..|by eapply reads_clean|]. intros s'' Hs''. fstep. by apply HQ.
Qed.

(** *** The loop of readi *)

Section Copy.
Context {X : Type} (out : Z -> list Z -> X -> X * Z) (stored : Z -> list Z -> X -> X) (lo hi : Z).
Context {Hcp : CopyOut out stored lo hi}.

Lemma chunk_bound off n tot : 0 <= tot < n -> n < 2 ^ 32 ->
  let k := chunk off n tot in 1 <= k <= n - tot /\ off mod BSZ + k <= BSZ /\ (k = n - tot \/ off mod BSZ + k = BSZ).
Proof.
  intros Ht Hn. unfold chunk. rewrite u32_small by lia. pose proof (Z.mod_pos_bound off BSZ ltac:(done)). lia.
Qed.

(** The fuel of [readi] and [writei] covers every block the bytes lie in. *)
Lemma rw_fuel_enough k off : 0 <= k -> k + off mod BSZ <= Z.of_nat (rw_fuel k) * BSZ.
Proof. intros Hk. unfold rw_fuel. change BSZ with 1024. Z.div_mod_to_equations. lia. Qed.

Lemma readi_loop_spec fuel dst off n tot x s' (Q : unit -> fstate * X -> Prop) :
  0 <= tot <= n -> 0 <= off -> off + (n - tot) < 2 ^ 32 -> n < 2 ^ 32 ->
  (forall o, off <= o < off + (n - tot) -> mapped (o / BSZ)) ->
  lo <= dst -> dst + (n - tot) <= hi -> tot = n \/ n - tot + off mod BSZ <= Z.of_nat fuel * BSZ -> reads s' ->
  (forall s'', reads s'' -> Q tt (s'', stored dst (file_bytes v ip off (Z.to_nat (n - tot))) x)) ->
  fwp (readi_loop out fuel me i dst off n tot) (s', x) Q.
Proof.
  revert dst off tot x s'. induction fuel as [|fuel IH]; intros dst off tot x s' Ht Ho Hoff Hn Hmap Hlo Hhi Hf Hs HQ.
  all: destruct (Z.eq_dec tot n) as [->|Hne];
    [replace (Z.to_nat (n - n)) with 0%nat in HQ by lia; cbn [readi_loop]; rewrite Z.ltb_irrefl; apply fwp_ret;
     rewrite <- (cp_nil (CopyOut:=Hcp) dst x) at 1; by apply HQ|].
  { pose proof (Z.mod_pos_bound off BSZ ltac:(done)). lia. }
  pose proof (chunk_bound off n tot ltac:(lia) Hn) as (Hk1 & Hk2 & Hk3). set (k := chunk off n tot) in *.
  cbn [readi_loop]. rewrite (proj2 (Z.ltb_lt tot n)) by lia. fstep. apply fwp_zoom. cbn [fst].
  pose proof (Hmap off ltac:(lia)) as Hmo. eapply bmap_mapped; [exact Hmo|done|]. intros s1 Hs1.
  fstep. apply fwp_zoom. eapply f_ideref; [by destruct Hs1 as (l & -> & _)|]. fstep. rewrite Hdev. apply fwp_zoom.
  eapply (reads_bread (file_addr v ip (off / BSZ))); [apply Hmo|done|]. intros bp l T Hb K. cbn [fst snd]. cbv zeta. fold k. fstep. apply fwp_zoom.
  eapply (f_bdata _ _ (set_flog l s) _ _ _ _ T); [exact Hb|]. cbn [fst snd]. fstep.
  rewrite <- Hdev, <- file_bytes_block; [|done|lia|by eapply txn_blk_ok].
  assert (length (file_bytes v ip off (Z.to_nat k)) = Z.to_nat k) as Hlen by (unfold file_bytes; by rewrite length_fmap, length_seq).
  unfold fwp at 1, wp. cbn [fst snd]. rewrite (cp_ok (CopyOut:=Hcp)) by lia. cbn [Z.eqb]. split; [done|].
  fstep. apply fwp_zoom. cbn [fst snd]. 
  eapply (reads_brelse (file_addr v ip (off / BSZ))); [apply Hmo|done|done|done|eapply reads_clean; [apply Hmo|done]|]. intros s2 Hs2.
  pose proof (cp_hi (CopyOut:=Hcp)) as Hhi'. pose proof (cp_lo (CopyOut:=Hcp)) as Hlo'.
  rewrite u64_small, !u32_small by lia. apply IH; try done; try lia.
  - intros o Hoo. apply Hmap. lia.
  - destruct Hk3 as [E|E]; [left; lia|right].
    replace ((off + k) mod BSZ) with 0; [lia|]. rewrite <- Zplus_mod_idemp_l, E. by rewrite Z.mod_same.
  - intros s3 Hs3. specialize (HQ s3 Hs3). replace (Z.to_nat (n - tot)) with (Z.to_nat k + Z.to_nat (n - (tot + k)))%nat in HQ by lia.
    rewrite file_bytes_app, (cp_app (CopyOut:=Hcp)), Hlen, Z2Nat.id in HQ by lia. exact HQ.
Qed.

Lemma readi_spec dst off n x s' (Q : Z -> fstate * X -> Prop) :
  0 <= off <= i_size ip -> 0 <= n -> off + n < 2 ^ 32 -> i_size ip < 2 ^ 31 ->
  let k := Z.min n (i_size ip - off) in
  (forall o, off <= o < off + k -> mapped (o / BSZ)) -> lo <= dst -> dst + k <= hi -> reads s' ->
  (forall s'', reads s'' -> Q k (s'', stored dst (file_bytes v ip off (Z.to_nat k)) x)) ->
  fwp (readi out me i dst off n) (s', x) Q.
Proof.
  intros Ho Hn Hon Hsz k Hmap Hlo Hhi Hs HQ. unfold readi. fstep. apply fwp_zoom.
  eapply f_ideref; [by destruct Hs as (l & -> & _)|]. rewrite u32_small by lia.
  rewrite (proj2 (Z.ltb_ge (i_size ip) off)), (proj2 (Z.ltb_ge (off + n) off)) by lia. cbn [orb]. cbv zeta.
  assert ((if i_size ip <? off + n then u32 (i_size ip - off) else n) = k) as ->.
  { unfold k. destruct (Z.ltb_spec (i_size ip) (off + n)); [rewrite u32_small|]; lia. }
  fstep. assert (0 <= k) by lia. eapply (readi_loop_spec (rw_fuel k)); try done; try lia.
  - by rewrite Z.sub_0_r.
  - right. rewrite Z.sub_0_r. by apply rw_fuel_enough.
  - intros s2 Hs2. fstep. rewrite i32_small, Z.sub_0_r by lia. by apply HQ.
Qed.

End Copy.

(** *** Looking up a name *)

(** The entry at [off], and whether it is in use and has the name: names are
    strings of at most DIRSIZ characters. *)
Definition entry (off : Z) : list Z := file_bytes v ip off (Z.to_nat DIRENT).
Definition entry_match (name : list Z) (off : Z) : bool :=
  negb (de_inum (entry off) =? 0) &&
  bool_decide (take DIRSIZ (cstr name) = take DIRSIZ (cstr (de_name (entry off)))).

Lemma namecmp_spec a b : Forall byte_ok a -> Forall byte_ok b ->
  (namecmp a b =? 0) = bool_decide (take DIRSIZ (cstr a) = take DIRSIZ (cstr b)).
Proof.
  intros Ha Hb. apply eq_bool_prop_intro. unfold namecmp. by rewrite bool_decide_spec, Is_true_true, Z.eqb_eq, strncmp_spec.
Qed.

Context (Hsz : i_size ip < 2 ^ 31) (Hmap : forall o, 0 <= o < i_size ip -> mapped (o / BSZ)).

Lemma entry_ok off s' : reads s' -> Forall byte_ok (entry off).
Proof.
  intros (l & _ & T & _). apply Forall_fmap, Forall_forall. intros k _. cbn. unfold file_byte.
  destruct (txn_blk_ok _ _ _ _ _ _ _ _ T (i_dev ip, file_addr v ip ((off + Z.of_nat k) / BSZ))) as [_ H].
  by apply nth_byte_ok.
Qed.

Lemma read_entry off s' (Q : Z * list Z -> fstate -> Prop) :
  0 <= off -> off + DIRENT <= i_size ip -> reads s' ->
  (forall s'', reads s'' -> Q (DIRENT, entry off) s'') -> fwp (readi_local me i off DIRENT dirent0) s' Q.
Proof.
  intros H1 H2 Hs HQ. unfold readi_local. apply wp_with_local. unfold DIRENT in *.
  eapply (readi_spec local_out _ _ _ 0 off 16); [lia|lia|lia|done| |done|lia|done|].
  - intros o Ho. apply Hmap. lia.
  - intros s'' Hs''. rewrite Z.min_l by lia. specialize (HQ s'' Hs''). cbn [fst snd].
    assert (bytes_put (Z.to_nat 0) (file_bytes v ip off (Z.to_nat 16)) dirent0 = entry off) as ->; [|done].
    unfold bytes_put, entry, DIRENT. rewrite <- (app_nil_r (file_bytes v ip off (Z.to_nat 16))) at 1.
    apply list_inserts_0_l. unfold file_bytes. by rewrite length_fmap, length_seq.
Qed.

(** The body of the loop of [dirlookup]. *)
Let look (name : list Z) (off : Z) : M fstate (unit + nat * Z) :=
  r <- readi_local me i off DIRENT dirent0 ;;
  let de := snd r in
  if negb (fst r =? DIRENT) then panic "dirlookup read"
  else if de_inum de =? 0 then ret (inl tt)
  else if namecmp name (de_name de) =? 0 then
    j <- iget (i_dev ip) (de_inum de) ;;
    ret (inr (j, off))
  else ret (inl tt).

Lemma look_entry name off s' :
  Forall byte_ok name -> 0 <= off -> off + DIRENT <= i_size ip -> reads s' ->
  exists s1 t1, reads s1 /\ disk_writes t1 = [] /\
    look name off s' = after t1 ((if entry_match name off then
      j <- iget (i_dev ip) (de_inum (entry off)) ;; ret (inr (j, off)) else ret (inl tt)) s1).
Proof.
  intros Hn H1 H2 Hs.
  destruct (fwp_run _ _ _ (read_entry off s' (fun r s'' => r = (DIRENT, entry off) /\ reads s'') H1 H2 Hs
    ltac:(done))) as (r & s1 & t1 & Hr & Ht1 & -> & Hs1). exists s1, t1. split; [done|]. split; [done|].
  assert (Forall byte_ok (de_name (entry off))) as Hde by (by eapply bytes_at_ok, entry_ok).
  unfold look, entry_match. unfold bind at 1. rewrite Hr. cbn [fst snd]. rewrite Z.eqb_refl. cbn [negb].
  rewrite namecmp_spec by done. destruct (de_inum (entry off) =? 0); [done|]. by case_bool_decide.
Qed.

(** The scan of the entries at the offsets [l]. *)
Lemma dirlookup_scan name l s' :
  Forall byte_ok name -> (forall off, off ∈ l -> 0 <= off /\ off + DIRENT <= i_size ip) -> reads s' ->
  exists s'' t, reads s'' /\ disk_writes t = [] /\
    for_each l (look name) s' =
    after t ((match find (entry_match name) l with
              | None => ret None
              | Some off => j <- iget (i_dev ip) (de_inum (entry off)) ;; ret (Some (j, off))
              end) s'').
Proof.
  intros Hn. revert s'. induction l as [|off l IH]; intros s' Hl Hs.
  { exists s', []. split; [done|]. split; [done|]. by rewrite after_nil. }
  destruct (Hl off ltac:(by left)) as [H1 H2].
  destruct (look_entry name off s' Hn H1 H2 Hs) as (s1 & t1 & Hs1 & Ht1 & Hlook).
  cbn [for_each find]. unfold bind at 1. rewrite Hlook. destruct (entry_match name off).
  - exists s1, t1. split; [done|]. split; [done|]. unfold bind.
    destruct (iget _ _ s1); cbn [after ret]; rewrite ?app_nil_r; done.
  - destruct (IH s1 ltac:(intros o Ho; apply Hl; by right) Hs1) as (s2 & t2 & Hs2 & Ht2 & Hrest).
    exists s2, (t1 ++ t2). split; [done|]. rewrite disk_writes_app, Ht1, Ht2. split; [done|].
    unfold ret at 1. cbn [after]. by rewrite app_nil_r, Hrest, after_app.
Qed.

End Read.

(** C28: reading a file whose blocks are allocated yields its bytes.  From an
    offset within the file [readi] returns the smaller of the count asked for
    and what is left of the file, and delivers exactly those bytes of the
    file, over direct and indirect blocks, to any destination that stores
    what it is given; past the end it fails and reads nothing. *)
Theorem readi_reads {X} (out : Z -> list Z -> X -> X * Z) stored lo hi `{!CopyOut out stored lo hi}
    me dev s L v d hs m c i ip dst off n x :
  txn me dev (fsb s) (flog s) L v d hs -> sb_ok (fsb s) -> room m c L hs -> 0 <= m -> 1 <= c ->
  inodes s !! i = Some ip -> i_dev ip = dev -> i_size ip < 2 ^ 31 ->
  (forall o, 0 <= o < i_size ip -> mapped dev s v hs ip (o / BSZ)) ->
  0 <= off -> 0 <= n -> off + n < 2 ^ 32 -> lo <= dst -> dst + n <= hi ->
  if i_size ip <? off then readi out me i dst off n (s, x) = Ok (-1) (s, x) []
  else
    let k := Z.min n (i_size ip - off) in
    exists l t, readi out me i dst off n (s, x) =
        Ok k (set_flog l s, stored dst (file_bytes v ip off (Z.to_nat k)) x) t /\
      disk_writes t = [] /\ txn me dev (fsb s) l L v d hs.
Proof.
  intros T Hsb R Hm Hc Hi Hdev Hsz Hmap Ho Hn Hon Hlo Hhi. destruct (Z.ltb_spec (i_size ip) off) as [H|H].
  - unfold readi, bind, on_fs, zoom, ideref, fetch. cbn [fst]. rewrite Hi.
    rewrite (proj2 (Z.ltb_lt (i_size ip) off)) by done. done.
  - cbv zeta. assert (fwp (readi out me i dst off n) (s, x) (fun k s2 => k = Z.min n (i_size ip - off) /\
      exists l, s2 = (set_flog l s, stored dst (file_bytes v ip off (Z.to_nat k)) x) /\ txn me dev (fsb s) l L v d hs)) as Hr.
    { eapply (readi_spec me dev s L v d hs m c Hsb R Hm Hc i ip Hi Hdev out stored lo hi); try done; try lia.
      - intros o Hoo. apply Hmap. lia.
      - exists (flog s). split_and!; [by destruct s|done|apply keeps_refl].
      - intros s2 (l & -> & T' & _). split; [done|]. by exists l. }
    apply fwp_run in Hr as (k & s2 & t & Hrun & Ht & -> & l & -> & T'). by exists l, t.
Qed.

(** A directory with the entries "." and "a" in block 46. *)
Definition dir_ex : list Z := dirent_bytes [46] 1 ++ dirent_bytes [97] 2 ++ replicate (BSIZE - 32) 0.
Definition dk_dir : gmap (Z * Z) (list Z) := {[ (0, 46) := dir_ex ]}.
Definition ip_ex : inode := Inode 0 1 1 initsleeplock 1 T_DIR 0 0 1 32 (46 :: replicate 12 0).

Lemma dk_dir_blk k : blk_ok (disk_block dk_dir k).
Proof.
  unfold disk_block, dk_dir. destruct (decide (k = (0, 46))) as [->|H].
  - rewrite lookup_singleton_eq. change (blk_ok dir_ex). split; [done|].
    unfold dir_ex. rewrite !Forall_app. split_and!; [by repeat constructor|by repeat constructor|by apply Forall_replicate].
  - rewrite lookup_singleton_ne by done. by apply blk_ok_fill.
Qed.

Lemma ip_ex_mapped l v o : 0 <= o < 32 -> mapped 0 (FState l [ip_ex] sb0) v [] ip_ex (o / BSZ).
Proof.
  intros Ho. rewrite Z.div_small by (change BSZ with 1024; lia).
  unfold mapped, data_block. split; [done|]. split; [split; [by vm_compute|apply not_elem_of_nil]|done].
Qed.

Lemma readi_reads_witness : exists l l' t,
  readi local_out 1 0 0 16 100 (FState l [ip_ex] sb0, replicate 20 7) =
    Ok 16 (FState l' [ip_ex] sb0, dirent_bytes [97] 2 ++ replicate 4 7) t.
Proof.
  destruct (fs_start dk_dir eq_refl dk_dir_blk) as (l & L & v & d & T & Ho & Hc & Hh & R & Hv).
  specialize (Hv (0, 46) ltac:(simpl; lia)).
  pose proof (readi_reads local_out _ 0 (2 ^ 63) 1 0 (FState l [ip_ex] sb0) L v d [] 10 3 0 ip_ex 0 16 100 (replicate 20 7)
    T sb0_ok R ltac:(lia) ltac:(lia) eq_refl eq_refl ltac:(done) (ip_ex_mapped l v)
    ltac:(lia) ltac:(lia) ltac:(lia) ltac:(lia) ltac:(lia)) as (l' & t & H & _).
  exists l, l', t. rewrite H. do 2 f_equal.
  rewrite file_bytes_block; [|lia|by vm_compute|by eapply txn_blk_ok].
  change (v (i_dev ip_ex, file_addr v ip_ex (16 / BSZ))) with (v (0, 46)). rewrite Hv.
  unfold disk_block, dk_dir. rewrite lookup_singleton_eq. by vm_compute.
Defined.

Lemma dir_offsets_elem size off : size mod DIRENT = 0 -> 0 <= size -> off ∈ dir_offsets size -> 0 <= off /\ off + DIRENT <= size.
Proof.
  unfold DIRENT. intros Hm Hs H. apply list_elem_of_fmap in H as (k & -> & Hk). apply elem_of_seq in Hk. unfold DIRENT in *.
  Z.div_mod_to_equations. lia.
Qed.

(** C29: [dirlookup] on a directory reads its entries in order and stops at
    the first one in use whose name is the same string up to DIRSIZ
    characters: it behaves as [iget] of that entry's inode, paired with its
    offset; with no such entry it returns nothing.  It leaves the file system
    as it was, the buffer cache below aside. *)
Theorem dirlookup_first me dev s L v d hs m c i ip name :
  txn me dev (fsb s) (flog s) L v d hs -> sb_ok (fsb s) -> room m c L hs -> 0 <= m -> 1 <= c ->
  inodes s !! i = Some ip -> i_dev ip = dev -> i_type ip = T_DIR ->
  0 <= i_size ip < 2 ^ 31 -> i_size ip mod DIRENT = 0 ->
  (forall o, 0 <= o < i_size ip -> mapped dev s v hs ip (o / BSZ)) -> Forall byte_ok name ->
  exists l t, disk_writes t = [] /\ txn me dev (fsb s) l L v d hs /\
    dirlookup me i name s =
      after t ((match find (entry_match v ip name) (dir_offsets (i_size ip)) with
                | None => ret None
                | Some off => j <- iget dev (de_inum (entry v ip off)) ;; ret (Some (j, off))
                end) (set_flog l s)).
Proof.
  intros T Hsb R Hm Hc Hi Hdev Hty Hsz Hmod Hmap Hn.
  destruct (dirlookup_scan me dev s L v d hs m c Hsb R Hm Hc i ip Hi Hdev ltac:(lia) Hmap name (dir_offsets (i_size ip)) s Hn)
    as (s' & t & (l & -> & T' & _) & Ht & Hrun).
  - intros off Hoff. apply dir_offsets_elem in Hoff; [lia|done|lia].
  - exists (flog s). split_and!; [by destruct s|done|apply keeps_refl].
  - exists l, t. split; [done|]. split; [done|]. rewrite <- Hdev, <- Hrun. unfold dirlookup.
    unfold bind at 1, ideref, fetch. rewrite Hi, Hty. cbn [negb Z.eqb T_DIR]. apply after_nil.
Qed.

Lemma dirlookup_first_witness : exists l l' t s',
  dirlookup 1 0 [97; 0] (FState l (ip_ex :: replicate 49 inode0) sb0) = Ok (Some (1%nat, 16)) (FState l' s' sb0) t.
Proof.
  destruct (fs_start dk_dir eq_refl dk_dir_blk) as (l & L & v & d & T & Ho & Hc & Hh & R & Hv).
  specialize (Hv (0, 46) ltac:(simpl; lia)).
  destruct (dirlookup_first 1 0 (FState l (ip_ex :: replicate 49 inode0) sb0) L v d [] 10 3 0 ip_ex [97; 0]
    T sb0_ok R ltac:(lia) ltac:(lia) eq_refl eq_refl eq_refl ltac:(by vm_compute) eq_refl (ip_ex_mapped l v) ltac:(by repeat constructor))
    as (l' & t & _ & _ & H).
  assert (forall off, 0 <= off < 1008 -> off mod BSZ + 16 <= BSZ -> entry v ip_ex off = bytes_at (Z.to_nat off) 16 dir_ex) as He.
  { intros off Hoff Hb. unfold entry. rewrite file_bytes_block; [|lia|by vm_compute|by eapply txn_blk_ok].
    rewrite Z.mod_small, Z.div_small by (change BSZ with 1024; lia).
    change (v (i_dev ip_ex, file_addr v ip_ex 0)) with (v (0, 46)). rewrite Hv.
    unfold disk_block, dk_dir. by rewrite lookup_singleton_eq. }
  assert (find (entry_match v ip_ex [97; 0]) (dir_offsets (i_size ip_ex)) = Some 16) as Hf.
  { change (dir_offsets (i_size ip_ex)) with [0; 16]. cbn [find]. unfold entry_match.
    rewrite !He by (vm_compute; intuition congruence). by vm_compute. }
  rewrite Hf, He in H by (vm_compute; intuition congruence).
  do 4 eexists. rewrite H. vm_compute. reflexivity.
Defined.
