(* ===== verification/FsFile.v ===== *)
(** * Files and the blocks they own (kernel/fs.c)

    The addresses of the blocks of a file, directly in the inode and in the
    indirect block; what a file without holes looks like; and that only changes
    to its blocks change it.  Shared by the kernel's [writei] and by mkfs. *)

From Stdlib Require Import ZArith Lia.
From stdpp Require Import base gmap list strings.
From S2P Require Import Prelude CString Sleeplock Bio BioFacts Log Fs FsInode FsRead.
Local Open Scope xv6_scope.

#[local] Arguments word _ _ : simpl never.
#[local] Arguments u32 _ : simpl never.

(** ** Words of a block *)

Lemma word_put_same j x d : 0 <= x < 2 ^ 32 -> (4 * j + 4 <= length d)%nat -> word j (put_word (4 * j) x d) = x.
Proof.
  intros Hx Hl. unfold word, put_word. rewrite bytes_at_put_eq by (rewrite ?length_le_bytes; lia).
  rewrite u32_small by lia. apply le_val_bytes. lia.
Qed.
Lemma word_put_other j j' x d : j <> j' -> word j (put_word (4 * j') x d) = word j d.
Proof. intros H. unfold word, put_word. rewrite bytes_at_put_ne; [done|]. rewrite length_le_bytes. lia. Qed.

Lemma val_replicate o n m : le_val (bytes_at o n (replicate m 0)) = 0.
Proof.
  unfold bytes_at. rewrite drop_replicate, take_replicate. generalize (Nat.min n (m - o)).
  intros k. induction k as [|k IH]; [done|]. cbn [replicate le_val]. by rewrite IH.
Qed.
Lemma word_replicate j m : word j (replicate m 0) = 0.
Proof. apply val_replicate. Qed.

Lemma nth_replicate_zero n j : nth j (replicate n 0) 0 = 0.
Proof. rewrite nth_lookup. destruct (replicate n 0 !! j) eqn:E; [|done]. by apply lookup_replicate_1 in E as [-> _]. Qed.

(** ** Blocks of a file *)

(** An inode and the number of its blocks. *)
Notation file := (inode * nat)%type.

Definition baddr (v : Z * Z -> list Z) (ip : inode) (j : nat) : Z := file_addr v ip (Z.of_nat j).
Definition iaddr (ip : inode) : Z := nth NDIRECT (i_addrs ip) 0.

(** The blocks it owns: its data, and the indirect block if there is one. *)
Definition blocks (v : Z * Z -> list Z) (f : file) : list Z :=
  (baddr v (fst f) <$> seq 0 (snd f)) ++ (if (NDIRECT <? snd f)%nat then [iaddr (fst f)] else []).

(** Nothing is allocated beyond those. *)
Record file_ok (dev : Z) (v : Z * Z -> list Z) (f : file) : Prop := {
  fo_inode : inode_ok (fst f);
  fo_dev : i_dev (fst f) = dev;
  fo_max : (snd f <= NDIRECT + NINDIRECT)%nat;
  fo_direct : forall j, (snd f <= j < NDIRECT)%nat -> nth j (i_addrs (fst f)) 0 = 0;
  fo_indirect : (snd f <= NDIRECT)%nat -> iaddr (fst f) = 0;
  fo_slots : (NDIRECT < snd f)%nat ->
    forall j, (snd f - NDIRECT <= j < NINDIRECT)%nat -> word j (v (dev, iaddr (fst f))) = 0
}.
Arguments fo_inode {dev} v f _.
Arguments fo_dev {dev} v f _.
Arguments fo_max {dev} v f _.
Arguments fo_direct {dev} v f _ j _.
Arguments fo_indirect {dev} v f _ _.
Arguments fo_slots {dev} v f _ _ j _.

Section File.
Context {dev : Z}.

Lemma baddr_direct v ip j : (j < NDIRECT)%nat -> baddr v ip j = nth j (i_addrs ip) 0.
Proof.
  intros H. unfold baddr, file_addr. rewrite (proj2 (Z.ltb_lt _ _)) by lia. by rewrite Nat2Z.id.
Qed.
Lemma baddr_indirect v ip j : i_dev ip = dev -> (NDIRECT <= j)%nat -> baddr v ip j = word (j - NDIRECT) (v (dev, iaddr ip)).
Proof.
  intros Hd H. unfold baddr, file_addr. rewrite (proj2 (Z.ltb_ge _ _)) by lia. rewrite Hd. f_equal. lia.
Qed.

Lemma blocks_data v f j : (j < snd f)%nat -> baddr v (fst f) j ∈ blocks v f.
Proof.
  intros H. unfold blocks. apply elem_of_app. left. apply list_elem_of_fmap. exists j. split; [done|].
  apply elem_of_seq. lia.
Qed.
Lemma blocks_ind v f : (NDIRECT < snd f)%nat -> iaddr (fst f) ∈ blocks v f.
Proof.
  intros H. unfold blocks. rewrite (proj2 (Nat.ltb_lt _ _) H). apply elem_of_app. right. by left.
Qed.

(** ** What does not touch the blocks of a file *)

Section Frame.
Context (v v' : Z * Z -> list Z) (f : file).
Hypothesis Hdev : i_dev (fst f) = dev.
Hypothesis Hsame : forall b, b ∈ blocks v f -> v' (dev, b) = v (dev, b).

Lemma baddr_frame j : (j < snd f)%nat -> baddr v' (fst f) j = baddr v (fst f) j.
Proof.
  intros H. destruct (decide (j < NDIRECT)%nat); [by rewrite !baddr_direct|].
  rewrite !baddr_indirect by (done || lia). by rewrite Hsame by (apply blocks_ind; lia).
Qed.
Lemma blocks_frame : blocks v' f = blocks v f.
Proof.
  unfold blocks. f_equal. apply list_fmap_ext. intros i j H%lookup_seq. apply baddr_frame. lia.
Qed.
Lemma file_ok_frame : file_ok dev v f -> file_ok dev v' f.
Proof.
  intros [H1 H2 H3 H4 H5 H6]. constructor; try done. intros Hk j Hj. rewrite Hsame by (by apply blocks_ind). by apply H6.
Qed.
Lemma file_byte_frame o : 0 <= o < Z.of_nat (snd f) * BSZ -> file_byte v' (fst f) o = file_byte v (fst f) o.
Proof.
  intros Ho. unfold file_byte. rewrite Hdev.
  assert (0 <= o / BSZ < Z.of_nat (snd f)) as Hb.
  { split; [apply Z.div_pos; [lia|done]|apply Z.div_lt_upper_bound; [done|lia]]. }
  pose proof (baddr_frame (Z.to_nat (o / BSZ)) ltac:(lia)) as E. unfold baddr in E. rewrite Z2Nat.id in E by lia.
  rewrite E. rewrite Hsame; [done|]. pose proof (blocks_data v f (Z.to_nat (o / BSZ)) ltac:(lia)) as Hin.
  unfold baddr in Hin. by rewrite Z2Nat.id in Hin by lia.
Qed.
Lemma file_bytes_frame n : Z.of_nat n <= Z.of_nat (snd f) * BSZ -> file_bytes v' (fst f) 0 n = file_bytes v (fst f) 0 n.
Proof.
  intros Hn. apply list_fmap_ext. intros i j H%lookup_seq. apply file_byte_frame. lia.
Qed.
End Frame.

(** ** One block more *)

Definition with_addrs (l : list Z) (ip : inode) : inode :=
  Inode (i_dev ip) (i_inum ip) (i_ref ip) (i_lock ip) (i_valid ip) (i_type ip) (i_major ip) (i_minor ip) (i_nlink ip)
    (i_size ip) l.

Lemma blocks_snoc v ip k v' ip' b (tl : list Z) :
  (forall j, (j < k)%nat -> baddr v' ip' j = baddr v ip j) -> baddr v' ip' k = b ->
  (if (NDIRECT <? S k)%nat then [iaddr ip'] else []) = tl ->
  blocks v' (ip', S k) = (baddr v ip <$> seq 0 k) ++ [b] ++ tl.
Proof.
  intros Hj <- <-. unfold blocks. cbn [fst snd]. rewrite seq_S, fmap_app, <- (assoc_L (++)). f_equal.
  apply list_fmap_ext. intros i j H%lookup_seq. apply Hj. lia.
Qed.

(** A new slot of the indirect block. *)
Lemma slot_file_ok k v' ip' b d :
  inode_ok ip' -> i_dev ip' = dev -> (NDIRECT <= k)%nat -> (k < NDIRECT + NINDIRECT)%nat -> 0 <= b < 2 ^ 32 -> length d = BSIZE ->
  (forall j, (k - NDIRECT <= j < NINDIRECT)%nat -> word j d = 0) ->
  v' (dev, iaddr ip') = put_word (4 * (k - NDIRECT)) b d ->
  file_ok dev v' (ip', S k) /\ baddr v' ip' k = b.
Proof.
  intros Hi Hdev Hk Hmax Hb Hl Hz E. split; [constructor; cbn [fst snd]; try done|].
  - lia.
  - lia.
  - intros _ j Hj. rewrite E, word_put_other by lia. apply Hz. lia.
  - rewrite baddr_indirect, E by done. apply word_put_same; [done|]. unfold NDIRECT, NINDIRECT, BSIZE in *. lia.
Qed.

Lemma put_word_length o x d : length (put_word o x d) = length d.
Proof. apply length_bytes_put. Qed.

(** ** Bytes and blocks *)

Lemma file_byte_baddr v ip o :
  0 <= o -> i_dev ip = dev -> file_byte v ip o = nth (Z.to_nat (o mod BSZ)) (v (dev, baddr v ip (Z.to_nat (o / BSZ)))) 0.
Proof.
  intros Ho Hd. unfold file_byte, baddr. rewrite Hd, Z2Nat.id; [done|]. apply Z.div_pos; [done|done].
Qed.

Lemma block_of o k : 0 <= o < Z.of_nat k * BSZ -> (Z.to_nat (o / BSZ) < k)%nat.
Proof.
  intros Ho. assert (o / BSZ < Z.of_nat k) by (apply Z.div_lt_upper_bound; [done|lia]).
  pose proof (Z.div_pos o BSZ ltac:(lia) ltac:(done)). lia.
Qed.

Lemma in_block a bn :
  Z.of_nat bn * BSZ <= a < Z.of_nat (S bn) * BSZ ->
  0 <= a /\ Z.to_nat (a / BSZ) = bn /\ Z.to_nat (a mod BSZ) = Z.to_nat (a - Z.of_nat bn * BSZ).
Proof.
  intros Ha. split; [unfold BSZ in Ha; lia|].
  assert (a / BSZ = Z.of_nat bn /\ a mod BSZ = a - Z.of_nat bn * BSZ) as [-> ->]; [|lia].
  apply (Z.div_mod_unique BSZ); [left; by apply Z.mod_pos_bound|left; lia|]. rewrite <- Z.div_mod by done. lia.
Qed.

(** Same addresses, same contents of the data blocks: same bytes. *)
Lemma file_bytes_same v v' ip ip' k n :
  i_dev ip = dev -> i_dev ip' = dev -> Z.of_nat n <= Z.of_nat k * BSZ ->
  (forall j, (j < k)%nat -> baddr v' ip' j = baddr v ip j /\ v' (dev, baddr v ip j) = v (dev, baddr v ip j)) ->
  file_bytes v' ip' 0 n = file_bytes v ip 0 n.
Proof.
  intros Hd Hd' Hn H. apply list_fmap_ext. intros i j Hj%lookup_seq. rewrite !file_byte_baddr by (done || lia).
  destruct (H (Z.to_nat ((0 + Z.of_nat j) / BSZ))) as [-> ->]; [apply block_of; lia|done].
Qed.
End File.

(** Block [k] costs a block, and block NDIRECT the indirect block as well. *)
Definition cost (k : nat) : Z := if (k =? NDIRECT)%nat then 2 else 1.

(** The number of data blocks of a file of that size, and of all its blocks. *)
Definition nblk (size : Z) : nat := Z.to_nat ((size + BSZ - 1) / BSZ).
Definition owned (k : nat) : Z := Z.of_nat k + (if (NDIRECT <? k)%nat then 1 else 0).

Lemma owned_S k : owned (S k) = owned k + cost k.
Proof.
  unfold owned, cost. destruct (Nat.ltb_spec NDIRECT (S k)), (Nat.ltb_spec NDIRECT k), (Nat.eqb_spec k NDIRECT); lia.
Qed.
Lemma owned_mono k k' : (k <= k')%nat -> owned k <= owned k'.
Proof. intros H. unfold owned. destruct (Nat.ltb_spec NDIRECT k), (Nat.ltb_spec NDIRECT k'); lia. Qed.

Lemma nblk_eq bn o : 0 <= bn -> 0 <= o <= BSZ -> nblk (bn * BSZ + o) = (Z.to_nat bn + (if (o =? 0)%Z then 0 else 1))%nat.
Proof.
  intros Hb Ho. unfold nblk. destruct (Z.eqb_spec o 0) as [->|Hne].
  - rewrite Z.add_0_r, <- Z.add_sub_assoc, Z.div_add_l by done. rewrite (Z.div_small (BSZ - 1)) by (unfold BSZ, BSIZE; lia). lia.
  - replace (bn * BSZ + o + BSZ - 1) with ((bn + 1) * BSZ + (o - 1)) by lia. rewrite Z.div_add_l by done.
    rewrite (Z.div_small (o - 1)) by lia. lia.
Qed.
Lemma nblk_mono a b : 0 <= a <= b -> (nblk a <= nblk b)%nat.
Proof. intros H. unfold nblk. apply Z2Nat.inj_le; [apply Z.div_pos; unfold BSZ, BSIZE in *; lia..|]. apply Z.div_le_mono; [done|lia]. Qed.

Lemma nblk_covers size : 0 <= size -> size <= Z.of_nat (nblk size) * BSZ.
Proof.
  intros H. unfold nblk. rewrite Z2Nat.id by (apply Z.div_pos; unfold BSZ, BSIZE in *; lia).
  pose proof (Z.div_mod (size + BSZ - 1) BSZ ltac:(done)). pose proof (Z.mod_pos_bound (size + BSZ - 1) BSZ ltac:(done)). lia.
Qed.
