(* ===== verification/FsWrite.v ===== *)
(** * Writing files (facts about writei and bmap of kernel/fs.c)

    Growing a file block by block inside a transaction, and what [writei] does
    to its bytes.  The log space used is bounded by the set of blocks that may
    be logged, so that blocks logged twice count once, as in [log_write]. *)

From Stdlib Require Import ZArith Lia.
From stdpp Require Import base gmap list strings functions.
From S2P Require Import Prelude CString Sleeplock Bio BioFacts Log LogFacts LogCrash LogTxn Fs FsFacts FsInode FsRead FsFile.
Local Open Scope xv6_scope.

#[local] Arguments word _ _ : simpl never.
#[local] Arguments u32 _ : simpl never.

Lemma nblk_lt off e : 0 <= off < e -> (Z.to_nat (off / BSZ) < nblk e)%nat.
Proof. intros H. unfold nblk. change BSZ with 1024. Z.div_mod_to_equations. lia. Qed.

Lemma nblk_small e : (nblk e <= NDIRECT + NINDIRECT)%nat -> 0 <= e -> e < 2 ^ 31.
Proof. intros Hm He. pose proof (nblk_covers e He) as Hc. change BSZ with 1024 in Hc. unfold NDIRECT, NINDIRECT in Hm. lia. Qed.

Lemma block_end off c k : 0 <= off -> off mod BSZ + c <= BSZ -> (S (Z.to_nat (off / BSZ)) <= k)%nat -> off + c <= Z.of_nat k * BSZ.
Proof. change BSZ with 1024. intros. Z.div_mod_to_equations. lia. Qed.

Lemma nth_bytes_put o bs l j : (o + length bs <= length l)%nat ->
  nth j (bytes_put o bs l) 0 = if bool_decide (o <= j < o + length bs)%nat then nth (j - o) bs 0 else nth j l 0.
Proof.
  intros Hl. unfold bytes_put. rewrite !nth_lookup. case_bool_decide as Hj.
  - by rewrite list_lookup_inserts by lia.
  - f_equal. destruct (decide (j < o)%nat); [apply list_lookup_inserts_lt|apply list_lookup_inserts_ge]; lia.
Qed.

(** ** Free blocks *)

Definition free_blocks (dev : Z) (sb : superblock) (v : Z * Z -> list Z) : list Z :=
  filter (fun b => marked dev sb v b = false) (seqZ 0 (sb_size sb)).

Lemma filter_seqZ_head (P : Z -> Prop) `{!forall x, Decision (P x)} a n x (l : list Z) :
  filter P (seqZ a n) = x :: l ->
  a <= x < a + n /\ P x /\ (forall y, a <= y < x -> ~ P y) /\ l = filter P (seqZ (x + 1) (a + n - (x + 1))).
Proof.
  intros E. assert (exists k, n = Z.of_nat k \/ n <= 0) as [k Hn] by (exists (Z.to_nat n); lia). revert a n Hn E.
  induction k as [|k IH]; intros a n Hn E.
  { by rewrite seqZ_nil in E by lia. }
  destruct Hn as [Hn|Hn]; [|by rewrite seqZ_nil in E by lia].
  rewrite seqZ_cons in E by lia. rewrite filter_cons in E. destruct (decide (P a)) as [Ha|Ha].
  - injection E as <- <-. split; [lia|]. split; [done|]. split; [intros; lia|]. do 2 f_equal; lia.
  - destruct (IH (Z.succ a) (Z.pred n) ltac:(lia) E) as (H1 & H2 & H3 & H4). split; [lia|]. split; [done|]. split.
    + intros y Hy. destruct (decide (y = a)) as [->|]; [done|]. apply H3. lia.
    + rewrite H4. do 2 f_equal. lia.
Qed.

Lemma filter_same (P Q : Z -> Prop) `{!forall x, Decision (P x)} `{!forall x, Decision (Q x)} (l : list Z) :
  (forall x, x ∈ l -> P x <-> Q x) -> filter P l = filter Q l.
Proof.
  induction l as [|x l IH]; intros HPQ; [done|]. setoid_rewrite elem_of_cons in HPQ. rewrite !filter_cons, IH by auto.
  pose proof (HPQ x (or_introl eq_refl)). destruct (decide (P x)), (decide (Q x)); tauto.
Qed.
Lemma filter_none (P : Z -> Prop) `{!forall x, Decision (P x)} (l : list Z) : (forall x, x ∈ l -> ~ P x) -> filter P l = [].
Proof.
  induction l as [|x l IH]; intros HP; [done|]. setoid_rewrite elem_of_cons in HP. rewrite filter_cons, decide_False by auto. auto.
Qed.

Section Free.
Context (dev : Z) (sb : superblock) (Hsb : sb_ok sb).
Local Abbreviation free := (free_blocks dev sb).

(** What there is to know about the first free block. *)
Lemma free_first v fb F :
  (forall b, 0 <= b < datastart sb -> marked dev sb v b = true) -> free v = fb :: F ->
  datastart sb <= fb < sb_size sb /\ marked dev sb v fb = false /\ forall b, 0 <= b < fb -> marked dev sb v b = true.
Proof.
  intros Hmeta E. apply filter_seqZ_head in E as (H1 & H2 & H3 & _).
  assert (datastart sb <= fb) by (destruct (decide (datastart sb <= fb)); [done|]; rewrite Hmeta in H2 by lia; done).
  split; [lia|]. split; [done|]. intros b Hb. specialize (H3 b Hb). by destruct (marked dev sb v b).
Qed.

Lemma allocated_other v fb b : b <> fb -> ~ sb_bmapstart sb <= b < datastart sb -> 0 <= fb < sb_size sb ->
  allocated dev sb fb v (dev, b) = v (dev, b).
Proof.
  intros H1 H2 H3. pose proof (BBLOCK_range sb Hsb fb H3). unfold allocated.
  rewrite !fn_lookup_insert_ne by (intros [=]; lia). done.
Qed.
Lemma allocated_dev v fb k : fst k <> dev -> allocated dev sb fb v k = v k.
Proof. intros H. unfold allocated. rewrite !fn_lookup_insert_ne by (intros E; apply H; by rewrite <- E || by rewrite E). done. Qed.
Lemma allocated_new v fb : allocated dev sb fb v (dev, fb) = replicate BSIZE 0.
Proof. unfold allocated. by rewrite fn_lookup_insert. Qed.

Lemma allocated_ok v fb k : (forall k, blk_ok (v k)) -> blk_ok (allocated dev sb fb v k).
Proof.
  intros Hv. unfold allocated. destruct (decide (k = (dev, fb))) as [->|]; [rewrite fn_lookup_insert; by apply blk_ok_fill|].
  rewrite fn_lookup_insert_ne by done. destruct (decide (k = (dev, BBLOCK fb sb))) as [->|].
  - rewrite fn_lookup_insert. by apply bit_set_ok.
  - by rewrite fn_lookup_insert_ne.
Qed.

Lemma allocated_free v fb F :
  (forall k, blk_ok (v k)) -> (forall b, 0 <= b < datastart sb -> marked dev sb v b = true) -> free v = fb :: F ->
  free (allocated dev sb fb v) = F.
Proof.
  intros Hv Hmeta E. pose proof (free_first v fb F Hmeta E) as (H1 & H2 & H3). pose proof (datastart_pos sb Hsb).
  pose proof E as E'. apply filter_seqZ_head in E' as (_ & _ & _ & ->). unfold free_blocks.
  assert (seqZ 0 (sb_size sb) = seqZ 0 (fb + 1) ++ seqZ (fb + 1) (sb_size sb - (fb + 1))) as ->.
  { rewrite <- (Z.add_0_l (fb + 1)) at 2. rewrite <- seqZ_app by lia. f_equal. lia. }
  rewrite list.filter_app, (filter_none _ (seqZ 0 (fb + 1))); cbn [app].
  - replace (0 + sb_size sb) with (sb_size sb) by lia.
    apply filter_same. intros b Hb. apply elem_of_seqZ in Hb. rewrite allocated_marked by (done || lia).
    destruct (Z.eqb_spec fb b); [lia|]. done.
  - intros b Hb. apply elem_of_seqZ in Hb. rewrite allocated_marked by (done || lia).
    destruct (Z.eqb_spec fb b) as [->|]; [done|]. rewrite H3 by lia. done.
Qed.

Lemma free_elem v b : b ∈ free v <-> 0 <= b < sb_size sb /\ marked dev sb v b = false.
Proof. unfold free_blocks. rewrite list_elem_of_filter, elem_of_seqZ. split; intros [? ?]; (split; [|done]; lia) || (split; [done|lia]). Qed.

(** What is stored in a data block does not matter. *)
Lemma free_insert v b x : datastart sb <= b -> free (<[(dev, b) := x]> v) = free v.
Proof.
  intros Hb. apply filter_same. intros y Hy. apply elem_of_seqZ in Hy. unfold marked.
  pose proof (BBLOCK_range sb Hsb y ltac:(lia)). rewrite fn_lookup_insert_ne by (intros [=]; lia). done.
Qed.
End Free.

(** ** Space in the log *)

Lemma homes_bound L (H : list Z) : log_ok L -> homes L ⊆ H -> lh_n L <= Z.of_nat (length H).
Proof.
  intros Hok Hsub. pose proof (homes_length L Hok) as Hl. pose proof (lo_nodup _ Hok) as Hn.
  assert (length (homes L) <= length H)%nat by (apply submseteq_length, NoDup_submseteq; done). lia.
Qed.

Lemma log_add_sub b L (H : list Z) : homes L ⊆ H -> b ∈ H -> log_ok L -> lh_n L < Z.of_nat LOGSIZE -> homes (log_add b L) ⊆ H.
Proof.
  intros Hsub Hb Hok Hc. destruct (decide (b ∈ homes L)) as [Hin|Hin].
  - unfold log_add. by rewrite bool_decide_eq_true_2.
  - rewrite log_add_homes by done. intros x. rewrite elem_of_app, list_elem_of_singleton. intros [Hx| ->]; auto.
Qed.

(** ** Where the bytes of a write come from *)

(** [inn] fetches the bytes [data] from [src], in pieces or at once. *)
Definition byte_source {X} (inn : Z -> nat -> X -> list Z * Z) (src : Z) (data : list Z) (x : X) : Prop :=
  0 <= src /\ src + Z.of_nat (length data) < 2 ^ 64 /\ Forall byte_ok data /\
  forall t m, (t + m <= length data)%nat -> inn (src + Z.of_nat t) m x = (bytes_at t m data, 0).

(** A local variable of the kernel. *)
Lemma local_source x : Z.of_nat (length x) < 2 ^ 64 -> Forall byte_ok x -> byte_source local_in 0 x x.
Proof. intros Hl Hx. split; [lia|]. split; [lia|]. split; [done|]. intros t m _. unfold local_in. by rewrite Z.add_0_l, Nat2Z.id. Qed.

(** ** A file that is being written *)

Section Grow.
Context (me dev : Z) (s0 : fstate) (d : Z * Z -> list Z) (hs : list (Z * Z)) (i : nat).
Let sb : superblock := fsb s0.
Context (Hsb : sb_ok sb) (Hlen : (i < length (inodes s0))%nat).
(** The blocks that may be logged. *)
Context (H : list Z) (Hlog : Z.of_nat (length H) + 1 < i32 (sb_nlog sb))
  (Hbuf : Z.of_nat (length H) + Z.of_nat (length hs) + 4 <= Z.of_nat NBUF).
Context (Hbm : forall b, 0 <= b < sb_size sb -> (dev, BBLOCK b sb) ∉ hs /\ BBLOCK b sb ∈ H).
Local Abbreviation free := (free_blocks dev sb).

(** The inode in entry [i] is [ip]: a file of [k] blocks without holes, whose
    blocks are distinct, in use and not locked. *)
Record wfile (s : fstate) (L : log) (v : Z * Z -> list Z) (ip : inode) (k : nat) : Prop := {
  w_state : exists l, s = FState l (<[i := ip]> (inodes s0)) sb /\ txn me dev sb l L v d hs;
  w_out : 1 <= outstanding L;
  w_homes : homes L ⊆ H;
  w_file : file_ok dev v (ip, k);
  w_nodup : NoDup (blocks v (ip, k));
  w_data : forall b, b ∈ blocks v (ip, k) -> datastart sb <= b < sb_size sb /\ marked dev sb v b = true /\ (dev, b) ∉ hs;
  w_meta : forall b, 0 <= b < datastart sb -> marked dev sb v b = true;
  w_free : forall b, b ∈ free v -> (dev, b) ∉ hs
}.

Lemma H_room L hs' c :
  log_ok L -> size L = i32 (sb_nlog sb) -> 1 <= outstanding L -> homes L ⊆ H ->
  Z.of_nat (length H) + Z.of_nat (length hs') + c + 1 <= Z.of_nat NBUF -> room 1 c L hs'.
Proof. intros Hok Hs Ho Hh Hc. pose proof (homes_bound L H Hok Hh) as Hb. split; [done|]. rewrite Hs. lia. Qed.

Lemma H_txn_room l L v hs' c :
  txn me dev sb l L v d hs' -> 1 <= outstanding L -> homes L ⊆ H ->
  Z.of_nat (length H) + Z.of_nat (length hs') + c + 1 <= Z.of_nat NBUF -> room 1 c L hs'.
Proof. intros T. apply H_room; [apply (tx_ok _ _ _ _ _ _ _ _ T)|apply (tx_size _ _ _ _ _ _ _ _ T)]. Qed.

(** Logging block [b]. *)
Lemma H_add l L v hs' b :
  txn me dev sb l L v d hs' -> homes L ⊆ H -> b ∈ H -> sb_inodestart sb <= b < 2 ^ 31 ->
  homes (log_add b L) ⊆ H /\ outstanding (log_add b L) = outstanding L /\ log_ok (log_add b L) /\
  size (log_add b L) = i32 (sb_nlog sb).
Proof.
  intros T Hh Hb Hr. pose proof (tx_ok _ _ _ _ _ _ _ _ T) as Hok. pose proof (homes_bound L H Hok Hh) as Hn.
  pose proof (tx_size _ _ _ _ _ _ _ _ T) as Hs. destruct (log_add_geom b L) as (_ & E1 & E2 & _).
  unfold NBUF in Hbuf. pose proof (datastart_pos sb Hsb) as Hds.
  split; [apply log_add_sub; try done; unfold LOGSIZE; lia|]. split; [done|]. split; [|by rewrite E1].
  apply log_add_ok; [done|unfold LOGSIZE; lia|rewrite Hs; lia|lia|].
  intros Hin. apply (not_in_log sb Hsb _ _ _ _ _ _ _ b T); [lia|done].
Qed.

(** The blocks [A] become blocks of the file. *)
Lemma grow_wfile s L v ip k l' L' v' ip' A F :
  wfile s L v ip k -> txn me dev sb l' L' v' d hs -> 1 <= outstanding L' -> homes L' ⊆ H -> file_ok dev v' (ip', S k) ->
  blocks v' (ip', S k) ≡ₚ blocks v (ip, k) ++ A -> free v = A ++ F -> free v' = F ->
  wfile (FState l' (<[i := ip']> (inodes s0)) sb) L' v' ip' (S k).
Proof.
  intros [_ _ _ _ Hnd Hdata Hmeta Hfr] T Ho Hh Hfo Hbl HF HF'. pose proof (datastart_pos sb Hsb) as Hds.
  assert (NoDup (A ++ F)) as Hn by (rewrite <- HF; apply list.NoDup_filter, NoDup_seqZ).
  apply list.NoDup_app in Hn as (HnA & HAF & _).
  assert (forall b, b ∈ A -> datastart sb <= b < sb_size sb /\ marked dev sb v b = false) as HA.
  { intros b Hb. assert (b ∈ free v) as Hin by (rewrite HF; apply elem_of_app; by left). apply free_elem in Hin as [Hr Hm].
    split; [|done]. destruct (decide (datastart sb <= b)); [lia|]. rewrite Hmeta in Hm by lia. done. }
  assert (forall b, 0 <= b < sb_size sb -> b ∉ F -> marked dev sb v' b = true) as Hmk.
  { intros b Hb Hni. destruct (marked dev sb v' b) eqn:E; [done|]. exfalso. apply Hni. rewrite <- HF'. by apply free_elem. }
  assert (forall b, 0 <= b < sb_size sb -> marked dev sb v b = true -> marked dev sb v' b = true) as Hold.
  { intros b Hb Hm. apply Hmk; [done|]. intros Hin. assert (b ∈ free v) as Hin' by (rewrite HF; apply elem_of_app; by right).
    apply free_elem in Hin' as [_ E]. congruence. }
  constructor; try done.
  - by exists l'.
  - rewrite Hbl. apply list.NoDup_app. split; [done|]. split; [|done]. intros b Hb Hb'.
    destruct (Hdata b Hb) as (_ & Hm & _). destruct (HA b Hb') as [_ Hm']. congruence.
  - intros b. rewrite Hbl, elem_of_app. intros [Hb|Hb].
    + destruct (Hdata b Hb) as (Hr & Hm & Hk). split; [done|]. split; [|done]. apply Hold; [lia|done].
    + destruct (HA b Hb) as [Hr _]. split; [done|]. split; [apply Hmk; [lia|by apply HAF]|].
      apply Hfr. rewrite HF. apply elem_of_app. by left.
  - intros b Hb. apply Hold; [lia|by apply Hmeta].
  - intros b Hb. apply Hfr. rewrite HF, <- HF'. apply elem_of_app. by right.
Qed.

(** [balloc] with the first free block. *)
Lemma balloc_run s l L v hs' c fb F (Q : Z -> fstate -> Prop) :
  s = FState l (inodes s) sb -> txn me dev sb l L v d hs' -> 1 <= outstanding L -> homes L ⊆ H -> 1 <= c ->
  Z.of_nat (length H) + Z.of_nat (length hs') + c + 1 <= Z.of_nat NBUF ->
  (forall b, 0 <= b < sb_size sb -> (dev, BBLOCK b sb) ∉ hs') ->
  (forall b, 0 <= b < datastart sb -> marked dev sb v b = true) ->
  free v = fb :: F -> (dev, fb) ∉ hs' -> fb ∈ H ->
  (forall l' L', txn me dev sb l' L' (allocated dev sb fb v) d hs' -> 1 <= outstanding L' -> homes L' ⊆ H ->
     keeps hs' l l' -> Q fb (set_flog l' s)) ->
  fwp (balloc me dev) s Q.
Proof.
  intros Es T Ho Hh Hc Hsp Hb' Hmeta HF Hfb HfbH HQ. destruct (free_first dev sb v fb F Hmeta HF) as (H1 & H2 & H3).
  pose proof (datastart_pos sb Hsb) as Hds. destruct (Hbm fb ltac:(lia)) as [_ Hbb].
  pose proof (BBLOCK_range sb Hsb fb ltac:(lia)) as Hbr. pose proof (so_size sb Hsb) as Hsz.
  pose proof (sb_small sb Hsb) as Hsm. pose proof (so_bmap sb Hsb) as Hbo.
  destruct (H_add l L v hs' _ T Hh Hbb ltac:(lia)) as (Hh1 & Ho1 & Hok1 & Hs1).
  pose proof (H_txn_room l L v hs' c T Ho Hh Hsp) as R1.
  assert (fsb s = sb) as Hfs by (by rewrite Es). assert (flog s = l) as Hfl by (by rewrite Es).
  eapply (balloc_spec me dev s L v d hs' 1 c); rewrite ?Hfs, ?Hfl; try done; try lia.
  - apply H_room; try done. by rewrite Ho1.
  - intros l' T' K'. eapply HQ; [exact T'| | |done].
    + destruct (log_add_geom fb (log_add (BBLOCK fb sb) L)) as (_ & _ & E & _). by rewrite E, Ho1.
    + apply log_add_sub; try done. pose proof (homes_bound _ H Hok1 Hh1). unfold NBUF in Hbuf. unfold LOGSIZE. lia.
Qed.

(** What becomes of the file and the other blocks when block [k] is added. *)
Definition is_bitmap (b : Z) : Prop := sb_bmapstart sb <= b < datastart sb.

Record grown (v : Z * Z -> list Z) (ip : inode) (k : nat) (v' : Z * Z -> list Z) (ip' : inode) : Prop := {
  gr_free : exists A, free v = A ++ free v' /\ Z.of_nat (length A) = cost k /\
    blocks v' (ip', S k) ≡ₚ blocks v (ip, k) ++ A /\ baddr v' ip' k ∈ A /\
    ((NDIRECT < S k)%nat -> (NDIRECT < k)%nat /\ iaddr ip' = iaddr ip \/ iaddr ip' ∈ A);
  gr_addr : forall j, (j < k)%nat -> baddr v' ip' j = baddr v ip j;
  gr_data : forall j, (j < k)%nat -> v' (dev, baddr v ip j) = v (dev, baddr v ip j);
  gr_new : v' (dev, baddr v' ip' k) = replicate BSIZE 0;
  gr_inode : exists l, ip' = with_addrs l ip;
  gr_other : forall b, b ∉ blocks v' (ip', S k) -> ~ is_bitmap b -> v' (dev, b) = v (dev, b);
  gr_dev : forall key, fst key <> dev -> v' key = v key
}.

(** Before block [k] is added: the first free blocks may be logged. *)
Definition can_grow (v : Z * Z -> list Z) (k : nat) : Prop :=
  exists A F, free v = A ++ F /\ Z.of_nat (length A) = cost k /\ A ⊆ H.

Lemma inode_set_addr ip n a : inode_ok ip -> 0 <= a < 2 ^ 32 -> inode_ok (set_addr n a ip).
Proof.
  intros [? ? ? ? ? Hl Ha] Hr. constructor; try done; cbn [set_addr i_addrs].
  - by rewrite length_insert.
  - by apply Forall_insert.
Qed.

Lemma bmap_direct s L v ip k (Q : Z -> fstate -> Prop) :
  wfile s L v ip k -> can_grow v k -> (k < NDIRECT)%nat ->
  (forall s' L' v' ip', wfile s' L' v' ip' (S k) -> grown v ip k v' ip' -> Q (baddr v' ip' k) s') ->
  fwp (bmap me i (Z.of_nat k)) s Q.
Proof.
  intros W (A & F & HF & HA & HAH) Hk HQ. pose proof W as [(l & Es & T) Ho Hh [Hi Hdev _ Hdir Hind _] _ Hdata Hmeta Hfr].
  cbn [fst snd] in *. unfold cost in HA. destruct (Nat.eqb_spec k NDIRECT); [lia|].
  destruct A as [|fb [|]]; try (cbn in HA; lia). cbn [app] in HF.
  destruct (free_first dev sb v fb F Hmeta HF) as (Hfb & Hfm & _). pose proof (datastart_pos sb Hsb) as Hds.
  pose proof (so_size sb Hsb) as Hsz. pose proof (allocated_free dev sb Hsb v fb F (txn_blk_ok _ _ _ _ _ _ _ _ T) Hmeta HF) as HF'.
  set (v' := allocated dev sb fb v) in *. set (ip' := set_addr k fb ip).
  assert (k < length (i_addrs ip))%nat as Hl by (rewrite (io_len _ Hi); lia).
  assert (baddr v' ip' k = fb) as Hbk.
  { rewrite baddr_direct by done. cbn [i_addrs set_addr ip']. by rewrite nth_lookup, list_lookup_insert_eq. }
  assert (forall j, (j < k)%nat -> baddr v' ip' j = baddr v ip j) as Hbj.
  { intros j Hj. rewrite !baddr_direct by lia. cbn [i_addrs set_addr ip']. by rewrite !nth_lookup, list_lookup_insert_ne by lia. }
  assert (blocks v' (ip', S k) = blocks v (ip, k) ++ [fb]) as Hbl.
  { rewrite (blocks_snoc v ip k v' ip' fb []); [|done|done|by destruct (Nat.ltb_spec NDIRECT (S k)); [lia|]].
    unfold blocks. cbn [fst snd]. destruct (Nat.ltb_spec NDIRECT k); [lia|]. by rewrite !app_nil_r. }
  unfold bmap. fstep. eapply f_ideref; [rewrite Es; by apply list_lookup_insert_eq|].
  rewrite (proj2 (Z.ltb_lt _ _)) by lia. cbv zeta. rewrite Nat2Z.id, (Hdir k) by lia. cbn [Z.eqb]. rewrite Hdev. fstep.
  eapply (balloc_run s l L v hs 3 fb F); try done; try lia.
  { by rewrite Es. } { by intros b Hb; apply Hbm. } { apply Hfr. rewrite HF. by left. } { apply HAH. by left. }
  intros l' L' T' Ho' Hh' _. fstep. eapply f_iassign; [rewrite Es; by apply list_lookup_insert_eq|]. fstep.
  rewrite Es. cbn [inodes set_flog set_inodes]. rewrite list_insert_insert_eq. fold ip'. rewrite <- Hbk at 1.
  apply (HQ (FState l' (<[i := ip']> (inodes s0)) sb) L' v' ip').
  - eapply (grow_wfile s L v ip k l' L' v' ip' [fb] F); try done; [|by rewrite Hbl]. constructor; cbn [fst snd ip' set_addr i_addrs]; try done.
    + apply inode_set_addr; [done|lia].
    + unfold NDIRECT, NINDIRECT in *. lia.
    + intros j Hj. rewrite nth_lookup, list_lookup_insert_ne by lia. rewrite <- nth_lookup. apply Hdir. lia.
    + intros _. unfold iaddr, ip'. cbn [set_addr i_addrs]. rewrite nth_lookup, list_lookup_insert_ne by lia.
      rewrite <- nth_lookup. apply Hind. lia.
    + lia.
  - constructor.
    + exists [fb]. rewrite HF, HF', Hbl, Hbk. split; [done|]. split; [unfold cost; by destruct (Nat.eqb_spec k NDIRECT)|].
      split; [done|]. split; [by left|lia].
    + done.
    + intros j Hj. destruct (Hdata _ (blocks_data v (ip, k) j Hj)) as (Hr & Hm & _). cbn [fst] in *.
      apply allocated_other; [done|intros E; congruence|unfold datastart in *; lia|lia].
    + rewrite Hbk. apply allocated_new.
    + by eexists.
    + intros b Hb Hnb. apply allocated_other; [done| |done|lia]. intros ->. apply Hb. rewrite Hbl. apply elem_of_app. right. by left.
    + intros key Hkey. by apply allocated_dev.
Qed.

(** *** A slot of the indirect block *)

(** What [bmap] does once the indirect block [ind] is there. *)
Lemma bmap_slot s l L v ind fb F j (Q : Z -> fstate -> Prop) :
  s = FState l (inodes s) sb -> txn me dev sb l L v d hs -> 1 <= outstanding L -> homes L ⊆ H ->
  datastart sb <= ind < sb_size sb -> (dev, ind) ∉ hs -> ind ∈ H -> word j (v (dev, ind)) = 0 ->
  (forall b, 0 <= b < datastart sb -> marked dev sb v b = true) ->
  free v = fb :: F -> (dev, fb) ∉ hs -> fb ∈ H -> fb <> ind ->
  (forall l' L', txn me dev sb l' L' (<[(dev, ind) := put_word (4 * j) fb (v (dev, ind))]> (allocated dev sb fb v)) d hs ->
     1 <= outstanding L' -> homes L' ⊆ H -> Q fb (set_flog l' s)) ->
  fwp (bp <- bread_ me dev ind ;; d <- bdata bp ;;
       let addr := word j d in
       addr <- (if addr =? 0 then
                  addr <- balloc me dev ;; bput bp (put_word (4 * j) addr) ;;; log_write_ bp ;;; ret addr
                else ret addr) ;;
       brelse_ me bp ;;; ret addr) s Q.
Proof.
  intros Es T Ho Hh Hind Hhs HH Hw Hmeta HF Hfb HfH Hne HQ. pose proof (datastart_pos sb Hsb) as Hds. pose proof (so_size sb Hsb).
  destruct (free_first dev sb v fb F Hmeta HF) as (Hfr & _). cbv zeta. fstep. rewrite Es.
  eapply (f_bread' _ _ (FState l (inodes s) sb) _ _ _ _ _ _ 1 3); [exact T|apply (H_txn_room l L v); (done || lia)|lia|lia|done| |].
  { eapply not_in_log; [exact Hsb|exact T|lia]. }
  intros bp l1 T1 Hb1 _. fstep. eapply (f_bdata _ _ (set_flog l1 (FState l (inodes s) sb)) _ _ _ _ T1); [exact Hb1|]. rewrite Hw. cbn [Z.eqb]. fstep. fstep.
  eapply (balloc_run _ l1 L v ((dev, ind) :: hs) 2 fb F); try done; try lia.
  { cbn [length]. lia. }
  { intros b Hb. pose proof (BBLOCK_range sb Hsb b Hb). apply not_elem_of_cons. split; [intros [=]; lia|by apply Hbm]. }
  { apply not_elem_of_cons. split; [congruence|done]. }
  intros l2 L2 T2 Ho2 Hh2 K2. fstep. eapply (f_bput _ _ (set_flog l2 (FState l (inodes s) sb)) _ _ _ _ T2 bp (dev, ind)); [by left|by apply K2; [left|]| |].
  { eapply put_word_ok, txn_blk_ok. exact T2. }
  rewrite (allocated_other dev sb Hsb v fb ind) by (unfold datastart in *; lia). intros l3 T3 K3. fstep.
  pose proof (H_room L2 ((dev, ind) :: hs) 2 (tx_ok _ _ _ _ _ _ _ _ T2) (tx_size _ _ _ _ _ _ _ _ T2) Ho2 Hh2) as (_ & R2 & R3).
  { cbn [length]. lia. }
  cbn [length] in R3. pose proof (homes_bound L2 H (tx_ok _ _ _ _ _ _ _ _ T2) Hh2) as Hn.
  destruct (H_add _ _ _ _ ind T3 Hh2 HH ltac:(lia)) as (Hh4 & Ho4 & _ & _). 
  eapply (f_log_write _ _ (set_flog l3 (FState l (inodes s) sb)) _ _ _ _ T3 bp ind); [by left|by apply K3, K2; [left|]|lia|lia|unfold NBUF, LOGSIZE in *; lia|lia|lia|].
  intros l4 T4 K4. fstep. fstep. eapply (f_brelse _ _ (set_flog l4 (FState l (inodes s) sb))); [exact T4|by apply K4, K3, K2; [left|]| |].
  { left. apply log_add_home; [apply T2|unfold NBUF, LOGSIZE in *; lia|by right]. }
  intros l5 T5 _. fstep. rewrite Es in HQ. apply HQ with (log_add ind L2); [exact T5|lia|done].
Qed.

(** The file once the slot is filled; [v1] and [ip1] are those after the
    indirect block was found or allocated, which took the blocks [A]. *)
Record slotted (v : Z * Z -> list Z) (ip : inode) (k : nat) (v1 : Z * Z -> list Z) (ip1 : inode) (A : list Z) (fb : Z) (F : list Z) : Prop := {
  sl_k : (NDIRECT <= k < NDIRECT + NINDIRECT)%nat;
  sl_inode : inode_ok ip1 /\ exists l, ip1 = with_addrs l ip;
  sl_same : forall j, (j < k)%nat -> baddr v1 ip1 j = baddr v ip j /\ baddr v ip j <> iaddr ip1;
  sl_zero : forall j, (k - NDIRECT <= j < NINDIRECT)%nat -> word j (v1 (dev, iaddr ip1)) = 0;
  sl_ind : datastart sb <= iaddr ip1 < sb_size sb;
  sl_blocks : blocks v (ip, k) ++ A = (baddr v ip <$> seq 0 k) ++ [iaddr ip1];
  sl_free : free v = A ++ fb :: F /\ Z.of_nat (length A) + 1 = cost k;
  sl_iaddr : (NDIRECT < k)%nat /\ iaddr ip1 = iaddr ip \/ iaddr ip1 ∈ A;
  sl_free1 : free v1 = fb :: F;
  sl_fb : fb <> iaddr ip1;
  sl_meta : forall b, 0 <= b < datastart sb -> marked dev sb v1 b = true;
  sl_other : forall b, b <> iaddr ip1 -> ~ is_bitmap b -> v1 (dev, b) = v (dev, b);
  sl_dev : forall key, fst key <> dev -> v1 key = v key;
  sl_ok : forall key, blk_ok (v1 key)
}.

Lemma slot_grown s L v ip k v1 ip1 A fb F l' L' :
  wfile s L v ip k -> slotted v ip k v1 ip1 A fb F ->
  let v' := <[(dev, iaddr ip1) := put_word (4 * (k - NDIRECT)) fb (v1 (dev, iaddr ip1))]> (allocated dev sb fb v1) in
  txn me dev sb l' L' v' d hs -> 1 <= outstanding L' -> homes L' ⊆ H ->
  wfile (FState l' (<[i := ip1]> (inodes s0)) sb) L' v' ip1 (S k) /\ grown v ip k v' ip1 /\ baddr v' ip1 k = fb.
Proof.
  intros W [Hk [Hi1 [al Eip]] Hsame Hz Hind Hbl0 [HF HA] Hia HF1 Hne Hmeta Hoth Hdv Hbk] v' T Ho Hh.
  pose proof W as [_ _ _ [_ Hdev _ _ _ _] _ Hdata _ _]. cbn [fst snd] in *.
  assert (i_dev ip1 = dev) as Hdev1 by (by rewrite Eip). set (ind := iaddr ip1) in *.
  destruct (free_first dev sb v1 fb F Hmeta HF1) as (Hfb & _). pose proof (datastart_pos sb Hsb) as Hds. pose proof (so_size sb Hsb) as Hsz.
  assert (forall b, b <> ind -> b <> fb -> ~ is_bitmap b -> v' (dev, b) = v (dev, b)) as Hv'.
  { intros b H1 H2 H3. unfold v'. rewrite fn_lookup_insert_ne by congruence. rewrite allocated_other by (done || lia). by apply Hoth. }
  assert (v' (dev, ind) = put_word (4 * (k - NDIRECT)) fb (v1 (dev, ind))) as Hvi by (unfold v'; by rewrite fn_lookup_insert).
  destruct (slot_file_ok k v' ip1 fb (v1 (dev, ind)) Hi1 Hdev1 ltac:(lia) ltac:(lia) ltac:(lia) (proj1 (Hbk _)) Hz Hvi) as [Hfo Hbk'].
  assert (forall j, (j < k)%nat -> baddr v' ip1 j = baddr v ip j) as Hbj.
  { intros j Hj. destruct (Hsame j Hj) as [<- _]. destruct (decide (j < NDIRECT)%nat); [by rewrite !baddr_direct|].
    rewrite !(baddr_indirect (dev:=dev)) by (done || lia). fold ind. rewrite Hvi, word_put_other by lia. done. }
  assert (free v' = F) as HF'.
  { unfold v'. rewrite free_insert by (done || lia). by apply allocated_free. }
  assert (blocks v' (ip1, S k) ≡ₚ blocks v (ip, k) ++ A ++ [fb]) as Hbl.
  { rewrite (blocks_snoc v ip k v' ip1 fb [ind]); [|done|done|by destruct (Nat.ltb_spec NDIRECT (S k)); [|lia]].
    rewrite (assoc_L (++) (blocks v (ip, k))), Hbl0. solve_Permutation. }
  assert (forall j, (j < k)%nat -> baddr v ip j <> fb) as Hjf.
  { intros j Hj E. destruct (Hdata _ (blocks_data v (ip, k) j Hj)) as (_ & Hm & _). cbn [fst] in Hm.
    assert (fb ∈ free v) as Hin by (rewrite HF; apply elem_of_app; right; by left). apply free_elem in Hin. rewrite E in Hm. destruct Hin. congruence. }
  split; [|split; [|done]].
  - eapply (grow_wfile s L v ip k l' L' v' ip1 (A ++ [fb]) F); try done. by rewrite HF, <- (assoc_L (++)).
  - constructor; [|done| | |by exists al| |].
    + exists (A ++ [fb]). rewrite HF, HF', length_app, <- (assoc_L (++)), Hbk'. cbn [length]. split; [done|]. split; [lia|].
      split; [done|]. set_solver.
    + intros j Hj. destruct (Hdata _ (blocks_data v (ip, k) j Hj)) as (Hr & _). cbn [fst] in Hr. apply Hv'; [by apply Hsame|by apply Hjf|unfold is_bitmap; lia].
    + rewrite Hbk'. unfold v'. rewrite fn_lookup_insert_ne by congruence. apply allocated_new.
    + intros b Hb Hnb. apply Hv'; [| |done]; intros ->; apply Hb; rewrite Hbl; rewrite (assoc_L (++)), Hbl0; set_solver.
    + intros key Hkey. unfold v'. rewrite fn_lookup_insert_ne by (intros <-; done). rewrite allocated_dev by done. by apply Hdv.
Qed.

(** The indirect block is there. *)
Lemma slotted_old s L v ip k fb F :
  wfile s L v ip k -> (NDIRECT < k < NDIRECT + NINDIRECT)%nat -> free v = fb :: F -> slotted v ip k v ip [] fb F.
Proof.
  intros [(l & _ & T) _ _ Hfo Hnd Hdata Hmeta _] Hk HF. pose proof Hfo as [Hi _ _ _ _ Hz]. cbn [fst snd] in *.
  assert (iaddr ip ∈ blocks v (ip, k)) as Hind by (apply (blocks_ind v (ip, k)); cbn; lia). destruct (Hdata _ Hind) as (Hr & Hm & _).
  assert (blocks v (ip, k) = (baddr v ip <$> seq 0 k) ++ [iaddr ip]) as Hbl.
  { unfold blocks. cbn [fst snd]. by destruct (Nat.ltb_spec NDIRECT k); [|lia]. }
  constructor; try done.
  - lia.
  - split; [done|]. exists (i_addrs ip). by destruct ip.
  - intros j Hj. split; [done|]. intros E. rewrite Hbl in Hnd. apply list.NoDup_app in Hnd as (_ & Hnd & _).
    apply (Hnd (iaddr ip)); [|by left]. rewrite <- E. apply list_elem_of_fmap. exists j. split; [done|]. apply elem_of_seq. lia.
  - apply Hz. lia.
  - by rewrite app_nil_r.
  - rewrite HF. split; [done|]. unfold cost. by destruct (Nat.eqb_spec k NDIRECT); [lia|].
  - left. split; [lia|done].
  - intros ->. assert (iaddr ip ∈ free v) as Hin by (rewrite HF; by left). apply free_elem in Hin as [_ Hin]. congruence.
  - eapply txn_blk_ok, T.
Qed.

(** The indirect block is allocated first. *)
Lemma slotted_new s L v ip ind fb F :
  wfile s L v ip NDIRECT -> free v = ind :: fb :: F ->
  slotted v ip NDIRECT (allocated dev sb ind v) (set_addr NDIRECT ind ip) [ind] fb F.
Proof.
  intros [(l & _ & T) _ _ [Hi _ _ _ _ _] Hnd Hdata Hmeta _] HF. cbn [fst snd] in *. pose proof (txn_blk_ok _ _ _ _ _ _ _ _ T) as Hv.
  destruct (free_first dev sb v ind _ Hmeta HF) as (Hr & Hm & _). pose proof (datastart_pos sb Hsb) as Hds. pose proof (so_size sb Hsb) as Hsz.
  assert (iaddr (set_addr NDIRECT ind ip) = ind) as Hia.
  { unfold iaddr. cbn [set_addr i_addrs]. rewrite nth_lookup, list_lookup_insert_eq; [done|]. rewrite (io_len _ Hi). lia. }
  assert (NoDup (ind :: fb :: F)) as Hn by (rewrite <- HF; apply list.NoDup_filter, NoDup_seqZ).
  constructor; rewrite ?Hia; try done.
  - unfold NDIRECT, NINDIRECT, BSIZE. lia.
  - split; [apply inode_set_addr; [done|lia]|by eexists].
  - intros j Hj. split.
    + rewrite !baddr_direct by done. cbn [set_addr i_addrs]. by rewrite !nth_lookup, list_lookup_insert_ne by lia.
    + intros E. destruct (Hdata _ (blocks_data v (ip, NDIRECT) j Hj)) as (_ & Hm' & _). cbn [fst] in Hm'. congruence.
  - intros j _. rewrite allocated_new. apply word_replicate.
  - right. by left.
  - by rewrite (allocated_free dev sb Hsb v ind (fb :: F)).
  - apply list.NoDup_cons in Hn as [Hn _]. set_solver.
  - intros b Hb. rewrite allocated_marked by (done || lia). rewrite Hmeta by done. by destruct (ind =? b).
  - intros b H1 H2. by apply allocated_other; [done|done|done|lia].
  - intros key Hkey. by apply allocated_dev.
  - intros key. by apply allocated_ok.
Qed.

(** [bmap] of the block after the last one allocates it. *)
Lemma bmap_new s L v ip k (Q : Z -> fstate -> Prop) :
  wfile s L v ip k -> can_grow v k -> ((NDIRECT < k)%nat -> iaddr ip ∈ H) -> (k < NDIRECT + NINDIRECT)%nat ->
  (forall s' L' v' ip', wfile s' L' v' ip' (S k) -> grown v ip k v' ip' -> Q (baddr v' ip' k) s') ->
  fwp (bmap me i (Z.of_nat k)) s Q.
Proof.
  intros W G HiH Hk HQ. destruct (decide (k < NDIRECT)%nat) as [|Hge]; [by eapply bmap_direct|].
  destruct G as (A & F & HF & HA & HAH). pose proof W as [(l & Es & T) Ho Hh [Hi Hdev _ _ Hind _] _ Hdata Hmeta Hfr].
  cbn [fst snd] in *. unfold bmap. fstep. eapply f_ideref; [rewrite Es; by apply list_lookup_insert_eq|].
  rewrite (proj2 (Z.ltb_ge _ _)) by lia. cbv zeta. rewrite (proj2 (Z.ltb_lt _ _)) by lia. fold (iaddr ip). rewrite Hdev.
  replace (Z.to_nat (Z.of_nat k - Z.of_nat NDIRECT)) with (k - NDIRECT)%nat by lia. fstep.
  assert (forall fb, fb ∈ A -> fb ∈ free v) as HAf by (intros fb Hb; rewrite HF; apply elem_of_app; by left).
  unfold cost in HA. destruct (Nat.eqb_spec k NDIRECT) as [->|Hne].
  - destruct A as [|ind [|fb [|]]]; try (cbn in HA; lia). cbn [app] in HF. rewrite Hind by done. cbn [Z.eqb].
    pose proof (slotted_new s L v ip ind fb F W HF) as Sl. fstep.
    eapply (balloc_run s l L v hs 3 ind (fb :: F)); try done; try lia.
    { by rewrite Es. } { by intros b Hb; apply Hbm. } { apply Hfr, HAf. by left. } { apply HAH. by left. }
    intros l' L' T' Ho' Hh' _. fstep. eapply f_iassign; [rewrite Es; by apply list_lookup_insert_eq|]. fstep.
    rewrite Es. cbn [inodes set_flog set_inodes]. rewrite list_insert_insert_eq.
    assert (iaddr (set_addr NDIRECT ind ip) = ind) as Hia by (pose proof (sl_blocks _ _ _ _ _ _ _ _ Sl) as E; by apply app_inj_2 in E as [_ [= <-]]).
    pose proof (sl_ind _ _ _ _ _ _ _ _ Sl) as Hr. pose proof (sl_fb _ _ _ _ _ _ _ _ Sl) as Hfi. rewrite Hia in Hr, Hfi.
    eapply (bmap_slot _ l' L' _ ind fb F 0 _ eq_refl T'); try done.
    { apply Hfr, HAf. by left. } { apply HAH. by left. } { rewrite allocated_new. apply word_replicate. } { apply Sl. } { apply Sl. }
    { apply Hfr, HAf. right. by left. } { apply HAH. right. by left. }
    intros l2 L2 T2 Ho2 Hh2. pose proof (slot_grown s L v ip NDIRECT _ _ _ fb F l2 L2 W Sl) as G. cbv zeta in G.
    rewrite Hia in G. destruct (G T2 Ho2 Hh2) as (W2 & G2 & <-). by eapply HQ.
  - destruct A as [|fb [|]]; try (cbn in HA; lia). cbn [app] in HF. pose proof (slotted_old s L v ip k fb F W ltac:(lia) HF) as Sl.
    pose proof (sl_ind _ _ _ _ _ _ _ _ Sl) as Hr. pose proof (datastart_pos sb Hsb). rewrite (proj2 (Z.eqb_neq _ 0)) by lia. fstep.
    eapply (bmap_slot s l L v (iaddr ip) fb F); try done.
    { by rewrite Es. } { apply Hdata, (blocks_ind v (ip, k)). cbn. lia. } { apply HiH. lia. } { apply Sl. lia. }
    { apply Hfr, HAf. by left. } { apply HAH. by left. } { apply Sl. }
    intros l2 L2 T2 Ho2 Hh2. destruct (slot_grown s L v ip k _ _ _ fb F l2 L2 W Sl T2 Ho2 Hh2) as (W2 & G2 & <-).
    rewrite Es. by eapply HQ.
Qed.

(** *** Bytes written *)

(** From [v], [ip], [k] to [v'], [ip'], [k'], the bytes [bs] were stored at
    [off]; new blocks are zero otherwise. *)
Record wrote (v : Z * Z -> list Z) (ip : inode) (k : nat) (off : Z) (bs : list Z)
    (v' : Z * Z -> list Z) (ip' : inode) (k' : nat) : Prop := {
  wr_inode : exists al, ip' = with_addrs al ip;
  wr_k : (k <= k')%nat;
  wr_in : off + Z.of_nat (length bs) <= Z.of_nat k' * BSZ;
  wr_byte : forall o, 0 <= o < Z.of_nat k' * BSZ -> file_byte v' ip' o =
    if bool_decide (off <= o < off + Z.of_nat (length bs)) then nth (Z.to_nat (o - off)) bs 0
    else if o <? Z.of_nat k * BSZ then file_byte v ip o else 0;
  wr_blocks : blocks v (ip, k) ⊆ blocks v' (ip', k');
  wr_other : forall b, b ∉ blocks v' (ip', k') -> ~ is_bitmap b -> v' (dev, b) = v (dev, b);
  wr_dev : forall key, fst key <> dev -> v' key = v key
}.

Lemma wrote_refl v ip k off : off <= Z.of_nat k * BSZ -> wrote v ip k off [] v ip k.
Proof.
  intros Ho. constructor; try done.
  - exists (i_addrs ip). by destruct ip.
  - cbn [length]. lia.
  - intros o Ho'. cbn [length]. rewrite bool_decide_eq_false_2 by lia. by destruct (Z.ltb_spec o (Z.of_nat k * BSZ)); [|lia].
Qed.

Lemma wrote_trans v ip k off a v1 ip1 k1 b v2 ip2 k2 :
  wrote v ip k off a v1 ip1 k1 -> wrote v1 ip1 k1 (off + Z.of_nat (length a)) b v2 ip2 k2 ->
  wrote v ip k off (a ++ b) v2 ip2 k2.
Proof.
  intros [[al1 E1] Hk1 Hi1 Hb1 Hbl1 Hot1 Hd1] [[al2 E2] Hk2 Hi2 Hb2 Hbl2 Hot2 Hd2]. constructor.
  - exists al2. by rewrite E2, E1.
  - lia.
  - rewrite length_app. lia.
  - intros o Ho. rewrite Hb2, length_app by done. destruct (decide (off + Z.of_nat (length a) <= o < off + Z.of_nat (length a) + Z.of_nat (length b))).
    + rewrite !bool_decide_eq_true_2 by lia. rewrite app_nth2 by lia. f_equal. lia.
    + rewrite bool_decide_eq_false_2 by lia. destruct (decide (off <= o < off + Z.of_nat (length a))).
      * rewrite (proj2 (Z.ltb_lt _ _)), Hb1, !bool_decide_eq_true_2 by lia. by rewrite app_nth1 by lia.
      * rewrite bool_decide_eq_false_2 by lia. destruct (Z.ltb_spec o (Z.of_nat k1 * BSZ)).
        -- rewrite Hb1, bool_decide_eq_false_2 by lia. done.
        -- destruct (Z.ltb_spec o (Z.of_nat k * BSZ)); [|done].
           pose proof (Z.mul_le_mono_nonneg_r (Z.of_nat k) (Z.of_nat k1) BSZ ltac:(done) ltac:(lia)). lia.
  - by transitivity (blocks v1 (ip1, k1)).
  - intros x Hx Hnb. rewrite Hot2, Hot1; auto.
  - intros key Hkey. rewrite Hd2, Hd1; auto.
Qed.

(** Reading a byte through addresses and blocks that are the same. *)
Lemma byte_same v ip v' ip' o :
  0 <= o -> i_dev ip = dev -> i_dev ip' = dev ->
  let j := Z.to_nat (o / BSZ) in
  baddr v' ip' j = baddr v ip j -> v' (dev, baddr v ip j) = v (dev, baddr v ip j) -> file_byte v' ip' o = file_byte v ip o.
Proof. intros Ho H1 H2 j E1 E2. rewrite !(file_byte_baddr (dev:=dev)) by done. fold j. by rewrite E1, E2. Qed.

Lemma grown_wrote v ip k off v' ip' :
  i_dev ip = dev -> grown v ip k v' ip' -> off <= Z.of_nat k * BSZ -> wrote v ip k off [] v' ip' (S k).
Proof.
  intros Hdev [(A & _ & _ & Hbl & _) Ha Hd Hn [al E] Hot Hdv] Ho. constructor; try done.
  - by exists al.
  - lia.
  - cbn [length]. unfold BSZ in *. lia.
  - intros o Ho'. cbn [length]. rewrite bool_decide_eq_false_2 by lia.
    destruct (Z.ltb_spec o (Z.of_nat k * BSZ)) as [Hlt|Hge].
    + assert (Z.to_nat (o / BSZ) < k)%nat by (apply block_of; lia). apply byte_same; try done; [lia|by rewrite E|by apply Ha|by apply Hd].
    + rewrite (file_byte_baddr (dev:=dev)) by (first [lia|by rewrite E]).
      destruct (in_block o k ltac:(lia)) as (_ & -> & _). rewrite Hn. apply nth_replicate_zero.
  - intros b Hb. rewrite Hbl. apply elem_of_app. by left.
Qed.

(** *** What a write up to [e] still needs *)

Record ready (v : Z * Z -> list Z) (ip : inode) (k : nat) (off e : Z) : Prop := {
  rd_off : 0 <= off <= Z.of_nat k * BSZ;
  rd_max : (nblk e <= NDIRECT + NINDIRECT)%nat;
  rd_data : forall j, (Z.to_nat (off / BSZ) <= j < k)%nat -> (j < nblk e)%nat -> baddr v ip j ∈ H;
  rd_ind : (NDIRECT < k)%nat -> iaddr ip ∈ H;
  rd_free : exists A F, free v = A ++ F /\ A ⊆ H /\ owned (nblk e) - owned k <= Z.of_nat (length A)
}.

Lemma ready_grow v ip k off e : ready v ip k off e -> (k < nblk e)%nat -> can_grow v k.
Proof.
  intros [_ _ _ _ (A & F & HF & HA & Hl)] Hk. pose proof (owned_mono (S k) (nblk e) Hk) as Ho. rewrite owned_S in Ho.
  exists (take (Z.to_nat (cost k)) A), (drop (Z.to_nat (cost k)) A ++ F). rewrite (assoc_L (++)), take_drop. split; [done|].
  assert (0 <= cost k) by (unfold cost; by destruct (k =? NDIRECT)%nat).
  split; [rewrite length_take; lia|]. intros x Hx. apply HA. rewrite <- (take_drop (Z.to_nat (cost k)) A). apply elem_of_app. by left.
Qed.

Lemma ready_grown v ip k off e v' ip' :
  ready v ip k off e -> (k < nblk e)%nat -> grown v ip k v' ip' -> ready v' ip' (S k) off e.
Proof.
  intros R Hk [(B & HF' & HB & _ & Hb & Hia) Ha _ _ _ _ _]. pose proof R as [Ho Hm Hd Hi (A & F & HF & HA & Hl)].
  pose proof (owned_mono (S k) (nblk e) Hk) as Hown. rewrite owned_S in Hown.
  assert (exists C, A = B ++ C /\ free v' = C ++ F) as (C & -> & HFv).
  { rewrite HF in HF'. apply app_eq_inv in HF' as [(C & -> & ->)|(C & -> & ->)]; [by exists C|].
    rewrite length_app in HB. destruct C as [|? C]; [exists []; by rewrite ?app_nil_r|cbn in HB; lia]. }
  assert (B ⊆ H) as HBH by (intros x Hx; apply HA, elem_of_app; by left). constructor; try done.
  - unfold BSZ in *. lia.
  - intros j Hj Hje. destruct (decide (j = k)) as [->|]; [by apply HBH|]. rewrite Ha by lia. apply Hd; lia.
  - intros Hn. destruct (Hia Hn) as [[Hn' ->]|Hin]; [by apply Hi|by apply HBH].
  - exists C, F. split; [done|]. split; [intros x Hx; apply HA, elem_of_app; by right|]. rewrite length_app in Hl. rewrite owned_S. lia.
Qed.

Lemma wfile_flog s L v ip k l' : wfile s L v ip k -> txn me dev sb l' L v d hs -> wfile (set_flog l' s) L v ip k.
Proof. intros [(l & -> & _) ? ? ? ? ? ? ?] T. constructor; try done. by exists l'. Qed.

(** [bmap] of a block of the file. *)
Lemma bmap_old s L v ip k bn (Q : Z -> fstate -> Prop) :
  wfile s L v ip k -> (bn < k)%nat -> (forall s', wfile s' L v ip k -> Q (baddr v ip bn) s') -> fwp (bmap me i (Z.of_nat bn)) s Q.
Proof.
  intros W Hbn HQ. pose proof W as [(l & Es & T) Ho Hh [_ Hdev Hmax _ _ _] _ Hdata _ _]. cbn [fst snd] in *.
  eapply (bmap_mapped me dev s L v d hs 1 3); try done.
  - by rewrite Es.
  - eapply H_txn_room; [exact T|done|done|lia].
  - rewrite Es. by apply list_lookup_insert_eq.
  - split; [unfold MAXFILE; lia|]. rewrite Es. split.
    + destruct (Hdata _ (blocks_data v (ip, k) bn Hbn)) as (Hr & _ & Hk). split; [apply Hr|done].
    + intros Hge. destruct (Hdata _ (blocks_ind v (ip, k) ltac:(cbn; lia))) as (Hr & _ & Hk). split; [apply Hr|done].
  - exists l. rewrite Es. split; [done|]. split; [done|apply keeps_refl].
  - intros s' (l' & -> & T' & _). apply HQ. eapply wfile_flog; [done|]. by rewrite Es in T'.
Qed.

Lemma bmap_run s L v ip k off e (Q : Z -> fstate -> Prop) :
  wfile s L v ip k -> ready v ip k off e -> off < e ->
  let bn := Z.to_nat (off / BSZ) in
  (forall s' L' v' ip', let k' := Nat.max k (S bn) in wfile s' L' v' ip' k' -> ready v' ip' k' off e ->
     wrote v ip k off [] v' ip' k' -> Q (baddr v' ip' bn) s') ->
  fwp (bmap me i (off / BSZ)) s Q.
Proof.
  intros W R He bn HQ. pose proof (rd_off _ _ _ _ _ R) as Ho. pose proof (Z.div_pos off BSZ ltac:(lia) ltac:(done)) as Hp.
  replace (off / BSZ) with (Z.of_nat bn) by lia. destruct (decide (bn < k)%nat) as [Hlt|Hge].
  - replace (Nat.max k (S bn)) with k in HQ by lia. eapply bmap_old; [done|done|]. intros s' W'. apply (HQ s' L v ip); try done.
    apply wrote_refl. lia.
  - assert (bn = k) as E.
    { assert (off / BSZ <= Z.of_nat k) by (apply Z.div_le_upper_bound; [done|lia]). lia. }
    rewrite E in *. replace (Nat.max k (S k)) with (S k) in HQ by lia.
    assert (k < nblk e)%nat as Hk by (rewrite <- E; apply nblk_lt; lia).
    eapply (bmap_new s L v ip k); [done|by eapply ready_grow|apply R|pose proof (rd_max _ _ _ _ _ R); lia|].
    intros s' L' v' ip' W' G. apply (HQ s' L' v' ip'); [done|by eapply ready_grown|]. apply grown_wrote; [apply W|done|lia].
Qed.

(** *** Storing into a block of the file *)

Lemma baddr_inj v ip k j j' : NoDup (blocks v (ip, k)) -> (j < k)%nat -> (j' < k)%nat -> baddr v ip j = baddr v ip j' -> j = j'.
Proof.
  intros Hnd Hj Hj' E. unfold blocks in Hnd. cbn [fst snd] in Hnd. apply list.NoDup_app in Hnd as (Hnd & _).
  eapply (NoDup_lookup _ j j' (baddr v ip j) Hnd); rewrite list_lookup_fmap, lookup_seq_lt by done; cbn; [done|by rewrite E].
Qed.

Section Store.
Context (s : fstate) (L : log) (v : Z * Z -> list Z) (ip : inode) (k : nat) (W : wfile s L v ip k).
Context (bn : nat) (Hbn : (bn < k)%nat) (x : list Z).
Let b : Z := baddr v ip bn.
Let v' : Z * Z -> list Z := <[(dev, b) := x]> v.

Lemma store_ind : (NDIRECT < k)%nat -> v' (dev, iaddr ip) = v (dev, iaddr ip).
Proof.
  intros Hk. pose proof (w_nodup _ _ _ _ _ W) as Hnd. unfold v'. apply fn_lookup_insert_ne. intros [= E].
  unfold blocks in Hnd. cbn [fst snd] in Hnd. rewrite (proj2 (Nat.ltb_lt _ _) Hk) in Hnd.
  apply list.NoDup_app in Hnd as (_ & Hnd & _). apply (Hnd b); [|rewrite E; by left].
  apply list_elem_of_fmap. exists bn. split; [done|]. apply elem_of_seq. lia.
Qed.

Lemma store_baddr j : (j < k)%nat -> baddr v' ip j = baddr v ip j.
Proof.
  intros Hj. destruct (decide (j < NDIRECT)%nat); [by rewrite !baddr_direct|].
  rewrite !(baddr_indirect (dev:=dev)) by (apply W || lia). by rewrite store_ind by lia.
Qed.

Lemma store_blocks : blocks v' (ip, k) = blocks v (ip, k).
Proof. unfold blocks. f_equal. apply list_fmap_ext. intros ? j Hj%lookup_seq. apply store_baddr. cbn in Hj. lia. Qed.

Lemma store_free : free v' = free v.
Proof. apply free_insert; [done|]. by apply (w_data _ _ _ _ _ W _ (blocks_data v (ip, k) bn Hbn)). Qed.

Lemma store_wfile l' L' :
  txn me dev sb l' L' v' d hs -> 1 <= outstanding L' -> homes L' ⊆ H -> wfile (set_flog l' s) L' v' ip k.
Proof.
  intros T' Ho' Hh'. pose proof W as [(l & Es & _) _ _ [F1 F2 F3 F4 F5 F6] Hnd Hdata Hmeta Hfr].
  assert (forall y, 0 <= y < sb_size sb -> marked dev sb v' y = marked dev sb v y) as Hm.
  { intros y Hy. unfold marked, v'. pose proof (BBLOCK_range sb Hsb y Hy).
    destruct (Hdata _ (blocks_data v (ip, k) bn Hbn)) as (Hr & _). cbn [fst] in Hr. fold b in Hr.
    rewrite fn_lookup_insert_ne by (intros [=]; lia). done. }
  pose proof (datastart_pos sb Hsb) as Hds.
  constructor; try done; rewrite ?store_blocks, ?store_free; try done.
  - exists l'. by rewrite Es.
  - constructor; try done. cbn [fst snd] in *. intros Hk j Hj. rewrite store_ind by done. by apply F6.
  - intros y Hy. destruct (Hdata y Hy) as (Hr & Hmy & Hk). rewrite Hm by lia. done.
  - intros y Hy. rewrite Hm by lia. by apply Hmeta.
Qed.

Lemma store_ready off off' e : ready v ip k off e -> off <= off' <= Z.of_nat k * BSZ -> ready v' ip k off' e.
Proof.
  intros [R1 R2 R3 R4 R5] Hoff. constructor; try done; [lia| |by rewrite store_free].
  intros j Hj Hje. rewrite store_baddr by lia. apply R3; [|done].
  assert (off / BSZ <= off' / BSZ) by (apply Z.div_le_mono; [done|lia]). lia.
Qed.

Lemma store_wrote off bs :
  x = bytes_put (Z.to_nat (off mod BSZ)) bs (v (dev, b)) -> 0 <= off -> bn = Z.to_nat (off / BSZ) ->
  off mod BSZ + Z.of_nat (length bs) <= BSZ -> wrote v ip k off bs v' ip k.
Proof.
  intros Ex Hoff Ebn Hfit. pose proof W as [(l & _ & T) _ _ [_ Hdev _ _ _ _] Hnd Hdata _ _]. cbn [fst snd] in *.
  pose proof (Z.div_mod off BSZ ltac:(done)) as Hdm. pose proof (Z.mod_pos_bound off BSZ ltac:(done)) as Hmb.
  pose proof (Z.div_pos off BSZ Hoff ltac:(done)) as Hdp. pose proof (proj1 (txn_blk_ok _ _ _ _ _ _ _ _ T (dev, b))) as Hlb.
  assert (v' (dev, b) = x) as Hvb by (unfold v'; apply fn_lookup_insert).
  constructor; try done.
  - exists (i_addrs ip). by destruct ip.
  - pose proof (Z.mul_le_mono_nonneg_r (off / BSZ + 1) (Z.of_nat k) BSZ ltac:(done) ltac:(lia)). lia.
  - intros o Ho. rewrite (proj2 (Z.ltb_lt o _)) by lia. pose proof (block_of o k ltac:(lia)) as Hj.
    destruct (decide (Z.to_nat (o / BSZ) = bn)) as [E|E].
    + assert (o / BSZ = off / BSZ) as Eq by (pose proof (Z.div_pos o BSZ ltac:(lia) ltac:(done)); lia).
      pose proof (Z.div_mod o BSZ ltac:(done)) as Hdo. rewrite Eq in Hdo. pose proof (Z.mod_pos_bound o BSZ ltac:(done)) as Hmo.
      rewrite !(file_byte_baddr (dev:=dev)), E by (done || lia). rewrite store_baddr by done. fold b.
      rewrite Hvb, Ex, nth_bytes_put by (unfold BSZ in *; lia).
      rewrite (bool_decide_ext _ (off <= o < off + Z.of_nat (length bs))) by lia. case_bool_decide; [|done]. f_equal. lia.
    + rewrite bool_decide_eq_false_2.
      * apply byte_same; try done; [lia|by apply store_baddr|]. unfold v'. apply fn_lookup_insert_ne. intros [= Eb]. apply E.
        symmetry. by eapply (baddr_inj v ip k).
      * intros Hin. apply E. rewrite Ebn. f_equal. symmetry. apply (Z.div_unique o BSZ _ (o - off / BSZ * BSZ)); lia.
  - by rewrite store_blocks.
  - intros y Hy _. unfold v'. apply fn_lookup_insert_ne. intros [= E]. apply Hy. rewrite store_blocks, <- E. apply (blocks_data v (ip, k) bn Hbn).
  - intros key Hkey. unfold v'. apply fn_lookup_insert_ne. by intros <-.
Qed.
End Store.

(** The bytes of the file after a write that starts within it. *)
Lemma file_bytes_eq v ip off m (l : list Z) :
  length l = m -> (forall j, (j < m)%nat -> file_byte v ip (off + Z.of_nat j) = nth j l 0) -> file_bytes v ip off m = l.
Proof.
  intros <- Hj. apply list_eq. intros j. unfold file_bytes. rewrite list_lookup_fmap. destruct (decide (j < length l)%nat) as [H1|H1].
  - rewrite lookup_seq_lt by done. cbn [fmap option_fmap option_map Nat.add]. rewrite Hj, nth_lookup by done.
    by destruct (lookup_lt_is_Some_2 l j H1) as [y ->].
  - rewrite lookup_seq_ge, lookup_ge_None_2 by lia. done.
Qed.

Lemma wrote_bytes v ip k off bs v' ip' k' size :
  wrote v ip k off bs v' ip' k' -> 0 <= off <= size -> size <= Z.of_nat k * BSZ ->
  let old := file_bytes v ip 0 (Z.to_nat size) in
  file_bytes v' ip' 0 (Z.to_nat (Z.max size (off + Z.of_nat (length bs)))) =
    take (Z.to_nat off) old ++ bs ++ drop (Z.to_nat off + length bs) old.
Proof.
  intros [_ Hk Hin Hby _ _ _] Ho Hs old. pose proof (Z.mul_le_mono_nonneg_r (Z.of_nat k) (Z.of_nat k') BSZ ltac:(done) ltac:(lia)) as Hkk.
  assert (length old = Z.to_nat size) as Hl by (unfold old, file_bytes; by rewrite length_fmap, length_seq).
  assert (forall j, (j < Z.to_nat size)%nat -> nth j old 0 = file_byte v ip (Z.of_nat j)) as Hold.
  { intros j Hj. unfold old, file_bytes. rewrite nth_lookup, list_lookup_fmap, lookup_seq_lt by done. done. }
  apply file_bytes_eq; [rewrite !length_app, length_take, length_drop; lia|].
  intros j Hj. rewrite Z.add_0_l, Hby by lia. case_bool_decide as Hr.
  - rewrite app_nth2 by (rewrite length_take; lia). rewrite app_nth1 by (rewrite length_take; lia).
    f_equal. rewrite length_take. lia.
  - rewrite (proj2 (Z.ltb_lt _ _)) by lia. destruct (decide (Z.of_nat j < off)).
    + rewrite app_nth1 by (rewrite length_take; lia). rewrite nth_lookup, lookup_take_lt, <- nth_lookup, Hold by lia. done.
    + rewrite !app_nth2 by (rewrite ?length_take; lia). rewrite nth_lookup, lookup_drop, <- nth_lookup, length_take.
      rewrite <- Hold by lia. f_equal. lia.
Qed.

(** *** Storing the inode *)

Lemma size_wfile s L v ip k z ib y l' L' :
  wfile s L v ip k -> sb_inodestart sb <= ib < sb_bmapstart sb -> 0 <= z < 2 ^ 32 ->
  let v' := <[(dev, ib) := y]> v in
  txn me dev sb l' L' v' d hs -> 1 <= outstanding L' -> homes L' ⊆ H ->
  wfile (FState l' (<[i := set_size z ip]> (inodes s0)) sb) L' v' (set_size z ip) k /\
  (forall b, b ∈ blocks v (ip, k) -> v' (dev, b) = v (dev, b)).
Proof.
  intros [_ _ _ Hfo Hnd Hdata Hmeta Hfr] Hib Hz v' T Ho Hh. pose proof (datastart_pos sb Hsb) as Hds.
  assert (sb_bmapstart sb < datastart sb) as Hbd by (pose proof (BBLOCK_range sb Hsb 0 ltac:(lia)); lia).
  assert (forall b, b ∈ blocks v (ip, k) -> v' (dev, b) = v (dev, b)) as Hsame.
  { intros b Hb. unfold v'. apply fn_lookup_insert_ne. destruct (Hdata b Hb) as (Hr & _). intros [=]. lia. }
  assert (forall b, 0 <= b < sb_size sb -> marked dev sb v' b = marked dev sb v b) as Hm.
  { intros b Hb. unfold marked, v'. pose proof (BBLOCK_range sb Hsb b Hb). rewrite fn_lookup_insert_ne by (intros [=]; lia). done. }
  assert (blocks v' (set_size z ip, k) = blocks v (ip, k)) as Hbl by exact (blocks_frame v v' (ip, k) (fo_dev _ _ Hfo) Hsame).
  assert (free v' = free v) as Hf.
  { apply filter_same. intros b Hb. apply elem_of_seqZ in Hb. rewrite Hm by lia. done. }
  split; [|done]. constructor; try done; rewrite ?Hbl, ?Hf; try done.
  - by exists l'.
  - pose proof (file_ok_frame v v' (ip, k) Hsame Hfo) as [[] ? ? ? ? ?]. cbn [fst snd] in *. by constructor.
  - intros b Hb. destruct (Hdata b Hb) as (Hr & Hmb & Hk). rewrite Hm by lia. done.
  - intros b Hb. rewrite Hm by lia. by apply Hmeta.
Qed.

(** Setting the size, and the inode stored. *)
Lemma set_size_spec s L v ip k z (Q : unit -> fstate -> Prop) :
  wfile s L v ip k -> 0 <= z < 2 ^ 32 -> 0 <= i_inum ip < sb_ninodes sb ->
  let key := (dev, IBLOCK (i_inum ip) sb) in
  let v' := <[key := store_dinode (dip_off (i_inum ip)) (set_size z ip) (v key)]> v in
  key ∉ hs -> IBLOCK (i_inum ip) sb ∈ H ->
  (forall s' L', wfile s' L' v' (set_size z ip) k -> (forall b, b ∈ blocks v (ip, k) -> v' (dev, b) = v (dev, b)) -> Q tt s') ->
  fwp (iassign i (set_size z)) s (fun _ s1 => fwp (iupdate me i) s1 Q).
Proof.
  intros W Hz Hinum key v' Hhs HH HQ. destruct (w_state _ _ _ _ _ W) as (l & Es & T). pose proof (fo_dev _ _ (w_file _ _ _ _ _ W)) as Hdev.
  cbn [fst] in Hdev. pose proof (IBLOCK_range sb Hsb _ Hinum) as Hib. pose proof (datastart_pos sb Hsb) as Hds.
  assert (sb_bmapstart sb < datastart sb) as Hbd by (pose proof (BBLOCK_range sb Hsb 0 ltac:(lia)); lia).
  pose proof (H_txn_room l L v hs 3 T (w_out _ _ _ _ _ W) (w_homes _ _ _ _ _ W) ltac:(lia)) as Hroom.
  eapply f_iassign; [rewrite Es; by apply list_lookup_insert_eq|].
  rewrite Es. cbn [inodes set_inodes]. rewrite list_insert_insert_eq.
  eapply (iupdate_spec me dev (FState l (<[i := set_size z ip]> (inodes s0)) sb) L v d hs 1 3 T Hsb Hroom ltac:(lia) ltac:(lia) i (set_size z ip)); try done; try lia.
  { by apply list_lookup_insert_eq. }
  intros l2 T2 _. cbn [fst snd fsb i_inum set_size] in *.
  destruct (H_add _ _ _ _ (IBLOCK (i_inum ip) sb) T (w_homes _ _ _ _ _ W) HH ltac:(pose proof (so_size sb Hsb); lia)) as (Hh2 & Ho2 & _).
  destruct (size_wfile s L v ip k z _ _ l2 _ W Hib Hz T2 ltac:(rewrite Ho2; apply W) Hh2) as [W2 Hs2]. by eapply HQ.
Qed.

(** *** The loop of writei *)

Section Write.
Context {X : Type} (inn : Z -> nat -> X -> list Z * Z) (x : X) (src : Z) (data : list Z) (Hsrc : byte_source inn src data x).
Local Abbreviation n := (Z.of_nat (length data)).
Context (Hn : n < 2 ^ 31).

(** One block: read, changed, logged. *)
Lemma write_block {A} s L v ip k bn a m bs o (K' K : M (fstate * X) A) (Q : A -> fstate * X -> Prop) :
  wfile s L v ip k -> (bn < k)%nat -> baddr v ip bn ∈ H -> Forall byte_ok bs -> inn a m x = (bs, 0) ->
  let b := baddr v ip bn in
  let v' := <[(dev, b) := bytes_put o bs (v (dev, b))]> v in
  (forall s' L', wfile s' L' v' ip k -> fwp K (s', x) Q) ->
  fwp (bp <- on_fs (bread_ me dev b) ;;
       r <- get (fun s => inn a m (snd s)) ;;
       on_fs (bput bp (bytes_put o (fst r))) ;;;
       if snd r =? -1 then on_fs (brelse_ me bp) ;;; K'
       else on_fs (log_write_ bp) ;;; on_fs (brelse_ me bp) ;;; K) (s, x) Q.
Proof.
  intros W Hbn HbH Hbs Hin b v' HQ. pose proof W as [(l & Es & T) Ho Hh _ _ Hdata _ _].
  destruct (Hdata _ (blocks_data v (ip, k) bn Hbn)) as (Hr & _ & Hk). cbn [fst] in Hr, Hk. fold b in Hr, Hk, HbH.
  pose proof (datastart_pos sb Hsb) as Hds. pose proof (so_size sb Hsb) as Hsz.
  assert (fsb s = sb) as Esb by (by rewrite Es). assert (flog s = l) as El by (by rewrite Es).
  fstep. apply fwp_zoom. cbn [fst]. eapply (f_bread' _ _ s _ _ _ _ _ _ 1 3); [by rewrite Esb, El|eapply H_txn_room; [exact T|done|done|lia]|lia|lia|done| |].
  { eapply not_in_log; [exact Hsb|exact T|lia]. }
  rewrite Esb. intros bp l1 T1 Hb1 _. cbn [fst snd]. fstep. apply fwp_get. cbn [snd]. rewrite Hin. cbn [fst snd Z.eqb]. fstep. apply fwp_zoom. cbn [fst].
  eapply (f_bput _ _ (set_flog l1 s) _ _ _ _ ltac:(rewrite <- Esb in T1; exact T1) bp (dev, b)); [by left|exact Hb1| |].
  { apply bytes_put_blk; [done|]. by eapply txn_blk_ok. }
  cbn [fsb set_flog]. rewrite Esb. intros l2 T2 K2. cbn [fst snd]. fstep. apply fwp_zoom. cbn [fst].
  pose proof (homes_bound L H (tx_ok _ _ _ _ _ _ _ _ T) Hh) as Hlh. pose proof (tx_size _ _ _ _ _ _ _ _ T) as Hs.
  destruct (H_add _ _ _ _ b T2 Hh HbH ltac:(lia)) as (Hh3 & Ho3 & _ & _).
  eapply (f_log_write _ _ (set_flog l2 (set_flog l1 s)) _ _ _ _ ltac:(rewrite <- Esb in T2; exact T2) bp b);
    [by left|by apply K2|lia|lia|unfold NBUF, LOGSIZE in *; lia|lia|lia|].
  cbn [fsb set_flog]. rewrite Esb. intros l3 T3 K3. cbn [fst snd]. fstep. apply fwp_zoom. cbn [fst].
  eapply (f_brelse _ _ (set_flog l3 (set_flog l2 (set_flog l1 s)))); [rewrite <- Esb in T3; exact T3|by apply K3, K2| |].
  { left. apply log_add_home; [apply T|unfold NBUF, LOGSIZE in *; lia|by right]. }
  cbn [fsb set_flog]. rewrite Esb. intros l4 T4 _. cbn [fst snd].
  apply (HQ (set_flog l4 s) (log_add b L)). eapply store_wfile; [exact W|done|exact T4|lia|done].
Qed.

Lemma writei_loop_spec fuel t off s L v ip k (Q : Z -> fstate * X -> Prop) :
  (t <= length data)%nat -> wfile s L v ip k ->
  let e := off + (n - Z.of_nat t) in
  ready v ip k off e -> t = length data \/ n - Z.of_nat t + off mod BSZ <= Z.of_nat fuel * BSZ ->
  (forall s' L' v' ip', let k' := Nat.max k (nblk e) in wfile s' L' v' ip' k' -> wrote v ip k off (drop t data) v' ip' k' ->
     Q e (s', x)) ->
  fwp (writei_loop inn fuel me i (src + Z.of_nat t) off n (Z.of_nat t)) (s, x) Q.
Proof.
  destruct Hsrc as (Hs0 & Hs64 & Hdat & Hin). revert t off s L v ip k.
  induction fuel as [|fuel IH]; intros t off s L v ip k Ht W e R Hf HQ.
  all: pose proof (rd_off _ _ _ _ _ R) as Hoff; pose proof (Z.mod_pos_bound off BSZ ltac:(done)) as Hmb.
  all: destruct (decide (t = length data)) as [->|Hne].
  1, 3: cbn [writei_loop]; rewrite Z.ltb_irrefl; apply fwp_ret; replace e with off in HQ by lia;
    rewrite drop_all in HQ; apply (HQ s L v ip);
    (replace (Nat.max k (nblk off)) with k; [done || (apply wrote_refl; lia)|]);
    pose proof (nblk_mono off (Z.of_nat k * BSZ) ltac:(lia)) as Hnb;
    pose proof (nblk_eq (Z.of_nat k) 0 ltac:(lia) ltac:(done)) as Hnk; rewrite Z.add_0_r, Nat2Z.id in Hnk; cbn in Hnk; lia.
  { lia. }
  pose proof (chunk_bound off n (Z.of_nat t) ltac:(lia) ltac:(lia)) as (Hk1 & Hk2 & Hk3). set (c := chunk off n (Z.of_nat t)) in *.
  pose proof (nblk_small _ (rd_max _ _ _ _ _ R) ltac:(lia)) as Hmax.
  cbn [writei_loop]. rewrite (proj2 (Z.ltb_lt _ n)) by lia. fstep. apply fwp_zoom. cbn [fst].
  eapply (bmap_run s L v ip k off e); [done|done|lia|]. set (bn := Z.to_nat (off / BSZ)). cbv zeta. intros s1 L1 v1 ip1 W1 R1 Wr1.
  set (k1 := Nat.max k (S bn)) in *. cbn [fst snd]. fstep. apply fwp_zoom.
  eapply f_ideref; [destruct (w_state _ _ _ _ _ W1) as (l1 & -> & _); by apply list_lookup_insert_eq|]. cbn [fst snd].
  pose proof (fo_dev _ _ (w_file _ _ _ _ _ W1)) as Hdev1. cbn [fst] in Hdev1. rewrite Hdev1. cbv zeta. fold c.
  assert (S bn <= nblk e)%nat as Hbe by (apply nblk_lt; lia).
  eapply (write_block s1 L1 v1 ip1 k1 bn (src + Z.of_nat t) (Z.to_nat c) (bytes_at t (Z.to_nat c) data));
    [done|unfold k1; lia|apply R1; unfold k1, bn in *; lia|by apply bytes_at_ok|apply Hin; lia|].
  intros s2 L2 W2. set (v2 := <[_ := _]> v1) in *. 
  rewrite u64_small, !u32_small by lia.
  replace (src + Z.of_nat t + c) with (src + Z.of_nat (t + Z.to_nat c)) by lia. replace (Z.of_nat t + c) with (Z.of_nat (t + Z.to_nat c)) by lia.
  assert (off + c <= Z.of_nat k1 * BSZ) as Hoc by (apply block_end; unfold k1, bn; lia).
  assert (length (bytes_at t (Z.to_nat c) data) = Z.to_nat c) as Hlc by (apply length_bytes_at; lia).
  assert (off + c + (n - Z.of_nat (t + Z.to_nat c)) = e) as Ee by lia.
  eapply (IH (t + Z.to_nat c)%nat (off + c) s2 L2 v2 ip1 k1); [lia|done| | |].
  - rewrite Ee. eapply store_ready; [exact W1|unfold k1; lia|exact R1|lia].
  - destruct Hk3 as [E|E]; [left; lia|right].
    replace ((off + c) mod BSZ) with 0; [lia|]. rewrite <- Zplus_mod_idemp_l, E. by rewrite Z.mod_same.
  - rewrite Ee. intros s3 L3 v3 ip3 k' W3 Wr3. replace k' with (Nat.max k (nblk e)) in * by (unfold k', k1; lia).
    eapply HQ; [exact W3|]. replace (drop t data) with ([] ++ bytes_at t (Z.to_nat c) data ++ drop (t + Z.to_nat c) data).
    2: { unfold bytes_at. rewrite <- drop_drop. apply take_drop. }
    eapply wrote_trans; [exact Wr1|]. cbn [length]. rewrite Z.add_0_r. eapply wrote_trans; [eapply store_wrote; try done; try lia|].
    rewrite Hlc, Z2Nat.id by lia. exact Wr3.
Qed.

(** *** writei *)

(** What [writei] leaves of the file: the bytes [data] at [off], and the inode
    on disk when the file has grown. *)
Record written (v : Z * Z -> list Z) (ip : inode) (k : nat) (off : Z) (v' : Z * Z -> list Z) (ip' : inode) (k' : nat) : Prop := {
  wn_inode : exists al, ip' = set_size (Z.max (i_size ip) (off + n)) (with_addrs al ip);
  wn_k : k' = Nat.max k (nblk (off + n));
  wn_bytes : let old := file_bytes v ip 0 (Z.to_nat (i_size ip)) in
    file_bytes v' ip' 0 (Z.to_nat (i_size ip')) = take (Z.to_nat off) old ++ data ++ drop (Z.to_nat off + length data) old;
  wn_disk : let key := (dev, IBLOCK (i_inum ip) sb) in
    v' key = if i_size ip <? off + n then store_dinode (dip_off (i_inum ip)) ip' (v key) else v key;
  wn_other : forall b, b ∉ blocks v' (ip', k') -> ~ is_bitmap b -> b <> IBLOCK (i_inum ip) sb -> v' (dev, b) = v (dev, b);
  wn_dev : forall key, fst key <> dev -> v' key = v key
}.

(** The write, then the inode: [v2] differs from [v1] in the inode's block at
    most. *)
Lemma wrote_written v ip k off v1 ip1 k1 v2 z :
  wrote v ip k off data v1 ip1 k1 -> i_dev ip = dev -> 0 <= off <= i_size ip -> i_size ip <= Z.of_nat k * BSZ ->
  k1 = Nat.max k (nblk (off + n)) -> z = Z.max (i_size ip) (off + n) ->
  (forall b, b ∈ blocks v1 (ip1, k1) -> v2 (dev, b) = v1 (dev, b)) ->
  (let key := (dev, IBLOCK (i_inum ip) sb) in
   v2 key = if i_size ip <? off + n then store_dinode (dip_off (i_inum ip)) (set_size z ip1) (v key) else v key) ->
  (forall key, key <> (dev, IBLOCK (i_inum ip) sb) -> v2 key = v1 key) ->
  written v ip k off v2 (set_size z ip1) k1.
Proof.
  intros Wr Hdev Hoff Hsz Hk Hz Hsame Hkey Hoth. pose proof Wr as [[al E] Hkk Hin _ _ Hot Hd].
  assert (i_dev (fst (ip1, k1)) = dev) as Hdev1 by (cbn [fst]; by rewrite E).
  assert (blocks v2 (set_size z ip1, k1) = blocks v1 (ip1, k1)) as Hbl by exact (blocks_frame v1 v2 (ip1, k1) Hdev1 Hsame).
  constructor; try done.
  - exists al. by rewrite E, Hz.
  - cbn [i_size set_size]. rewrite Hz. cbv zeta. rewrite <- (wrote_bytes v ip k off data v1 ip1 k1) by done.
    apply (file_bytes_frame v1 v2 (ip1, k1) Hdev1 Hsame).
    pose proof (Z.mul_le_mono_nonneg_r (Z.of_nat k) (Z.of_nat k1) BSZ ltac:(done) ltac:(lia)). cbn [snd]. lia.
  - intros b Hb Hnb Hni. rewrite Hoth by congruence. apply Hot; [|done]. by rewrite <- Hbl.
  - intros key Hk'. rewrite Hoth by (intros ->; done). by apply Hd.
Qed.

Lemma writei_spec off s L v ip k (Q : Z -> fstate * X -> Prop) :
  wfile s L v ip k -> i_size ip <= Z.of_nat k * BSZ -> 0 <= off <= i_size ip -> ready v ip k off (off + n) ->
  0 <= i_inum ip < sb_ninodes sb -> (dev, IBLOCK (i_inum ip) sb) ∉ hs -> IBLOCK (i_inum ip) sb ∈ H ->
  (forall s' L' v' ip' k', wfile s' L' v' ip' k' -> written v ip k off v' ip' k' -> Q n (s', x)) ->
  fwp (writei inn me i src off n) (s, x) Q.
Proof.
  intros W Hsz Hoff R Hinum Hihs HiH HQ. pose proof (nblk_small _ (rd_max _ _ _ _ _ R) ltac:(lia)) as Hsm.
  pose proof (IBLOCK_range sb Hsb _ Hinum) as Hib. pose proof (datastart_pos sb Hsb) as Hds.
  assert (sb_bmapstart sb < datastart sb) as Hbd by (pose proof (BBLOCK_range sb Hsb 0 ltac:(lia)); lia).
  unfold writei. fstep. apply fwp_zoom. cbn [fst].
  eapply f_ideref; [destruct (w_state _ _ _ _ _ W) as (l & -> & _); by apply list_lookup_insert_eq|]. cbn [fst snd].
  rewrite (proj2 (Z.ltb_ge (i_size ip) off)), u32_small, (proj2 (Z.ltb_ge (off + n) off)) by lia. cbn [orb].
  assert (off + n <= MAXFILE * BSZ) as Hmax.
  { pose proof (nblk_covers (off + n) ltac:(lia)) as Hc. pose proof (rd_max _ _ _ _ _ R) as Hm. unfold MAXFILE. change BSZ with 1024 in *. lia. }
  rewrite (proj2 (Z.ltb_ge (MAXFILE * BSZ) (off + n))) by done. fstep.
  rewrite <- (Z.add_0_r src).
  eapply (writei_loop_spec (rw_fuel n) 0 off s L v ip k); [lia|done|by rewrite Z.sub_0_r|right; rewrite Z.sub_0_r; apply rw_fuel_enough; lia|].
  rewrite Z.sub_0_r, drop_0. intros s1 L1 v1 ip1 k1 W1 Wr1. fold k1 in W1, Wr1.
  destruct (wr_inode _ _ _ _ _ _ _ _ Wr1) as [al Eip]. pose proof (w_file _ _ _ _ _ W) as Hfo. pose proof (fo_dev _ _ Hfo) as Hdev. cbn [fst] in Hdev.
  assert (IBLOCK (i_inum ip) sb ∉ blocks v1 (ip1, k1)) as Hni.
  { intros Hb. destruct (w_data _ _ _ _ _ W1 _ Hb) as (Hr & _). lia. }
  assert (v1 (dev, IBLOCK (i_inum ip) sb) = v (dev, IBLOCK (i_inum ip) sb)) as Hv1.
  { apply (wr_other _ _ _ _ _ _ _ _ Wr1); [done|]. unfold is_bitmap. lia. }
  destruct (w_state _ _ _ _ _ W1) as (l1 & Es1 & T1).
  fstep. apply fwp_zoom. cbn [fst]. eapply f_ideref; [rewrite Es1; by apply list_lookup_insert_eq|]. cbn [fst snd].
  assert (i_size ip1 = i_size ip) as -> by (by rewrite Eip). assert (i_inum ip1 = i_inum ip) as Einum by (by rewrite Eip).
  assert ((0 <? n) && (i_size ip <? off + n) = (i_size ip <? off + n)) as ->.
  { destruct (Z.ltb_spec 0 n); [done|]. destruct (Z.ltb_spec (i_size ip) (off + n)); [lia|done]. }
  destruct (Z.ltb_spec (i_size ip) (off + n)) as [Hg|Hg].
  - assert (fwp (iassign i (set_size (off + n))) s1 (fun _ s2 => fwp (iupdate me i) s2 (fun _ s3 => Q n (s3, x)))) as Hss.
    { eapply (set_size_spec s1 L1 v1 ip1 k1); try done; try lia; rewrite ?Einum; try done.
      intros s2 L2 W2 Hs2. eapply HQ; [exact W2|]. eapply wrote_written; try done; [lia| |].
      + cbv zeta. rewrite (proj2 (Z.ltb_lt _ _)) by done. rewrite fn_lookup_insert, Hv1. done.
      + intros key Hkey. apply fn_lookup_insert_ne. done. }
    fstep. fstep. apply fwp_zoom. eapply fwp_mono; [exact Hss|]. intros [] s2 Hu. apply fwp_zoom. cbn [fst snd].
    eapply fwp_mono; [exact Hu|]. intros [] s3 HQ3. fstep. by rewrite i32_small by lia.
  - fstep. fstep. fstep. rewrite i32_small by lia. eapply HQ; [exact W1|].
    replace ip1 with (set_size (i_size ip) ip1) by (by rewrite Eip). eapply wrote_written; try done; [lia|].
    cbv zeta. rewrite (proj2 (Z.ltb_ge _ _)) by done. done.
Qed.
End Write.
End Grow.

(** ** Writing and reading back *)

(** What a change to the file in entry [i] needs: a file without holes, and
    space: the blocks [H] that may be logged fit in the log and, with the
    locked ones, in the cache. *)
Record can_change (me dev : Z) (s : fstate) (L : log) (v d : Z * Z -> list Z) (hs : list (Z * Z)) (i : nat) (ip : inode) (k : nat)
    (H : list Z) : Prop := {
  cw_sb : sb_ok (fsb s);
  cw_entry : (i < length (inodes s))%nat;
  cw_log : Z.of_nat (length H) + 1 < i32 (sb_nlog (fsb s));
  cw_cache : Z.of_nat (length H) + Z.of_nat (length hs) + 4 <= Z.of_nat NBUF;
  cw_bitmap : forall b, 0 <= b < sb_size (fsb s) -> (dev, BBLOCK b (fsb s)) ∉ hs /\ BBLOCK b (fsb s) ∈ H;
  cw_inode : 0 <= i_inum ip < sb_ninodes (fsb s) /\ (dev, IBLOCK (i_inum ip) (fsb s)) ∉ hs /\ IBLOCK (i_inum ip) (fsb s) ∈ H;
  cw_file : wfile me dev s d hs i H s L v ip k
}.

(** And what [writei] of [n] bytes at [off] needs besides. *)
Record can_write (me dev : Z) (s : fstate) (L : log) (v d : Z * Z -> list Z) (hs : list (Z * Z)) (i : nat) (ip : inode) (k : nat)
    (H : list Z) (off n : Z) : Prop := {
  cw_change : can_change me dev s L v d hs i ip k H;
  cw_size : i_size ip <= Z.of_nat k * BSZ;
  cw_off : 0 <= off <= i_size ip;
  cw_ready : ready dev s H v ip k off (off + n)
}.

Section ReadBack.
Context (me dev : Z) (s0 : fstate) (d : Z * Z -> list Z) (hs : list (Z * Z)) (i : nat).
Context (Hsb : sb_ok (fsb s0)) (Hlen : (i < length (inodes s0))%nat).
Context (H : list Z) (Hlog : Z.of_nat (length H) + 1 < i32 (sb_nlog (fsb s0)))
  (Hbuf : Z.of_nat (length H) + Z.of_nat (length hs) + 4 <= Z.of_nat NBUF).

Lemma wfile_mapped s L v ip k o :
  wfile me dev s0 d hs i H s L v ip k -> 0 <= o < Z.of_nat k * BSZ -> mapped dev s v hs ip (o / BSZ).
Proof.
  intros [(l & -> & T) _ _ [_ _ Hmax _ _ _] _ Hdata _ _] Ho. cbn [fst snd] in *. pose proof (block_of o k Ho) as Hb.
  assert (0 <= o / BSZ) as Hp by (apply Z.div_pos; [lia|done]). split; [unfold MAXFILE; lia|]. split.
  - destruct (Hdata _ (blocks_data v (ip, k) _ Hb)) as (Hr & _ & Hk). unfold baddr in Hr, Hk. cbn [fst] in Hr, Hk.
    rewrite Z2Nat.id in Hr, Hk by lia. split; [apply Hr|done].
  - intros Hge. destruct (Hdata _ (blocks_ind v (ip, k) ltac:(cbn; lia))) as (Hr & _ & Hk). split; [apply Hr|done].
Qed.

Lemma readi_back {Y} (out : Z -> list Z -> Y -> Y * Z) stored lo hi `{!CopyOut out stored lo hi} s L v ip k off n dst y :
  wfile me dev s0 d hs i H s L v ip k -> i_size ip <= Z.of_nat k * BSZ -> 0 <= off -> 0 <= n -> off + n <= i_size ip ->
  lo <= dst -> dst + n <= hi ->
  exists l t, readi out me i dst off n (s, y) = Ok n (set_flog l s, stored dst (file_bytes v ip off (Z.to_nat n)) y) t.
Proof.
  intros W Hsz Hoff Hn Hin Hlo Hhi. pose proof W as [(l & Es & T) Ho Hh [_ Hdev Hmax _ _ _] _ _ _ _]. cbn [fst snd] in *.
  assert (i_size ip < 2 ^ 31) as Hs31 by (unfold NDIRECT, NINDIRECT in Hmax; change BSZ with 1024 in *; lia).
  assert (fwp (readi out me i dst off n) (s, y) (fun r s2 => r = n /\ exists l, s2 = (set_flog l s, stored dst (file_bytes v ip off (Z.to_nat n)) y))) as Hr.
  { eapply (readi_spec me dev s L v d hs 1 3); try done; try lia; rewrite ?Es; try done.
    - by eapply (H_txn_room me dev s0 d hs i Hlen H Hlog); [exact T|done|done|lia].
    - by apply list_lookup_insert_eq.
    - rewrite <- Es. intros o Hoo. eapply wfile_mapped; [exact W|lia].
    - exists l. split; [done|]. split; [done|apply keeps_refl].
    - intros s2 (l' & -> & _). rewrite Z.min_l by lia. split; [done|]. by exists l'. }
  apply fwp_run in Hr as (r & s2 & t & Hrun & _ & -> & l' & ->). by exists l', t.
Qed.
End ReadBack.

(** The bytes that were written, as [file_bytes] yields them. *)
Lemma written_data dev s data v ip k off v' ip' k' :
  written dev s data v ip k off v' ip' k' -> 0 <= off <= i_size ip ->
  file_bytes v' ip' off (length data) = data.
Proof.
  intros [[al E] _ Hb _ _ _] Hoff. cbv zeta in Hb. set (old := file_bytes v ip 0 (Z.to_nat (i_size ip))) in *.
  assert (length old = Z.to_nat (i_size ip)) as Hl by (unfold old, file_bytes; by rewrite length_fmap, length_seq).
  assert (i_size ip' = Z.max (i_size ip) (off + Z.of_nat (length data))) as Hs by (by rewrite E).
  replace (Z.to_nat (i_size ip')) with (Z.to_nat off + (length data + (Z.to_nat (i_size ip') - Z.to_nat off - length data)))%nat in Hb by lia.
  rewrite file_bytes_app in Hb. apply app_inj_1 in Hb as [_ Hb].
  2: { unfold file_bytes at 1. rewrite length_fmap, length_seq, length_take. lia. }
  rewrite file_bytes_app in Hb. apply app_inj_1 in Hb as [Hb _]; [|unfold file_bytes at 1; by rewrite length_fmap, length_seq].
  by replace (0 + Z.of_nat (Z.to_nat off)) with off in Hb by lia.
Qed.

(** C8: inside a transaction that has space for it, [writei] of bytes at an
    offset within a file returns their number and writes nothing to the disk.
    Afterwards the file, its size the larger of the old one and the end of the
    bytes, consists of the old bytes with the new ones in their place; blocks
    and the indirect block are allocated as needed, in order, distinct and
    without holes; the inode on disk is updated when the file has grown; no
    block of another file changes.  [readi] then reads the same bytes back. *)
Theorem writei_writes {X} (inn : Z -> nat -> X -> list Z * Z) (x : X) src data me dev s L v d hs i ip k H off :
  let n := Z.of_nat (length data) in
  can_write me dev s L v d hs i ip k H off n -> byte_source inn src data x ->
  exists s' t L' v' ip' k', writei inn me i src off n (s, x) = Ok n (s', x) t /\ disk_writes t = [] /\
    wfile me dev s d hs i H s' L' v' ip' k' /\ written dev s data v ip k off v' ip' k' /\
    forall Y (out : Z -> list Z -> Y -> Y * Z) stored lo hi `{!CopyOut out stored lo hi} dst y, lo <= dst -> dst + n <= hi ->
      exists l t', readi out me i dst off n (s', y) = Ok n (set_flog l s', stored dst data y) t'.
Proof.
  intros n [[Hsb Hi Hlog Hbuf Hbm (Hin & Hihs & HiH) W] Hsz Hoff R] Hsrc.
  assert (n < 2 ^ 31) as Hn by (pose proof (nblk_small _ (rd_max _ _ _ _ _ _ _ _ R) ltac:(lia)); lia).
  assert (fwp (writei inn me i src off n) (s, x) (fun r s2 => r = n /\ exists s' L' v' ip' k', s2 = (s', x) /\
    wfile me dev s d hs i H s' L' v' ip' k' /\ written dev s data v ip k off v' ip' k')) as Hw.
  { eapply (writei_spec me dev s d hs i Hsb Hi H Hlog Hbuf Hbm inn x src data Hsrc Hn); try done.
    intros s' L' v' ip' k' W' Wn. split; [done|]. by exists s', L', v', ip', k'. }
  apply fwp_run in Hw as (r & s2 & t & Hrun & Ht & -> & s' & L' & v' & ip' & k' & -> & W' & Wn).
  exists s', t, L', v', ip', k'. split; [done|]. split; [done|]. split; [done|]. split; [done|].
  intros Y out stored lo hi HC dst y Hlo Hhi. rewrite <- (written_data _ _ _ _ _ _ _ _ _ _ Wn Hoff).
  pose proof Wn as [[al E] Ek _ _ _ _]. assert (i_size ip' = Z.max (i_size ip) (off + n)) as Es by (by rewrite E).
  replace (length data) with (Z.to_nat n) by lia. eapply (readi_back me dev s d hs i Hsb Hi H Hlog Hbuf); try done; try lia.
  fold n in Ek. pose proof (nblk_covers (off + n) ltac:(lia)). change BSZ with 1024 in *. lia.
Qed.

(** A file of 20 bytes in block 46; the write extends it to block 48. *)
Definition ip_short : inode := Inode 0 1 1 initsleeplock 1 T_FILE 0 0 1 20 (46 :: replicate 12 0).

Lemma dk_map_free v : v (0, 45) = disk_block dk_map (0, 45) -> free_blocks 0 sb0 v = 48 :: seqZ 49 951.
Proof.
  intros Hv. unfold free_blocks. rewrite (filter_same _ (fun b => (b <? 48) = false)).
  - vm_compute. reflexivity.
  - intros b Hb. apply elem_of_seqZ in Hb. rewrite (dk_map_marked v b Hv) by (cbn in Hb; lia). done.
Qed.

(** A file over blocks 46 and 47 of that disk. *)
Lemma dk_map_change l L v d ip k H :
  txn 1 0 sb0 l L v d [] -> outstanding L = 1 -> homes L = [] -> v (0, 45) = disk_block dk_map (0, 45) ->
  file_ok 0 v (ip, k) -> NoDup (blocks v (ip, k)) -> (forall b, b ∈ blocks v (ip, k) -> 46 <= b < 48) -> i_inum ip = 1 ->
  45 ∈ H -> 32 ∈ H -> Z.of_nat (length H) <= 20 ->
  can_change 1 0 (FState l [ip] sb0) L v d [] 0 ip k H.
Proof.
  intros T Ho Hh Hv Hf Hnd Hb Hn H1 H2 HH.
  assert (forall b, 0 <= b < 1000 -> BBLOCK b sb0 = 45) as Hbb.
  { intros b Hr. unfold BBLOCK. change BPB with 8192. by rewrite Z.div_small by lia. }
  constructor; cbn [fsb]; [exact sb0_ok|cbn; lia|..].
  - change (i32 (sb_nlog sb0)) with 30. lia.
  - change (Z.of_nat NBUF) with 30. cbn [length]. lia.
  - intros b Hr. rewrite Hbb by (cbn in Hr; lia). split; [apply not_elem_of_nil|done].
  - rewrite Hn. split; [by vm_compute|]. split; [apply not_elem_of_nil|done].
  - constructor; cbn [fsb]; try done.
    + by exists l.
    + lia.
    + rewrite Hh. apply list_subseteq_nil.
    + intros b Hin. specialize (Hb b Hin). change (datastart sb0) with 46. change (sb_size sb0) with 1000.
      split; [lia|]. split; [rewrite (dk_map_marked v b Hv) by lia; apply Z.ltb_lt; lia|apply not_elem_of_nil].
    + intros b Hr. change (datastart sb0) with 46 in Hr. rewrite (dk_map_marked v b Hv) by lia. apply Z.ltb_lt. lia.
    + intros b _. apply not_elem_of_nil.
Qed.

Lemma ip_short_change l L v d H :
  txn 1 0 sb0 l L v d [] -> outstanding L = 1 -> homes L = [] -> v (0, 45) = disk_block dk_map (0, 45) ->
  45 ∈ H -> 32 ∈ H -> Z.of_nat (length H) <= 20 -> can_change 1 0 (FState l [ip_short] sb0) L v d [] 0 ip_short 1 H.
Proof.
  intros T Ho Hh Hv H1 H2 HH. apply dk_map_change; try done; try (by apply (bool_decide_eq_true_1 _)).
  - constructor; cbn [fst snd]; try done; [|unfold NDIRECT, NINDIRECT; lia|intros j Hj|intros Hd; unfold NDIRECT in Hd; lia].
    + constructor; first [done|repeat constructor; lia].
    + cbn [i_addrs ip_short]. destruct j; [lia|]. cbn [nth]. apply (nth_replicate_zero 12).
  - intros b Hb. apply list_elem_of_singleton in Hb as ->. by vm_compute.
Qed.

Lemma ip_short_writable l L v d :
  txn 1 0 sb0 l L v d [] -> outstanding L = 1 -> homes L = [] -> v (0, 45) = disk_block dk_map (0, 45) ->
  can_write 1 0 (FState l [ip_short] sb0) L v d [] 0 ip_short 1 [45; 32; 46; 48] 20 1010.
Proof.
  intros T Ho Hh Hv. constructor; [by apply ip_short_change; try (by apply (bool_decide_eq_true_1 _))|by vm_compute..|].
  constructor; [by vm_compute|apply Nat.leb_le; by vm_compute|..].
  - intros j Hj _. replace j with 0%nat by lia. do 2 right. by left.
  - intros Hd. unfold NDIRECT in Hd. lia.
  - exists [48], (seqZ 49 951). split; [by apply dk_map_free|]. split; [set_solver|]. by vm_compute.
Qed.

Lemma writei_writes_witness : exists l l' c t, let data := replicate 1010 7 in
  writei local_in 1 0 0 20 1010 (FState l [ip_short] sb0, data) = Ok 1010 (FState l' c sb0, data) t.
Proof.
  destruct (fs_start dk_map eq_refl dk_map_blk) as (l & L & v & d & T & Ho & Hc & Hh & R & Hv).
  specialize (Hv (0, 45) ltac:(simpl; lia)).
  destruct (writei_writes local_in (replicate 1010 7) 0 (replicate 1010 7) 1 0 (FState l [ip_short] sb0) L v d [] 0 ip_short 1 [45; 32; 46; 48] 20
    (ip_short_writable l L v d T Ho Hh Hv)) as (s' & t & L' & v' & ip' & k' & Hrun & _ & [(l' & -> & _) _ _ _ _ _ _ _] & _).
  { apply local_source; [by vm_compute|]. apply Forall_replicate. unfold byte_ok. lia. }
  exists l, l', (<[0%nat := ip']> [ip_short]), t. exact Hrun.
Defined.
