(* ===== verification/FsDir.v ===== *)
(** * Directory entries (facts about dirlink of kernel/fs.c)

    [dirlink] puts an entry into the first free slot of a directory or at its
    end; [dirlookup] finds it there. *)

From Stdlib Require Import ZArith Lia.
From stdpp Require Import base gmap list strings functions.
From S2P Require Import Prelude CString Sleeplock Bio BioFacts Log LogFacts LogCrash LogTxn Fs FsFacts FsInode FsRead FsFile FsWrite.
Local Open Scope xv6_scope.

(** ** The bytes of an entry *)

Lemma dirent_inum name inum : 0 <= inum < 2 ^ 16 -> de_inum (dirent_bytes name inum) = inum.
Proof.
  intros Hi. unfold de_inum, dirent_bytes, bytes_at. rewrite drop_0, take_app_length' by (by rewrite length_le_bytes).
  rewrite u16_small by done. apply le_val_bytes. done.
Qed.
Lemma dirent_name name inum : de_name (dirent_bytes name inum) = strncpy name DIRSIZ.
Proof.
  unfold de_name, dirent_bytes, bytes_at. rewrite drop_app_length' by (by rewrite length_le_bytes).
  apply firstn_all2. by rewrite strncpy_length.
Qed.
Lemma dirent_length name inum : length (dirent_bytes name inum) = 16%nat.
Proof. unfold dirent_bytes. by rewrite length_app, length_le_bytes, strncpy_length. Qed.

Lemma strncpy_ok t n : Forall byte_ok t -> Forall byte_ok (strncpy t n).
Proof.
  revert t. induction n as [|n IH]; intros t Ht; cbn [strncpy]; constructor.
  - destruct Ht as [|x t Hx _]; [split; cbn; lia|done].
  - destruct (ctrue _); [by apply IH, Forall_drop|]. apply Forall_replicate. split; cbn; lia.
Qed.

(** ** The slots of a directory *)

Lemma dir_offsets_end size : 0 <= size -> size mod DIRENT = 0 -> Z.of_nat (length (dir_offsets size)) * DIRENT = size.
Proof. intros Hs Hm. unfold dir_offsets. rewrite length_fmap, length_seq. unfold DIRENT in *. Z.div_mod_to_equations. lia. Qed.

Lemma dir_offsets_next size : 0 <= size -> size mod DIRENT = 0 -> dir_offsets (size + DIRENT) = dir_offsets size ++ [size].
Proof.
  intros Hs Hm. unfold dir_offsets, DIRENT in *.
  replace (Z.to_nat ((size + 16 + 16 - 1) / 16)) with (S (Z.to_nat ((size + 16 - 1) / 16))) by (Z.div_mod_to_equations; lia).
  rewrite seq_S, fmap_app. f_equal. cbn. f_equal. Z.div_mod_to_equations. lia.
Qed.

Lemma dir_offsets_mod size off : off ∈ dir_offsets size -> off mod DIRENT = 0.
Proof. intros Ho. apply list_elem_of_fmap in Ho as (j & -> & _). by apply Z.mod_mul. Qed.

Lemma find_unique {A} (p : A -> bool) (l : list A) x :
  x ∈ l -> p x = true -> (forall y, y ∈ l -> y <> x -> p y = false) -> EqDecision A -> find p l = Some x.
Proof.
  intros Hx Hp Ho Hdec. induction l as [|y l IH]; [by apply elem_of_nil in Hx|]. cbn [find].
  destruct (decide (y = x)) as [->|Hne]; [by rewrite Hp|]. rewrite Ho by (by left || done). apply IH; [|intros z Hz; apply Ho; by right].
  apply elem_of_cons in Hx as [->|]; done.
Qed.

Lemma find_false {A} (p : A -> bool) (l : list A) x : find p l = None -> x ∈ l -> p x = false.
Proof. intros Hf Hx. apply (find_none p l Hf). by apply list_elem_of_In. Qed.

(** ** Scanning a directory *)

Section Dir.
Context (me dev : Z) (s0 : fstate) (d : Z * Z -> list Z) (hs : list (Z * Z)) (i : nat).
Let sb : superblock := fsb s0.
Context (Hsb : sb_ok sb) (Hlen : (i < length (inodes s0))%nat).
Context (H : list Z) (Hlog : Z.of_nat (length H) + 1 < i32 (sb_nlog sb))
  (Hbuf : Z.of_nat (length H) + Z.of_nat (length hs) + 4 <= Z.of_nat NBUF).
Local Abbreviation wfile := (wfile me dev s0 d hs i H).

(** A directory: its entries fill its size, which its blocks cover. *)
Record is_dir (s : fstate) (L : log) (v : Z * Z -> list Z) (ip : inode) (k : nat) : Prop := {
  dr_file : wfile s L v ip k;
  dr_type : i_type ip = T_DIR;
  dr_size : 0 <= i_size ip <= Z.of_nat k * BSZ;
  dr_mod : i_size ip mod DIRENT = 0
}.

(** Reading it changes nothing but the cache. *)
Lemma is_dir_reads s L v ip k s' : is_dir s L v ip k -> reads me dev s L v d hs s' -> is_dir s' L v ip k.
Proof.
  intros [W H1 H2 H3] (l & -> & T & _). constructor; try done. eapply wfile_flog; [exact W|].
  destruct (w_state _ _ _ _ _ _ _ _ _ _ _ _ W) as (? & -> & _). exact T.
Qed.

Section Scan.
Context (s : fstate) (L : log) (v : Z * Z -> list Z) (ip : inode) (k : nat) (D : is_dir s L v ip k).

Lemma dir_reads : reads me dev s L v d hs s.
Proof.
  destruct (w_state _ _ _ _ _ _ _ _ _ _ _ _ (dr_file _ _ _ _ _ D)) as (l & -> & T). exists l.
  split; [done|]. split; [done|apply keeps_refl].
Qed.
Lemma dir_entry : inodes s !! i = Some ip /\ i_dev ip = dev /\ fsb s = sb /\ room 1 3 L hs.
Proof.
  destruct (dr_file _ _ _ _ _ D) as [(l & -> & T) Ho Hh Hf _ _ _ _]. split; [by apply list_lookup_insert_eq|].
  split; [apply Hf|]. split; [done|]. eapply H_txn_room; try done; lia.
Qed.
Lemma dir_small : i_size ip < 2 ^ 31.
Proof.
  pose proof (fo_max _ _ (w_file _ _ _ _ _ _ _ _ _ _ _ _ (dr_file _ _ _ _ _ D))) as Hm. pose proof (dr_size _ _ _ _ _ D) as Hs.
  cbn [snd] in Hm. unfold NDIRECT, NINDIRECT in Hm. change BSZ with 1024 in Hs. lia.
Qed.
Lemma dir_mapped o : 0 <= o < i_size ip -> mapped dev s v hs ip (o / BSZ).
Proof.
  intros Ho. pose proof (dr_size _ _ _ _ _ D). eapply wfile_mapped; [done..|apply D|lia].
Qed.
Lemma dir_slot off : off ∈ dir_offsets (i_size ip) -> 0 <= off /\ off + DIRENT <= i_size ip.
Proof. apply dir_offsets_elem; apply D. Qed.

(** [dirlookup], as a search of the entries. *)
Lemma dirlookup_search name : Forall byte_ok name ->
  exists s' t, is_dir s' L v ip k /\ disk_writes t = [] /\
    dirlookup me i name s = after t ((match find (entry_match v ip name) (dir_offsets (i_size ip)) with
       | None => ret None
       | Some off => j <- iget dev (de_inum (entry v ip off)) ;; ret (Some (j, off))
       end) s').
Proof.
  intros Hn. destruct dir_entry as (Hi & Hdev & Esb & R).
  destruct (dirlookup_scan me dev s L v d hs 1 3 ltac:(by rewrite Esb) R ltac:(lia) ltac:(lia) i ip Hi Hdev dir_small dir_mapped
    name (dir_offsets (i_size ip)) s Hn dir_slot dir_reads) as (s' & t & Rd & Ht & Hrun).
  exists s', t. split; [by eapply is_dir_reads|]. split; [done|]. rewrite <- Hdev, <- Hrun. unfold dirlookup.
  unfold bind at 1, ideref, fetch. rewrite Hi, (dr_type _ _ _ _ _ D). cbn [negb Z.eqb T_DIR]. apply after_nil.
Qed.
End Scan.

(** The loop of [dirlink] finds the first free entry. *)
Definition free_entry (v : Z * Z -> list Z) (ip : inode) (off : Z) : bool := de_inum (entry v ip off) =? 0.

Lemma free_scan L v ip k l s (Q : option Z -> fstate -> Prop) :
  is_dir s L v ip k -> (forall off, off ∈ l -> off ∈ dir_offsets (i_size ip)) ->
  (forall s', is_dir s' L v ip k -> Q (find (free_entry v ip) l) s') ->
  fwp (for_each l (fun off =>
         r <- readi_local me i off DIRENT dirent0 ;;
         if negb (fst r =? DIRENT) then panic "dirlink read"
         else if de_inum (snd r) =? 0 then ret (inr off)
         else ret (inl tt))) s Q.
Proof.
  revert s. induction l as [|off l IH]; intros s D Hl HQ; cbn [for_each find]; [apply fwp_ret; by apply HQ|].
  destruct (dir_entry _ _ _ _ _ D) as (Hi & Hdev & Esb & R). destruct (dir_slot _ _ _ _ _ D off (Hl off ltac:(by left))) as [H1 H2].
  fstep. fstep. eapply (read_entry me dev s L v d hs 1 3); try done; try lia; [by rewrite Esb|by eapply dir_small|by eapply dir_mapped|by eapply dir_reads|].
  intros s' Rd. pose proof (is_dir_reads _ _ _ _ _ _ D Rd) as D'. cbn [fst snd]. rewrite Z.eqb_refl. cbn [negb].
  cbn [find] in HQ. unfold free_entry in HQ at 1. destruct (de_inum (entry v ip off) =? 0).
  - fstep. fstep. by apply HQ.
  - fstep. apply IH; [done|intros o Ho; apply Hl; by right|done].
Qed.
End Dir.

(** ** The entries after a write *)

(** A byte of the file outside the ones written. *)
Lemma written_byte dev s data v ip k off v' ip' k' a :
  written dev s data v ip k off v' ip' k' -> 0 <= off <= i_size ip -> 0 <= a < i_size ip ->
  ~ off <= a < off + Z.of_nat (length data) -> file_byte v' ip' a = file_byte v ip a.
Proof.
  intros [[al E] _ Hb _ _ _] Hoff Ha Hne. cbv zeta in Hb. set (old := file_bytes v ip 0 (Z.to_nat (i_size ip))) in *.
  assert (i_size ip' = Z.max (i_size ip) (off + Z.of_nat (length data))) as Hs by (by rewrite E).
  assert (forall w jp m, (Z.to_nat a < m)%nat -> nth (Z.to_nat a) (file_bytes w jp 0 m) 0 = file_byte w jp a) as Hnth.
  { intros w jp m Hm. unfold file_bytes. rewrite nth_lookup, list_lookup_fmap, lookup_seq_lt by done. cbn. f_equal. lia. }
  rewrite <- (Hnth v' ip' (Z.to_nat (i_size ip'))), Hb, <- (Hnth v ip (Z.to_nat (i_size ip))) by lia. fold old.
  assert (length old = Z.to_nat (i_size ip)) as Hl by (unfold old, file_bytes; by rewrite length_fmap, length_seq).
  rewrite !nth_lookup. f_equal. destruct (decide (a < off)).
  - rewrite lookup_app_l by (rewrite length_take; lia). by rewrite lookup_take_lt by lia.
  - rewrite !lookup_app_r by (rewrite ?length_take; lia). rewrite lookup_drop, length_take. f_equal. lia.
Qed.

Lemma entry_other dev s data v ip k off v' ip' k' o :
  written dev s data v ip k off v' ip' k' -> length data = 16%nat -> 0 <= off <= i_size ip -> off mod DIRENT = 0 ->
  o mod DIRENT = 0 -> 0 <= o -> o + DIRENT <= i_size ip -> o <> off -> entry v' ip' o = entry v ip o.
Proof.
  intros Wn Hl Hoff Hm Hmo H0 Ho Hne. apply list_fmap_ext. intros ? j Hj%lookup_seq. unfold DIRENT in *.
  eapply written_byte; [exact Wn|done|lia|]. rewrite Hl. Z.div_mod_to_equations. lia.
Qed.

Lemma entry_new dev s name inum v ip k off v' ip' k' :
  written dev s (dirent_bytes name inum) v ip k off v' ip' k' -> 0 <= off <= i_size ip -> 0 < inum < 2 ^ 16 -> Forall byte_ok name ->
  entry v' ip' off = dirent_bytes name inum /\ entry_match v' ip' name off = true.
Proof.
  intros Wn Hoff Hi Hn. assert (entry v' ip' off = dirent_bytes name inum) as E.
  { pose proof (written_data _ _ _ _ _ _ _ _ _ _ Wn Hoff) as E. by rewrite dirent_length in E. }
  split; [done|]. unfold entry_match. rewrite E, dirent_inum, dirent_name, strncpy_cstr by lia.
  rewrite (proj2 (Z.eqb_neq _ 0)) by lia. cbn [negb andb]. apply bool_decide_eq_true_2. by rewrite take_take, Nat.min_id.
Qed.

(** Where [dirlink] puts the entry: a slot, or the end. *)
Lemma dirlink_slot size off : 0 <= size -> size mod DIRENT = 0 -> off ∈ dir_offsets size \/ off = size ->
  0 <= off <= size /\ off mod DIRENT = 0.
Proof.
  intros Hs Hm [Hoff| ->]; [|split; [lia|done]]. pose proof (dir_offsets_mod _ _ Hoff).
  apply dir_offsets_elem in Hoff; [|done|done]. unfold DIRENT in *. split; [lia|done].
Qed.

(** The new entry is the only one with the name. *)
Lemma dirlink_found dev s name inum v ip k off v' ip' k' :
  written dev s (dirent_bytes name inum) v ip k off v' ip' k' -> 0 < inum < 2 ^ 16 -> Forall byte_ok name ->
  0 <= i_size ip -> i_size ip mod DIRENT = 0 -> off ∈ dir_offsets (i_size ip) \/ off = i_size ip ->
  find (entry_match v ip name) (dir_offsets (i_size ip)) = None ->
  find (entry_match v' ip' name) (dir_offsets (i_size ip')) = Some off.
Proof.
  intros Wn Hi Hn Hs Hm Hoff Hnone. pose proof Wn as [[al E] _ _ _ _ _]. rewrite dirent_length in E.
  assert (i_size ip' = Z.max (i_size ip) (off + DIRENT)) as Hs' by (by rewrite E). unfold DIRENT in Hs'.
  destruct (dirlink_slot _ _ Hs Hm Hoff) as [Hr Hom].
  assert (dir_offsets (i_size ip') = dir_offsets (i_size ip) /\ off ∈ dir_offsets (i_size ip) \/
    dir_offsets (i_size ip') = dir_offsets (i_size ip) ++ [off]) as Hd.
  { destruct Hoff as [Hoff|Hoff].
    - left. split; [|done]. apply dir_offsets_elem in Hoff as [_ Hoff]; [|done|done]. unfold DIRENT in Hoff. f_equal. lia.
    - right. rewrite Hoff, <- dir_offsets_next by done. f_equal. unfold DIRENT. lia. }
  apply find_unique; [|by eapply entry_new| |apply _].
  - destruct Hd as [[-> Hin]| ->]; [done|]. apply elem_of_app. right. by left.
  - intros o Ho Hne. assert (o ∈ dir_offsets (i_size ip)) as Hin.
    { destruct Hd as [[E' _]|E']; rewrite E' in Ho; [done|]. apply elem_of_app in Ho as [|Ho]; [done|]. by apply list_elem_of_singleton in Ho. }
    rewrite <- (find_false _ _ o Hnone Hin). pose proof (dir_offsets_elem _ _ Hm Hs Hin) as [H1 H2].
    unfold entry_match. erewrite entry_other; try done; [apply dirent_length|by eapply dir_offsets_mod].
Qed.

(** ** dirlink *)

Lemma dirlink_spec me dev s L v d hs i ip k H name inum (Q : Z -> fstate -> Prop) :
  let off := default (i_size ip) (find (free_entry v ip) (dir_offsets (i_size ip))) in
  can_write me dev s L v d hs i ip k H off DIRENT -> is_dir me dev s d hs i H s L v ip k ->
  Forall byte_ok name -> find (entry_match v ip name) (dir_offsets (i_size ip)) = None ->
  (forall s' L' v' ip' k', wfile me dev s d hs i H s' L' v' ip' k' -> written dev s (dirent_bytes name inum) v ip k off v' ip' k' -> Q 0 s') ->
  fwp (dirlink me i name inum) s Q.
Proof.
  intros off [[Hsb Hi Hlog Hbuf Hbm (Hin & Hihs & HiH) _] Hsz Hoff R] D Hn Hnone HQ.
  destruct (dirlookup_search me dev s d hs i Hsb Hi H Hlog Hbuf s L v ip k D name Hn) as (s1 & t1 & D1 & Ht1 & Hrun).
  rewrite Hnone in Hrun. unfold dirlink. fstep. unfold fwp at 1. eapply wp_eq; [rewrite Hrun; reflexivity|]. rewrite app_nil_r.
  split; [done|]. destruct (dir_entry me dev s d hs i Hi H Hlog Hbuf s1 L v ip k D1) as (Hi1 & _).
  fstep. eapply f_ideref; [exact Hi1|]. fstep.
  eapply (free_scan me dev s d hs i Hsb Hi H Hlog Hbuf L v ip k); [exact D1|done|]. intros s2 D2. cbv zeta.
  pose proof (dr_size _ _ _ _ _ _ _ _ _ _ _ _ D) as Hds. rewrite dir_offsets_end by (apply D || lia). fold off. fstep.
  unfold writei_local. apply wp_with_local.
  replace DIRENT with (Z.of_nat (length (dirent_bytes name inum))) by (by rewrite dirent_length).
  eapply (writei_spec me dev s d hs i Hsb Hi H Hlog Hbuf Hbm local_in (dirent_bytes name inum) 0 (dirent_bytes name inum));
    rewrite ?dirent_length; try done.
  - apply local_source; [by rewrite dirent_length|]. apply Forall_app. split; [apply le_bytes_ok|by apply strncpy_ok].
  - apply D2.
  - intros s' L' v' ip' k' W Wn. split; [done|]. by eapply HQ.
Qed.

(** C9: adding a name that is not there to a directory.  [dirlink] stores the
    name and the inode number in the first free entry, or in a new one at the
    end, for which the directory grows, by a block if need be.  The other
    entries stay as they are and the directory stays well formed; nothing is
    written to the disk yet.  [dirlookup] of the name then behaves as [iget] of
    the inode, paired with the offset of the entry. *)
Theorem dirlink_dirlookup me dev s L v d hs i ip k H name inum :
  let off := default (i_size ip) (find (free_entry v ip) (dir_offsets (i_size ip))) in
  can_write me dev s L v d hs i ip k H off DIRENT -> i_type ip = T_DIR -> i_size ip mod DIRENT = 0 ->
  Forall byte_ok name -> 0 < inum < 2 ^ 16 -> find (entry_match v ip name) (dir_offsets (i_size ip)) = None ->
  exists s' t L' v' ip' k', dirlink me i name inum s = Ok 0 s' t /\ disk_writes t = [] /\
    is_dir me dev s d hs i H s' L' v' ip' k' /\ written dev s (dirent_bytes name inum) v ip k off v' ip' k' /\
    (forall o, o ∈ dir_offsets (i_size ip) -> o <> off -> entry v' ip' o = entry v ip o) /\
    exists s'' t', is_dir me dev s d hs i H s'' L' v' ip' k' /\ disk_writes t' = [] /\
      dirlookup me i name s' = after t' ((j <- iget dev inum ;; ret (Some (j, off))) s'').
Proof.
  intros off C Hty Hm Hn Hi Hnone. pose proof C as [[Hsb He Hlog Hbuf _ _ W] Hsz Hoff _].
  assert (is_dir me dev s d hs i H s L v ip k) as D by (constructor; try done; lia).
  assert (fwp (dirlink me i name inum) s (fun r s' => r = 0 /\ exists L' v' ip' k', wfile me dev s d hs i H s' L' v' ip' k' /\
    written dev s (dirent_bytes name inum) v ip k off v' ip' k')) as Hr.
  { eapply dirlink_spec; try done. intros s' L' v' ip' k' W' Wn. split; [done|]. by exists L', v', ip', k'. }
  apply fwp_run in Hr as (r & s' & t & Hrun & Ht & -> & L' & v' & ip' & k' & W' & Wn).
  assert (off ∈ dir_offsets (i_size ip) \/ off = i_size ip) as Ho.
  { unfold off. destruct (find _ _) as [o|] eqn:E; [left|by right]. apply find_some in E as [E _]. by apply list_elem_of_In. }
  assert (is_dir me dev s d hs i H s' L' v' ip' k') as D'.
  { pose proof Wn as [[al E] Ek _ _ _ _]. rewrite dirent_length in E, Ek.
    assert (i_size ip' = Z.max (i_size ip) (off + DIRENT)) as Es by (by rewrite E). change (Z.of_nat 16) with DIRENT in Ek.
    pose proof (nblk_covers (off + DIRENT) ltac:(unfold DIRENT; lia)) as Hc. constructor; [done|by rewrite E| |].
    - rewrite Es. unfold DIRENT in *. change BSZ with 1024 in *. lia.
    - rewrite Es. destruct Ho as [Ho| ->].
      + apply dir_offsets_elem in Ho as [_ Ho]; [|done|lia]. by rewrite Z.max_l by done.
      + unfold DIRENT in *. Z.div_mod_to_equations. lia. }
  exists s', t, L', v', ip', k'. split; [done|]. split; [done|]. split; [done|]. split; [done|]. split.
  - intros o Hin Hne. pose proof (dir_offsets_elem _ _ Hm ltac:(lia) Hin) as [H1 H2].
    eapply entry_other; try done; [apply dirent_length|by apply (dirlink_slot (i_size ip)); [lia|..]|by eapply dir_offsets_mod].
  - destruct (dirlookup_search me dev s d hs i Hsb He H Hlog Hbuf s' L' v' ip' k' D' name Hn) as (s2 & t2 & D2 & Ht2 & Hrun2).
    rewrite (dirlink_found _ _ _ _ _ _ _ _ _ _ _ Wn) in Hrun2 by (done || lia).
    exists s2, t2. split; [done|]. split; [done|]. rewrite Hrun2.
    destruct (entry_new _ _ _ _ _ _ _ _ _ _ _ Wn Hoff Hi Hn) as [-> _]. by rewrite dirent_inum by lia.
Qed.

(** An empty directory: the first entry goes to a new block. *)
Definition ip_dir : inode := Inode 0 1 1 initsleeplock 1 T_DIR 0 0 1 0 (replicate 13 0).

Lemma ip_dir_writable l L v d :
  txn 1 0 sb0 l L v d [] -> outstanding L = 1 -> homes L = [] -> v (0, 45) = disk_block dk_map (0, 45) ->
  can_write 1 0 (FState l [ip_dir] sb0) L v d [] 0 ip_dir 0 [45; 32; 48] 0 DIRENT.
Proof.
  intros T Ho Hh Hv. constructor; [apply dk_map_change; try done; try (by apply (bool_decide_eq_true_1 _))|by vm_compute..|].
  - constructor; cbn [fst snd]; try done; [|lia|intros j Hj|lia].
    + constructor; first [done|repeat constructor; lia].
    + apply (nth_replicate_zero 13).
  - intros b Hb. by apply elem_of_nil in Hb.
  - constructor; [by vm_compute|apply Nat.leb_le; by vm_compute|lia|lia|].
    exists [48], (seqZ 49 951). split; [by apply dk_map_free|]. split; [set_solver|]. by vm_compute.
Qed.

Lemma dirlink_dirlookup_witness : exists l l' c t,
  dirlink 1 0 [97; 0] 2 (FState l [ip_dir] sb0) = Ok 0 (FState l' c sb0) t.
Proof.
  destruct (fs_start dk_map eq_refl dk_map_blk) as (l & L & v & d & T & Ho & Hc & Hh & R & Hv).
  specialize (Hv (0, 45) ltac:(simpl; lia)).
  destruct (dirlink_dirlookup 1 0 (FState l [ip_dir] sb0) L v d [] 0 ip_dir 0 [45; 32; 48] [97; 0] 2
    (ip_dir_writable l L v d T Ho Hh Hv) eq_refl eq_refl ltac:(by repeat constructor) ltac:(lia) eq_refl)
    as (s' & t & L' & v' & ip' & k' & Hrun & _ & [[(l' & -> & _) _ _ _ _ _ _ _] _ _ _] & _).
  exists l, l', (<[0%nat := ip']> [ip_dir]), t. exact Hrun.
Defined.
