(* ===== verification/FsTrunc.v ===== *)
(** * Truncating files (facts about itrunc of kernel/fs.c)

    [itrunc] frees the blocks of a file, all of them and no others, and leaves
    an empty file. *)

From Stdlib Require Import ZArith Lia.
From stdpp Require Import base gmap list strings functions.
From S2P Require Import Prelude CString Sleeplock Bio BioFacts Log LogFacts LogCrash LogTxn Fs FsFacts FsInode FsRead FsFile FsWrite.
Local Open Scope xv6_scope.

#[local] Arguments word _ _ : simpl never.
#[local] Arguments u32 _ : simpl never.

(** An inode whose first [n] addresses are cleared. *)
Definition cleared (n : nat) (ip : inode) : inode := with_addrs (replicate n 0 ++ drop n (i_addrs ip)) ip.

Lemma cleared_O ip : cleared 0 ip = ip.
Proof. by destruct ip. Qed.

Lemma cleared_nth n m ip : (m <= n)%nat -> nth n (i_addrs (cleared m ip)) 0 = nth n (i_addrs ip) 0.
Proof.
  intros H. cbn [i_addrs cleared with_addrs]. rewrite app_nth2; rewrite length_replicate; [|lia].
  rewrite !nth_lookup, lookup_drop. do 2 f_equal. lia.
Qed.

Lemma cleared_S n ip : (n < length (i_addrs ip))%nat -> set_addr n 0 (cleared n ip) = cleared (S n) ip.
Proof.
  intros H. unfold cleared, with_addrs, set_addr. cbn [i_addrs i_dev i_inum i_ref i_lock i_valid i_type i_major i_minor i_nlink i_size]. f_equal.
  destruct (lookup_lt_is_Some_2 (i_addrs ip) n H) as [x Hx]. rewrite (drop_S _ _ _ Hx).
  rewrite insert_app_r_alt, length_replicate, Nat.sub_diag by (rewrite length_replicate; lia). cbn [insert list_insert].
  rewrite replicate_S_end, <- (assoc_L (++)). done.
Qed.

(** Clearing an address that is clear. *)
Lemma cleared_skip n ip : (n < length (i_addrs ip))%nat -> nth n (i_addrs ip) 0 = 0 -> cleared (S n) ip = cleared n ip.
Proof.
  intros H E. unfold cleared. f_equal. destruct (lookup_lt_is_Some_2 (i_addrs ip) n H) as [x Hx].
  rewrite (drop_S _ _ _ Hx), replicate_S_end, <- (assoc_L (++)). rewrite nth_lookup, Hx in E. cbn in E. by rewrite E.
Qed.

Lemma cleared_ok n ip : inode_ok ip -> (n <= S NDIRECT)%nat -> inode_ok (cleared n ip).
Proof.
  intros [? ? ? ? ? Hl Ha] Hn. constructor; try done; cbn [cleared with_addrs i_addrs].
  - rewrite length_app, length_replicate, length_drop. lia.
  - apply Forall_app. split; [apply Forall_replicate; lia|by apply Forall_drop].
Qed.

Lemma seq_middle m (pre : list nat) n rest : seq 0 m = pre ++ n :: rest -> n = length pre /\ (n < m)%nat.
Proof.
  intros Hseq. assert (seq 0 m !! length pre = Some n) as Hl by (rewrite Hseq, lookup_app_r, Nat.sub_diag; done).
  apply lookup_seq in Hl. lia.
Qed.

Section Trunc.
Context (me dev : Z) (s0 : fstate) (d : Z * Z -> list Z) (hs : list (Z * Z)) (i : nat).
Let sb : superblock := fsb s0.
Context (Hsb : sb_ok sb) (Hlen : (i < length (inodes s0))%nat).
Context (H : list Z) (Hlog : Z.of_nat (length H) + 1 < i32 (sb_nlog sb))
  (Hbuf : Z.of_nat (length H) + Z.of_nat (length hs) + 4 <= Z.of_nat NBUF).
Context (Hbm : forall b, 0 <= b < sb_size sb -> (dev, BBLOCK b sb) ∉ hs /\ BBLOCK b sb ∈ H).
Context (v : Z * Z -> list Z).

(** The blocks [G] have been freed, nothing but the free map has changed, and
    the inode is [ip']. *)
Definition freed (hs' : list (Z * Z)) (l0 : lstate) (L0 : log) (G : list Z) (ip' : inode) (s' : fstate) : Prop :=
  exists l L' v', s' = FState l (<[i := ip']> (inodes s0)) sb /\ txn me dev sb l L' v' d hs' /\
    1 <= outstanding L' /\ homes L' ⊆ H /\ homes L0 ⊆ homes L' /\ keeps hs' l0 l /\
    (forall b, 0 <= b < sb_size sb -> marked dev sb v' b = negb (bool_decide (b ∈ G)) && marked dev sb v b) /\
    (forall key, fst key <> dev \/ ~ is_bitmap s0 (snd key) -> v' key = v key).

Lemma bfree_run hs' l0 L0 G ip' s' b (Q : unit -> fstate -> Prop) :
  freed hs' l0 L0 G ip' s' -> (forall b, 0 <= b < sb_size sb -> (dev, BBLOCK b sb) ∉ hs') ->
  Z.of_nat (length H) + Z.of_nat (length hs') + 3 <= Z.of_nat NBUF ->
  0 <= b < sb_size sb -> marked dev sb v b = true -> b ∉ G ->
  (forall s'', freed hs' l0 L0 (G ++ [b]) ip' s'' -> Q tt s'') -> fwp (bfree me dev b) s' Q.
Proof.
  intros (l & L & v1 & -> & T & Ho & Hh & Hh0 & K & Hm & Hv) Hb' Hsp Hb Hmb HG HQ. destruct (Hbm b Hb) as [_ HbH].
  pose proof (BBLOCK_range sb Hsb b Hb) as Hbr. pose proof (so_size sb Hsb) as Hsz. pose proof (datastart_pos sb Hsb) as Hds.
  pose proof (sb_small sb Hsb) as Hsm. pose proof (so_bmap sb Hsb) as Hbo. pose proof (tx_ok _ _ _ _ _ _ _ _ T) as Hok.
  destruct (H_add me dev s0 d hs i Hsb Hlen H Hlog Hbuf l L v1 hs' _ T Hh HbH ltac:(fold sb; lia)) as (Hh1 & Ho1 & _ & _).
  pose proof (H_txn_room me dev s0 d hs i Hlen H Hlog l L v1 hs' 2 T Ho Hh ltac:(lia)) as R.
  eapply (bfree_spec me dev (FState l (<[i := ip']> (inodes s0)) sb) L v1 d hs' 1 2); try done; try lia.
  { rewrite Hm, Hmb by done. by rewrite bool_decide_eq_false_2. }
  intros l' T' K'. apply HQ. exists l', (log_add (BBLOCK b sb) L), (freed_view dev sb b v1).
  split; [done|]. split; [exact T'|]. split; [by rewrite Ho1|]. split; [done|]. split; [|split; [|split]].
  - intros y Hy. assert (home dev (log_add (BBLOCK b sb) L) (dev, y)) as [_ Hy'].
    { apply log_add_home; [done| |left; by split; [|apply Hh0]].
      pose proof (homes_bound L H Hok Hh). unfold NBUF in Hbuf. unfold LOGSIZE. lia. }
    done.
  - by eapply keeps_trans.
  - intros y Hy. rewrite freed_marked, Hm by (try done; by eapply txn_blk_ok).
    destruct (Z.eqb_spec b y) as [<-|Hne].
    + rewrite (bool_decide_eq_true_2 (b ∈ G ++ [b])) by set_solver. done.
    + rewrite (bool_decide_ext (y ∈ G ++ [b]) (y ∈ G)) by set_solver. by destruct (bool_decide _).
  - intros key Hkey. unfold freed_view. rewrite fn_lookup_insert_ne; [by apply Hv|]. intros <-. cbn [fst snd] in Hkey.
    unfold is_bitmap in Hkey. fold sb in Hkey. destruct Hkey; [done|]. lia.
Qed.

(** *** The loops *)

Section File.
Context (s : fstate) (L : log) (ip : inode) (k : nat) (W : wfile me dev s0 d hs i H s L v ip k).

(** The first [n] data blocks. *)
Definition data (n : nat) : list Z := baddr v ip <$> seq 0 (Nat.min n k).

Lemma data_skip n : (k <= n)%nat -> data (S n) = data n.
Proof. intros Hn. unfold data. by replace (Nat.min (S n) k) with (Nat.min n k) by lia. Qed.

Lemma data_S n : (n < k)%nat -> data (S n) = data n ++ [baddr v ip n] /\ baddr v ip n ∉ data n.
Proof.
  intros Hn. unfold data. replace (Nat.min (S n) k) with (S n) by lia. replace (Nat.min n k) with n by lia. split.
  - by rewrite seq_S, fmap_app.
  - intros Hin. apply list_elem_of_fmap in Hin as (j & E & Hj). apply elem_of_seq in Hj.
    apply (baddr_inj v ip k) in E; [lia|apply W|done|lia].
Qed.

Lemma block_used b : b ∈ blocks v (ip, k) -> datastart sb <= b < sb_size sb /\ marked dev sb v b = true /\ b <> 0 /\ ~ is_bitmap s0 b.
Proof.
  intros Hb. destruct (w_data _ _ _ _ _ _ _ _ _ _ _ _ W b Hb) as (Hr & Hm & _). pose proof (datastart_pos sb Hsb).
  split; [done|]. split; [done|]. split; [fold sb in Hr; lia|]. unfold is_bitmap. fold sb in Hr |- *. lia.
Qed.
Lemma data_used n : (n < k)%nat -> datastart sb <= baddr v ip n < sb_size sb /\ marked dev sb v (baddr v ip n) = true /\
  baddr v ip n <> 0 /\ ~ is_bitmap s0 (baddr v ip n).
Proof. intros Hn. apply block_used, (blocks_data v (ip, k) n Hn). Qed.

Lemma trunc_direct (Q : unit -> fstate -> Prop) :
  (forall s', freed hs (flog s) L (data NDIRECT) (cleared NDIRECT ip) s' -> Q tt s') ->
  fwp (for_all (seq 0 NDIRECT) (fun n =>
    ip <- ideref i ;;
    if ctrue (nth n (i_addrs ip) 0) then
      bfree me (i_dev ip) (nth n (i_addrs ip) 0) ;;;
      iassign i (set_addr n 0)
    else ret tt)) s Q.
Proof.
  intros HQ. pose proof W as [(l & Es & T) Ho Hh [Hi Hdev _ Hdir _ _] _ _ _ _]. cbn [fst snd] in *. pose proof (datastart_pos sb Hsb) as Hds.
  eapply fwp_mono; [apply (fwp_for_all _ (fun done s' => freed hs (flog s) L (data (length done)) (cleared (length done) ip) s'))|].
  - exists l, L, v. cbn [length]. rewrite cleared_O. rewrite Es. split; [done|]. split; [done|]. split; [done|]. split; [done|]. split; [done|].
    split; [apply keeps_refl|]. split; [|done]. intros b _. by rewrite bool_decide_eq_false_2 by (apply not_elem_of_nil).
  - intros pre n rest s' Hseq F. assert (n = length pre /\ (n < NDIRECT)%nat) as [-> Hn].
    { by eapply seq_middle. }
    rewrite length_app. cbn [length]. rewrite Nat.add_1_r. set (n := length pre) in *. 
    pose proof (io_len _ Hi) as Hla. pose proof F as (l1 & L1 & v1 & Es1 & _).
    fstep. eapply f_ideref; [rewrite Es1; by apply list_lookup_insert_eq|]. rewrite cleared_nth by done.
    cbn [i_dev cleared with_addrs]. rewrite Hdev. destruct (decide (n < k)%nat) as [Hk|Hk].
    + destruct (data_used n Hk) as (Hr & Hm & Hz & _). destruct (data_S n Hk) as [Ed Hnin]. rewrite Ed.
      rewrite <- (baddr_direct v) by done. unfold ctrue. rewrite (proj2 (Z.eqb_neq _ 0)) by done. cbn [negb]. fstep.
      eapply (bfree_run hs (flog s) L (data n)); [exact F|by intros b Hb; apply Hbm|lia|lia|done|done|].
      intros s2 (l2 & L2 & v2 & -> & Rest). eapply f_iassign; [by apply list_lookup_insert_eq|].
      cbn [inodes set_inodes]. rewrite list_insert_insert_eq, cleared_S by lia. by exists l2, L2, v2.
    + rewrite Hdir by lia. unfold ctrue. cbn [Z.eqb negb]. fstep. rewrite data_skip, cleared_skip; [done|lia|apply Hdir; lia|lia].
  - intros [] s' F. apply HQ. by rewrite length_seq in F.
Qed.

(** The slots of the indirect block, which [bp] holds. *)
Lemma trunc_slots s' bp l0 L0 (Q : unit -> fstate -> Prop) :
  let ind := iaddr ip in
  let hs' := (dev, ind) :: hs in
  (NDIRECT < k)%nat -> is_buf (lbio l0) bp (dev, ind) -> freed hs' l0 L0 (data NDIRECT) (cleared NDIRECT ip) s' ->
  (forall s'', freed hs' l0 L0 (data k) (cleared NDIRECT ip) s'' -> Q tt s'') ->
  fwp (for_all (seq 0 NINDIRECT) (fun j =>
       d <- bdata bp ;;
       if ctrue (word j d) then bfree me dev (word j d) else ret tt)) s' Q.
Proof.
  intros ind hs' Hk Hb F0 HQ. pose proof W as [_ _ _ [_ Hdev Hmax _ _ Hsl] _ Hdata _ _]. cbn [fst snd] in *.
  pose proof (datastart_pos sb Hsb) as Hds. destruct (block_used ind (blocks_ind v (ip, k) Hk)) as (Hri & _ & _ & Hnb).
  eapply fwp_mono; [apply (fwp_for_all _ (fun done s' => freed hs' l0 L0 (data (NDIRECT + length done)) (cleared NDIRECT ip) s'))|].
  - cbn [length]. by rewrite Nat.add_0_r.
  - intros pre j rest s1 Hseq F. apply seq_middle in Hseq as [-> Hj]. rewrite length_app. cbn [length].
    rewrite Nat.add_1_r, Nat.add_succ_r. set (j := length pre) in *.
    pose proof F as (l1 & L1 & v1 & Es1 & T1 & _ & _ & _ & K1 & _ & Hv1). 
    fstep. eapply (f_bdata me dev s1 L1 v1 d hs'); [rewrite Es1; exact T1|rewrite Es1; by apply K1; [left|]|].
    rewrite (Hv1 (dev, ind)) by (by right). destruct (decide (NDIRECT + j < k)%nat) as [Hjk|Hjk].
    + destruct (data_used _ Hjk) as (Hr & Hm & Hz & _). destruct (data_S _ Hjk) as [Ed Hnin]. rewrite Ed.
      assert (word j (v (dev, ind)) = baddr v ip (NDIRECT + j)) as ->.
      { rewrite (baddr_indirect (dev:=dev)) by (done || lia). by replace (NDIRECT + j - NDIRECT)%nat with j by lia. }
      unfold ctrue. rewrite (proj2 (Z.eqb_neq _ 0)) by done. cbn [negb].
      eapply (bfree_run hs' l0 L0 (data (NDIRECT + j))); [exact F| |unfold hs'; cbn [length]; lia|lia|done|done|done].
      intros b Hbb. pose proof (BBLOCK_range sb Hsb b Hbb). apply not_elem_of_cons. split; [intros [=]; lia|by apply Hbm].
    + rewrite Hsl by lia. unfold ctrue. cbn [Z.eqb negb]. fstep. by rewrite data_skip by lia.
  - intros [] s1 F. apply HQ. rewrite length_seq in F. unfold data in *. by replace (Nat.min k k) with (Nat.min (NDIRECT + NINDIRECT) k) by lia.
Qed.

Lemma trunc_indirect s' l0 L0 (Q : unit -> fstate -> Prop) :
  (NDIRECT < k)%nat -> freed hs l0 L0 (data NDIRECT) (cleared NDIRECT ip) s' ->
  (forall s'' l0 L0, freed hs l0 L0 (blocks v (ip, k)) (cleared (S NDIRECT) ip) s'' -> Q tt s'') ->
  fwp (bp <- bread_ me dev (iaddr ip) ;;
       for_all (seq 0 NINDIRECT) (fun j =>
         d <- bdata bp ;;
         if ctrue (word j d) then bfree me dev (word j d) else ret tt) ;;;
       brelse_ me bp ;;;
       bfree me dev (iaddr ip) ;;;
       iassign i (set_addr NDIRECT 0)) s' Q.
Proof.
  intros Hk (l1 & L1 & v1 & -> & T1 & Ho1 & Hh1 & _ & K1 & Hm1 & Hv1) HQ. set (ind := iaddr ip).
  pose proof (datastart_pos sb Hsb) as Hds. destruct (block_used ind (blocks_ind v (ip, k) Hk)) as (Hri & Hmi & Hzi & Hnb).
  destruct (w_data _ _ _ _ _ _ _ _ _ _ _ _ W ind (blocks_ind v (ip, k) Hk)) as (_ & _ & Hhi).
  assert (~ in_log dev L1 (dev, ind)) as Hnl by (eapply not_in_log; [exact Hsb|exact T1|lia]).
  pose proof (txn_unlocked _ _ _ _ _ _ _ _ _ T1 Hnl Hhi) as Hcl.
  assert (ind ∉ data k /\ blocks v (ip, k) = data k ++ [ind]) as [Hnd Hbl].
  { pose proof (w_nodup _ _ _ _ _ _ _ _ _ _ _ _ W) as Hn. unfold blocks in *. cbn [fst snd] in *.
    rewrite (proj2 (Nat.ltb_lt _ _) Hk) in *. unfold data. rewrite Nat.min_id. split; [|done].
    apply list.NoDup_app in Hn as (_ & Hn & _). intros Hin. apply (Hn _ Hin). by left. }
  fstep. eapply (f_bread' me dev (FState l1 _ sb) L1 v1 d hs ind _ 1 3); [exact T1|by eapply (H_txn_room me dev s0 d hs i Hlen H Hlog); [exact T1|done|done|lia]|lia|lia|done|done|].
  intros bp l2 T2 Hb2 _. fstep. eapply (trunc_slots _ bp l2 L1); [done|exact Hb2| |].
  { exists l2, L1, v1. split; [done|]. split; [exact T2|]. split; [done|]. split; [done|]. split; [done|]. split; [apply keeps_refl|]. done. }
  intros s3 (l3 & L3 & v3 & -> & T3 & Ho3 & Hh3 & Hh13 & K3 & Hm3 & Hv3). fstep.
  eapply (f_brelse me dev (FState l3 _ sb) L3 v3 d (dev, ind) hs bp); [exact T3|by apply K3; [left|]| |].
  { destruct Hcl as [[_ Hin]|E]; [left; split; [done|by apply Hh13]|right]. rewrite Hv3, <- Hv1 by (by right). done. }
  intros l4 T4 _. fstep. eapply (bfree_run hs l4 L3 (data k) (cleared NDIRECT ip)); [|by intros b Hb; apply Hbm|lia|lia|done|done|].
  { exists l4, L3, v3. split; [done|]. split; [exact T4|]. split; [done|]. split; [done|]. split; [done|]. split; [apply keeps_refl|]. done. }
  intros s5 (l5 & L5 & v5 & -> & Rest). eapply f_iassign; [by apply list_lookup_insert_eq|].
  cbn [inodes set_inodes]. rewrite list_insert_insert_eq, cleared_S.
  - eapply (HQ _ l4 L3). rewrite Hbl. by exists l5, L5, v5.
  - pose proof (io_len _ (fo_inode _ _ (w_file _ _ _ _ _ _ _ _ _ _ _ _ W))) as Hl. cbn [fst] in Hl. lia.
Qed.

(** With all blocks freed the file is empty. *)
Lemma freed_wfile s' l0 L0 :
  freed hs l0 L0 (blocks v (ip, k)) (cleared (S NDIRECT) ip) s' ->
  exists L' v', wfile me dev s0 d hs i H s' L' v' (cleared (S NDIRECT) ip) 0 /\
    (forall b, 0 <= b < sb_size sb -> marked dev sb v' b = negb (bool_decide (b ∈ blocks v (ip, k))) && marked dev sb v b) /\
    (forall key, fst key <> dev \/ ~ is_bitmap s0 (snd key) -> v' key = v key).
Proof.
  intros (l & L' & v' & Es & T & Ho & Hh & _ & _ & Hm & Hv). exists L', v'. split; [|done].
  pose proof W as [_ _ _ [Hi Hdev _ _ _ _] _ Hdata Hmeta Hfr]. cbn [fst snd] in *. pose proof (datastart_pos sb Hsb) as Hds.
  assert (forall j, nth j (i_addrs (cleared (S NDIRECT) ip)) 0 = 0) as Hz.
  { intros j. cbn [cleared with_addrs i_addrs]. rewrite drop_ge, app_nil_r by (rewrite (io_len _ Hi); lia). apply nth_replicate_zero. }
  constructor; try done.
  - by exists l.
  - constructor; cbn [fst snd]; try done; [by apply cleared_ok|lia|lia].
  - apply base.NoDup_nil_2.
  - intros b Hb. by apply elem_of_nil in Hb.
  - intros b Hb. rewrite Hm by (fold sb in Hb; lia). rewrite Hmeta, bool_decide_eq_false_2; [done| |done].
    intros Hin. destruct (Hdata b Hin) as [Hr _]. fold sb in Hb, Hr. lia.
  - intros b Hb. apply free_elem in Hb as [Hr Hmb]. rewrite Hm in Hmb by done. case_bool_decide as Hin.
    + by apply Hdata.
    + apply Hfr, free_elem. by split.
Qed.

Lemma itrunc_spec (Q : unit -> fstate -> Prop) :
  0 <= i_inum ip < sb_ninodes sb -> (dev, IBLOCK (i_inum ip) sb) ∉ hs -> IBLOCK (i_inum ip) sb ∈ H ->
  let ip' := set_size 0 (cleared (S NDIRECT) ip) in
  let key := (dev, IBLOCK (i_inum ip) sb) in
  (forall s' L' v', wfile me dev s0 d hs i H s' L' v' ip' 0 ->
     (forall b, 0 <= b < sb_size sb -> marked dev sb v' b = negb (bool_decide (b ∈ blocks v (ip, k))) && marked dev sb v b) ->
     v' key = store_dinode (dip_off (i_inum ip)) ip' (v key) ->
     (forall b, b <> key -> fst b <> dev \/ ~ is_bitmap s0 (snd b) -> v' b = v b) -> Q tt s') ->
  fwp (itrunc me i) s Q.
Proof.
  intros Hin Hihs HiH ip' key HQ. pose proof W as [_ _ _ [Hi Hdev _ _ Hind _] _ _ _ _]. cbn [fst snd] in *.
  pose proof (IBLOCK_range sb Hsb _ Hin) as Hib. pose proof (datastart_pos sb Hsb) as Hds. pose proof (io_len _ Hi) as Hla.
  assert (forall s' l0 L0, freed hs l0 L0 (blocks v (ip, k)) (cleared (S NDIRECT) ip) s' ->
    fwp (iassign i (set_size 0) ;;; iupdate me i) s' Q) as Hend.
  { intros s' l0 L0 F. destruct (freed_wfile s' l0 L0 F) as (L' & v' & W' & Hm & Hv). fstep.
    eapply (set_size_spec me dev s0 d hs i Hsb Hlen H Hlog Hbuf s' L' v' _ 0 0 Q W'); try done; try lia.
    intros s2 L2 W2 _. eapply HQ; [exact W2| | |].
    - intros b Hb. rewrite <- Hm by done. unfold marked. pose proof (BBLOCK_range sb Hsb b Hb).
      rewrite fn_lookup_insert_ne by (intros [= E]; fold sb in E; cbn [i_inum cleared with_addrs] in E; lia). done.
    - cbn [i_inum cleared with_addrs]. fold key. rewrite fn_lookup_insert. change (v' (dev, IBLOCK (i_inum ip) (fsb s0))) with (v' key). rewrite (Hv key); [done|]. right. unfold is_bitmap. cbn [snd key]. fold sb. lia.
    - intros b Hb Hnb. rewrite fn_lookup_insert_ne by (by intros <-). by apply Hv. }
  unfold itrunc. fstep. apply trunc_direct. intros s1 F1. pose proof F1 as (l1 & L1 & v1 & Es1 & _). fstep.
  eapply f_ideref; [rewrite Es1; by apply list_lookup_insert_eq|]. rewrite cleared_nth by done. fold (iaddr ip).
  cbn [i_dev cleared with_addrs]. rewrite Hdev. fstep. destruct (decide (NDIRECT < k)%nat) as [Hk|Hk].
  - destruct (block_used _ (blocks_ind v (ip, k) Hk)) as (_ & _ & Hz & _). unfold ctrue. rewrite (proj2 (Z.eqb_neq _ 0)) by done. cbn [negb].
    eapply trunc_indirect; [done|exact F1|]. intros s2 l0 L0 F2. by eapply Hend.
  - rewrite Hind by lia. unfold ctrue. cbn [Z.eqb negb]. fstep. eapply Hend. rewrite cleared_skip; [|lia|apply Hind; lia].
    unfold blocks. cbn [fst snd]. rewrite (proj2 (Nat.ltb_ge _ _)) by lia. rewrite app_nil_r. unfold data in F1.
    by replace (Nat.min NDIRECT k) with k in F1 by lia.
Qed.
End File.
End Trunc.

(** C10: inside a transaction, [itrunc] of a file frees exactly its blocks, data
    and indirect: their marks in the free map are cleared and no other mark
    changes.  The file is empty afterwards, in the cache and on disk, and no
    block but those of the free map and the inode changes; nothing is written
    to the disk yet. *)
Theorem itrunc_frees me dev s L v d hs i ip k H :
  can_change me dev s L v d hs i ip k H ->
  let ip' := set_size 0 (with_addrs (replicate (S NDIRECT) 0) ip) in
  let key := (dev, IBLOCK (i_inum ip) (fsb s)) in
  exists s' t L' v', itrunc me i s = Ok tt s' t /\ disk_writes t = [] /\ wfile me dev s d hs i H s' L' v' ip' 0 /\
    (forall b, 0 <= b < sb_size (fsb s) ->
       marked dev (fsb s) v' b = negb (bool_decide (b ∈ blocks v (ip, k))) && marked dev (fsb s) v b) /\
    v' key = store_dinode (dip_off (i_inum ip)) ip' (v key) /\
    (forall b, b <> key -> fst b <> dev \/ ~ is_bitmap s (snd b) -> v' b = v b).
Proof.
  intros [Hsb Hi Hlog Hbuf Hbm (Hin & Hihs & HiH) W] ip' key.
  assert (ip' = set_size 0 (cleared (S NDIRECT) ip)) as ->.
  { pose proof (io_len _ (fo_inode _ _ (w_file _ _ _ _ _ _ _ _ _ _ _ _ W))) as Hl. cbn [fst] in Hl.
    unfold ip', cleared. by rewrite drop_ge, app_nil_r by (rewrite Hl; done). }
  assert (fwp (itrunc me i) s (fun _ s' => exists L' v', wfile me dev s d hs i H s' L' v' (set_size 0 (cleared (S NDIRECT) ip)) 0 /\
    (forall b, 0 <= b < sb_size (fsb s) ->
       marked dev (fsb s) v' b = negb (bool_decide (b ∈ blocks v (ip, k))) && marked dev (fsb s) v b) /\
    v' key = store_dinode (dip_off (i_inum ip)) (set_size 0 (cleared (S NDIRECT) ip)) (v key) /\
    (forall b, b <> key -> fst b <> dev \/ ~ is_bitmap s (snd b) -> v' b = v b))) as Hr.
  { eapply (itrunc_spec me dev s d hs i Hsb Hi H Hlog Hbuf Hbm v s L ip k W); try done. intros s' L' v' W' H1 H2 H3. by exists L', v'. }
  apply fwp_run in Hr as ([] & s' & t & Hrun & Ht & L' & v' & W' & H1 & H2 & H3). by exists s', t, L', v'.
Qed.

Lemma itrunc_frees_witness : exists l l' t,
  itrunc 1 0 (FState l [ip_short] sb0) = Ok tt (FState l' [set_size 0 (with_addrs (replicate 13 0) ip_short)] sb0) t.
Proof.
  destruct (fs_start dk_map eq_refl dk_map_blk) as (l & L & v & d & T & Ho & Hc & Hh & R & Hv).
  specialize (Hv (0, 45) ltac:(simpl; lia)).
  destruct (itrunc_frees 1 0 (FState l [ip_short] sb0) L v d [] 0 ip_short 1 [45; 32]
    (ip_short_change l L v d [45; 32] T Ho Hh Hv ltac:(by left) ltac:(right; by left) ltac:(done)))
    as (s' & t & L' & v' & Hrun & _ & [(l' & -> & _) _ _ _ _ _ _ _] & _).
  exists l, l', t. exact Hrun.
Defined.
