(* ===== verification/Kstate.v ===== *)
(** * The state of the kernel (kernel/proc.h, kernel/file.h, kernel/defs.h)

    The data of the layers above memory and file system: processes, open
    files, pipes, and the state that holds all components together.  An
    operation of a component runs on its part of that state; the wakeups it
    made are then done to the process table, and if it went to sleep so does
    the running process. *)

From Stdlib Require Import ZArith Lia.
From stdpp Require Import base gmap list strings.
From S2P Require Import Prelude CString Kalloc Vm Sleeplock Fs Printf Console Pipe.
Local Open Scope xv6_scope.

(** ** Processes (proc.h) *)

Definition NPROC : nat := 64.
Definition NOFILE : nat := 16.

Inductive procstate := UNUSED | SLEEPING | RUNNABLE | RUNNING | ZOMBIE.
#[global] Instance procstate_eq_dec : EqDecision procstate.
Proof. solve_decision. Defined.

(** struct context: ra, sp, and the twelve callee-saved registers. *)
Record context := Context_ { ctx_ra : Z; ctx_sp : Z; ctx_s : list Z }.
Definition context0 : context := Context_ 0 0 (replicate 12 0).

(** struct proc.  Pointers to processes, files and inodes are indices of their
    tables, [None] the null pointer; [p_tf] is the address of the trapframe's
    page.  The lock is not part of the state: what the code does while it holds
    it is one step. *)
Record proc := Proc {
  p_state : procstate; p_parent : option nat; p_chan : option wchan; p_killed : Z; p_pid : Z;
  p_kstack : Z; p_sz : Z; p_pagetable : Z; p_tf : Z; p_context : context;
  p_ofile : list (option nat); p_cwd : option nat; p_name : list Z }.

Definition set_p_state x (s : proc) : proc := Proc x (p_parent s) (p_chan s) (p_killed s) (p_pid s) (p_kstack s) (p_sz s) (p_pagetable s) (p_tf s) (p_context s) (p_ofile s) (p_cwd s) (p_name s).
Definition set_p_parent x (s : proc) : proc := Proc (p_state s) x (p_chan s) (p_killed s) (p_pid s) (p_kstack s) (p_sz s) (p_pagetable s) (p_tf s) (p_context s) (p_ofile s) (p_cwd s) (p_name s).
Definition set_p_chan x (s : proc) : proc := Proc (p_state s) (p_parent s) x (p_killed s) (p_pid s) (p_kstack s) (p_sz s) (p_pagetable s) (p_tf s) (p_context s) (p_ofile s) (p_cwd s) (p_name s).
Definition set_p_killed x (s : proc) : proc := Proc (p_state s) (p_parent s) (p_chan s) x (p_pid s) (p_kstack s) (p_sz s) (p_pagetable s) (p_tf s) (p_context s) (p_ofile s) (p_cwd s) (p_name s).
Definition set_p_pid x (s : proc) : proc := Proc (p_state s) (p_parent s) (p_chan s) (p_killed s) x (p_kstack s) (p_sz s) (p_pagetable s) (p_tf s) (p_context s) (p_ofile s) (p_cwd s) (p_name s).
Definition set_p_kstack x (s : proc) : proc := Proc (p_state s) (p_parent s) (p_chan s) (p_killed s) (p_pid s) x (p_sz s) (p_pagetable s) (p_tf s) (p_context s) (p_ofile s) (p_cwd s) (p_name s).
Definition set_p_sz x (s : proc) : proc := Proc (p_state s) (p_parent s) (p_chan s) (p_killed s) (p_pid s) (p_kstack s) x (p_pagetable s) (p_tf s) (p_context s) (p_ofile s) (p_cwd s) (p_name s).
Definition set_p_pagetable x (s : proc) : proc := Proc (p_state s) (p_parent s) (p_chan s) (p_killed s) (p_pid s) (p_kstack s) (p_sz s) x (p_tf s) (p_context s) (p_ofile s) (p_cwd s) (p_name s).
Definition set_p_tf x (s : proc) : proc := Proc (p_state s) (p_parent s) (p_chan s) (p_killed s) (p_pid s) (p_kstack s) (p_sz s) (p_pagetable s) x (p_context s) (p_ofile s) (p_cwd s) (p_name s).
Definition set_p_context x (s : proc) : proc := Proc (p_state s) (p_parent s) (p_chan s) (p_killed s) (p_pid s) (p_kstack s) (p_sz s) (p_pagetable s) (p_tf s) x (p_ofile s) (p_cwd s) (p_name s).
Definition set_p_ofile x (s : proc) : proc := Proc (p_state s) (p_parent s) (p_chan s) (p_killed s) (p_pid s) (p_kstack s) (p_sz s) (p_pagetable s) (p_tf s) (p_context s) x (p_cwd s) (p_name s).
Definition set_p_cwd x (s : proc) : proc := Proc (p_state s) (p_parent s) (p_chan s) (p_killed s) (p_pid s) (p_kstack s) (p_sz s) (p_pagetable s) (p_tf s) (p_context s) (p_ofile s) x (p_name s).
Definition set_p_name x (s : proc) : proc := Proc (p_state s) (p_parent s) (p_chan s) (p_killed s) (p_pid s) (p_kstack s) (p_sz s) (p_pagetable s) (p_tf s) (p_context s) (p_ofile s) (p_cwd s) x.

(** A zeroed entry of the table. *)
Definition proc0 : proc :=
  Proc UNUSED None None 0 0 0 0 0 0 context0 (replicate NOFILE None) None (replicate 16 0).
#[global] Instance proc_inhabited : Inhabited proc := populate proc0.

(** *** The trapframe (struct trapframe), as offsets into its page *)

Definition TF_KERNEL_SATP : Z := 0.
Definition TF_KERNEL_SP : Z := 8.
Definition TF_KERNEL_TRAP : Z := 16.
Definition TF_EPC : Z := 24.
Definition TF_KERNEL_HARTID : Z := 32.
Definition TF_SP : Z := 48.
Definition TF_A0 : Z := 112.
Definition TF_A1 : Z := 120.
Definition TF_A7 : Z := 168.
Definition TF_SIZE : Z := 288.

(** ** Open files (file.h) *)

Definition NFILE : nat := 100.

Inductive fdtype := FD_NONE | FD_PIPE | FD_INODE | FD_DEVICE.
#[global] Instance fdtype_eq_dec : EqDecision fdtype.
Proof. solve_decision. Defined.

(** struct file; [f_pipe] is the address of the pipe's page. *)
Record file := File {
  f_type : fdtype; f_ref : Z; f_readable : Z; f_writable : Z; f_pipe : Z; f_ip : nat; f_off : Z; f_major : Z }.

Definition set_f_type x (s : file) : file := File x (f_ref s) (f_readable s) (f_writable s) (f_pipe s) (f_ip s) (f_off s) (f_major s).
Definition set_f_ref x (s : file) : file := File (f_type s) x (f_readable s) (f_writable s) (f_pipe s) (f_ip s) (f_off s) (f_major s).
Definition set_f_readable x (s : file) : file := File (f_type s) (f_ref s) x (f_writable s) (f_pipe s) (f_ip s) (f_off s) (f_major s).
Definition set_f_writable x (s : file) : file := File (f_type s) (f_ref s) (f_readable s) x (f_pipe s) (f_ip s) (f_off s) (f_major s).
Definition set_f_pipe x (s : file) : file := File (f_type s) (f_ref s) (f_readable s) (f_writable s) x (f_ip s) (f_off s) (f_major s).
Definition set_f_ip x (s : file) : file := File (f_type s) (f_ref s) (f_readable s) (f_writable s) (f_pipe s) x (f_off s) (f_major s).
Definition set_f_off x (s : file) : file := File (f_type s) (f_ref s) (f_readable s) (f_writable s) (f_pipe s) (f_ip s) x (f_major s).
Definition set_f_major x (s : file) : file := File (f_type s) (f_ref s) (f_readable s) (f_writable s) (f_pipe s) (f_ip s) (f_off s) x.

Definition file0 : file := File FD_NONE 0 0 0 0 0 0 0.
#[global] Instance file_inhabited : Inhabited file := populate file0.

(** ** The kernel *)

(** Memory and the kernel's page table; the file system; the process table,
    [initproc] and [nextpid]; the file table; the pages used as pipes; the
    console; the clock; and [first] of forkret. *)
Record kstate := KState {
  k_mem : kmem; k_kpt : Z; k_fs : fstate; k_procs : list proc; k_initproc : option nat; k_nextpid : Z;
  k_ftable : list file; k_pipes : gmap Z pipe; k_cons : cstate; k_ticks : Z; k_first : Z }.

Definition set_k_mem x (s : kstate) : kstate := KState x (k_kpt s) (k_fs s) (k_procs s) (k_initproc s) (k_nextpid s) (k_ftable s) (k_pipes s) (k_cons s) (k_ticks s) (k_first s).
Definition set_k_kpt x (s : kstate) : kstate := KState (k_mem s) x (k_fs s) (k_procs s) (k_initproc s) (k_nextpid s) (k_ftable s) (k_pipes s) (k_cons s) (k_ticks s) (k_first s).
Definition set_k_fs x (s : kstate) : kstate := KState (k_mem s) (k_kpt s) x (k_procs s) (k_initproc s) (k_nextpid s) (k_ftable s) (k_pipes s) (k_cons s) (k_ticks s) (k_first s).
Definition set_k_procs x (s : kstate) : kstate := KState (k_mem s) (k_kpt s) (k_fs s) x (k_initproc s) (k_nextpid s) (k_ftable s) (k_pipes s) (k_cons s) (k_ticks s) (k_first s).
Definition set_k_initproc x (s : kstate) : kstate := KState (k_mem s) (k_kpt s) (k_fs s) (k_procs s) x (k_nextpid s) (k_ftable s) (k_pipes s) (k_cons s) (k_ticks s) (k_first s).
Definition set_k_nextpid x (s : kstate) : kstate := KState (k_mem s) (k_kpt s) (k_fs s) (k_procs s) (k_initproc s) x (k_ftable s) (k_pipes s) (k_cons s) (k_ticks s) (k_first s).
Definition set_k_ftable x (s : kstate) : kstate := KState (k_mem s) (k_kpt s) (k_fs s) (k_procs s) (k_initproc s) (k_nextpid s) x (k_pipes s) (k_cons s) (k_ticks s) (k_first s).
Definition set_k_pipes x (s : kstate) : kstate := KState (k_mem s) (k_kpt s) (k_fs s) (k_procs s) (k_initproc s) (k_nextpid s) (k_ftable s) x (k_cons s) (k_ticks s) (k_first s).
Definition set_k_cons x (s : kstate) : kstate := KState (k_mem s) (k_kpt s) (k_fs s) (k_procs s) (k_initproc s) (k_nextpid s) (k_ftable s) (k_pipes s) x (k_ticks s) (k_first s).
Definition set_k_ticks x (s : kstate) : kstate := KState (k_mem s) (k_kpt s) (k_fs s) (k_procs s) (k_initproc s) (k_nextpid s) (k_ftable s) (k_pipes s) (k_cons s) x (k_first s).
Definition set_k_first x (s : kstate) : kstate := KState (k_mem s) (k_kpt s) (k_fs s) (k_procs s) (k_initproc s) (k_nextpid s) (k_ftable s) (k_pipes s) (k_cons s) (k_ticks s) x.

(** [p->field] through a pointer to a process; [*f] of a file. *)
Definition pderef (i : nat) : M kstate proc := fetch (fun s => k_procs s !! i).
Definition passign (i : nat) (f : proc -> proc) : M kstate unit :=
  p <- pderef i ;;
  modify (fun s => set_k_procs (<[i := f p]> (k_procs s)) s).
Definition fderef (i : nat) : M kstate file := fetch (fun s => k_ftable s !! i).
Definition fassign (i : nat) (f : file -> file) : M kstate unit :=
  p <- fderef i ;;
  modify (fun s => set_k_ftable (<[i := f p]> (k_ftable s)) s).

(** ** Sleep and wakeup (proc.c) *)

(** wakeup: every process that sleeps on the channel becomes runnable. *)
Definition wake_proc (c : wchan) (p : proc) : proc :=
  if decide (p_state p = SLEEPING /\ p_chan p = Some c) then set_p_state RUNNABLE p else p.
Definition wakeup_procs (c : wchan) (s : kstate) : kstate := set_k_procs (wake_proc c <$> k_procs s) s.
Definition kwakeup (c : wchan) : M kstate unit := modify (wakeup_procs c).

(** The wakeups among the events of a component's operation. *)
Definition wake_event (s : kstate) (e : event) : kstate :=
  match e with EWake c => wakeup_procs c s | _ => s end.
Definition wake_events (t : list event) (s : kstate) : kstate := fold_left wake_event t s.

(** sleep: what [p] is like while it sleeps, and after it was scheduled
    again. *)
Definition asleep (c : wchan) (p : proc) : proc := set_p_state SLEEPING (set_p_chan (Some c) p).
Definition awake (p : proc) : proc := set_p_chan None p.

Definition ksleep {A} (me : nat) (c : wchan) : M kstate A :=
  passign me (asleep c) ;;; sleep c.

(** ** Running the components *)

Section Lift.
Context (me : nat).

Definition lift {T A} (view : kstate -> T) (upd : T -> kstate -> kstate) (m : M T A) : M kstate A := fun s =>
  match m (view s) with
  | Ok a x t => Ok a (wake_events t (upd x s)) t
  | Panic e x t => Panic e (wake_events t (upd x s)) t
  | Sleep c x t => after t (ksleep me c (wake_events t (upd x s)))
  | Undef => Undef
  | Diverge => Diverge
  end.

Definition on_mem {A} : M kmem A -> M kstate A := lift k_mem set_k_mem.
Definition on_fsys {A} : M fstate A -> M kstate A := lift k_fs set_k_fs.
Definition on_cons {A} : M cstate A -> M kstate A := lift k_cons set_k_cons.

Definition myproc : M kstate proc := pderef me.

(** An operation of the file system or the log, run by this process. *)
Definition fs_op {A} (f : Z -> M fstate A) : M kstate A := p <- myproc ;; on_fsys (f (p_pid p)).
Definition begin_op_ (dev : Z) : M kstate unit := on_fsys (on_log (Log.begin_op dev)).
Definition end_op_ (dev : Z) : M kstate unit := fs_op (fun pid => on_log (Log.end_op pid dev)).

(** ** Copying to and from the memory of the process

    The functions of Vm.v return for all arguments, so that the cases below
    other than [Ok] do not occur. *)

Definition copyout_fun (pagetable : Z) (dst : Z) (bs : list Z) (m : kmem) : kmem * Z :=
  match copyout pagetable dst bs m with Ok r m' _ => (m', r) | _ => (m, -1) end.
Definition copyin_fun (pagetable : Z) (src : Z) (n : nat) (m : kmem) : list Z * Z :=
  match copyin pagetable src (Z.of_nat n) m with Ok r _ _ => r | _ => ([], -1) end.

(** either_copyout, either_copyin (proc.c) *)
Definition either_copyout (user_dst : bool) (pagetable dst : Z) (src : list Z) (m : kmem) : kmem * Z :=
  if user_dst then copyout_fun pagetable dst src m
  else (set_memory (store dst src (kmemory m)) m, 0).
Definition either_copyin (user_src : bool) (pagetable src : Z) (len : nat) (m : kmem) : list Z * Z :=
  if user_src then copyin_fun pagetable src len m
  else (read_bytes (kmemory m) src len, 0).

(** The file system, the console or a pipe, beside that memory. *)
Definition on_fs_mem {A} : M (fstate * kmem) A -> M kstate A :=
  lift (fun s => (k_fs s, k_mem s)) (fun x s => set_k_fs (fst x) (set_k_mem (snd x) s)).
Definition on_cons_mem {A} : M (cstate * kmem) A -> M kstate A :=
  lift (fun s => (k_cons s, k_mem s)) (fun x s => set_k_cons (fst x) (set_k_mem (snd x) s)).
Definition on_pipe_mem {A} (pi : Z) (m : M (pipe * kmem) A) : M kstate A :=
  p <- fetch (fun s => k_pipes s !! pi) ;;
  lift (fun s => (p, k_mem s)) (fun x s => set_k_pipes (<[pi := fst x]> (k_pipes s)) (set_k_mem (snd x) s)) m.

(** *** The trapframe *)

Definition tf_get (off : Z) : M kstate Z := p <- myproc ;; on_mem (read64 (p_tf p + off)).
Definition tf_set (off v : Z) : M kstate unit := p <- myproc ;; on_mem (write64 (p_tf p + off) v).

End Lift.

(** ** System calls that wait

    A call that sleeps on a pipe, the console, a child or the clock keeps its
    local variables until it is scheduled again: it yields either its result or
    where it continues. *)

Inductive cont :=
| InPipeRead (pi addr n : Z)
| InPipeWrite (pi addr n i : Z)
| InConsoleRead (target dst n : Z)
| InWait
| InSleep (n ticks0 : Z).

Definition call : Type := Z + cont.
