(* ===== verification/KHoare.v ===== *)
(** * Reasoning about the kernel's operations

    Partial correctness of operations on the whole kernel state, and the
    operations that keep an invariant of the process and file tables; user
    memory as the source of a write. *)

From Stdlib Require Import ZArith Lia.
From stdpp Require Import base gmap list strings.
From S2P Require Import Prelude CString Kalloc Vm VmFacts VmLoops VmCopy Sleeplock Bio Log Fs FsWrite Printf Console Pipe Kstate.
Local Open Scope xv6_scope.

(** ** Partial correctness

    [ok P m Q]: from a state in [P], if the operation returns then in [Q].  An
    operation that panics or sleeps in a component is not constrained. *)

Definition ok {A} (P : kstate -> Prop) (m : M kstate A) (Q : A -> kstate -> Prop) : Prop :=
  forall s, P s -> match m s with Ok a s' _ => Q a s' | _ => True end.

Lemma ok_bind {A B} P (m : M kstate A) Q (k : A -> M kstate B) R :
  ok P m Q -> (forall a, ok (Q a) (k a) R) -> ok P (bind m k) R.
Proof.
  intros Hm Hk s HP. specialize (Hm s HP). unfold bind. destruct (m s) as [a s1 t1| | | |]; try done.
  specialize (Hk a s1 Hm). by destruct (k a s1).
Qed.

Lemma ok_weaken {A} (P P' : kstate -> Prop) (m : M kstate A) (Q Q' : A -> kstate -> Prop) :
  ok P' m Q' -> (forall s, P s -> P' s) -> (forall a s, Q' a s -> Q a s) -> ok P m Q.
Proof. intros H HP HQ s Hs. specialize (H s (HP s Hs)). destruct (m s); auto. Qed.

(** A fact that follows from the precondition. *)
Lemma ok_pre {A} (P : kstate -> Prop) (F : Prop) (m : M kstate A) Q : (forall s, P s -> F) -> (F -> ok P m Q) -> ok P m Q.
Proof. intros HF Hm s HP. exact (Hm (HF s HP) s HP). Qed.

Lemma ok_exists {A X} (P : X -> kstate -> Prop) (m : M kstate A) Q : (forall x, ok (P x) m Q) -> ok (fun s => exists x, P x s) m Q.
Proof. intros Hm s [x HP]. exact (Hm x s HP). Qed.

Lemma ok_pure {A} (F : Prop) (P : kstate -> Prop) (m : M kstate A) Q : (F -> ok P m Q) -> ok (fun s => F /\ P s) m Q.
Proof. intros Hm s [HF HP]. exact (Hm HF s HP). Qed.

Lemma ok_ret {A} (P : kstate -> Prop) (a : A) : ok P (ret a) (fun b s => b = a /\ P s).
Proof. by intros s HP. Qed.

Lemma ok_ret' {A} P (a : A) (Q : A -> kstate -> Prop) : (forall s, P s -> Q a s) -> ok P (ret a) Q.
Proof. intros H s HP. by apply H. Qed.

Lemma ok_panic {A} P msg (Q : A -> kstate -> Prop) : ok P (panic msg) Q.
Proof. by intros s HP. Qed.

Lemma ok_get {A} P (f : kstate -> A) : ok P (get f) (fun a s => P s /\ a = f s).
Proof. by intros s HP. Qed.

Lemma ok_fetch {A} P (f : kstate -> option A) : ok P (fetch f) (fun a s => P s /\ f s = Some a).
Proof. intros s HP. unfold fetch. by destruct (f s) eqn:E. Qed.

Lemma ok_modify P (f : kstate -> kstate) (Q : unit -> kstate -> Prop) : (forall s, P s -> Q tt (f s)) -> ok P (modify f) Q.
Proof. intros H s HP. by apply H. Qed.

Lemma ok_for_all {X} (I : kstate -> Prop) (l : list X) body :
  (forall x, ok I (body x) (fun _ => I)) -> ok I (for_all l body) (fun _ => I).
Proof.
  intros Hb. induction l as [|x l IH]; [by intros s HI|]. cbn [for_all]. eapply ok_bind; [apply Hb|]. intros ?. apply IH.
Qed.

(** A loop over indices. *)
Lemma ok_for_seq (I : nat -> kstate -> Prop) body n : forall k,
  (forall i, (k <= i < k + n)%nat -> ok (I i) (body i) (fun _ => I (S i))) -> ok (I k) (for_all (seq k n) body) (fun _ => I (k + n)%nat).
Proof.
  induction n as [|n IH]; intros k Hb; cbn [seq for_all]; [rewrite Nat.add_0_r; by intros s HI|].
  eapply ok_bind; [apply Hb; lia|]. intros ?. replace (k + S n)%nat with (S k + n)%nat by lia. apply IH. intros i Hi. apply Hb. lia.
Qed.

Lemma ok_for_each {X R} (I : kstate -> Prop) (Q : R -> kstate -> Prop) (l : list X) (body : X -> M kstate (unit + R)) :
  (forall x, ok I (body x) (fun r s => match r with inl _ => I s | inr v => Q v s end)) ->
  ok I (for_each l body) (fun r s => match r with None => I s | Some v => Q v s end).
Proof.
  intros Hb. induction l as [|x l IH]; [by intros s HI|]. cbn [for_each]. eapply ok_bind; [apply Hb|].
  intros [[]|v]; [apply IH|]. by intros s HQ.
Qed.

Lemma ok_run {A} P (m : M kstate A) (Q : A -> kstate -> Prop) s a s' t : ok P m Q -> P s -> m s = Ok a s' t -> Q a s'.
Proof. intros H HP E. specialize (H s HP). by rewrite E in H. Qed.

(** ** Invariants

    Most operations leave the tables alone, but for the wakeups of the
    components: an invariant is stable if it only depends on the tables and
    survives wakeups. *)

Class Stable (I : kstate -> Prop) : Prop := {
  stable_eq : forall s s', k_procs s' = k_procs s -> k_ftable s' = k_ftable s -> I s -> I s';
  stable_wakeup : forall c s, I s -> I (wakeup_procs c s) }.

Definition keeps (I : kstate -> Prop) {A} (m : M kstate A) : Prop := ok I m (fun _ => I).

Lemma keeps_run {A} I (m : M kstate A) s a s' t : keeps I m -> I s -> m s = Ok a s' t -> I s'.
Proof. exact (ok_run I m (fun _ => I) s a s' t). Qed.

Section Keeps.
Context (I : kstate -> Prop).

Lemma keeps_bind {A B} (m : M kstate A) (k : A -> M kstate B) : keeps I m -> (forall a, keeps I (k a)) -> keeps I (bind m k).
Proof. intros Hm Hk. eapply ok_bind; [exact Hm|exact Hk]. Qed.

(** The first operation keeps the invariant. *)
Lemma ok_step {A B} (m : M kstate A) (k : A -> M kstate B) R :
  keeps I m -> (forall a, ok I (k a) R) -> ok I (bind m k) R.
Proof. apply ok_bind. Qed.

Lemma keeps_ret {A} (a : A) : keeps I (ret a).
Proof. by apply ok_ret'. Qed.

Lemma keeps_panic {A} msg : keeps I (panic msg : M kstate A).
Proof. apply ok_panic. Qed.

Lemma keeps_undef {A} : keeps I (undef : M kstate A).
Proof. by intros s Hs. Qed.

Lemma keeps_get {A} (f : kstate -> A) : keeps I (get f).
Proof. by intros s Hs. Qed.

Lemma keeps_fetch {A} (f : kstate -> option A) : keeps I (fetch f).
Proof. intros s Hs. unfold fetch. by destruct (f s). Qed.

Lemma keeps_for_all {X} (l : list X) body : (forall x, keeps I (body x)) -> keeps I (for_all l body).
Proof. apply ok_for_all. Qed.

Lemma keeps_for_each {X R} (l : list X) (body : X -> M kstate (unit + R)) :
  (forall x, keeps I (body x)) -> keeps I (for_each l body).
Proof.
  intros Hb. eapply ok_weaken; [apply (ok_for_each I (fun _ => I))|done|].
  - intros x. eapply ok_weaken; [apply Hb|done|]. by intros [[]|] s Hs.
  - by intros [] s Hs.
Qed.

Context `{HI : !Stable I}.

Lemma keeps_modify (f : kstate -> kstate) :
  (forall s, k_procs (f s) = k_procs s /\ k_ftable (f s) = k_ftable s) -> keeps I (modify f).
Proof. intros Hf. apply ok_modify. intros s Hs. by apply (stable_eq s); [apply Hf..|]. Qed.

Lemma stable_wakes t s : I s -> I (wake_events t s).
Proof. revert s. induction t as [|[] t IH]; intros s Hs; [done|by apply IH|by apply IH, stable_wakeup|by apply IH]. Qed.

Lemma keeps_lift {T A} me view (upd : T -> kstate -> kstate) (m : M T A) :
  (forall x s, k_procs (upd x s) = k_procs s /\ k_ftable (upd x s) = k_ftable s) -> keeps I (lift me view upd m).
Proof.
  intros Hu s Hs. unfold lift. destruct (m (view s)) as [a x t| |c x t| |]; try done.
  - apply stable_wakes. by apply (stable_eq s); [apply Hu..|].
  - unfold ksleep, passign, bind. by destruct (pderef me _).
Qed.

Lemma keeps_on_mem {A} me (m : M kmem A) : keeps I (on_mem me m).
Proof. by apply keeps_lift. Qed.
Lemma keeps_on_fsys {A} me (m : M fstate A) : keeps I (on_fsys me m).
Proof. by apply keeps_lift. Qed.
Lemma keeps_on_cons {A} me (m : M cstate A) : keeps I (on_cons me m).
Proof. by apply keeps_lift. Qed.
Lemma keeps_on_fs_mem {A} me (m : M (fstate * kmem) A) : keeps I (on_fs_mem me m).
Proof. by apply keeps_lift. Qed.
Lemma keeps_on_cons_mem {A} me (m : M (cstate * kmem) A) : keeps I (on_cons_mem me m).
Proof. by apply keeps_lift. Qed.
Lemma keeps_on_pipe_mem {A} me pi (m : M (pipe * kmem) A) : keeps I (on_pipe_mem me pi m).
Proof. unfold on_pipe_mem. apply keeps_bind; [apply keeps_fetch|intros p]. by apply keeps_lift. Qed.
Lemma keeps_pderef i : keeps I (pderef i).
Proof. apply keeps_fetch. Qed.
Lemma keeps_fderef i : keeps I (fderef i).
Proof. apply keeps_fetch. Qed.
Lemma keeps_fs_op {A} me (f : Z -> M fstate A) : keeps I (fs_op me f).
Proof. apply keeps_bind; [apply keeps_pderef|intros p]. apply keeps_on_fsys. Qed.

End Keeps.

Create HintDb keeps.
#[export] Hint Resolve keeps_ret keeps_panic keeps_undef keeps_get keeps_fetch keeps_pderef keeps_fderef keeps_on_mem keeps_on_fsys
  keeps_on_cons keeps_on_fs_mem keeps_on_cons_mem keeps_on_pipe_mem keeps_fs_op : keeps.
#[export] Hint Extern 1 (keeps _ (bind _ _)) => apply keeps_bind; [|intros ?] : keeps.
#[export] Hint Extern 1 (keeps _ (modify _)) => apply keeps_modify; [typeclasses eauto|intros; split; reflexivity] : keeps.
#[export] Hint Extern 1 (keeps _ (for_all _ _)) => apply keeps_for_all; intros ? : keeps.
#[export] Hint Extern 1 (keeps _ (for_each _ _)) => apply keeps_for_each; intros ? : keeps.
#[export] Hint Extern 1 (keeps _ (lift _ _ _ _)) => apply keeps_lift; [typeclasses eauto|intros; split; reflexivity] : keeps.
#[export] Hint Extern 1 (keeps _ (myproc _)) => apply keeps_pderef : keeps.
#[export] Hint Extern 1 (keeps _ (begin_op_ _ _)) => apply keeps_on_fsys : keeps.
#[export] Hint Extern 1 (keeps _ (end_op_ _ _)) => apply keeps_fs_op : keeps.
#[export] Hint Extern 2 (keeps _ (match ?x with _ => _ end)) => destruct x : keeps.
Ltac keep := solve [auto 100 with keeps typeclass_instances].
Ltac kstep := eapply ok_step; [keep|intros ?].

(** ** Bytes from user memory *)

(** User pages below 4 gigabytes are a source of bytes for [writei]: the
    whole range, in whatever pieces it is fetched. *)
Lemma user_source `{LayoutOk} m T l pt va n :
  vm_ok m T l -> T !! pt = Some 2%nat -> user_range m T l pt va (Z.of_nat n) -> (forall a, byte_ok (kmemory m a)) ->
  byte_source (either_copyin true pt) va (user_bytes (kmemory m) pt va n) m.
Proof.
  intros V Hp U Hb. pose proof U as [[U0 U1] _ _].
  assert (length (user_bytes (kmemory m) pt va n) = n) as Hl by (unfold user_bytes; by rewrite length_fmap, length_seq).
  split; [done|]. rewrite Hl. split; [lia|]. split; [apply Forall_fmap, Forall_forall; intros ? _; apply Hb|].
  intros t k Hk. unfold either_copyin, copyin_fun, copyin.
  rewrite (copyin_loop_eq T l); [|done|done|eapply user_range_sub; [exact U|lia|lia]|apply copy_fuel_ok; lia|lia].
  f_equal. rewrite Nat2Z.id. replace n with (t + (k + (n - t - k)))%nat by lia. rewrite !user_bytes_app.
  unfold bytes_at. rewrite drop_app_length', take_app_length'; unfold user_bytes; by rewrite ?length_fmap, ?length_seq.
Qed.
