(* ===== verification/SleepWakeup.v ===== *)
(** * Sleep and wakeup, interleaved (kernel/proc.c)

    Elsewhere [sleep] is one step.  Here processes run the instructions of
    [sleep], [wakeup], [sched] and the scheduler one by one, in any order: each
    process, again and again, waits in [sleep] for a condition under a spin lock
    [lk], the way every caller of [sleep] does, or makes the condition true and
    calls [wakeup].  A lock is its owner; that spin locks exclude is proved in
    Spinlock.v. *)

From Stdlib Require Import ZArith Lia.
From stdpp Require Import base list strings.
From S2P Require Import Prelude CString Kalloc Vm Sleeplock Bio Log Fs Printf Console Pipe Kstate.
Local Open Scope xv6_scope.

(** Where a process is.  [Scan j held]: in the loop of [wakeup], at process
    [j]. *)
Inductive place :=
| Elsewhere
| WaitAcq            (* acquire(lk) before the test of the condition *)
| Test               (* while(!condition) *)
| Got                (* the condition holds *)
| SleepAcq           (* sleep: acquire(&p->lock) *)
| SleepRel           (* release(lk) *)
| SleepChan          (* p->chan = chan *)
| SleepState         (* p->state = SLEEPING *)
| Sched              (* sched(), in p *)
| SchedRel           (* the scheduler, after the switch: release(&p->lock) *)
| Off                (* not on any CPU *)
| SchedTest          (* the scheduler holds p->lock: if(p->state == RUNNABLE) *)
| Tidy               (* after sched returned: p->chan = 0 *)
| SleepRelP          (* release(&p->lock) *)
| SleepReacq         (* acquire(lk) *)
| WakeAcq            (* acquire(lk) before making the condition true *)
| Change             (* condition = true *)
| Scan (j : nat) (held : bool)
| Release.           (* release(lk) *)

(** The condition, the owner of [lk], and for each process where it is, the
    owner of [p->lock], [p->state], [p->chan], and [noff] of the CPU that
    executes it. *)
Record sw := SW {
  sw_cond : bool; sw_lk : option nat; sw_at : nat -> place; sw_lock : nat -> option nat;
  sw_state : nat -> procstate; sw_chan : nat -> option wchan; sw_noff : nat -> Z }.

Definition upd {X} (f : nat -> X) (i : nat) (x : X) : nat -> X := fun j => if decide (j = i) then x else f j.

Definition set_cond b (s : sw) := SW b (sw_lk s) (sw_at s) (sw_lock s) (sw_state s) (sw_chan s) (sw_noff s).
Definition set_lk o (s : sw) := SW (sw_cond s) o (sw_at s) (sw_lock s) (sw_state s) (sw_chan s) (sw_noff s).
Definition set_at i x (s : sw) := SW (sw_cond s) (sw_lk s) (upd (sw_at s) i x) (sw_lock s) (sw_state s) (sw_chan s) (sw_noff s).
Definition set_lock i x (s : sw) := SW (sw_cond s) (sw_lk s) (sw_at s) (upd (sw_lock s) i x) (sw_state s) (sw_chan s) (sw_noff s).
Definition set_state i x (s : sw) := SW (sw_cond s) (sw_lk s) (sw_at s) (sw_lock s) (upd (sw_state s) i x) (sw_chan s) (sw_noff s).
Definition set_chan i x (s : sw) := SW (sw_cond s) (sw_lk s) (sw_at s) (sw_lock s) (sw_state s) (upd (sw_chan s) i x) (sw_noff s).
Definition add_noff i x (s : sw) := SW (sw_cond s) (sw_lk s) (sw_at s) (sw_lock s) (sw_state s) (sw_chan s) (upd (sw_noff s) i (sw_noff s i + x)).

Section Sleep.
Context (c : wchan).

Definition go (i : nat) (x : place) : M sw unit := modify (set_at i x).

(** [acquire] spins while the lock is held. *)
Definition acquire_lk (i : nat) (next : place) : M sw unit :=
  o <- get sw_lk ;;
  match o with
  | Some _ => ret tt
  | None => modify (set_lk (Some i)) ;;; modify (add_noff i 1) ;;; go i next
  end.
Definition release_lk (i : nat) (next : place) : M sw unit :=
  o <- get sw_lk ;;
  if decide (o = Some i) then modify (set_lk None) ;;; modify (add_noff i (-1)) ;;; go i next else panic "release".
Definition acquire_p (i p : nat) (next : place) : M sw unit :=
  o <- get (fun s => sw_lock s p) ;;
  match o with
  | Some _ => ret tt
  | None => modify (set_lock p (Some i)) ;;; modify (add_noff i 1) ;;; go i next
  end.
Definition release_p (i p : nat) (next : place) : M sw unit :=
  o <- get (fun s => sw_lock s p) ;;
  if decide (o = Some i) then modify (set_lock p None) ;;; modify (add_noff i (-1)) ;;; go i next else panic "release".

(** [sched]: its checks, then the switch to the scheduler of the CPU, which
    holds on to [p->lock].  Interrupts are off while [noff] is not 0. *)
Definition sched (i : nat) : M sw unit :=
  s <- get (fun s => s) ;;
  if negb (bool_decide (sw_lock s i = Some i)) then panic "sched p->lock"
  else if negb (sw_noff s i =? 1) then panic "sched locks"
  else if bool_decide (sw_state s i = RUNNING) then panic "sched running"
  else if sw_noff s i =? 0 then panic "sched interruptible"
  else go i SchedRel.

(** [sleep(c, lk)] from [SleepAcq] to [SleepReacq]. *)
Definition sleep_step (i : nat) (at_ : place) : M sw unit :=
  match at_ with
  | SleepAcq => acquire_p i i SleepRel
  | SleepRel => release_lk i SleepChan
  | SleepChan => modify (set_chan i (Some c)) ;;; go i SleepState
  | SleepState => modify (set_state i SLEEPING) ;;; go i Sched
  | Sched => sched i
  | Tidy => modify (set_chan i None) ;;; go i SleepRelP
  | SleepRelP => release_p i i SleepReacq
  | SleepReacq => acquire_lk i Test
  | _ => ret tt
  end.

(** The scheduler, for process [i]: it released [p->lock] after the switch, or
    comes by in its loop. *)
Definition scheduler_step (i : nat) (at_ : place) : M sw unit :=
  match at_ with
  | SchedRel => release_p i i Off
  | Off => acquire_p i i SchedTest
  | SchedTest =>
      st <- get (fun s => sw_state s i) ;;
      if decide (st = RUNNABLE) then modify (set_state i RUNNING) ;;; go i Tidy else release_p i i Off
  | _ => ret tt
  end.

(** The loop of [wakeup(c)]. *)
Definition wakeup_step (i j : nat) (held : bool) : M sw unit :=
  if held then
    s <- get (fun s => s) ;;
    (if decide (sw_state s j = SLEEPING /\ sw_chan s j = Some c) then modify (set_state j RUNNABLE) else ret tt) ;;;
    release_p i j (Scan (S j) false)
  else if (j <? NPROC)%nat then acquire_p i j (Scan j true)
  else go i Release.

(** The next instruction of process [i]; [choice] decides what a process does
    where it is free to: wait or wake, and whether a waiter uses the condition up. *)
Definition proc_step (i : nat) (choice : bool) : M sw unit :=
  a <- get (fun s => sw_at s i) ;;
  match a with
  | Elsewhere => go i (if choice then WaitAcq else WakeAcq)
  | WaitAcq => acquire_lk i Test
  | Test => b <- get sw_cond ;; go i (if b then Got else SleepAcq)
  | Got => (if choice then modify (set_cond false) else ret tt) ;;; go i Release
  | SchedRel | Off | SchedTest => scheduler_step i a
  | WakeAcq => acquire_lk i Change
  | Change => modify (set_cond true) ;;; go i (Scan 0 false)
  | Scan j held => wakeup_step i j held
  | Release => release_lk i Elsewhere
  | _ => sleep_step i a
  end.

Definition sw_step (s s' : sw) : Prop := exists i choice t, (i < NPROC)%nat /\ proc_step i choice s = Ok tt s' t.

End Sleep.

Definition sw_init (b : bool) : sw :=
  SW b None (fun _ => Elsewhere) (fun _ => None) (fun _ => RUNNING) (fun _ => None) (fun _ => 0).

(** ** The invariant *)

(** Holding [lk], and holding one's own [p->lock] (also through the scheduler). *)
Definition holds_lk (a : place) : bool :=
  match a with Test | Got | SleepAcq | SleepRel | Change | Scan _ _ | Release => true | _ => false end.
Definition holds_own (a : place) : bool :=
  match a with SleepRel | SleepChan | SleepState | Sched | SchedRel | SchedTest | Tidy | SleepRelP => true | _ => false end.
Definition holds_other (a : place) : bool := match a with Scan _ true => true | _ => false end.

(** The locks held. *)
Definition nheld (a : place) : Z := Z.b2z (holds_lk a) + Z.b2z (holds_own a) + Z.b2z (holds_other a).

Definition state_ok (a : place) (st : procstate) : Prop :=
  match a with
  | Sched | SchedRel => st = SLEEPING
  | Off | SchedTest => st = SLEEPING \/ st = RUNNABLE
  | _ => st = RUNNING
  end.
Definition chan_ok (c : wchan) (a : place) (ch : option wchan) : Prop :=
  match a with SleepState | Sched | SchedRel | Off | SchedTest | Tidy => ch = Some c | _ => ch = None end.

(** Tested the condition, with [lk] held since. *)
Definition tested (a : place) : bool := match a with SleepAcq | SleepRel => true | _ => false end.
(** Will sleep, or sleeps, without [lk]. *)
Definition committed (a : place) (st : procstate) : Prop := a = SleepChan \/ a = SleepState \/ st = SLEEPING.

Record sw_inv (c : wchan) (s : sw) : Prop := {
  v_lk : forall i, sw_lk s = Some i <-> holds_lk (sw_at s i) = true;
  v_lock : forall p q, sw_lock s p = Some q <-> (q = p /\ holds_own (sw_at s p) = true) \/ sw_at s q = Scan p true;
  v_state : forall i, state_ok (sw_at s i) (sw_state s i);
  v_chan : forall i, chan_ok c (sw_at s i) (sw_chan s i);
  v_noff : forall i, sw_noff s i = nheld (sw_at s i);
  v_tested : forall i, tested (sw_at s i) = true -> sw_cond s = false;
  v_bound : forall i, sw_at s i <> Elsewhere -> (i < NPROC)%nat;
  v_wake : forall p, committed (sw_at s p) (sw_state s p) -> sw_cond s = true -> exists q j h, sw_at s q = Scan j h /\ (j <= p)%nat }.

Lemma sw_init_inv c b : sw_inv c (sw_init b).
Proof. split; simpl; try done; [naive_solver|]. by intros p [|[|]]. Qed.

Lemma upd_eq {X} (f : nat -> X) i x : upd f i x i = x.
Proof. unfold upd. by rewrite decide_True. Qed.
Lemma upd_ne {X} (f : nat -> X) i j x : j <> i -> upd f i x j = f j.
Proof. intros H. unfold upd. by rewrite decide_False. Qed.

Section Inv.
Context {c : wchan} {s : sw} (I : sw_inv c s) (i : nat) (Hi : (i < NPROC)%nat).

(** A step of process [i] to place [a'] that leaves the other processes where
    they are.  The conditions are those on [lk], on the process locks, and on
    what is known of [i] itself and of the condition. *)
Lemma sw_inv_step a' cond' lk' lock' state' chan' noff' :
  (forall k, lk' = Some k <-> holds_lk (upd (sw_at s) i a' k) = true) ->
  (forall p q, lock' p = Some q <-> (q = p /\ holds_own (upd (sw_at s) i a' p) = true) \/ upd (sw_at s) i a' q = Scan p true) ->
  (forall k, state_ok (upd (sw_at s) i a' k) (state' k)) ->
  (forall k, chan_ok c (upd (sw_at s) i a' k) (chan' k)) ->
  (forall k, noff' k = nheld (upd (sw_at s) i a' k)) ->
  (forall k, tested (upd (sw_at s) i a' k) = true -> cond' = false) ->
  (forall p, committed (upd (sw_at s) i a' p) (state' p) -> cond' = true -> exists q j h, upd (sw_at s) i a' q = Scan j h /\ (j <= p)%nat) ->
  sw_inv c (SW cond' lk' (upd (sw_at s) i a') lock' state' chan' noff').
Proof.
  intros H1 H2 H3 H4 H5 H6 H7. split; simpl; try done.
  - intros k. destruct (decide (k = i)) as [->|Hne]; [done|]. rewrite upd_ne by done. apply I.
Qed.
(** [lk] *)
Lemma lk_same a' : holds_lk a' = holds_lk (sw_at s i) -> forall k, sw_lk s = Some k <-> holds_lk (upd (sw_at s) i a' k) = true.
Proof. intros H k. rewrite (v_lk _ _ I k). unfold upd. case_decide; [by subst; rewrite H|done]. Qed.
Lemma lk_acquired a' : sw_lk s = None -> holds_lk a' = true -> forall k, Some i = Some k <-> holds_lk (upd (sw_at s) i a' k) = true.
Proof. intros Hn H k. pose proof (v_lk _ _ I k) as Hk. rewrite Hn in Hk. unfold upd. case_decide; naive_solver. Qed.
Lemma lk_released a' : sw_lk s = Some i -> holds_lk a' = false -> forall k, None = Some k <-> holds_lk (upd (sw_at s) i a' k) = true.
Proof.
  intros Hn H k. pose proof (v_lk _ _ I k) as Hk. rewrite Hn in Hk. unfold upd. case_decide; [rewrite H; naive_solver|].
  split; [done|]. intros E. apply Hk in E. congruence.
Qed.

(** The process locks *)
Lemma no_other a : holds_other a = false -> forall p, a <> Scan p true.
Proof. by intros H p ->. Qed.

Ltac locks := unfold upd; repeat case_decide; subst; repeat match goal with H : holds_own _ = _ |- _ => rewrite H in * end; intuition (subst; try congruence).

Lemma lock_same a' : holds_own a' = holds_own (sw_at s i) -> holds_other a' = false -> holds_other (sw_at s i) = false ->
  forall p q, sw_lock s p = Some q <-> (q = p /\ holds_own (upd (sw_at s) i a' p) = true) \/ upd (sw_at s) i a' q = Scan p true.
Proof.
  intros H1 H2 H3 p q. pose proof (v_lock _ _ I p q) as Hpq. pose proof (no_other _ H2 p). pose proof (no_other _ H3 p). locks.
Qed.
Lemma lock_acquired a' : sw_lock s i = None -> holds_own a' = true -> holds_other a' = false -> holds_other (sw_at s i) = false ->
  forall p q, upd (sw_lock s) i (Some i) p = Some q <-> (q = p /\ holds_own (upd (sw_at s) i a' p) = true) \/ upd (sw_at s) i a' q = Scan p true.
Proof.
  intros Hn H1 H2 H3 p q. pose proof (v_lock _ _ I p q) as Hpq. pose proof (no_other _ H2 p). pose proof (no_other _ H3 p). locks.
Qed.
Lemma lock_released a' : holds_own (sw_at s i) = true -> holds_own a' = false -> holds_other a' = false -> holds_other (sw_at s i) = false ->
  forall p q, upd (sw_lock s) i None p = Some q <-> (q = p /\ holds_own (upd (sw_at s) i a' p) = true) \/ upd (sw_at s) i a' q = Scan p true.
Proof.
  intros H1 H2 H3 H4 p q. pose proof (v_lock _ _ I p q) as Hpq. pose proof (v_lock _ _ I i i) as Hii.
  pose proof (no_other _ H3 p). pose proof (no_other _ H4 p). locks.
Qed.
Lemma lock_scan_acquired j : sw_lock s j = None -> sw_at s i = Scan j false ->
  forall p q, upd (sw_lock s) j (Some i) p = Some q <->
    (q = p /\ holds_own (upd (sw_at s) i (Scan j true) p) = true) \/ upd (sw_at s) i (Scan j true) q = Scan p true.
Proof.
  intros Hn Ha p q. pose proof (v_lock _ _ I p q) as Hpq. pose proof (v_lock _ _ I j q) as Hjq.
  assert (holds_own (sw_at s i) = false) as Ho by (by rewrite Ha). rewrite Hn in Hjq. locks; simpl in *; try congruence.
Qed.
Lemma lock_scan_released j : sw_at s i = Scan j true ->
  forall p q, upd (sw_lock s) j None p = Some q <->
    (q = p /\ holds_own (upd (sw_at s) i (Scan (S j) false) p) = true) \/ upd (sw_at s) i (Scan (S j) false) q = Scan p true.
Proof.
  intros Ha p q. pose proof (v_lock _ _ I p q) as Hpq. pose proof (v_lock _ _ I j q) as Hjq. pose proof (v_lock _ _ I j i) as Hji.
  assert (holds_own (sw_at s i) = false) as Ho by (by rewrite Ha). locks; simpl in *; try congruence.
Qed.

(** [p->state] and [p->chan] *)
Lemma state_same a' : state_ok a' (sw_state s i) -> forall k, state_ok (upd (sw_at s) i a' k) (sw_state s k).
Proof. intros H k. unfold upd. case_decide; [by subst|apply I]. Qed.
Lemma state_set a' st : state_ok a' st -> forall k, state_ok (upd (sw_at s) i a' k) (upd (sw_state s) i st k).
Proof. intros H k. unfold upd. case_decide; [done|apply I]. Qed.
Lemma chan_same a' : chan_ok c a' (sw_chan s i) -> forall k, chan_ok c (upd (sw_at s) i a' k) (sw_chan s k).
Proof. intros H k. unfold upd. case_decide; [by subst|apply I]. Qed.
Lemma chan_set a' ch : chan_ok c a' ch -> forall k, chan_ok c (upd (sw_at s) i a' k) (upd (sw_chan s) i ch k).
Proof. intros H k. unfold upd. case_decide; [done|apply I]. Qed.

(** [noff] *)
Lemma noff_same a' : nheld a' = nheld (sw_at s i) -> forall k, sw_noff s k = nheld (upd (sw_at s) i a' k).
Proof. intros H k. unfold upd. case_decide; [subst; rewrite H|]; apply I. Qed.
Lemma noff_add a' x : nheld a' = nheld (sw_at s i) + x -> forall k, upd (sw_noff s) i (sw_noff s i + x) k = nheld (upd (sw_at s) i a' k).
Proof. intros H k. unfold upd. case_decide; [subst; by rewrite H, (v_noff _ _ I)|apply I]. Qed.

(** The condition *)
Lemma tested_same a' : (tested a' = true -> sw_cond s = false) -> forall k, tested (upd (sw_at s) i a' k) = true -> sw_cond s = false.
Proof. intros H k. unfold upd. case_decide; [done|apply I]. Qed.

(** Who is committed stays so, unless the condition is false. *)
Lemma wake_same a' state' : (forall p, p <> i -> state' p = SLEEPING -> sw_state s p = SLEEPING) ->
  (committed a' (state' i) -> committed (sw_at s i) (sw_state s i) \/ sw_cond s = false) ->
  (forall j h, sw_at s i = Scan j h -> exists h', a' = Scan j h') ->
  forall p, committed (upd (sw_at s) i a' p) (state' p) -> sw_cond s = true -> exists q j h, upd (sw_at s) i a' q = Scan j h /\ (j <= p)%nat.
Proof.
  intros Hst Hc Hscan p Hp Hcond.
  assert (committed (sw_at s p) (sw_state s p)) as Hp'.
  { unfold upd in Hp. case_decide as Hd; [subst; destruct (Hc Hp); [done|congruence]|]. unfold committed in *. naive_solver. }
  destruct (v_wake _ _ I p Hp' Hcond) as (q & j & h & Hq & Hj). destruct (decide (q = i)) as [->|Hne].
  - destruct (Hscan j h Hq) as [h' ->]. exists i, j, h'. by rewrite upd_eq.
  - exists q, j, h. by rewrite upd_ne.
Qed.
End Inv.

(** The side conditions of [sw_inv_step]. *)
Ltac sw_close I Hi E :=
  unfold set_cond, set_lk, set_at, set_lock, set_state, set_chan, add_noff; cbn [sw_cond sw_lk sw_at sw_lock sw_state sw_chan sw_noff];
  eapply (sw_inv_step I _ Hi);
  [ first [done | apply (lk_same I); rewrite E; reflexivity | apply (lk_acquired I); done | apply (lk_released I); done]
  | first [done | apply (lock_same I); rewrite ?E; reflexivity | apply (lock_acquired I); rewrite ?E; done | apply (lock_released I); rewrite ?E; done
          | apply (lock_scan_acquired I); done | apply (lock_scan_released I); done]
  | first [apply (state_set I); simpl; by auto | apply (state_same I); simpl; by auto]
  | first [apply (chan_set I); simpl; by auto | apply (chan_same I); simpl; by auto]
  | first [apply (noff_same I); rewrite E; reflexivity | apply (noff_add I); rewrite E; reflexivity]
  | first [done | apply (tested_same I); simpl; by auto]
  | first [done | apply (wake_same I); rewrite ?E;
      [ let p := fresh in intros p ?; by rewrite ?upd_ne by done
      | unfold committed; rewrite ?upd_eq; intuition congruence
      | intros ? ? [=]; subst; by eexists ] ] ].

Section Steps.
Context {c : wchan} {s : sw} (I : sw_inv c s) (i : nat) (Hi : (i < NPROC)%nat) (choice : bool).

Lemma holds_unique p q : holds_lk (sw_at s p) = true -> holds_lk (sw_at s q) = true -> p = q.
Proof. intros Hp%(v_lk _ _ I) Hq%(v_lk _ _ I). congruence. Qed.

(** The condition becomes true: no one else is between its test and
    [release(lk)]. *)
Lemma change_inv : sw_at s i = Change ->
  sw_inv c (SW true (sw_lk s) (upd (sw_at s) i (Scan 0 false)) (sw_lock s) (sw_state s) (sw_chan s) (sw_noff s)).
Proof.
  intros E. pose proof (v_state _ _ I i) as Hst. pose proof (v_chan _ _ I i) as Hch. rewrite E in Hst, Hch.
  apply (sw_inv_step I _ Hi); [apply (lk_same I)|apply (lock_same I)|apply (state_same I)|apply (chan_same I)|apply (noff_same I)|..]; rewrite ?E; try done.
  - intros k Hk. exfalso. unfold upd in Hk. case_decide as Hne; [done|]. apply Hne, holds_unique; [by destruct (sw_at s k)|by rewrite E].
  - intros p _ _. exists i, 0%nat, false. rewrite upd_eq. split; [done|lia].
Qed.

(** [wakeup] passes process [j]: if it sleeps, it is woken. *)
Lemma scanned_inv j (st' : nat -> procstate) : sw_at s i = Scan j true -> (forall k, k <> j -> st' k = sw_state s k) -> state_ok (sw_at s j) (st' j) ->
  st' j <> SLEEPING ->
  sw_inv c (SW (sw_cond s) (sw_lk s) (upd (sw_at s) i (Scan (S j) false)) (upd (sw_lock s) j None) st' (sw_chan s) (upd (sw_noff s) i (sw_noff s i + -1))).
Proof.
  intros E Hst Hj Hns. pose proof (v_chan _ _ I i) as Hch. pose proof (v_state _ _ I i) as Hsti. rewrite E in Hch, Hsti. simpl in Hsti.
  apply (sw_inv_step I _ Hi); [apply (lk_same I)|by apply (lock_scan_released I)| |by apply (chan_same I)|apply (noff_add I)|apply (tested_same I)|]; rewrite ?E; try done.
  - intros k. unfold upd. case_decide as Hk; [subst k; simpl|].
    + destruct (decide (i = j)) as [->|Hne]; [by rewrite E in Hj|by rewrite Hst].
    + destruct (decide (k = j)) as [->|Hne]; [done|]. rewrite Hst by done. apply I.
  - intros p Hp Hc. exists i, (S j), false. rewrite upd_eq. split; [done|].
    assert (p <> j) as Hpj.
    { intros ->. assert (sw_lock s j = Some i) as El by (apply (v_lock _ _ I); by right). unfold upd in Hp. case_decide as Hji; [subst; destruct Hp as [?|[?|?]]; done|].
      destruct Hp as [Hp|[Hp|Hp]]; [..|done];
        (assert (sw_lock s j = Some j) as El2 by (apply (v_lock _ _ I); left; by rewrite Hp)); congruence. }
    assert (committed (sw_at s p) (sw_state s p)) as Hp'.
    { unfold upd in Hp. case_decide as Hpi; [|by rewrite Hst in Hp by done]. subst p. rewrite Hst in Hp by done. destruct Hp as [?|[?|Hp]]; [done|done|]. right; by right. }
    destruct (v_wake _ _ I p Hp' Hc) as (q & j' & h & Hq & Hle).
    assert (q = i) as -> by (apply holds_unique; [by rewrite Hq|by rewrite E]).
    rewrite E in Hq. injection Hq as <- <-. lia.
Qed.

Lemma wakeup_inv j h : sw_at s i = Scan j h -> wp (wakeup_step c i j h) s (fun _ s' _ => sw_inv c s').
Proof.
  intros E. pose proof (v_state _ _ I i) as Hst. pose proof (v_chan _ _ I i) as Hch. rewrite E in Hst, Hch. simpl in Hst, Hch.
  unfold wakeup_step, release_p, acquire_p, go. destruct h.
  - assert (sw_lock s j = Some i) as El by (apply (v_lock _ _ I); by right). do 2 wp_step. pose proof (v_state _ _ I j) as Hj. pose proof (v_chan _ _ I j) as Hcj.
    wp_step. case_decide as Hs.
    + destruct Hs as [Hs _]. do 3 wp_step. cbn [sw_lock set_state]. rewrite decide_True by done. wp_steps. apply scanned_inv; [done|..].
      * intros k Hk. by apply upd_ne.
      * cbn [sw_state set_state set_lock add_noff]. rewrite upd_eq. rewrite Hs in Hj. assert (sw_at s j <> Sched /\ sw_at s j <> SchedRel) as [N1 N2].
        { split; intros Ej; (assert (sw_lock s j = Some j) as El2 by (apply (v_lock _ _ I); left; by rewrite Ej)); rewrite El in El2; injection El2 as ->; congruence. }
        destruct (sw_at s j); simpl in *; try done; by right.
      * cbn [sw_state set_state set_lock add_noff]. by rewrite upd_eq.
    + do 3 wp_step. rewrite decide_True by done. wp_steps. apply scanned_inv; [done|done|done|]. intros Hsl. cbn [sw_state set_lock add_noff] in Hsl. apply Hs. split; [done|].
      rewrite Hsl in Hj. destruct (sw_at s j); simpl in *; done.
  - destruct (j <? NPROC)%nat eqn:Hj; bools.
    + do 2 wp_step. destruct (sw_lock s j) eqn:El; wp_steps; [exact I|]. sw_close I Hi E.
    + wp_steps. apply (sw_inv_step I _ Hi); [apply (lk_same I)|apply (lock_same I)|apply (state_same I)|apply (chan_same I)|apply (noff_same I)|apply (tested_same I)|];
        rewrite ?E; try done.
      intros p Hp Hc. exfalso. assert (committed (sw_at s p) (sw_state s p)) as Hp'.
      { unfold upd in Hp. case_decide as Hpi; [|done]. subst p. destruct Hp as [?|[?|Hp]]; [done|done|]. right; by right. }
      destruct (v_wake _ _ I p Hp' Hc) as (q & j' & h & Hq & Hle).
      assert (q = i) as -> by (apply holds_unique; [by rewrite Hq|by rewrite E]).
      rewrite E in Hq. injection Hq as <- <-. assert (p < NPROC)%nat; [|lia]. apply (v_bound _ _ I). intros Ep. destruct Hp' as [?|[?|Hsl]]; [congruence..|].
      pose proof (v_state _ _ I p) as Hsp. rewrite Ep, Hsl in Hsp. done.
Qed.

Lemma proc_step_inv : wp (proc_step c i choice) s (fun _ s' _ => sw_inv c s').
Proof.
  unfold proc_step. wp_step. wp_step. pose proof (v_state _ _ I i) as Hst. pose proof (v_chan _ _ I i) as Hch. pose proof (v_lk _ _ I i) as Hlk.
  pose proof (v_lock _ _ I i i) as Hown. pose proof (v_noff _ _ I i) as Hno. pose proof (v_tested _ _ I i) as Hte.
  destruct (sw_at s i) eqn:E; cbn [sleep_step scheduler_step]; unfold acquire_lk, release_lk, acquire_p, release_p, go; simpl in Hst, Hch, Hlk, Hown, Hno, Hte.
  - wp_step. destruct choice; sw_close I Hi E.
  - do 2 wp_step. destruct (sw_lk s) eqn:El; wp_steps; [exact I|]. sw_close I Hi E.
  - do 2 wp_step. destruct (sw_cond s) eqn:Ec; wp_steps; sw_close I Hi E.
  - wp_step. destruct choice; wp_steps; sw_close I Hi E.
  - do 2 wp_step. destruct (sw_lock s i) eqn:El; wp_steps; [exact I|]. sw_close I Hi E.
  - do 2 wp_step. rewrite decide_True by (by apply Hlk). wp_steps. assert (sw_lk s = Some i) as El by (by apply Hlk). sw_close I Hi E.
  - wp_steps. sw_close I Hi E.
  - wp_steps. sw_close I Hi E.
  - unfold sched, go. do 2 wp_step. rewrite bool_decide_true by (apply Hown; by left). rewrite Hno. change (negb (1 =? 1)) with false. cbv iota.
    rewrite bool_decide_false by (by rewrite Hst). wp_steps. sw_close I Hi E.
  - do 2 wp_step. rewrite decide_True by (apply Hown; by left). wp_steps. sw_close I Hi E.
  - do 2 wp_step. destruct (sw_lock s i) eqn:El; wp_steps; [exact I|]. sw_close I Hi E.
  - do 2 wp_step. case_decide; [wp_steps; sw_close I Hi E|]. do 2 wp_step. rewrite decide_True by (apply Hown; by left). wp_steps. sw_close I Hi E.
  - wp_steps. sw_close I Hi E.
  - do 2 wp_step. rewrite decide_True by (apply Hown; by left). wp_steps. sw_close I Hi E.
  - do 2 wp_step. destruct (sw_lk s) eqn:El; wp_steps; [exact I|]. sw_close I Hi E.
  - do 2 wp_step. destruct (sw_lk s) eqn:El; wp_steps; [exact I|]. sw_close I Hi E.
  - wp_steps. by apply change_inv.
  - by apply wakeup_inv.
  - do 2 wp_step. assert (sw_lk s = Some i) as El by (by apply Hlk). rewrite decide_True by done. wp_steps. sw_close I Hi E.
Qed.
End Steps.

Lemma sw_reach c b s : star (sw_step c) (sw_init b) s -> sw_inv c s.
Proof.
  intros H. eapply star_invariant; [|exact H|apply sw_init_inv]. intros s1 s2 I (i & choice & t & Hi & E).
  exact (wp_Ok _ _ _ _ _ _ (proc_step_inv I i Hi choice) E).
Qed.

(** C6: However the instructions of the processes interleave, [sched] and
    [release] never panic; a process sleeps while the condition is true only
    as long as the process that made it true is in [wakeup] and has still to come by;
    so once nobody holds [lk] and the condition is true, nobody sleeps for it. *)
Theorem no_lost_wakeup c b s : star (sw_step c) (sw_init b) s ->
  (forall i choice, (i < NPROC)%nat -> exists s' t, proc_step c i choice s = Ok tt s' t) /\
  (forall p, sw_state s p = SLEEPING -> sw_cond s = true -> exists q j h, sw_at s q = Scan j h /\ (j <= p)%nat) /\
  (sw_lk s = None -> sw_cond s = true -> forall p, sw_state s p <> SLEEPING).
Proof.
  intros I%sw_reach. assert (forall p, sw_state s p = SLEEPING -> sw_cond s = true -> exists q j h, sw_at s q = Scan j h /\ (j <= p)%nat) as Hw.
  { intros p Hp. apply (v_wake _ _ I). right. by right. }
  split; [|split; [done|]].
  - intros i choice Hi. destruct (wp_run _ _ _ (proc_step_inv I i Hi choice)) as ([] & s' & t & E & _). by exists s', t.
  - intros Hl Hc p Hp. destruct (Hw p Hp Hc) as (q & j & h & Hq & _). pose proof (v_lk _ _ I q) as Hlk. rewrite Hq, Hl in Hlk. by destruct Hlk as [_ Hlk]; specialize (Hlk eq_refl).
Qed.

(** A schedule. *)
Fixpoint run_sw (c : wchan) (sch : list (nat * bool)) (s : sw) : option sw :=
  match sch with
  | [] => Some s
  | (i, choice) :: sch' => match proc_step c i choice s with Ok _ s' _ => run_sw c sch' s' | _ => None end
  end.

Lemma run_sw_star c sch : forall s0 s s', Forall (fun x => (fst x < NPROC)%nat) sch -> star (sw_step c) s0 s -> run_sw c sch s = Some s' -> star (sw_step c) s0 s'.
Proof.
  induction sch as [|[i b] sch IH]; intros s0 s s' Hb Hs Hr; [by injection Hr as <-|]. apply Forall_cons in Hb as [Hi Hb]. cbn [run_sw] in Hr.
  destruct (proc_step c i b s) as [[] s1 t| | | |] eqn:E; try done. eapply IH; [done| |exact Hr]. eapply star_snoc; [done|]. by exists i, b, t.
Qed.

(** Process 0 goes to sleep; process 1 makes the condition true and wakes it. *)
Definition sleeper_ex : list (nat * bool) := replicate 9 (0%nat, true).
Definition waker_ex : list (nat * bool) := replicate (3 + 2 * NPROC + 2) (1%nat, false).

Lemma no_lost_wakeup_witness :
  match run_sw ChTicks sleeper_ex (sw_init false) with Some s => sw_state s 0%nat = SLEEPING | None => False end /\
  match run_sw ChTicks (sleeper_ex ++ waker_ex) (sw_init false) with
  | Some s => sw_lk s = None /\ sw_cond s = true /\ sw_state s 0%nat <> SLEEPING
  | None => False
  end.
Proof.
  split; [reflexivity|].
  assert (match run_sw ChTicks (sleeper_ex ++ waker_ex) (sw_init false) with Some s => sw_lk s = None /\ sw_cond s = true | None => False end) as E
    by (vm_compute; split; reflexivity).
  destruct (run_sw ChTicks (sleeper_ex ++ waker_ex) (sw_init false)) as [s|] eqn:Es; [|exact E].
  destruct E as [E1 E2]. split; [exact E1|]. split; [exact E2|].
  refine (proj2 (proj2 (no_lost_wakeup ChTicks false s _)) E1 E2 0%nat).
  refine (run_sw_star ChTicks _ (sw_init false) (sw_init false) s _ (star_refl _ _) Es).
  apply Forall_app; split; apply Forall_replicate; unfold NPROC; simpl; lia.
Defined.
