(* ===== verification/File.v ===== *)
(** * Open files (kernel/file.c, and the allocation of pipes in kernel/pipe.c)

    The file table counts the references to each open file; reading and
    writing dispatch on what the file is.  [me] is the running process. *)

From Stdlib Require Import ZArith Lia.
From stdpp Require Import base gmap list strings.
From S2P Require Import Prelude CString Kalloc Vm Sleeplock Bio Log Fs Printf Console Pipe Kstate.
Local Open Scope xv6_scope.

Definition NDEV : Z := 10.
Definition CONSOLE : Z := 1.

Section File.
Context `{Layout} (me : nat).

(** ** The table *)

Definition filealloc : M kstate (option nat) :=
  for_each (seq 0 NFILE) (fun f =>
    x <- fderef f ;;
    if f_ref x =? 0 then fassign f (set_f_ref 1) ;;; ret (inr f) else ret (inl tt)).

Definition filedup (f : nat) : M kstate nat :=
  x <- fderef f ;;
  if f_ref x <? 1 then panic "filedup"
  else fassign f (set_f_ref (f_ref x + 1)) ;;; ret f.

(** ** Pipes *)

Definition pipeclose (pi : Z) (writable : bool) : M kstate unit :=
  p <- fetch (fun s => k_pipes s !! pi) ;;
  dead <- lift me (fun _ => p) (fun p s => set_k_pipes (<[pi := p]> (k_pipes s)) s) (pipeclose_flags pi writable) ;;
  if dead : bool then
    on_mem me (kfree pi) ;;;
    modify (fun s => set_k_pipes (delete pi (k_pipes s)) s)
  else ret tt.

Definition fileclose (f : nat) : M kstate unit :=
  x <- fderef f ;;
  if f_ref x <? 1 then panic "fileclose"
  else
    fassign f (set_f_ref (f_ref x - 1)) ;;;
    if 0 <? f_ref x - 1 then ret tt
    else
      ff <- fderef f ;;
      fassign f (fun x => set_f_type FD_NONE (set_f_ref 0 x)) ;;;
      match f_type ff with
      | FD_PIPE => pipeclose (f_pipe ff) (ctrue (f_writable ff))
      | FD_INODE | FD_DEVICE =>
          ip <- on_fsys me (ideref (f_ip ff)) ;;
          begin_op_ me (i_dev ip) ;;;
          fs_op me (fun pid => iput pid (f_ip ff)) ;;;
          end_op_ me (i_dev ip)
      | FD_NONE => ret tt
      end.

(** The page's bytes before they are the pipe's are not used. *)
Definition pipealloc : M kstate (option (nat * nat)) :=
  let bad f0 f1 :=
    match f0 with Some f => fileclose f | None => ret tt end ;;;
    match f1 with Some f => fileclose f | None => ret tt end ;;;
    ret None in
  f0 <- filealloc ;;
  match f0 with
  | None => bad None None
  | Some r =>
      f1 <- filealloc ;;
      match f1 with
      | None => bad f0 None
      | Some w =>
          pi <- on_mem me kalloc ;;
          if pi =? 0 then bad f0 f1
          else
            modify (fun s => set_k_pipes
              (<[pi := new_pipe (read_bytes (kmemory (k_mem s)) (pi + 24) (Z.to_nat PIPESIZE))]> (k_pipes s)) s) ;;;
            fassign r (fun x => set_f_pipe pi (set_f_writable 0 (set_f_readable 1 (set_f_type FD_PIPE x)))) ;;;
            fassign w (fun x => set_f_pipe pi (set_f_writable 1 (set_f_readable 0 (set_f_type FD_PIPE x)))) ;;;
            ret (Some (r, w))
      end
  end.

(** ** Metadata *)

(** struct stat in memory; [pad] are the four bytes before [size] that no
    assignment reaches. *)
Definition stat_bytes (pad : list Z) (st : stat) : list Z :=
  le_bytes 4 (u32 (st_dev st)) ++ le_bytes 4 (u32 (st_ino st)) ++ le_bytes 2 (u16 (st_type st)) ++
  le_bytes 2 (u16 (st_nlink st)) ++ pad ++ le_bytes 8 (u64 (st_size st)).

Definition filestat (pad : list Z) (f : nat) (addr : Z) : M kstate Z :=
  p <- myproc me ;;
  x <- fderef f ;;
  match f_type x with
  | FD_INODE | FD_DEVICE =>
      fs_op me (fun pid => ilock pid (Some (f_ip x))) ;;;
      st <- on_fsys me (stati (f_ip x)) ;;
      fs_op me (fun pid => iunlock pid (Some (f_ip x))) ;;;
      r <- on_mem me (copyout (p_pagetable p) addr (stat_bytes pad st)) ;;
      if r <? 0 then ret (-1) else ret 0
  | _ => ret (-1)
  end.

(** ** Reading and writing *)

(** Turning the sleep of a call that starts again when woken into its
    continuation. *)
Definition waits (k : cont) (m : M kstate Z) : M kstate call := fun s =>
  match m s with
  | Ok r s' t => Ok (inl r) s' t
  | Sleep _ s' t => Ok (inr k) s' t
  | Panic e s' t => Panic e s' t
  | Undef => Undef
  | Diverge => Diverge
  end.

Definition kpiperead (pi addr n : Z) : M kstate call :=
  p <- myproc me ;;
  waits (InPipeRead pi addr n)
    (on_pipe_mem me pi (piperead (copyout_fun (p_pagetable p)) pi (ctrue (p_killed p)) addr n)).

(** The write from its [i]th byte on. *)
Definition kpipewrite (pi addr n i : Z) : M kstate call :=
  p <- myproc me ;;
  r <- on_pipe_mem me pi (pipewrite_from (copyin_fun (p_pagetable p)) pi (ctrue (p_killed p)) i addr n) ;;
  match r with
  | inl r => ret (inl r)
  | inr i => passign me (asleep (ChPipeWrite pi)) ;;; ret (inr (InPipeWrite pi addr n i))
  end.

Definition console_call (target : Z) (r : Z + Z * Z) : M kstate call :=
  match r with
  | inl r => ret (inl r)
  | inr (dst, n) => passign me (asleep ChCons) ;;; ret (inr (InConsoleRead target dst n))
  end.

Definition kconsoleread (dst n : Z) : M kstate call :=
  p <- myproc me ;;
  r <- on_cons_mem me (consoleread (either_copyout true (p_pagetable p)) (ctrue (p_killed p)) dst n) ;;
  console_call n r.
Definition kconsoleread_resume (target dst n : Z) : M kstate call :=
  p <- myproc me ;;
  r <- on_cons_mem me (consoleread_resume (either_copyout true (p_pagetable p)) (ctrue (p_killed p)) target (dst, n)) ;;
  console_call target r.
Definition kconsolewrite (src n : Z) : M kstate call :=
  p <- myproc me ;;
  r <- on_cons_mem me (consolewrite (either_copyin true (p_pagetable p)) src n) ;;
  ret (inl r).

(** devsw[major].read, write: consoleinit sets the entry of the console, and
    the others are null pointers. *)
Definition devsw (major : Z) (m : M kstate call) : M kstate call := if major =? CONSOLE then m else undef.

(** readi(f->ip, 1, addr, f->off, n) and the like, for a user address. *)
Definition readi_user (p : proc) (ip : nat) (addr off n : Z) : M kstate Z :=
  on_fs_mem me (readi (either_copyout true (p_pagetable p)) (p_pid p) ip addr off (u32 n)).
Definition writei_user (p : proc) (ip : nat) (addr off n : Z) : M kstate Z :=
  on_fs_mem me (writei (either_copyin true (p_pagetable p)) (p_pid p) ip addr off (u32 n)).

(** f->off += r if r > 0 *)
Definition advance (f : nat) (r : Z) : M kstate unit :=
  if 0 <? r then fassign f (fun x => set_f_off (u32 (f_off x + r)) x) else ret tt.

Definition fileread (f : nat) (addr n : Z) : M kstate call :=
  p <- myproc me ;;
  x <- fderef f ;;
  if f_readable x =? 0 then ret (inl (-1))
  else
    match f_type x with
    | FD_PIPE => kpiperead (f_pipe x) addr n
    | FD_DEVICE => devsw (f_major x) (kconsoleread addr n)
    | FD_INODE =>
        fs_op me (fun pid => ilock pid (Some (f_ip x))) ;;;
        r <- readi_user p (f_ip x) addr (f_off x) n ;;
        advance f r ;;;
        fs_op me (fun pid => iunlock pid (Some (f_ip x))) ;;;
        ret (inl r)
    | FD_NONE => panic "fileread"
    end.

(** The most one transaction writes. *)
Definition max_write : Z := (MAXOPBLOCKS - 1 - 1 - 2) / 2 * BSZ.

Definition writei_txn (p : proc) (f ip : nat) (dev addr n1 : Z) : M kstate Z :=
  begin_op_ me dev ;;;
  fs_op me (fun pid => ilock pid (Some ip)) ;;;
  x <- fderef f ;;
  r <- writei_user p ip addr (f_off x) n1 ;;
  advance f r ;;;
  fs_op me (fun pid => iunlock pid (Some ip)) ;;;
  end_op_ me dev ;;;
  ret r.

(** The loop of [filewrite] from [i] on: how far it gets.  Each iteration
    that does not leave the loop writes at least one byte. *)
Fixpoint filewrite_loop (fuel : nat) (p : proc) (f ip : nat) (addr n i : Z) : M kstate Z :=
  if i <? n then
    match fuel with
    | O => diverge
    | S fuel' =>
        let n1 := Z.min (n - i) max_write in
        d <- on_fsys me (ideref ip) ;;
        r <- writei_txn p f ip (i_dev d) (u64 (addr + i)) n1 ;;
        if r <? 0 then ret i
        else if negb (r =? n1) then panic "short filewrite"
        else filewrite_loop fuel' p f ip addr n (i + r)
    end
  else ret i.

Definition filewrite (f : nat) (addr n : Z) : M kstate call :=
  p <- myproc me ;;
  x <- fderef f ;;
  if f_writable x =? 0 then ret (inl (-1))
  else
    match f_type x with
    | FD_PIPE => kpipewrite (f_pipe x) addr n 0
    | FD_DEVICE => devsw (f_major x) (kconsolewrite addr n)
    | FD_INODE =>
        i <- filewrite_loop (Z.to_nat n) p f (f_ip x) addr n 0 ;;
        ret (inl (if i =? n then n else -1))
    | FD_NONE => panic "filewrite"
    end.

End File.
