(* ===== verification/Proc.v ===== *)
(** * Processes (kernel/proc.c)

    Creation, exit and waiting, scheduling.  [me] is the running process, an
    index of the process table.  Every step that the code takes with a
    process's lock held is one step here; SleepWakeup.v has the interleavings of
    sleep and wakeup. *)

From Stdlib Require Import ZArith Lia.
From stdpp Require Import base gmap list strings.
From S2P Require Import Prelude CString Kalloc Vm Sleeplock Bio Log Fs Printf Console Pipe Kstate File.
Local Open Scope xv6_scope.

(** The addresses of the kernel's code that end up in registers. *)
Class Code := { forkret_addr : Z; usertrap_addr : Z; kernelvec_addr : Z; uservec_addr : Z; userret_addr : Z }.

Section Proc.
Context `{Layout} `{Code} (me : nat).

(** The entry of the table, and all of them. *)
Definition procs_all : list nat := seq 0 NPROC.

(** ** Allocation *)

Definition procinit : M kstate unit :=
  for_all procs_all (fun p =>
    pa <- on_mem me kalloc ;;
    if pa =? 0 then panic "kalloc"
    else
      let va := KSTACK (Z.of_nat p) in
      kpt <- get k_kpt ;;
      on_mem me (kvmmap kpt va pa PGSIZE (Z.lor PTE_R PTE_W)) ;;;
      passign p (set_p_kstack va)).

Definition allocpid : M kstate Z :=
  pid <- get k_nextpid ;;
  modify (fun s => set_k_nextpid (i32 (k_nextpid s + 1)) s) ;;;
  ret pid.

Definition proc_pagetable (tf : Z) : M kmem Z :=
  pagetable <- uvmcreate ;;
  mappages pagetable TRAMPOLINE PGSIZE trampoline (Z.lor PTE_R PTE_X) ;;;
  mappages pagetable TRAPFRAME PGSIZE tf (Z.lor PTE_R PTE_W) ;;;
  ret pagetable.

Definition proc_freepagetable (pagetable sz : Z) : M kmem unit :=
  uvmunmap pagetable TRAMPOLINE PGSIZE false ;;;
  uvmunmap pagetable TRAPFRAME PGSIZE false ;;;
  if 0 <? sz then uvmfree pagetable sz else ret tt.

Definition find_unused : M kstate (option nat) :=
  for_each procs_all (fun p =>
    x <- pderef p ;;
    ret (if decide (p_state x = UNUSED) then inr p else inl tt)).

Definition allocproc : M kstate (option nat) :=
  r <- find_unused ;;
  match r with
  | None => ret None
  | Some p =>
      pid <- allocpid ;;
      passign p (set_p_pid pid) ;;;
      tf <- on_mem me kalloc ;;
      passign p (set_p_tf tf) ;;;
      if tf =? 0 then ret None
      else
        pagetable <- on_mem me (proc_pagetable tf) ;;
        passign p (set_p_pagetable pagetable) ;;;
        passign p (fun x => set_p_context (Context_ forkret_addr (u64 (p_kstack x + PGSIZE)) (replicate 12 0)) x) ;;;
        ret (Some p)
  end.

Definition freeproc (p : nat) : M kstate unit :=
  x <- pderef p ;;
  (if ctrue (p_tf x) then on_mem me (kfree (p_tf x)) else ret tt) ;;;
  passign p (set_p_tf 0) ;;;
  (if ctrue (p_pagetable x) then on_mem me (proc_freepagetable (p_pagetable x) (p_sz x)) else ret tt) ;;;
  passign p (fun x =>
    set_p_state UNUSED (set_p_killed 0 (set_p_chan None (set_p_name (<[0%nat := 0]> (p_name x))
      (set_p_parent None (set_p_pid 0 (set_p_sz 0 (set_p_pagetable 0 x)))))))).

(** ** The first process *)

Definition initcode : list Z :=
  [0x17; 0x05; 0x00; 0x00; 0x13; 0x05; 0x05; 0x02;
   0x97; 0x05; 0x00; 0x00; 0x93; 0x85; 0x05; 0x02;
   0x9d; 0x48; 0x73; 0x00; 0x00; 0x00; 0x89; 0x48;
   0x73; 0x00; 0x00; 0x00; 0xef; 0xf0; 0xbf; 0xff;
   0x2f; 0x69; 0x6e; 0x69; 0x74; 0x00; 0x00; 0x01;
   0x20; 0x00; 0x00; 0x00; 0x00; 0x00; 0x00; 0x00;
   0x00; 0x00; 0x00].

(** p->tf->field of another process. *)
Definition tf_set_of (p : nat) (off v : Z) : M kstate unit :=
  x <- pderef p ;; on_mem me (write64 (p_tf x + off) v).

Definition copy_name (name : list Z) (x : proc) : proc := set_p_name (bytes_put 0 (safestrcpy name 16) (p_name x)) x.

Definition userinit : M kstate unit :=
  r <- allocproc ;;
  modify (set_k_initproc r) ;;;
  match r with
  | None => undef
  | Some p =>
      x <- pderef p ;;
      on_mem me (uvminit (p_pagetable x) initcode) ;;;
      passign p (set_p_sz PGSIZE) ;;;
      tf_set_of p TF_EPC 0 ;;;
      tf_set_of p TF_SP PGSIZE ;;;
      passign p (copy_name (chars "initcode")) ;;;
      cwd <- on_fsys me (namei 0 0 [SLASH]) ;;
      passign p (set_p_cwd cwd) ;;;
      passign p (set_p_state RUNNABLE)
  end.

(** ** Growing and forking *)

(** [sz] is a 32-bit variable. *)
Definition growproc (n : Z) : M kstate Z :=
  p <- myproc me ;;
  let sz := u32 (p_sz p) in
  if 0 <? n then
    r <- on_mem me (uvmalloc (p_pagetable p) sz (u32 (sz + n))) ;;
    if u32 r =? 0 then ret (-1) else passign me (set_p_sz (u32 r)) ;;; ret 0
  else if n <? 0 then
    r <- on_mem me (uvmdealloc (p_pagetable p) sz (u32 (sz + n))) ;;
    if u32 r =? 0 then ret (-1) else passign me (set_p_sz (u32 r)) ;;; ret 0
  else passign me (set_p_sz sz) ;;; ret 0.

(** for(i = 0; i < NOFILE; i++) if(p->ofile[i]) np->ofile[i] = filedup(p->ofile[i]) *)
Definition dup_ofiles (p : proc) (np : nat) : M kstate unit :=
  for_all (seq 0 NOFILE) (fun i =>
    match p_ofile p !! i with
    | Some (Some f) => f' <- filedup f ;; passign np (fun x => set_p_ofile (<[i := Some f']> (p_ofile x)) x)
    | _ => ret tt
    end).

Definition fork : M kstate Z :=
  p <- myproc me ;;
  r <- allocproc ;;
  match r with
  | None => ret (-1)
  | Some np =>
      x <- pderef np ;;
      r <- on_mem me (uvmcopy (p_pagetable p) (p_pagetable x) (p_sz p)) ;;
      if r <? 0 then freeproc np ;;; ret (-1)
      else
        passign np (set_p_sz (p_sz p)) ;;;
        passign np (set_p_parent (Some me)) ;;;
        on_mem me (modify (fun m => set_memory (memmove (p_tf x) (p_tf p) (Z.to_nat TF_SIZE) (kmemory m)) m)) ;;;
        tf_set_of np TF_A0 0 ;;;
        dup_ofiles p np ;;;
        cwd <- fetch (fun _ => p_cwd p) ;;
        cwd <- on_fsys me (idup cwd) ;;
        passign np (set_p_cwd (Some cwd)) ;;;
        passign np (copy_name (p_name p)) ;;;
        x <- pderef np ;;
        passign np (set_p_state RUNNABLE) ;;;
        ret (p_pid x)
  end.

(** ** Exit and wait *)

(** wakeup1: [p] waits in [wait] if it sleeps on its own address. *)
Definition wakeup1 (p : nat) : M kstate unit := passign p (wake_proc (ChProc p)).

Definition reparent (p : nat) : M kstate unit :=
  for_all procs_all (fun pp =>
    x <- pderef pp ;;
    if decide (p_parent x = Some p) then
      init <- get k_initproc ;;
      passign pp (set_p_parent init) ;;;
      x <- pderef pp ;;
      if decide (p_state x = ZOMBIE) then
        i <- fetch (fun _ => init) ;; wakeup1 i
      else ret tt
    else ret tt).

Definition close_ofiles : M kstate unit :=
  for_all (seq 0 NOFILE) (fun fd =>
    p <- myproc me ;;
    match p_ofile p !! fd with
    | Some (Some f) =>
        fileclose me f ;;;
        passign me (fun x => set_p_ofile (<[fd := None]> (p_ofile x)) x)
    | _ => ret tt
    end).

(** The call switches to the scheduler and never comes back, as the process
    is a zombie then. *)
Definition exit : M kstate unit :=
  init <- get k_initproc ;;
  if decide (init = Some me) then panic "init exiting"
  else
    close_ofiles ;;;
    begin_op_ me ROOTDEV ;;;
    p <- myproc me ;;
    cwd <- fetch (fun _ => p_cwd p) ;;
    fs_op me (fun pid => iput pid cwd) ;;;
    end_op_ me ROOTDEV ;;;
    passign me (set_p_cwd None) ;;;
    reparent me ;;;
    p <- myproc me ;;
    parent <- fetch (fun _ => p_parent p) ;;
    wakeup1 parent ;;;
    passign me (set_p_state ZOMBIE).

(** The scan of the table: a zombie child's pid, or whether there are
    children. *)
Fixpoint wait_scan (l : list nat) (havekids : bool) : M kstate (Z + bool) :=
  match l with
  | [] => ret (inr havekids)
  | np :: l' =>
      x <- pderef np ;;
      if decide (p_parent x = Some me) then
        if decide (p_state x = ZOMBIE) then
          freeproc np ;;; ret (inl (p_pid x))
        else wait_scan l' true
      else wait_scan l' havekids
  end.

(** One round of the loop; after the sleep it starts again. *)
Definition wait : M kstate call :=
  r <- wait_scan procs_all false ;;
  match r with
  | inl pid => ret (inl pid)
  | inr havekids =>
      p <- myproc me ;;
      if negb havekids || ctrue (p_killed p) then ret (inl (-1))
      else passign me (asleep (ChProc me)) ;;; ret (inr InWait)
  end.

Definition kill (pid : Z) : M kstate Z :=
  r <- for_each procs_all (fun p =>
    x <- pderef p ;;
    if p_pid x =? pid then
      passign p (set_p_killed 1) ;;;
      (if decide (p_state x = SLEEPING) then passign p (set_p_state RUNNABLE) else ret tt) ;;;
      ret (inr 0)
    else ret (inl tt)) ;;
  ret (default (-1) r).

(** ** Scheduling *)

Definition yield : M kstate unit := passign me (set_p_state RUNNABLE).

(** One pass of the scheduler over the table; [run p] is what happens from the
    switch to [p] until [p] switches back.  The answer is [found]. *)
Definition schedule (run : nat -> M kstate unit) (p : nat) : M kstate bool :=
  x <- pderef p ;;
  if decide (p_state x = RUNNABLE) then
    passign p (set_p_state RUNNING) ;;; run p ;;; ret true
  else ret false.

Fixpoint scheduler_pass (run : nat -> M kstate unit) (l : list nat) (found : bool) : M kstate bool :=
  match l with
  | [] => ret found
  | p :: l' => r <- schedule run p ;; scheduler_pass run l' (r || found)
  end.

(** ** Listing *)

Definition state_name (s : procstate) : list Z :=
  chars match s with
        | UNUSED => "unused" | SLEEPING => "sleep " | RUNNABLE => "runble" | RUNNING => "run   " | ZOMBIE => "zombie"
        end%string.

Definition kprintf (fmt : string) (args : list arg) : M kstate unit :=
  on_cons me (on_pr (printf (Some (chars fmt)) args)).

Definition procdump : M kstate unit :=
  kprintf newline [] ;;;
  for_all procs_all (fun p =>
    x <- pderef p ;;
    if decide (p_state x = UNUSED) then ret tt
    else
      kprintf "%d %s %s" [AInt (p_pid x); AStr (Some (state_name (p_state x))); AStr (Some (p_name x))] ;;;
      kprintf newline []).

End Proc.
