(* ===== verification/ProcFacts.v ===== *)
(** * Exit, wait and fork never lose a child (facts about Proc.v)

    A process that sleeps in [wait] has no child that is a zombie: whatever
    order processes fork, exit, wait, kill, sleep and wake up in, the exit of a
    child is noticed. *)

From Stdlib Require Import ZArith Lia.
From stdpp Require Import base gmap list strings.
From S2P Require Import Prelude CString Kalloc Vm Sleeplock Bio Log Fs Printf Console Pipe Kstate File Proc KHoare.
Local Open Scope xv6_scope.

(** ** Which processes wait, which are zombies *)

Definition in_wait (i : nat) (x : proc) : Prop := p_state x = SLEEPING /\ p_chan x = Some (ChProc i).

(** No process that sleeps in [wait] has a zombie child. *)
Definition noticed (l : list proc) : Prop :=
  forall p q x y, l !! p = Some x -> l !! q = Some y -> p_parent y = Some p -> p_state y = ZOMBIE -> ~ in_wait p x.

(** The states of some processes, none of them asleep, are known as well. *)
Definition inv (K : list (nat * procstate)) (s : kstate) : Prop :=
  noticed (k_procs s) /\ length (k_procs s) = NPROC /\
  Forall (fun k => snd k <> SLEEPING /\ p_state <$> k_procs s !! fst k = Some (snd k)) K.

(** A change to one process that gives it no zombie's worries: it waits only
    if it did before, and is a zombie only if it was one of the same parent. *)
Definition calm (f : proc -> proc) : Prop := forall x,
  (forall i, in_wait i (f x) -> in_wait i x) /\
  (p_state (f x) = ZOMBIE -> p_state x = ZOMBIE /\ p_parent (f x) = p_parent x).

Lemma noticed_insert l i x y : noticed l -> l !! i = Some x ->
  (in_wait i y -> in_wait i x) -> (p_state y = ZOMBIE -> p_state x = ZOMBIE /\ p_parent y = p_parent x) ->
  noticed (<[i := y]> l).
Proof.
  intros Hn Hi Hw Hz p q xp xq Hp Hq Hpar Hzq Hin.
  apply lookup_insert_list in Hp as [(-> & -> & _)|[Hne Hp]]; apply lookup_insert_list in Hq as [(-> & -> & _)|[Hne' Hq]].
  - destruct (Hz Hzq) as [Hz1 Hz2]. rewrite Hz2 in Hpar. by eapply (Hn _ _ _ _ Hi Hi); eauto.
  - by eapply (Hn _ _ _ _ Hi Hq); eauto.
  - destruct (Hz Hzq) as [Hz1 Hz2]. rewrite Hz2 in Hpar. by eapply (Hn _ _ _ _ Hp Hi); eauto.
  - by eapply (Hn _ _ _ _ Hp Hq); eauto.
Qed.

(** A change made to all processes at once. *)
Lemma noticed_fmap l f : noticed l -> calm f -> noticed (f <$> l).
Proof.
  intros Hn Hc p q xp xq Hp Hq Hpar Hzq Hin. rewrite list_lookup_fmap in Hp, Hq.
  apply fmap_Some in Hp as (x & Hp & ->), Hq as (y & Hq & ->).
  destruct (Hc x) as [Hx _]. destruct (Hc y) as [_ Hy]. destruct (Hy Hzq) as [Hz Hpe]. rewrite Hpe in Hpar.
  by eapply (Hn _ _ _ _ Hp Hq); eauto.
Qed.

Lemma calm_wake c : calm (wake_proc c).
Proof. intros x. unfold wake_proc, in_wait. case_decide; [|done]. by split; [intros i [? _]|]. Qed.

Lemma state_wake c x : p_state x <> SLEEPING -> p_state (wake_proc c x) = p_state x.
Proof. unfold wake_proc. by case_decide as H; [destruct H as [-> _]|]. Qed.

Lemma inv_wakeup K c s : inv K s -> inv K (wakeup_procs c s).
Proof.
  intros (Hn & Hl & Hk). split; [by apply noticed_fmap, calm_wake|]. split; [by cbn; rewrite length_fmap|]. eapply Forall_impl; [exact Hk|]. intros [i st] [Hst Hs]. split; [done|].
  cbn [fst snd] in *. cbn. rewrite list_lookup_fmap. destruct (k_procs s !! i) as [x|]; [|done]. cbn in *. injection Hs as Hs. f_equal.
  rewrite state_wake; congruence.
Qed.

(** ** Operations that keep the invariant *)

#[export] Instance inv_stable K : Stable (inv K).
Proof. split; [|intros; by apply inv_wakeup]. intros s s' E _ (Hn & Hl & Hk). unfold inv. by rewrite E. Qed.

(** A change that touches neither the state nor what [wait] looks at. *)
Definition steady (f : proc -> proc) : Prop := forall x,
  p_state (f x) = p_state x /\ p_chan (f x) = p_chan x /\ p_parent (f x) = p_parent x.

Lemma inv_insert K s i x y : inv K s -> k_procs s !! i = Some x ->
  (in_wait i y -> in_wait i x) -> (p_state y = ZOMBIE -> p_state x = ZOMBIE /\ p_parent y = p_parent x) ->
  (forall st, (i, st) ∈ K -> p_state y = st) -> inv K (set_k_procs (<[i := y]> (k_procs s)) s).
Proof.
  intros (Hn & Hl & Hk) Hi Hw Hz Hst. split; [by eapply noticed_insert|]. split; [by cbn; rewrite length_insert|]. apply Forall_forall. intros [j st] Hj.
  apply list_elem_of_In in Hj as Hj'. rewrite Forall_forall in Hk. destruct (Hk _ Hj) as [Hne Hs]. split; [done|].
  cbn [fst snd] in *. cbn. destruct (decide (j = i)) as [->|].
  - rewrite list_lookup_insert_eq by (by eapply lookup_lt_Some). cbn. f_equal. by apply Hst.
  - by rewrite list_lookup_insert_ne.
Qed.

Lemma inv_state K s i x st : inv K s -> k_procs s !! i = Some x -> (i, st) ∈ K -> p_state x = st.
Proof. intros (_ & _ & Hk) Hi Hin. rewrite Forall_forall in Hk. destruct (Hk _ Hin) as [_ Hs]. cbn in Hs. rewrite Hi in Hs. by injection Hs. Qed.

Lemma keeps_passign K i f : steady f -> keeps (inv K) (passign i f).
Proof.
  intros Hf. unfold passign. eapply ok_bind; [apply ok_fetch|]. intros x. apply ok_modify. intros s [Hs Hi].
  destruct (Hf x) as (E1 & E2 & E3). eapply inv_insert; [done|exact Hi|..].
  - unfold in_wait. by rewrite E1, E2.
  - by rewrite E1, E3.
  - intros st Hst. rewrite E1. by eapply inv_state.
Qed.

#[export] Hint Extern 1 (keeps (inv _) (passign _ _)) => apply keeps_passign; intros ?; split; reflexivity || (split; reflexivity) : keeps.

(** The file table does not matter. *)
Lemma keeps_fassign K i f : keeps (inv K) (fassign i f).
Proof. unfold fassign. apply keeps_bind; [keep|intros x]. apply ok_modify. by intros s Hs. Qed.
#[export] Hint Resolve keeps_fassign : keeps.

Section Keeps.
Context `{Layout} `{Code} (me : nat) (K : list (nat * procstate)).

Lemma keeps_tf_set_of p off v : keeps (inv K) (tf_set_of me p off v).
Proof. unfold tf_set_of. keep. Qed.

Lemma keeps_filedup f : keeps (inv K) (filedup f).
Proof. unfold filedup. keep. Qed.

Lemma keeps_fileclose f : keeps (inv K) (fileclose me f).
Proof. unfold fileclose, pipeclose, begin_op_, end_op_. keep. Qed.

Lemma keeps_dup_ofiles p np : keeps (inv K) (dup_ofiles p np).
Proof. pose proof keeps_filedup. unfold dup_ofiles. keep. Qed.

Lemma keeps_close_ofiles : keeps (inv K) (close_ofiles me).
Proof. pose proof keeps_fileclose. unfold close_ofiles, myproc. keep. Qed.

End Keeps.

(** ** Learning and changing a process's state *)

Lemma inv_know K s i x : inv K s -> k_procs s !! i = Some x -> p_state x <> SLEEPING -> inv ((i, p_state x) :: K) s.
Proof. intros (Hn & Hl & Hk) Hi Hx. split; [done|]. split; [done|]. constructor; [|done]. cbn. by rewrite Hi. Qed.

Lemma inv_forget K k s : inv (k :: K) s -> inv K s.
Proof. intros (Hn & Hl & Hk). by inversion Hk. Qed.

Lemma inv_other K s i st j st' : inv ((i, st) :: K) s -> (j, st') ∈ K -> st <> st' -> i <> j.
Proof.
  intros (_ & _ & Hk) Hj Hne ->. inversion Hk as [|? ? [_ H1] Hk']; subst. rewrite Forall_forall in Hk'.
  destruct (Hk' _ Hj) as [_ H2]. cbn in *. congruence.
Qed.

(** A process is given a state in which it neither sleeps nor is a zombie. *)
Lemma ok_set_state K i f st : (forall x, p_state (f x) = st) -> st <> SLEEPING -> st <> ZOMBIE ->
  (forall st', (i, st') ∉ K) -> ok (inv K) (passign i f) (fun _ => inv ((i, st) :: K)).
Proof.
  intros Hf Hs Hz Hi. unfold passign. eapply ok_bind; [apply ok_fetch|]. intros x. apply ok_modify. intros s [Hk Hx].
  assert (inv K (set_k_procs (<[i := f x]> (k_procs s)) s)) as Hk'.
  { eapply inv_insert; [done|exact Hx|..].
    - unfold in_wait. rewrite Hf. by intros [? _].
    - by rewrite Hf.
    - intros st' Hst. by destruct (Hi st'). }
  rewrite <- (Hf x). eapply inv_know; [done| |by rewrite Hf]. cbn. apply list_lookup_insert_eq. by eapply lookup_lt_Some.
Qed.

Section Calls.
Context `{Layout} `{Code} (me : nat).

(** The process that calls runs. *)
Definition caller : list (nat * procstate) := [(me, RUNNING)].

Lemma not_caller p st : p <> me -> (p, st) ∉ caller.
Proof. intros Hp Hin. apply list_elem_of_singleton in Hin. congruence. Qed.

#[local] Hint Resolve keeps_tf_set_of : keeps.

Lemma find_unused_ok K : ok (inv K) find_unused (fun r => match r with None => inv K | Some p => inv ((p, UNUSED) :: K) end).
Proof.
  eapply ok_weaken; [apply (ok_for_each (inv K) (fun p => inv ((p, UNUSED) :: K)))|done|by intros []].
  intros p. eapply ok_bind; [apply ok_fetch|]. intros x. apply ok_ret'. intros s [Hk Hx].
  case_decide as Hu; [|done]. rewrite <- Hu. apply inv_know; [done..|by rewrite Hu].
Qed.

Lemma allocproc_ok K : ok (inv K) (allocproc me) (fun r => match r with None => inv K | Some p => inv ((p, UNUSED) :: K) end).
Proof.
  unfold allocproc, allocpid. eapply ok_bind; [apply find_unused_ok|]. intros [p|]; [|by apply ok_ret'].
  do 4 kstep. case_match; [by apply ok_ret'; intros s Hs; eapply inv_forget|]. do 3 kstep. by apply ok_ret'.
Qed.

(** [freeproc] of a process that does not run. *)
Lemma freeproc_ok p st : st <> RUNNING -> ok (inv ((p, st) :: caller)) (freeproc me p) (fun _ => inv caller).
Proof.
  intros Hst s Hs. assert (p <> me) as Hne by (eapply inv_other; [exact Hs|by apply list_elem_of_singleton|done]). revert s Hs.
  change (ok (inv ((p, st) :: caller)) (freeproc me p) (fun _ => inv caller)). unfold freeproc.
  do 4 kstep. eapply ok_weaken; [apply (ok_set_state caller p _ UNUSED)|..]; [done..| | |].
  - intros st'. by apply not_caller.
  - intros s Hs. by eapply inv_forget.
  - intros ? s Hs. exact (inv_forget _ _ _ Hs).
Qed.

(** A process that was not used gets the caller as its parent. *)
Lemma adopt_ok np : ok (inv ((np, UNUSED) :: caller)) (passign np (set_p_parent (Some me))) (fun _ => inv ((np, UNUSED) :: caller)).
Proof.
  unfold passign. eapply ok_bind; [apply ok_fetch|]. intros x. apply ok_modify. intros s [Hs Hx].
  assert (p_state x = UNUSED) as Hu by (eapply inv_state; [exact Hs|exact Hx|by left]).
  eapply inv_insert; [done|exact Hx|done| |]; cbn; [by rewrite Hu|]. intros st Hst. by eapply inv_state.
Qed.

Lemma fork_ok : ok (inv caller) (fork me) (fun _ => inv caller).
Proof.
  unfold fork, myproc. kstep. eapply ok_bind; [apply allocproc_ok|]. intros [np|]; [|by apply ok_ret'].
  do 2 kstep. case_match; [eapply ok_bind; [by apply freeproc_ok|]; intros ?; by apply ok_ret'|].
  kstep. eapply ok_bind; [apply adopt_ok|intros ?]. do 2 kstep. eapply ok_step; [apply keeps_dup_ofiles|intros ?].
  do 5 kstep. intros s Hs. assert (np <> me) as Hne by (eapply inv_other; [exact Hs|by apply list_elem_of_singleton|done]). revert s Hs.
  match goal with |- forall s, ?P s -> match ?m s with _ => _ end => change (ok P m (fun _ => inv caller)) end.
  eapply ok_bind; [|intros ?; apply ok_ret'; intros s Hs; apply Hs].
  eapply ok_weaken; [apply (ok_set_state caller np _ RUNNABLE)|..]; [done..| | |].
  - intros st'. by apply not_caller.
  - intros s Hs. by eapply inv_forget.
  - intros ? s Hs. exact (inv_forget _ _ _ Hs).
Qed.

(** Waking [i] if it waits: it does not wait afterwards. *)
Lemma wake_not_in_wait i x : ~ in_wait i (wake_proc (ChProc i) x).
Proof. unfold wake_proc, in_wait. case_decide as Hw; [by intros [? _]|done]. Qed.

Lemma keeps_wakeup1 K i : keeps (inv K) (wakeup1 i).
Proof.
  unfold wakeup1, passign. eapply ok_bind; [apply ok_fetch|]. intros x. apply ok_modify. intros s [Hs Hx].
  destruct (calm_wake (ChProc i) x) as [Hw Hz]. eapply inv_insert; [done|exact Hx|apply Hw|apply Hz|].
  intros st Hst. rewrite state_wake; [by eapply inv_state|]. destruct Hs as (_ & _ & Hk). rewrite Forall_forall in Hk.
  destruct (Hk _ Hst) as [Hne Hst']. cbn in *. rewrite Hx in Hst'. by injection Hst' as ->.
Qed.

(** Giving a zombie to a process, and waking that process. *)
Lemma noticed_give l q y y' i x : noticed l -> l !! q = Some y -> p_state y' = p_state y -> p_chan y' = p_chan y ->
  p_parent y' = Some i -> <[q := y']> l !! i = Some x -> noticed (<[i := wake_proc (ChProc i) x]> (<[q := y']> l)).
Proof.
  intros Hn Hq E1 E2 E3 Hi a b xa xb Ha Hb Hpar Hz Hw.
  assert (exists xa', l !! a = Some xa' /\ in_wait a xa' /\ a <> i) as (xa' & Ha' & Hwa & Hai).
  { apply lookup_insert_list in Ha as [(-> & -> & _)|[Hne Ha]]; [by apply wake_not_in_wait in Hw|].
    apply lookup_insert_list in Ha as [(-> & -> & _)|[Hne' Ha]]; [|by exists xa].
    exists y. unfold in_wait in *. by rewrite <- E1, <- E2. }
  assert (exists yb, <[q := y']> l !! b = Some yb /\ p_state yb = ZOMBIE /\ p_parent yb = Some a) as (yb & Hb' & Hzb & Hpb).
  { apply lookup_insert_list in Hb as [(-> & -> & _)|[Hne Hb]]; [|by exists xb]. exists x. split; [done|].
    destruct (calm_wake (ChProc i) x) as [_ H1]. destruct (H1 Hz) as [? E]. split; [done|congruence]. }
  apply lookup_insert_list in Hb' as [(-> & -> & _)|[Hne Hb']]; [congruence|]. exact (Hn a b xa' yb Ha' Hb' Hpb Hzb Hwa).
Qed.

(** States of processes that do not sleep survive a wakeup. *)
Lemma known_insert (K : list (nat * procstate)) (l : list proc) (i : nat) x y : l !! i = Some x -> (p_state x <> SLEEPING -> p_state y = p_state x) ->
  Forall (fun k => snd k <> SLEEPING /\ p_state <$> l !! fst k = Some (snd k)) K ->
  Forall (fun k => snd k <> SLEEPING /\ p_state <$> <[i := y]> l !! fst k = Some (snd k)) K.
Proof.
  intros Hi Hy HK. eapply Forall_impl; [exact HK|]. intros [j st] [Hst Hs]. cbn [fst snd] in *. split; [done|].
  destruct (decide (j = i)) as [->|]; [|by rewrite list_lookup_insert_ne].
  rewrite list_lookup_insert_eq by (by eapply lookup_lt_Some). rewrite Hi in Hs. cbn in *. injection Hs as Hs. f_equal.
  rewrite Hy; congruence.
Qed.

Lemma reparent_ok p : ok (inv caller) (reparent p) (fun _ => inv caller).
Proof.
  apply ok_for_all. intros q s Hs. unfold bind at 1, pderef at 1, fetch at 1.
  destruct (k_procs s !! q) as [y|] eqn:Hq; [|done]. cbn [after]. case_decide as Hp; [|done].
  unfold wakeup1, get, passign, pderef, modify, bind, fetch. cbn. rewrite Hq. cbn.
  rewrite list_lookup_insert_eq by (by eapply lookup_lt_Some). cbn. case_decide as Hz; cbn.
  - destruct (k_initproc s) as [i|] eqn:Hi; [|done]. cbn.
    destruct (<[q := set_p_parent (Some i) y]> (k_procs s) !! i) as [x|] eqn:Hx; [|done]. cbn.
    destruct Hs as (Hn & Hl & Hk). split; [by eapply noticed_give|]. split; [by cbn; rewrite !length_insert|]. cbn.
    eapply known_insert; [exact Hx|by apply state_wake|]. by eapply known_insert.
  - eapply inv_insert; [done|exact Hq|done|done|]. intros st Hst. exact (inv_state _ _ _ _ _ Hs Hq Hst).
Qed.

(** The last steps of [exit]: the parent is woken before the process is a
    zombie. *)
Lemma become_zombie l p x i xi : noticed l -> l !! p = Some x -> p_parent x = Some i -> l !! i = Some xi ->
  noticed (<[p := set_p_state ZOMBIE (<[i := wake_proc (ChProc i) xi]> l !!! p)]> (<[i := wake_proc (ChProc i) xi]> l)).
Proof.
  intros Hn Hp Hpar Hi.
  assert (noticed (<[i := wake_proc (ChProc i) xi]> l)) as Hn1.
  { destruct (calm_wake (ChProc i) xi) as [Hw Hz]. eapply noticed_insert; [done|exact Hi|apply Hw|apply Hz]. }
  set (l1 := <[i := wake_proc (ChProc i) xi]> l) in *.
  assert (exists x', l1 !! p = Some x' /\ p_parent x' = Some i) as (x' & Hp1 & Hpar1).
  { unfold l1. destruct (decide (p = i)) as [->|]; [|by rewrite list_lookup_insert_ne; eauto].
    rewrite list_lookup_insert_eq by (by eapply lookup_lt_Some). eexists; split; [done|]. assert (xi = x) as -> by congruence.
    unfold wake_proc. by case_decide. }
  rewrite (list_lookup_total_correct _ _ _ Hp1).
  intros a b xa xb Ha Hb Hab Hz Hw. apply lookup_insert_list in Ha as [(-> & -> & _)|[Hne Ha]]; [by destruct Hw|].
  apply lookup_insert_list in Hb as [(-> & -> & _)|[Hne' Hb]]; [|by eapply (Hn1 a b)].
  cbn in Hab. assert (a = i) as -> by congruence. unfold l1 in Ha. rewrite list_lookup_insert_eq in Ha by (by eapply lookup_lt_Some).
  injection Ha as <-. by apply wake_not_in_wait in Hw.
Qed.

Lemma exit_ok : ok (inv caller) (exit me) (fun _ => inv []).
Proof.
  unfold exit, begin_op_, end_op_, myproc. kstep. case_decide; [apply ok_panic|].
  eapply ok_step; [apply keeps_close_ofiles|intros ?]. do 6 kstep. eapply ok_bind; [apply reparent_ok|intros ?].
  eapply ok_bind; [apply ok_fetch|intros x]. intros s [Hs Hx]. unfold bind, fetch. destruct (p_parent x) as [i|] eqn:Hpar; [|done].
  unfold wakeup1, passign, pderef, bind, fetch, modify. destruct (k_procs s !! i) as [xi|] eqn:Hi; [|done]. cbn.
  destruct (<[i := wake_proc (ChProc i) xi]> (k_procs s) !! me) as [x'|] eqn:Hm; [|done]. cbn.
  destruct Hs as (Hn & Hl & _). split; [|split; [by cbn; rewrite !length_insert|constructor]]. cbn.
  pose proof (become_zombie _ _ _ _ _ Hn Hx Hpar Hi) as Hb. by rewrite (list_lookup_total_correct _ _ _ Hm) in Hb.
Qed.

Lemma wait_scan_ok l : forall h s, inv caller s ->
  match wait_scan me l h s with
  | Ok (inl _) s' _ => inv caller s'
  | Ok (inr _) s' _ => s' = s /\ forall q y, q ∈ l -> k_procs s !! q = Some y -> p_parent y = Some me -> p_state y <> ZOMBIE
  | _ => True
  end.
Proof.
  induction l as [|np l IH]; intros h s Hs; [split; [done|]; by intros q y Hq%not_elem_of_nil|].
  cbn [wait_scan]. unfold bind at 1, pderef, fetch. destruct (k_procs s !! np) as [x|] eqn:Hx; [|done]. rewrite after_nil.
  assert (forall h', p_parent x <> Some me \/ p_state x <> ZOMBIE ->
    match wait_scan me l h' s with
    | Ok (inl _) s' _ => inv caller s'
    | Ok (inr _) s' _ => s' = s /\ forall q y, q ∈ np :: l -> k_procs s !! q = Some y -> p_parent y = Some me -> p_state y <> ZOMBIE
    | _ => True
    end) as Hgo.
  { intros h' Hc. specialize (IH h' s Hs). destruct (wait_scan me l h' s) as [[?|?] s' t| | | |]; try done.
    destruct IH as [-> Hl]. split; [done|]. intros q y [->|Hq]%elem_of_cons Hy Hp Hz; [|by eapply Hl].
    assert (y = x) as -> by congruence. by destruct Hc. }
  case_decide as Hp; [|apply Hgo; by left]. case_decide as Hz; [|apply Hgo; by right].
  assert (inv ((np, ZOMBIE) :: caller) s) as Hs'. { rewrite <- Hz. apply inv_know; [done..|]. by rewrite Hz. }
  pose proof (freeproc_ok np ZOMBIE ltac:(done) s Hs') as Hf. unfold bind. by destruct (freeproc me np s).
Qed.

Lemma wait_ok : ok (inv caller) (wait me) (fun _ => inv []).
Proof.
  intros s Hs. unfold wait, bind at 1. pose proof (wait_scan_ok procs_all false s Hs) as Hw.
  destruct (wait_scan me procs_all false s) as [[pid|h] s1 t1| | | |]; try done; cbn; [by eapply inv_forget|].
  destruct Hw as [-> Hz]. unfold bind, myproc, pderef, fetch. destruct (k_procs s !! me) as [x|] eqn:Hx; [|done]. cbn [after].
  destruct (negb h || _); cbn; [by eapply inv_forget|]. unfold passign, bind, pderef, fetch. rewrite Hx. cbn.
  destruct Hs as (Hn & Hl & _). split; [|split; [by cbn; rewrite length_insert|constructor]]. cbn.
  intros a b xa xb Ha Hb Hab Hzb Hw. apply lookup_insert_list in Hb as [(-> & -> & _)|[Hne' Hb]]; [done|].
  apply lookup_insert_list in Ha as [(-> & -> & _)|[Hne Ha]]; [|by eapply (Hn a b)].
  eapply (Hz b); [|exact Hb|done|done]. apply elem_of_seq. apply lookup_lt_Some in Hb. lia.
Qed.

(** Any process can be made runnable or running. *)
Lemma make_ready_ok p st : st <> SLEEPING -> st <> ZOMBIE -> ok (inv []) (passign p (set_p_state st)) (fun _ => inv []).
Proof.
  intros H1 H2. eapply ok_weaken; [apply (ok_set_state [] p _ st)|done|]; [done..|intros st'; apply not_elem_of_nil|].
  intros ? s Hs. exact (inv_forget _ _ _ Hs).
Qed.

Lemma kill_ok pid : ok (inv []) (kill pid) (fun _ => inv []).
Proof.
  assert (keeps (inv []) (kill pid)) as Hk; [|exact Hk]. unfold kill. apply keeps_bind; [|intros ?; apply keeps_ret].
  apply keeps_for_each. intros p. apply keeps_bind; [apply keeps_pderef|]. intros x. case_match; [|apply keeps_ret].
  apply keeps_bind; [keep|intros ?]. apply keeps_bind; [|intros ?; apply keeps_ret].
  case_decide; [by apply make_ready_ok|apply keeps_ret].
Qed.

End Calls.

(** ** The kernel's steps on the process table *)

Definition running (p : nat) (s : kstate) : Prop := p_state <$> k_procs s !! p = Some RUNNING.

(** What processes and the scheduler do: the calls of proc.c; operations of
    the components, and going to sleep in one, on any channel but a process's
    own; being scheduled, and tidying up after a sleep. *)
Inductive pstep `{Layout} `{Code} : kstate -> kstate -> Prop :=
| ps_fork me s r s' t : running me s -> fork me s = Ok r s' t -> pstep s s'
| ps_exit me s s' t : running me s -> exit me s = Ok tt s' t -> pstep s s'
| ps_wait me s r s' t : running me s -> wait me s = Ok r s' t -> pstep s s'
| ps_kill pid s r s' t : kill pid s = Ok r s' t -> pstep s s'
| ps_yield me s s' t : running me s -> yield me s = Ok tt s' t -> pstep s s'
| ps_component me T A view (upd : T -> kstate -> kstate) (m : M T A) s a s' t :
    (forall x s, k_procs (upd x s) = k_procs s /\ k_ftable (upd x s) = k_ftable s) -> lift me view upd m s = Ok a s' t -> pstep s s'
| ps_sleep me c s s' t : running me s -> (forall p, c <> ChProc p) -> passign me (asleep c) s = Ok tt s' t -> pstep s s'
| ps_wakeup c s s' t : kwakeup c s = Ok tt s' t -> pstep s s'
| ps_run p s s' t : passign p (set_p_state RUNNING) s = Ok tt s' t -> pstep s s'
| ps_awake me s s' t : running me s -> passign me awake s = Ok tt s' t -> pstep s s'.

Lemma running_inv me s : running me s -> inv [] s -> inv (caller me) s.
Proof. intros Hr (Hn & Hl & _). split; [done|]. split; [done|]. constructor; [done|constructor]. Qed.

Lemma pstep_inv `{Layout} `{Code} s s' : inv [] s -> pstep s s' -> inv [] s'.
Proof.
  intros Hs Hst. destruct Hst as [me s r s' t Hr E|me s s' t Hr E|me s r s' t Hr E|pid s r s' t E|me s s' t Hr E|
    me T A view upd m s a s' t Hu E|me c s s' t Hr Hc E|c s s' t E|p s s' t E|me s s' t Hr E];
    try (pose proof (running_inv _ _ Hr Hs) as Hm).
  - eapply inv_forget, (ok_run _ _ _ _ _ _ _ (fork_ok me) Hm E).
  - exact (ok_run _ _ _ _ _ _ _ (exit_ok me) Hm E).
  - exact (ok_run _ _ _ _ _ _ _ (wait_ok me) Hm E).
  - exact (ok_run _ _ _ _ _ _ _ (kill_ok pid) Hs E).
  - exact (ok_run _ _ _ _ _ _ _ (make_ready_ok me RUNNABLE ltac:(done) ltac:(done)) Hs E).
  - exact (ok_run _ _ _ _ _ _ _ (keeps_lift (inv []) me view upd m Hu) Hs E).
  - unfold passign, pderef, bind, fetch in E. destruct (k_procs s !! me) as [x|] eqn:Hx; [|done]. injection E as <- <-.
    eapply inv_insert; [done|exact Hx| |done|by intros st ?%not_elem_of_nil]. intros [_ [= E]]. by destruct (Hc me).
  - injection E as <- <-. by apply inv_wakeup.
  - exact (ok_run _ _ _ _ _ _ _ (make_ready_ok p RUNNING ltac:(done) ltac:(done)) Hs E).
  - unfold passign, pderef, bind, fetch in E. destruct (k_procs s !! me) as [x|] eqn:Hx; [|done]. injection E as <- <-.
    eapply inv_insert; [done|exact Hx| |done|by intros st ?%not_elem_of_nil]. by intros [_ ?].
Qed.


(** A parent that runs, and its child. *)
Definition table_ex : list proc := set_p_state RUNNING proc0 :: set_p_parent (Some 0%nat) (set_p_state RUNNABLE proc0) :: replicate 62 proc0.
Definition kstate_ex : kstate :=
  KState (Kmem (fun _ => 0) 0) 0 (FState (LState (BState [] ∅) []) [] (Superblock 0 0 0 0 0 0 0 0)) table_ex None 3 [] ∅
    (CState (Cons [] 0 0 0) (PState 0 1)) 0 0.
#[local] Instance code_ex : Code := Build_Code 0 0 0 0 0.


(** ** The scheduler *)

Definition state_of (p : nat) (s : kstate) : option procstate := p_state <$> k_procs s !! p.

(** What the process does between two switches: it comes back, whatever it
    did, and the process table is still there. *)
Definition comes_back (run : nat -> M kstate unit) : Prop := forall q s, length (k_procs s) = NPROC ->
  exists s' t, run q s = Ok tt s' t /\ length (k_procs s') = NPROC.

(** While the others run, a process that is runnable stays so. *)
Definition stays_runnable (run : nat -> M kstate unit) (p : nat) : Prop := forall q s s' t,
  q <> p -> run q s = Ok tt s' t -> state_of p s = Some RUNNABLE -> state_of p s' = Some RUNNABLE.

Lemma schedule_eq run q s x : k_procs s !! q = Some x -> schedule run q s =
  if decide (p_state x = RUNNABLE) then (run q ;;; ret true) (set_k_procs (<[q := set_p_state RUNNING x]> (k_procs s)) s) else Ok false s [].
Proof.
  intros Hx. assert (pderef q s = Ok x s []) as E by (unfold pderef, fetch; by rewrite Hx).
  assert (forall f, passign q f s = Ok tt (set_k_procs (<[q := f x]> (k_procs s)) s) []) as Ea by (intros f; unfold passign, bind; by rewrite E).
  unfold schedule, bind. rewrite E. case_decide; [|done]. rewrite Ea, !after_nil. done.
Qed.

Lemma schedule_spec run q s x : comes_back run -> length (k_procs s) = NPROC -> k_procs s !! q = Some x ->
  exists s' t, length (k_procs s') = NPROC /\
    if decide (p_state x = RUNNABLE) then
      exists s1 t1, state_of q s1 = Some RUNNING /\ run q s1 = Ok tt s' t1 /\ schedule run q s = Ok true s' t /\
        (forall p, p <> q -> state_of p s1 = state_of p s)
    else s' = s /\ schedule run q s = Ok false s' t.
Proof.
  intros Hb Hl Hx. rewrite (schedule_eq _ _ _ x Hx). case_decide as Hr; [|by exists s, []].
  set (s1 := set_k_procs (<[q := set_p_state RUNNING x]> (k_procs s)) s). destruct (Hb q s1) as (s' & t & E & Hl'); [simpl; by rewrite length_insert|].
  exists s', (t ++ []). split; [exact Hl'|]. exists s1, t. split; [|split; [done|split; [unfold bind; by rewrite E|]]].
  - unfold state_of. simpl. rewrite list_lookup_insert_eq; [done|]. by eapply lookup_lt_Some.
  - intros p Hp. unfold state_of. simpl. by rewrite list_lookup_insert_ne.
Qed.

Lemma scheduler_pass_runs run p l : comes_back run -> stays_runnable run p -> forall s found,
  length (k_procs s) = NPROC -> Forall (fun q => (q < NPROC)%nat) l ->
  exists r s' t, scheduler_pass run l found s = Ok r s' t /\ (found = true -> r = true) /\
    (p ∈ l -> state_of p s = Some RUNNABLE -> r = true /\ exists s1 s2 t1, state_of p s1 = Some RUNNING /\ run p s1 = Ok tt s2 t1).
Proof.
  intros Hb Hst. induction l as [|q l IH]; intros s found Hl Hlt; cbn [scheduler_pass].
  - exists found, s, []. split; [done|]. split; [done|]. by intros ?%elem_of_nil.
  - apply Forall_cons in Hlt as [Hq Hlt]. destruct (lookup_lt_is_Some_2 (k_procs s) q) as [x Hx]; [by rewrite Hl|].
    destruct (schedule_spec run q s x Hb Hl Hx) as (s1 & t1 & Hl1 & H1). unfold bind.
    assert (exists b, schedule run q s = Ok b s1 t1 /\ (state_of p s = Some RUNNABLE ->
      (p = q /\ b = true /\ exists s2 s3 t3, state_of p s2 = Some RUNNING /\ run p s2 = Ok tt s3 t3) \/ (p <> q /\ state_of p s1 = Some RUNNABLE))) as (b & Eb & Hp).
    { case_decide as Hr.
      - destruct H1 as (s2 & t2 & Hr2 & E2 & Es & Hoth). exists true. split; [done|]. intros Hps. destruct (decide (p = q)) as [->|Hne]; [left; eauto 10|right]. split; [done|].
        eapply (Hst q s2); [done|exact E2|by rewrite Hoth].
      - destruct H1 as [-> Es]. exists false. split; [done|]. intros Hps. right. split; [|done]. intros ->. unfold state_of in Hps. rewrite Hx in Hps. by injection Hps. }
    rewrite Eb. destruct (IH s1 (b || found) Hl1 Hlt) as (r & s' & t & E & Hf & Hrun). rewrite E. exists r, s'. eexists. split; [reflexivity|].
    split; [intros ->; apply Hf; by rewrite orb_true_r|]. intros Hin Hps. destruct (Hp Hps) as [(-> & -> & Hex)|[Hne Hps1]].
    + split; [by apply Hf|done].
    + apply elem_of_cons in Hin as [?|Hin]; [done|]. by apply Hrun.
Qed.


(** Processes that yield at once. *)
Definition yield_ex (q : nat) : M kstate unit := modify (fun s => set_k_procs (alter (set_p_state RUNNABLE) q (k_procs s)) s).

