(* ===== verification/Sysargs.v ===== *)
(** * System call arguments and process calls (kernel/syscall.c, kernel/sysproc.c)

    The arguments come from the registers saved in the trapframe and from the
    memory of the process.  The dispatch on the number of the call is in
    Trap.v. *)

From Stdlib Require Import ZArith Lia.
From stdpp Require Import base gmap list strings.
From S2P Require Import Prelude CString Kalloc Vm Fs Printf Console Pipe Kstate File Proc.
Local Open Scope xv6_scope.

Definition MAXPATH : Z := 128.

Section Args.
Context (me : nat).

(** ** Arguments *)

(** The word at [addr], or -1 as the first component. *)
Definition fetchaddr (addr : Z) : M kstate (Z * Z) :=
  p <- myproc me ;;
  if (p_sz p <=? addr) || (p_sz p <? u64 (addr + 8)) then ret (-1, 0)
  else
    r <- on_mem me (copyin (p_pagetable p) addr 8) ;;
    if ctrue (snd r) then ret (-1, 0) else ret (0, le_val (fst r)).

(** The length of the string, or -1, and the bytes in [buf]. *)
Definition fetchstr (addr max : Z) : M kstate (Z * list Z) :=
  p <- myproc me ;;
  r <- on_mem me (copyinstr (p_pagetable p) addr max) ;;
  if snd r <? 0 then ret (snd r, fst r)
  else ret (Z.of_nat (strlen (fst r)), fst r).

Definition argraw (n : Z) : M kstate Z :=
  if (0 <=? n) && (n <=? 5) then tf_get me (TF_A0 + 8 * n) else panic "argraw".

Definition argint (n : Z) : M kstate Z := x <- argraw n ;; ret (i32 x).
Definition argaddr (n : Z) : M kstate Z := argraw n.
Definition argstr (n max : Z) : M kstate (Z * list Z) := addr <- argaddr n ;; fetchstr addr max.

(** ** Process calls *)

Context `{Layout} `{Code}.

Definition sys_exit : M kstate call := exit me ;;; ret (inl 0).
Definition sys_getpid : M kstate call := p <- myproc me ;; ret (inl (p_pid p)).
Definition sys_fork : M kstate call := r <- fork me ;; ret (inl r).
Definition sys_wait : M kstate call := wait me.

Definition sys_sbrk : M kstate call :=
  n <- argint 0 ;;
  p <- myproc me ;;
  let addr := i32 (p_sz p) in
  r <- growproc me n ;;
  if r <? 0 then ret (inl (-1)) else ret (inl addr).

(** The loop of [sys_sleep] with its variables; the comparison is unsigned. *)
Definition sleep_loop (n ticks0 : Z) : M kstate call :=
  ticks <- get k_ticks ;;
  if u32 (ticks - ticks0) <? u32 n then
    p <- myproc me ;;
    if ctrue (p_killed p) then ret (inl (-1))
    else passign me (asleep ChTicks) ;;; ret (inr (InSleep n ticks0))
  else ret (inl 0).

Definition sys_sleep : M kstate call :=
  n <- argint 0 ;;
  ticks0 <- get k_ticks ;;
  sleep_loop n ticks0.

Definition sys_kill : M kstate call := pid <- argint 0 ;; r <- kill pid ;; ret (inl r).
Definition sys_uptime : M kstate call := xticks <- get k_ticks ;; ret (inl xticks).

End Args.
