(* ===== verification/Sysfile.v ===== *)
(** * File system calls (kernel/sysfile.c)

    Argument checking around file.c and fs.c. *)

From Stdlib Require Import ZArith Lia.
From stdpp Require Import base gmap list strings.
From S2P Require Import Prelude CString Kalloc Vm Sleeplock Bio Log Fs Printf Console Pipe Kstate File Proc Sysargs.
Local Open Scope xv6_scope.

Section Sysfile.
Context `{Layout} (me : nat).

(** ** Descriptors *)

(** The descriptor and its file; [None] is the answer -1. *)
Definition argfd (n : Z) : M kstate (option (nat * nat)) :=
  fd <- argint me n ;;
  p <- myproc me ;;
  if (fd <? 0) || (Z.of_nat NOFILE <=? fd) then ret None
  else
    match p_ofile p !! Z.to_nat fd with
    | Some (Some f) => ret (Some (Z.to_nat fd, f))
    | _ => ret None
    end.

Definition set_ofile (fd : nat) (f : option nat) : M kstate unit :=
  passign me (fun x => set_p_ofile (<[fd := f]> (p_ofile x)) x).

Definition fdalloc (f : nat) : M kstate (option nat) :=
  for_each (seq 0 NOFILE) (fun fd =>
    p <- myproc me ;;
    match p_ofile p !! fd with
    | Some None => set_ofile fd (Some f) ;;; ret (inr fd)
    | _ => ret (inl tt)
    end).

Definition fail {A} : M kstate (Z + A) := ret (inl (-1)).

Definition sys_dup : M kstate call :=
  a <- argfd 0 ;;
  match a with
  | None => fail
  | Some (_, f) =>
      r <- fdalloc f ;;
      match r with
      | None => fail
      | Some fd => filedup f ;;; ret (inl (Z.of_nat fd))
      end
  end.

Definition sys_read : M kstate call :=
  a <- argfd 0 ;;
  match a with
  | None => fail
  | Some (_, f) => n <- argint me 2 ;; p <- argaddr me 1 ;; fileread me f p n
  end.

Definition sys_write : M kstate call :=
  a <- argfd 0 ;;
  match a with
  | None => fail
  | Some (_, f) => n <- argint me 2 ;; p <- argaddr me 1 ;; filewrite me f p n
  end.

Definition sys_close : M kstate call :=
  a <- argfd 0 ;;
  match a with
  | None => fail
  | Some (fd, f) => set_ofile fd None ;;; fileclose me f ;;; ret (inl 0)
  end.

(** [pad]: the bytes of struct stat that are not set. *)
Definition sys_fstat (pad : list Z) : M kstate call :=
  a <- argfd 0 ;;
  match a with
  | None => fail
  | Some (_, f) => st <- argaddr me 1 ;; r <- filestat me pad f st ;; ret (inl r)
  end.

(** ** Paths and inodes *)

(** namei and nameiparent of this process; [name] is the buffer's contents. *)
Definition mycwd : M kstate nat := p <- myproc me ;; fetch (fun _ => p_cwd p).
Definition knamei (path : list Z) : M kstate (option nat) :=
  if chr path 0 =? SLASH then fs_op me (fun pid => namei pid 0 path)
  else cwd <- mycwd ;; fs_op me (fun pid => namei pid cwd path).
Definition knameiparent (path name : list Z) : M kstate (option nat * list Z) :=
  if chr path 0 =? SLASH then fs_op me (fun pid => nameiparent pid 0 path name)
  else cwd <- mycwd ;; fs_op me (fun pid => nameiparent pid cwd path name).

Definition kilock (ip : nat) : M kstate unit := fs_op me (fun pid => ilock pid (Some ip)).
Definition kiunlock (ip : nat) : M kstate unit := fs_op me (fun pid => iunlock pid (Some ip)).
Definition kiunlockput (ip : nat) : M kstate unit := fs_op me (fun pid => iunlockput pid ip).
Definition kiput (ip : nat) : M kstate unit := fs_op me (fun pid => iput pid ip).
Definition kiupdate (ip : nat) : M kstate unit := fs_op me (fun pid => iupdate pid ip).
Definition kinode (ip : nat) : M kstate inode := on_fsys me (ideref ip).
Definition kiassign (ip : nat) (f : inode -> inode) : M kstate unit := on_fsys me (iassign ip f).
Definition add_nlink (d : Z) (ip : inode) : inode := set_nlink (i16 (i_nlink ip + d)) ip.

(** An uninitialised buffer for a name. *)
Definition name0 : list Z := replicate DIRSIZ 0.

(** [end_op; return -1] *)
Definition abort_op : M kstate call := end_op_ me ROOTDEV ;;; fail.

Definition link_bad (ip : nat) : M kstate call :=
  kilock ip ;;;
  kiassign ip (add_nlink (-1)) ;;;
  kiupdate ip ;;;
  kiunlockput ip ;;;
  abort_op.

Definition sys_link : M kstate call :=
  old <- argstr me 0 MAXPATH ;;
  if fst old <? 0 then fail
  else
    new <- argstr me 1 MAXPATH ;;
    if fst new <? 0 then fail
    else
      begin_op_ me ROOTDEV ;;;
      r <- knamei (snd old) ;;
      match r with
      | None => abort_op
      | Some ip =>
          kilock ip ;;;
          i <- kinode ip ;;
          if i_type i =? T_DIR then kiunlockput ip ;;; abort_op
          else
            kiassign ip (add_nlink 1) ;;;
            kiupdate ip ;;;
            kiunlock ip ;;;
            r <- knameiparent (snd new) name0 ;;
            match r with
            | (None, _) => link_bad ip
            | (Some dp, name) =>
                kilock dp ;;;
                d <- kinode dp ;;
                i <- kinode ip ;;
                r <- (if negb (i_dev d =? i_dev i) then ret (-1)
                      else fs_op me (fun pid => dirlink pid dp name (i_inum i))) ;;
                if r <? 0 then kiunlockput dp ;;; link_bad ip
                else
                  kiunlockput dp ;;;
                  kiput ip ;;;
                  end_op_ me ROOTDEV ;;;
                  ret (inl 0)
            end
      end.

(** The offsets of the entries behind "." and "..". *)
Definition entry_offsets (size : Z) : list Z := drop 2 (dir_offsets size).

Definition isdirempty (dp : nat) : M kstate bool :=
  d <- kinode dp ;;
  r <- for_each (entry_offsets (i_size d)) (fun off =>
         r <- fs_op me (fun pid => readi_local pid dp off DIRENT dirent0) ;;
         if negb (fst r =? DIRENT) then panic "isdirempty: readi"
         else if ctrue (de_inum (snd r)) then ret (inr tt)
         else ret (inl tt)) ;;
  ret (match r with Some _ => false | None => true end).

Definition DOT : list Z := [46; 0].
Definition DOTDOT : list Z := [46; 46; 0].

Definition unlink_bad (dp : nat) : M kstate call := kiunlockput dp ;;; abort_op.

Definition sys_unlink : M kstate call :=
  path <- argstr me 0 MAXPATH ;;
  if fst path <? 0 then fail
  else
    begin_op_ me ROOTDEV ;;;
    r <- knameiparent (snd path) name0 ;;
    match r with
    | (None, _) => abort_op
    | (Some dp, name) =>
        kilock dp ;;;
        if (namecmp name DOT =? 0) || (namecmp name DOTDOT =? 0) then unlink_bad dp
        else
          r <- fs_op me (fun pid => dirlookup pid dp name) ;;
          match r with
          | None => unlink_bad dp
          | Some (ip, off) =>
              kilock ip ;;;
              i <- kinode ip ;;
              if i_nlink i <? 1 then panic "unlink: nlink < 1"
              else
                full <- (if i_type i =? T_DIR then e <- isdirempty ip ;; ret (negb e) else ret false) ;;
                if full : bool then kiunlockput ip ;;; unlink_bad dp
                else
                  r <- fs_op me (fun pid => writei_local pid dp off DIRENT (replicate 16 0)) ;;
                  if negb (fst r =? DIRENT) then panic "unlink: writei"
                  else
                    i <- kinode ip ;;
                    (if i_type i =? T_DIR then kiassign dp (add_nlink (-1)) ;;; kiupdate dp else ret tt) ;;;
                    kiunlockput dp ;;;
                    kiassign ip (add_nlink (-1)) ;;;
                    kiupdate ip ;;;
                    kiunlockput ip ;;;
                    end_op_ me ROOTDEV ;;;
                    ret (inl 0)
          end
    end.

(** The new or existing inode, locked. *)
Definition create (path : list Z) (type major minor : Z) : M kstate (option nat) :=
  r <- knameiparent path name0 ;;
  match r with
  | (None, _) => ret None
  | (Some dp, name) =>
      kilock dp ;;;
      r <- fs_op me (fun pid => dirlookup pid dp name) ;;
      match r with
      | Some (ip, _) =>
          kiunlockput dp ;;;
          kilock ip ;;;
          i <- kinode ip ;;
          if (type =? T_FILE) && ((i_type i =? T_FILE) || (i_type i =? T_DEVICE)) then ret (Some ip)
          else kiunlockput ip ;;; ret None
      | None =>
          d <- kinode dp ;;
          ip <- fs_op me (fun pid => ialloc pid (i_dev d) type) ;;
          kilock ip ;;;
          kiassign ip (fun i => set_nlink 1 (set_major_minor major minor i)) ;;;
          kiupdate ip ;;;
          i <- kinode ip ;;
          (if type =? T_DIR then
             kiassign dp (add_nlink 1) ;;;
             kiupdate dp ;;;
             r <- fs_op me (fun pid => dirlink pid ip DOT (i_inum i)) ;;
             if r <? 0 then panic "create dots"
             else
               r <- fs_op me (fun pid => dirlink pid ip DOTDOT (i_inum d)) ;;
               if r <? 0 then panic "create dots" else ret tt
           else ret tt) ;;;
          r <- fs_op me (fun pid => dirlink pid dp name (i_inum i)) ;;
          if r <? 0 then panic "create: dirlink"
          else
            kiunlockput dp ;;;
            ret (Some ip)
      end
  end.

(** ** Opening *)

(** [iunlockput(ip); end_op(ROOTDEV); return -1] *)
Definition open_bad (ip : nat) : M kstate call := kiunlockput ip ;;; abort_op.

(** From the locked inode on. *)
Definition open_inode (ip : nat) (omode : Z) : M kstate call :=
  i <- kinode ip ;;
  if (i_type i =? T_DEVICE) && ((i_major i <? 0) || (NDEV <=? i_major i)) then open_bad ip
  else
    r <- filealloc ;;
    match r with
    | None => open_bad ip
    | Some f =>
        r <- fdalloc f ;;
        match r with
        | None => fileclose me f ;;; open_bad ip
        | Some fd =>
            (if i_type i =? T_DEVICE then fassign f (fun x => set_f_major (i_major i) (set_f_type FD_DEVICE x))
             else fassign f (fun x => set_f_off 0 (set_f_type FD_INODE x))) ;;;
            fassign f (set_f_ip ip) ;;;
            fassign f (set_f_readable (Z.b2z (negb (ctrue (Z.land omode O_WRONLY))))) ;;;
            fassign f (set_f_writable (Z.b2z (ctrue (Z.land omode O_WRONLY) || ctrue (Z.land omode O_RDWR)))) ;;;
            kiunlock ip ;;;
            end_op_ me ROOTDEV ;;;
            ret (inl (Z.of_nat fd))
        end
    end.

Definition sys_open : M kstate call :=
  path <- argstr me 0 MAXPATH ;;
  if fst path <? 0 then fail
  else
    omode <- argint me 1 ;;
    begin_op_ me ROOTDEV ;;;
    if ctrue (Z.land omode O_CREATE) then
      r <- create (snd path) T_FILE 0 0 ;;
      match r with
      | None => abort_op
      | Some ip => open_inode ip omode
      end
    else
      r <- knamei (snd path) ;;
      match r with
      | None => abort_op
      | Some ip =>
          kilock ip ;;;
          i <- kinode ip ;;
          if (i_type i =? T_DIR) && negb (omode =? O_RDONLY) then open_bad ip
          else open_inode ip omode
      end.

(** [if((ip = create(...)) == 0) { end_op; return -1; } iunlockput(ip); end_op; return 0] *)
Definition create_op (path : list Z) (type major minor : Z) : M kstate call :=
  r <- create path type major minor ;;
  match r with
  | None => abort_op
  | Some ip => kiunlockput ip ;;; end_op_ me ROOTDEV ;;; ret (inl 0)
  end.

Definition sys_mkdir : M kstate call :=
  begin_op_ me ROOTDEV ;;;
  path <- argstr me 0 MAXPATH ;;
  if fst path <? 0 then abort_op else create_op (snd path) T_DIR 0 0.

(** The numbers are converted to short. *)
Definition sys_mknod : M kstate call :=
  begin_op_ me ROOTDEV ;;;
  path <- argstr me 0 MAXPATH ;;
  if fst path <? 0 then abort_op
  else
    major <- argint me 1 ;;
    minor <- argint me 2 ;;
    create_op (snd path) T_DEVICE (i16 major) (i16 minor).

Definition sys_chdir : M kstate call :=
  begin_op_ me ROOTDEV ;;;
  path <- argstr me 0 MAXPATH ;;
  if fst path <? 0 then abort_op
  else
    r <- knamei (snd path) ;;
    match r with
    | None => abort_op
    | Some ip =>
        kilock ip ;;;
        i <- kinode ip ;;
        if negb (i_type i =? T_DIR) then open_bad ip
        else
          kiunlock ip ;;;
          cwd <- mycwd ;;
          kiput cwd ;;;
          end_op_ me ROOTDEV ;;;
          passign me (set_p_cwd (Some ip)) ;;;
          ret (inl 0)
    end.

(** ** Pipes *)

Definition sys_pipe : M kstate call :=
  p <- myproc me ;;
  fdarray <- argaddr me 0 ;;
  r <- pipealloc me ;;
  match r with
  | None => fail
  | Some (rf, wf) =>
      let close_both := fileclose me rf ;;; fileclose me wf ;;; fail in
      r0 <- fdalloc rf ;;
      match r0 with
      | None => close_both
      | Some fd0 =>
          r1 <- fdalloc wf ;;
          match r1 with
          | None => set_ofile fd0 None ;;; close_both
          | Some fd1 =>
              let undo := set_ofile fd0 None ;;; set_ofile fd1 None ;;; close_both in
              c0 <- on_mem me (copyout (p_pagetable p) fdarray (le_bytes 4 (Z.of_nat fd0))) ;;
              if c0 <? 0 then undo
              else
                c1 <- on_mem me (copyout (p_pagetable p) (u64 (fdarray + 4)) (le_bytes 4 (Z.of_nat fd1))) ;;
                if c1 <? 0 then undo else ret (inl 0)
          end
      end
  end.

(** ** Crash tests *)

Definition sys_crash : M kstate call :=
  path <- argstr me 0 MAXPATH ;;
  if fst path <? 0 then fail
  else
    crash <- argint me 1 ;;
    r <- create (snd path) T_FILE 0 0 ;;
    match r with
    | None => fail
    | Some ip =>
        kiunlockput ip ;;;
        i <- kinode ip ;;
        fs_op me (fun pid => on_log (crash_op pid (i_dev i) crash)) ;;;
        ret (inl 0)
    end.

End Sysfile.
