(* ===== verification/Exec.v ===== *)
(** * Executing a program (kernel/exec.c, kernel/elf.h, and sys_exec of kernel/sysfile.c) *)

From Stdlib Require Import ZArith Lia.
From stdpp Require Import base gmap list strings.
From S2P Require Import Prelude CString Kalloc Vm Sleeplock Bio Log Fs Printf Console Pipe Kstate File Proc Sysargs Sysfile.
Local Open Scope xv6_scope.

(** ** ELF headers (elf.h) *)

Definition ELF_MAGIC : Z := 0x464C457F.
Definition ELF_PROG_LOAD : Z := 1.
Definition MAXARG : Z := 32.

(** struct elfhdr, 64 bytes, and struct proghdr, 56 bytes: the fields that
    are used. *)
Definition ELFHDR : Z := 64.
Definition elf_magic (e : list Z) : Z := le_val (bytes_at 0 4 e).
Definition elf_entry (e : list Z) : Z := le_val (bytes_at 24 8 e).
Definition elf_phoff (e : list Z) : Z := le_val (bytes_at 32 8 e).
Definition elf_phnum (e : list Z) : Z := le_val (bytes_at 56 2 e).

Definition PROGHDR : Z := 56.
Definition ph_type (p : list Z) : Z := le_val (bytes_at 0 4 p).
Definition ph_off (p : list Z) : Z := le_val (bytes_at 8 8 p).
Definition ph_vaddr (p : list Z) : Z := le_val (bytes_at 16 8 p).
Definition ph_filesz (p : list Z) : Z := le_val (bytes_at 32 8 p).
Definition ph_memsz (p : list Z) : Z := le_val (bytes_at 40 8 p).

Section Exec.
Context `{Layout} `{Code} (me : nat).

(** Reading into a local variable of [n] bytes. *)
Definition readi_struct (ip : nat) (off n : Z) : M kstate (Z * list Z) :=
  fs_op me (fun pid => readi_local pid ip off n (replicate (Z.to_nat n) 0)).

(** ** Loading *)

(** The loop of [loadseg] from page [i] on; offsets are 32 bits wide. *)
Fixpoint loadseg_loop (fuel : nat) (pagetable va : Z) (ip : nat) (offset sz i : Z) : M kstate Z :=
  if i <? sz then
    match fuel with
    | O => diverge
    | S fuel' =>
        pa <- on_mem me (walkaddr pagetable (u64 (va + i))) ;;
        if pa =? 0 then panic "loadseg: address should exist"
        else
          let n := if sz - i <? PGSIZE then sz - i else PGSIZE in
          p <- myproc me ;;
          r <- on_fs_mem me (readi (either_copyout false 0) (p_pid p) ip pa (u32 (offset + i)) n) ;;
          if negb (r =? n) then ret (-1)
          else loadseg_loop fuel' pagetable va ip offset sz (u32 (i + PGSIZE))
    end
  else ret 0.

Definition loadseg (pagetable va : Z) (ip : nat) (offset sz : Z) : M kstate Z :=
  if negb (va mod PGSIZE =? 0) then panic "loadseg: va must be page aligned"
  else loadseg_loop (Z.to_nat (sz / PGSIZE + 2)) pagetable va ip offset sz 0.

(** The loop over the program headers: the size reached, and whether all
    were loaded. *)
Fixpoint load_segments (n : nat) (pagetable : Z) (ip : nat) (off sz : Z) : M kstate (Z * bool) :=
  match n with
  | O => ret (sz, true)
  | S n' =>
      r <- readi_struct ip (u32 off) PROGHDR ;;
      let ph := snd r in
      if negb (fst r =? PROGHDR) then ret (sz, false)
      else if negb (ph_type ph =? ELF_PROG_LOAD) then load_segments n' pagetable ip (i32 (off + PROGHDR)) sz
      else if ph_memsz ph <? ph_filesz ph then ret (sz, false)
      else if u64 (ph_vaddr ph + ph_memsz ph) <? ph_vaddr ph then ret (sz, false)
      else
        sz <- on_mem me (uvmalloc pagetable sz (u64 (ph_vaddr ph + ph_memsz ph))) ;;
        if sz =? 0 then ret (sz, false)
        else if negb (ph_vaddr ph mod PGSIZE =? 0) then ret (sz, false)
        else
          r <- loadseg pagetable (ph_vaddr ph) ip (u32 (ph_off ph)) (u32 (ph_filesz ph)) ;;
          if r <? 0 then ret (sz, false)
          else load_segments n' pagetable ip (i32 (off + PROGHDR)) sz
  end.

(** ** The stack *)

(** The string at a kernel address, with its NUL. *)
Definition kstring (m : kmem) (a : Z) : list Z := cstr (read_bytes (kmemory m) a (Z.to_nat PGSIZE)) ++ [0].

(** [sp -= n; sp -= sp % 16] *)
Definition push_down (sp n : Z) : Z := let sp := u64 (sp - n) in sp - sp mod 16.

(** The loop over the arguments: the stack pointer and the pointers, or
    [None] for bad. *)
Fixpoint push_args (argv : list Z) (pagetable sp stackbase : Z) (ustack : list Z) : M kstate (option (Z * list Z)) :=
  match argv with
  | [] => ret (Some (sp, ustack))
  | a :: argv' =>
      if MAXARG <=? Z.of_nat (length ustack) then ret None
      else
        s <- get (fun k => kstring (k_mem k) a) ;;
        let sp := push_down sp (Z.of_nat (length s)) in
        if sp <? stackbase then ret None
        else
          r <- on_mem me (copyout pagetable sp s) ;;
          if r <? 0 then ret None
          else push_args argv' pagetable sp stackbase (ustack ++ [sp])
  end.

(** for(last=s=path; *s; s++) if( *s == '/') last = s+1 *)
Fixpoint last_elem (last s : list Z) : list Z :=
  match s with
  | [] => last
  | c :: s' => if c =? 0 then last else last_elem (if c =? SLASH then s' else last) s'
  end.

(** ** exec *)

(** bad: before and after the inode was released. *)
Definition exec_bad (pagetable sz : Z) (ip : option nat) : M kstate Z :=
  (if ctrue pagetable then on_mem me (proc_freepagetable pagetable sz) else ret tt) ;;;
  match ip with
  | Some ip => kiunlockput me ip ;;; end_op_ me ROOTDEV
  | None => ret tt
  end ;;;
  ret (-1).

(** From "Commit to the user image". *)
Definition exec_commit (path : list Z) (entry pagetable sz sp oldsz argc : Z) : M kstate Z :=
  tf_set me TF_A1 sp ;;;
  passign me (copy_name (last_elem path path)) ;;;
  p <- myproc me ;;
  passign me (fun x => set_p_sz sz (set_p_pagetable pagetable x)) ;;;
  tf_set me TF_EPC entry ;;;
  tf_set me TF_SP sp ;;;
  on_mem me (proc_freepagetable (p_pagetable p) oldsz) ;;;
  ret argc.

(** The program is loaded, and its inode released. *)
Definition exec_stack (path argv : list Z) (entry pagetable sz : Z) : M kstate Z :=
  p <- myproc me ;;
  let oldsz := p_sz p in
  let sz := PGROUNDUP sz in
  sz <- on_mem me (uvmalloc pagetable sz (u64 (sz + 2 * PGSIZE))) ;;
  if sz =? 0 then exec_bad pagetable sz None
  else
    on_mem me (uvmclear pagetable (u64 (sz - 2 * PGSIZE))) ;;;
    let stackbase := u64 (sz - PGSIZE) in
    r <- push_args argv pagetable sz stackbase [] ;;
    match r with
    | None => exec_bad pagetable sz None
    | Some (sp, ustack) =>
        let argc := Z.of_nat (length ustack) in
        let sp := push_down sp ((argc + 1) * 8) in
        if sp <? stackbase then exec_bad pagetable sz None
        else
          r <- on_mem me (copyout pagetable sp (concat (le_bytes 8 <$> ustack ++ [0]))) ;;
          if r <? 0 then exec_bad pagetable sz None
          else exec_commit path entry pagetable sz sp oldsz argc
    end.

(** [argv] are the addresses before the null pointer. *)
Definition exec (path argv : list Z) : M kstate Z :=
  begin_op_ me ROOTDEV ;;;
  r <- knamei me path ;;
  match r with
  | None => end_op_ me ROOTDEV ;;; ret (-1)
  | Some ip =>
      kilock me ip ;;;
      r <- readi_struct ip 0 ELFHDR ;;
      let elf := snd r in
      if negb (fst r =? ELFHDR) then exec_bad 0 0 (Some ip)
      else if negb (elf_magic elf =? ELF_MAGIC) then exec_bad 0 0 (Some ip)
      else
        p <- myproc me ;;
        pagetable <- on_mem me (proc_pagetable (p_tf p)) ;;
        if pagetable =? 0 then exec_bad 0 0 (Some ip)
        else
          r <- load_segments (Z.to_nat (elf_phnum elf)) pagetable ip (i32 (elf_phoff elf)) 0 ;;
          if negb (snd r) then exec_bad pagetable (fst r) (Some ip)
          else
            kiunlockput me ip ;;;
            end_op_ me ROOTDEV ;;;
            exec_stack path argv (elf_entry elf) pagetable (fst r)
  end.

(** ** sys_exec *)

(** The loop that fetches the arguments: the pages they are in, or [None] for
    the answer -1. *)
Fixpoint fetch_args (left : nat) (uargv : Z) (argv : list Z) : M kstate (option (list Z)) :=
  match left with
  | O => ret None
  | S left' =>
      r <- fetchaddr me (u64 (uargv + 8 * Z.of_nat (length argv))) ;;
      if fst r <? 0 then ret None
      else if snd r =? 0 then ret (Some argv)
      else
        a <- on_mem me kalloc ;;
        if a =? 0 then panic "sys_exec kalloc"
        else
          s <- fetchstr me (snd r) PGSIZE ;;
          on_mem me (modify (fun m => set_memory (store a (snd s) (kmemory m)) m)) ;;;
          if fst s <? 0 then ret None
          else fetch_args left' uargv (argv ++ [a])
  end.

Definition sys_exec : M kstate call :=
  path <- argstr me 0 MAXPATH ;;
  if fst path <? 0 then fail
  else
    uargv <- argaddr me 1 ;;
    r <- fetch_args (Z.to_nat MAXARG) uargv [] ;;
    match r with
    | None => fail
    | Some argv =>
        r <- exec (snd path) argv ;;
        for_all argv (fun a => on_mem me (kfree a)) ;;;
        ret (inl r)
    end.

End Exec.
