(* ===== verification/Trap.v ===== *)
(** * Traps and the dispatch of system calls (kernel/trap.c, kernel/plic.c, syscall of kernel/syscall.c)

    [hart] holds the control registers of the CPU; what devices answer when
    their registers are read is an argument. *)

From Stdlib Require Import ZArith Lia.
From stdpp Require Import base gmap list strings.
From S2P Require Import Prelude CString Kalloc Vm Sleeplock Bio Log Fs Printf Console Pipe Kstate File Proc Sysargs Sysfile Exec.
Local Open Scope xv6_scope.

(** ** Registers (riscv.h) *)

Record hart := Hart {
  h_sstatus : Z; h_sepc : Z; h_scause : Z; h_stval : Z; h_stvec : Z; h_satp : Z; h_tp : Z; h_sip : Z; h_sie : Z }.

Definition w_sstatus (x : Z) (h : hart) : hart :=
  Hart x (h_sepc h) (h_scause h) (h_stval h) (h_stvec h) (h_satp h) (h_tp h) (h_sip h) (h_sie h).
Definition w_sepc (x : Z) (h : hart) : hart :=
  Hart (h_sstatus h) x (h_scause h) (h_stval h) (h_stvec h) (h_satp h) (h_tp h) (h_sip h) (h_sie h).
Definition w_stvec (x : Z) (h : hart) : hart :=
  Hart (h_sstatus h) (h_sepc h) (h_scause h) (h_stval h) x (h_satp h) (h_tp h) (h_sip h) (h_sie h).
Definition w_sip (x : Z) (h : hart) : hart :=
  Hart (h_sstatus h) (h_sepc h) (h_scause h) (h_stval h) (h_stvec h) (h_satp h) (h_tp h) x (h_sie h).
Definition w_sie (x : Z) (h : hart) : hart :=
  Hart (h_sstatus h) (h_sepc h) (h_scause h) (h_stval h) (h_stvec h) (h_satp h) (h_tp h) (h_sip h) x.

Definition SSTATUS_SPP : Z := Z.shiftl 1 8.
Definition SSTATUS_SPIE : Z := Z.shiftl 1 5.
Definition SSTATUS_SIE : Z := Z.shiftl 1 1.
Definition SIE_SEIE : Z := Z.shiftl 1 9.
Definition SIE_STIE : Z := Z.shiftl 1 5.
Definition SIE_SSIE : Z := Z.shiftl 1 1.

(** x & ~mask of a 64-bit word. *)
Definition clear_bits (x mask : Z) : Z := Z.land x (u64 (Z.lnot mask)).

Definition intr_on (h : hart) : hart :=
  w_sstatus (Z.lor (h_sstatus h) SSTATUS_SIE)
    (w_sie (Z.lor (Z.lor (Z.lor (h_sie h) SIE_SEIE) SIE_STIE) SIE_SSIE) h).
Definition intr_off (h : hart) : hart := w_sstatus (clear_bits (h_sstatus h) SSTATUS_SIE) h.
Definition intr_get (h : hart) : bool := ctrue (Z.land (h_sstatus h) SSTATUS_SIE).

Definition MAKE_SATP (pagetable : Z) : Z := Z.lor (Z.shiftl 8 60) (Z.shiftr pagetable 12).

(** ** The interrupt controller (plic.c)

    The stores to its registers, and what a read of the claim register means;
    [reg] are the 32-bit registers at the time. *)

Definition UART0_IRQ : Z := 10.
Definition VIRTIO0_IRQ : Z := 1.
Definition VIRTIO1_IRQ : Z := 2.

Definition PLIC_PENDING : Z := PLIC + 0x1000.
Definition PLIC_SENABLE (hart : Z) : Z := PLIC + 0x2080 + hart * 0x100.
Definition PLIC_SPRIORITY (hart : Z) : Z := PLIC + 0x201000 + hart * 0x2000.
Definition PLIC_SCLAIM (hart : Z) : Z := PLIC + 0x201004 + hart * 0x2000.

Definition plicinit : list (Z * Z) := [(PLIC + UART0_IRQ * 4, 1); (PLIC + VIRTIO0_IRQ * 4, 1)].
Definition plicinithart (hart : Z) : list (Z * Z) :=
  [(PLIC_SENABLE hart, Z.lor (Z.shiftl 1 UART0_IRQ) (Z.shiftl 1 VIRTIO0_IRQ)); (PLIC_SPRIORITY hart, 0)].
Definition plic_pending (reg : Z -> Z) : Z := Z.lor (reg PLIC_PENDING) (Z.shiftl (reg (PLIC_PENDING + 4)) 32).
Definition plic_claim (reg : Z -> Z) (hart : Z) : Z := i32 (reg (PLIC_SCLAIM hart)).
Definition plic_complete (hart irq : Z) : list (Z * Z) := [(PLIC_SCLAIM hart, u32 irq)].

(** The interrupts the stores enable for a hart. *)
Definition plic_enabled (stores : list (Z * Z)) (hart irq : Z) : bool :=
  existsb (fun '(a, v) => (a =? PLIC + irq * 4) && ctrue v) stores &&
  existsb (fun '(a, v) => (a =? PLIC_SENABLE hart) && Z.testbit v irq) stores.

(** What the devices answer during one trap: the controller's registers, and
    the characters the UART hands out before it has no more. *)
Record devices := Devices { dev_plic : Z -> Z; dev_uart : list Z }.

(** ** System calls *)

Section Trap.
Context `{Layout} `{Code}.

(** The counter of spinlock.c, the padding of struct stat, and the disk's
    interrupt handler. *)
Context (ntest_and_set : Z) (pad : list Z) (virtio_disk_intr : Z -> M kstate unit).

Definition syscalls (me : nat) (num : Z) : option (M kstate call) :=
  if num =? 1 then Some (sys_fork me)
  else if num =? 2 then Some (sys_exit me)
  else if num =? 3 then Some (sys_wait me)
  else if num =? 4 then Some (sys_pipe me)
  else if num =? 5 then Some (sys_read me)
  else if num =? 6 then Some (sys_kill me)
  else if num =? 7 then Some (sys_exec me)
  else if num =? 8 then Some (sys_fstat me pad)
  else if num =? 9 then Some (sys_chdir me)
  else if num =? 10 then Some (sys_dup me)
  else if num =? 11 then Some (sys_getpid me)
  else if num =? 12 then Some (sys_sbrk me)
  else if num =? 13 then Some (sys_sleep me)
  else if num =? 14 then Some (sys_uptime)
  else if num =? 15 then Some (sys_open me)
  else if num =? 16 then Some (sys_write me)
  else if num =? 17 then Some (sys_mknod me)
  else if num =? 18 then Some (sys_unlink me)
  else if num =? 19 then Some (sys_link me)
  else if num =? 20 then Some (sys_mkdir me)
  else if num =? 21 then Some (sys_close me)
  else if num =? 22 then Some (ret (inl ntest_and_set))
  else if num =? 23 then Some (sys_crash me)
  else None.

Definition SYS_exit : Z := 2.

(** How a system call leaves the process: with its result in a0, gone, or
    asleep. *)
Inductive sysresult := SDone | SExit | SWait (k : cont).

(** p->tf->a0 = the result *)
Definition finish (me : nat) (r : call) : M kstate sysresult :=
  match r with
  | inl r => tf_set me TF_A0 (u64 r) ;;; ret SDone
  | inr k => ret (SWait k)
  end.

Definition syscall (me : nat) : M kstate sysresult :=
  a7 <- tf_get me TF_A7 ;;
  let num := i32 a7 in
  match syscalls me num with
  | Some f => r <- f ;; if num =? SYS_exit then ret SExit else finish me r
  | None =>
      p <- myproc me ;;
      kprintf me ("%d %s: unknown sys call %d" +:+ newline) [AInt (p_pid p); AStr (Some (p_name p)); AInt num] ;;;
      finish me (inl (-1))
  end.

(** A call goes on after [sleep] returned: [p->chan] is reset, and the loop
    around the sleep tests its condition again. *)
Definition resume (me : nat) (k : cont) : M kstate sysresult :=
  passign me awake ;;;
  r <- match k with
       | InPipeRead pi addr n => kpiperead me pi addr n
       | InPipeWrite pi addr n i => kpipewrite me pi addr n i
       | InConsoleRead target dst n => kconsoleread_resume me target dst n
       | InWait => wait me
       | InSleep n ticks0 => sleep_loop me n ticks0
       end ;;
  finish me r.

(** ** Interrupts *)

Definition clockintr : M kstate unit :=
  modify (fun s => set_k_ticks (u32 (k_ticks s + 1)) s) ;;;
  kwakeup ChTicks.

(** consoleintr and uartintr, with the process list of this kernel. *)
Definition kconsoleintr (me : nat) (c : Z) : M kstate unit :=
  if c =? CTRL_P then procdump me else on_cons me (consoleintr (ret tt) c).
Fixpoint kuartintr (me : nat) (input : list Z) : M kstate unit :=
  match input with
  | [] => ret tt
  | c :: input' => if c =? -1 then ret tt else kconsoleintr me c ;;; kuartintr me input'
  end.

(** The kernel state beside the CPU's registers. *)
Definition kst : Type := kstate * hart.
Definition on_k {A} : M kstate A -> M kst A := zoom fst (fun k s => (k, snd s)).
Definition on_h (f : hart -> hart) : M kst unit := modify (fun s => (fst s, f (snd s))).

Definition is_external (scause : Z) : bool := Z.testbit scause 63 && (Z.land scause 0xff =? 9).
Definition TIMER_CAUSE : Z := 2 ^ 63 + 1.

(** [me] only matters if a handler would sleep, which none does. *)
Definition devintr (me : nat) (d : devices) : M kst Z :=
  h <- get snd ;;
  if is_external (h_scause h) then
    let irq := plic_claim (dev_plic d) (h_tp h) in
    (if irq =? UART0_IRQ then on_k (kuartintr me (dev_uart d))
     else if (irq =? VIRTIO0_IRQ) || (irq =? VIRTIO1_IRQ) then on_k (virtio_disk_intr (irq - VIRTIO0_IRQ))
     else ret tt) ;;;
    ret 1
  else if h_scause h =? TIMER_CAUSE then
    (if h_tp h =? 0 then on_k clockintr else ret tt) ;;;
    on_h (fun h => w_sip (clear_bits (h_sip h) 2) h) ;;;
    ret 2
  else ret 0.

(** ** Traps from user space *)

(** How a trap leaves the process: gone, asleep, runnable after giving up the
    CPU, or back in user space with the page table in satp. *)
Inductive trapresult := TExit | TWait (k : cont) | TYield | TUser (satp : Z).

(** trapinithart *)
Definition trapinithart : M kst unit := on_h (w_stvec kernelvec_addr).

Definition usertrapret (me : nat) : M kst trapresult :=
  on_h intr_off ;;;
  on_h (w_stvec (u64 (TRAMPOLINE + (uservec_addr - trampoline)))) ;;;
  p <- on_k (myproc me) ;;
  h <- get snd ;;
  on_k (tf_set me TF_KERNEL_SATP (h_satp h)) ;;;
  on_k (tf_set me TF_KERNEL_SP (u64 (p_kstack p + PGSIZE))) ;;;
  on_k (tf_set me TF_KERNEL_TRAP usertrap_addr) ;;;
  on_k (tf_set me TF_KERNEL_HARTID (h_tp h)) ;;;
  on_h (fun h => w_sstatus (Z.lor (clear_bits (h_sstatus h) SSTATUS_SPP) SSTATUS_SPIE) h) ;;;
  epc <- on_k (tf_get me TF_EPC) ;;
  on_h (w_sepc epc) ;;;
  ret (TUser (MAKE_SATP (p_pagetable p))).

(** [if(p->killed) exit();], then the clock's yield, then back. *)
Definition trap_tail (me : nat) (which_dev : Z) : M kst trapresult :=
  p <- on_k (myproc me) ;;
  if ctrue (p_killed p) then on_k (exit me) ;;; ret TExit
  else if which_dev =? 2 then on_k (yield me) ;;; ret TYield
  else usertrapret me.

Definition after_syscall (me : nat) (r : sysresult) : M kst trapresult :=
  match r with
  | SExit => ret TExit
  | SWait k => ret (TWait k)
  | SDone => trap_tail me 0
  end.

Definition usertrap (me : nat) (d : devices) : M kst trapresult :=
  h <- get snd ;;
  if ctrue (Z.land (h_sstatus h) SSTATUS_SPP) then panic "usertrap: not from user mode"
  else
    on_h (w_stvec kernelvec_addr) ;;;
    on_k (tf_set me TF_EPC (h_sepc h)) ;;;
    if h_scause h =? 8 then
      p <- on_k (myproc me) ;;
      if ctrue (p_killed p) then on_k (exit me) ;;; ret TExit
      else
        epc <- on_k (tf_get me TF_EPC) ;;
        on_k (tf_set me TF_EPC (u64 (epc + 4))) ;;;
        on_h intr_on ;;;
        r <- on_k (syscall me) ;;
        after_syscall me r
    else
      which_dev <- devintr me d ;;
      (if ctrue which_dev then ret tt
       else
         p <- on_k (myproc me) ;;
         on_k (kprintf me ("usertrap(): unexpected scause %p pid=%d" +:+ newline) [APtr (h_scause h); AInt (p_pid p)]) ;;;
         on_k (kprintf me ("            sepc=%p stval=%p" +:+ newline) [APtr (h_sepc h); APtr (h_stval h)]) ;;;
         on_k (passign me (set_p_killed 1))) ;;;
      trap_tail me which_dev.

(** forkret: a new process's first return. *)
Definition forkret (me : nat) : M kst trapresult :=
  first <- on_k (get k_first) ;;
  (if ctrue first then
     on_k (modify (set_k_first 0)) ;;;
     on_k (fs_op me (fun pid => fsinit pid ROOTDEV))
   else ret tt) ;;;
  usertrapret me.

(** ** Traps from the kernel *)

(** [running] is [myproc()], if there is one; the answer is whether it
    yielded. *)
Definition kerneltrap (running : option nat) (d : devices) : M kst bool :=
  h <- get snd ;;
  let me := default 0%nat running in
  if Z.land (h_sstatus h) SSTATUS_SPP =? 0 then panic "kerneltrap: not from supervisor mode"
  else if intr_get h then panic "kerneltrap: interrupts enabled"
  else
    which_dev <- devintr me d ;;
    if which_dev =? 0 then
      on_k (kprintf me ("scause %p" +:+ newline) [APtr (h_scause h)]) ;;;
      on_k (kprintf me ("sepc=%p stval=%p" +:+ newline) [APtr (h_sepc h); APtr (h_stval h)]) ;;;
      panic "kerneltrap"
    else
      y <- (match running with
            | Some me =>
                p <- on_k (myproc me) ;;
                if (which_dev =? 2) && bool_decide (p_state p = RUNNING) then on_k (yield me) ;;; ret true else ret false
            | None => ret false
            end) ;;
      on_h (w_sepc (h_sepc h)) ;;;
      on_h (w_sstatus (h_sstatus h)) ;;;
      ret y.

End Trap.
