(* ===== verification/FileFacts.v ===== *)
(** * Reference counts of open files (facts about File.v, Sysfile.v, Proc.v and Trap.v)

    The count of every file table entry is the number of descriptors that refer
    to it, in all processes together. *)

From Stdlib Require Import ZArith Lia.
From stdpp Require Import base gmap list strings.
From S2P Require Import Prelude CString Kalloc Vm Sleeplock Bio Log Fs Printf Console Pipe Kstate KHoare File Proc ProcFacts Sysargs Sysfile Exec Trap.
Local Open Scope xv6_scope.

(** ** Counting descriptors *)

Definition has_fd (f : nat) (o : option nat) : bool := bool_decide (o = Some f).

(** The descriptors for [f], in the descriptor tables of all processes. *)
Definition refs (f : nat) (O : list (list (option nat))) : Z := foldr (fun o n => count (has_fd f) o + n) 0 O.

Lemma has_fd_none f : Z.b2z (has_fd f None) = 0.
Proof. done. Qed.
Lemma has_fd_some f : Z.b2z (has_fd f (Some f)) = 1.
Proof. unfold has_fd. by rewrite bool_decide_true. Qed.
Lemma has_fd_other f g : f <> g -> Z.b2z (has_fd f (Some g)) = 0.
Proof. intros Hne. unfold has_fd. rewrite bool_decide_false by congruence. done. Qed.

Lemma refs_insert f O i o o' : O !! i = Some o -> refs f (<[i := o']> O) = refs f O - count (has_fd f) o + count (has_fd f) o'.
Proof.
  revert i. induction O as [|z O IH]; intros [|i] Hi; simpl in *; try done.
  - injection Hi as ->. lia.
  - rewrite (IH i Hi). lia.
Qed.

(** Changing one descriptor. *)
Definition put_fd (i fd : nat) (v : option nat) (O : list (list (option nat))) : list (list (option nat)) :=
  alter (fun o => <[fd := v]> o) i O.

Lemma refs_put_fd f O i o fd u v : O !! i = Some o -> o !! fd = Some u ->
  refs f (put_fd i fd v O) = refs f O - Z.b2z (has_fd f u) + Z.b2z (has_fd f v).
Proof.
  intros Hi Hfd. unfold put_fd. rewrite (alter_insert _ _ _ o) by done. rewrite (refs_insert f O i o) by done.
  rewrite (count_insert _ _ _ u) by done. lia.
Qed.

Lemma refs_nonneg f O : 0 <= refs f O.
Proof.
  induction O as [|o O IH]; [done|]. change (0 <= count (has_fd f) o + refs f O). pose proof (count_nonneg (has_fd f) o). lia.
Qed.

Lemma refs_pos f O i o fd : O !! i = Some o -> o !! fd = Some (Some f) -> 0 < refs f O.
Proof.
  intros Hi Hfd. pose proof (refs_put_fd f O i o fd _ None Hi Hfd) as H. pose proof (refs_nonneg f (put_fd i fd None O)) as Hn.
  rewrite has_fd_none, has_fd_some in H. lia.
Qed.

(** ** The tables *)

Definition idle (st : procstate) : bool := match st with UNUSED | ZOMBIE => true | _ => false end.

(** [T] are the counts of the file table, [O] the descriptors of the
    processes; processes that are not in use, but for [e], have none.  [K] are
    known states of processes. *)
Record tables (K : list (nat * procstate)) (e : option nat) (T : list Z) (O : list (list (option nat))) (s : kstate) : Prop := {
  tb_files : f_ref <$> k_ftable s = T;
  tb_procs : p_ofile <$> k_procs s = O;
  tb_known : Forall (fun k => snd k <> SLEEPING /\ p_state <$> k_procs s !! fst k = Some (snd k)) K;
  tb_idle : forall i x, k_procs s !! i = Some x -> idle (p_state x) = true -> Some i <> e -> Forall (fun o => o = None) (p_ofile x) }.

Definition exact (T : list Z) (O : list (list (option nat))) : Prop := forall f r, T !! f = Some r -> r = refs f O.

Lemma p_ofile_wake c x : p_ofile (wake_proc c x) = p_ofile x.
Proof. unfold wake_proc. by case_decide. Qed.

#[export] Instance tables_stable K e T O : Stable (tables K e T O).
Proof.
  split.
  - intros s s' E1 E2 [H1 H2 H3 H4]. split; rewrite ?E1, ?E2; done.
  - intros c s [H1 H2 H3 H4]. split; [done| | |].
    + cbn. rewrite <- list_fmap_compose. rewrite <- H2. apply list_fmap_ext. intros ? x _. apply p_ofile_wake.
    + eapply Forall_impl; [exact H3|]. intros [i st] [Hst Hs]. split; [done|]. cbn in *. rewrite list_lookup_fmap.
      destruct (k_procs s !! i) as [x|]; [|done]. cbn in *. injection Hs as Hs. by rewrite state_wake, Hs by congruence.
    + cbn. intros i y Hy Hi He. rewrite list_lookup_fmap in Hy. apply fmap_Some in Hy as (x & Hx & ->). rewrite p_ofile_wake.
      apply (H4 i); [done| |done]. unfold wake_proc in Hi. by case_decide.
Qed.

(** The change of a process that leaves its descriptors and its state alone. *)
Lemma tables_passign K e T O i f : (forall x, p_ofile (f x) = p_ofile x /\ p_state (f x) = p_state x) ->
  keeps (tables K e T O) (passign i f).
Proof.
  intros Hf. unfold passign. eapply ok_bind; [apply ok_fetch|]. intros x. apply ok_modify. intros s [[H1 H2 H3 H4] Hx].
  destruct (Hf x) as [E1 E2]. split; [done| | |]; cbn.
  - rewrite list_fmap_insert, E1, H2. apply list_insert_id. rewrite <- H2, list_lookup_fmap, Hx. done.
  - by eapply known_insert.
  - intros j y Hy Hi He. apply lookup_insert_list in Hy as [(-> & -> & _)|[_ Hy]]; [|by eapply H4]. rewrite E1. eapply H4; [done| |done]. congruence.
Qed.
#[export] Hint Extern 1 (keeps (tables _ _ _ _) (passign _ _)) => apply tables_passign; intros ?; split; reflexivity : keeps.

(** The change of a file that leaves its count alone. *)
Lemma tables_fassign K e T O i f : (forall x, f_ref (f x) = f_ref x) -> keeps (tables K e T O) (fassign i f).
Proof.
  intros Hf. unfold fassign. eapply ok_bind; [apply ok_fetch|]. intros x. apply ok_modify. intros s [[H1 H2 H3 H4] Hx].
  split; [|done|done|done]. cbn. rewrite list_fmap_insert, Hf, H1. apply list_insert_id. rewrite <- H1, list_lookup_fmap, Hx. done.
Qed.
#[export] Hint Extern 1 (keeps (tables _ _ _ _) (fassign _ _)) => apply tables_fassign; reflexivity : keeps.

Lemma tables_file K e T O s f x : tables K e T O s -> k_ftable s !! f = Some x -> T !! f = Some (f_ref x).
Proof. intros [<- _ _ _] Hx. by rewrite list_lookup_fmap, Hx. Qed.

Lemma tables_proc K e T O s i x : tables K e T O s -> k_procs s !! i = Some x -> O !! i = Some (p_ofile x).
Proof. intros [_ <- _ _] Hx. by rewrite list_lookup_fmap, Hx. Qed.

(** Setting a count. *)
Lemma ok_set_ref K e T O f g r : (forall x, f_ref (g x) = r) -> ok (tables K e T O) (fassign f g) (fun _ => tables K e (<[f := r]> T) O).
Proof.
  intros Hg. unfold fassign. eapply ok_bind; [apply ok_fetch|]. intros x. apply ok_modify. intros s [[H1 H2 H3 H4] Hx].
  split; [|done|done|done]. cbn. by rewrite list_fmap_insert, Hg, H1.
Qed.

(** Setting a descriptor of a process that is in use, or exempt. *)
Lemma ok_set_fd K e T O i fd v : v = None \/ e = Some i \/ (i, RUNNING) ∈ K ->
  ok (tables K e T O) (passign i (fun x => set_p_ofile (<[fd := v]> (p_ofile x)) x)) (fun _ => tables K e T (put_fd i fd v O)).
Proof.
  intros He. unfold passign. eapply ok_bind; [apply ok_fetch|]. intros x. apply ok_modify. intros s [[H1 H2 H3 H4] Hx].
  split; [done| | |]; cbn.
  - unfold put_fd. rewrite (alter_insert _ _ _ (p_ofile x)); [by rewrite list_fmap_insert, H2|]. by rewrite <- H2, list_lookup_fmap, Hx.
  - by eapply known_insert.
  - intros j y Hy Hi Hj. apply lookup_insert_list in Hy as [(-> & -> & _)|[_ Hy]]; [|by eapply H4]. cbn in *.
    destruct He as [->|[->|Hk]]; [by apply Forall_insert; [eapply H4|]|done|].
    rewrite Forall_forall in H3. destruct (H3 _ Hk) as [_ Hs]. cbn in Hs. rewrite Hx in Hs. injection Hs as Hs. by rewrite Hs in Hi.
Qed.

(** ** The operations of the file table *)

Section Ops.
Context `{Layout} (me : nat) (K : list (nat * procstate)) (e : option nat).

Lemma filedup_ok T O f : ok (tables K e T O) (filedup f) (fun g s => g = f /\
  exists r, T !! f = Some r /\ 1 <= r /\ tables K e (<[f := r + 1]> T) O s).
Proof.
  unfold filedup. eapply ok_bind; [apply ok_fetch|]. intros x. destruct (f_ref x <? 1) eqn:Hr; [apply ok_panic|].
  apply Z.ltb_ge in Hr. eapply ok_pre; [intros s [Hs Hx]; exact (tables_file _ _ _ _ _ _ _ Hs Hx)|]. intros HT.
  eapply (ok_weaken _ (tables K e T O) _ _ (fun g s => g = f /\ tables K e (<[f := f_ref x + 1]> T) O s));
    [|by intros s [? _]|intros g s [-> Hs]; split; [done|]; by exists (f_ref x)].
  eapply ok_bind; [by apply (ok_set_ref _ _ _ _ _ _ (f_ref x + 1))|]. intros ?. by apply ok_ret'.
Qed.

Lemma keeps_fileclose_end T O ff : keeps (tables K e T O)
  (match f_type ff with
   | FD_PIPE => pipeclose me (f_pipe ff) (ctrue (f_writable ff))
   | FD_INODE | FD_DEVICE =>
       ip <- on_fsys me (ideref (f_ip ff)) ;;
       begin_op_ me (i_dev ip) ;;; fs_op me (fun pid => iput pid (f_ip ff)) ;;; end_op_ me (i_dev ip)
   | FD_NONE => ret tt
   end).
Proof. unfold pipeclose. keep. Qed.

Lemma fileclose_ok T O f : ok (tables K e T O) (fileclose me f) (fun _ s =>
  exists r, T !! f = Some r /\ 1 <= r /\ tables K e (<[f := r - 1]> T) O s).
Proof.
  unfold fileclose. eapply ok_bind; [apply ok_fetch|]. intros x. destruct (f_ref x <? 1) eqn:Hr; [apply ok_panic|].
  apply Z.ltb_ge in Hr. eapply ok_pre; [intros s [Hs Hx]; exact (tables_file _ _ _ _ _ _ _ Hs Hx)|]. intros HT.
  eapply (ok_weaken _ (tables K e T O) _ _ (fun _ => tables K e (<[f := f_ref x - 1]> T) O)); [|by intros s [? _]|by intros; exists (f_ref x)].
  eapply ok_bind; [by apply (ok_set_ref _ _ _ _ _ _ (f_ref x - 1))|]. intros ?. destruct (0 <? f_ref x - 1) eqn:Hr'; [by apply ok_ret'|].
  apply Z.ltb_ge in Hr'. kstep. eapply ok_bind; [by apply (ok_set_ref _ _ _ _ _ _ 0)|]. intros ?.
  rewrite list_insert_insert_eq. replace (f_ref x - 1) with 0 by lia. apply keeps_fileclose_end.
Qed.

Lemma filealloc_ok T O : ok (tables K e T O) filealloc (fun r s =>
  match r with None => tables K e T O s | Some f => T !! f = Some 0 /\ tables K e (<[f := 1]> T) O s end).
Proof.
  apply (ok_for_each (tables K e T O) (fun f s => T !! f = Some 0 /\ tables K e (<[f := 1]> T) O s)). intros f.
  eapply ok_bind; [apply ok_fetch|]. intros x. destruct (f_ref x =? 0) eqn:Hr; [|by apply ok_ret'; intros s [? _]].
  apply Z.eqb_eq in Hr. intros s [Hs Hx]. pose proof (tables_file _ _ _ _ _ _ _ Hs Hx) as HT. rewrite Hr in HT.
  pose proof (ok_set_ref K e T O f (set_f_ref 1) 1 (fun _ => eq_refl) s Hs) as Hf. unfold bind. by destruct (fassign f _ s).
Qed.

(** The descriptors of the caller. *)
Lemma argfd_ok T O n : ok (tables K e T O) (argfd me n) (fun r s => tables K e T O s /\
  match r with None => True | Some (fd, f) => exists o, O !! me = Some o /\ o !! fd = Some (Some f) end).
Proof.
  unfold argfd, argint, argraw, tf_get.
  eapply ok_step; [keep|]. intros fd. eapply ok_bind; [apply ok_fetch|]. intros x.
  case_match; [by apply ok_ret'; intros s [? _]|]. destruct (p_ofile x !! Z.to_nat fd) as [[f|]|] eqn:Ho;
    apply ok_ret'; intros s [Hs Hx]; try done. split; [done|]. exists (p_ofile x). split; [by eapply tables_proc|done].
Qed.

Lemma fdalloc_ok T O f : (me, RUNNING) ∈ K -> ok (tables K e T O) (fdalloc me f) (fun r s =>
  match r with
  | None => tables K e T O s
  | Some fd => (exists o, O !! me = Some o /\ o !! fd = Some None) /\ tables K e T (put_fd me fd (Some f) O) s
  end).
Proof.
  intros Hme. apply (ok_for_each (tables K e T O)
    (fun fd s => (exists o, O !! me = Some o /\ o !! fd = Some None) /\ tables K e T (put_fd me fd (Some f) O) s)). intros fd.
  eapply ok_bind; [apply ok_fetch|]. intros x. destruct (p_ofile x !! fd) as [[g|]|] eqn:Ho;
    [by apply ok_ret'; intros s [? _]| |by apply ok_ret'; intros s [? _]].
  intros s [Hs Hx]. pose proof (ok_set_fd K e T O me fd (Some f) (or_intror (or_intror Hme)) s Hs) as Hf.
  unfold bind, set_ofile. destruct (passign me _ s) as [? s' ?| | | |]; try done. cbn. split; [|done].
  exists (p_ofile x). split; [by eapply tables_proc|done].
Qed.

End Ops.

(** ** Counts and descriptors together *)

Definition widths (O : list (list (option nat))) : Prop := Forall (fun o => length o = NOFILE) O.

Lemma widths_put i fd v O : widths O -> widths (put_fd i fd v O).
Proof. intros Hw. apply Forall_alter; [done|]. intros o _ Ho. by rewrite length_insert. Qed.

(** The tables, with counts that are exact but for the files in [d]. *)
Definition counts (K : list (nat * procstate)) (e : option nat) (s : kstate) : Prop :=
  exists T O, (exact T O /\ widths O) /\ tables K e T O s.

Lemma exact_open T O i o fd f r : exact T O -> O !! i = Some o -> o !! fd = Some None -> T !! f = Some r ->
  exact (<[f := r + 1]> T) (put_fd i fd (Some f) O).
Proof.
  intros HE Hi Hfd Hf g r' Hg. rewrite (refs_put_fd g O i o fd None) by done. rewrite has_fd_none.
  apply lookup_insert_list in Hg as [(-> & -> & _)|[Hne Hg]].
  - rewrite has_fd_some. specialize (HE f r Hf). lia.
  - rewrite has_fd_other by done. specialize (HE g r' Hg). lia.
Qed.

Lemma exact_close T O i o fd f r : exact T O -> O !! i = Some o -> o !! fd = Some (Some f) -> T !! f = Some r ->
  exact (<[f := r - 1]> T) (put_fd i fd None O).
Proof.
  intros HE Hi Hfd Hf g r' Hg. rewrite (refs_put_fd g O i o fd (Some f)) by done. rewrite has_fd_none.
  apply lookup_insert_list in Hg as [(-> & -> & _)|[Hne Hg]].
  - rewrite has_fd_some. specialize (HE f r Hf). lia.
  - rewrite has_fd_other by done. specialize (HE g r' Hg). lia.
Qed.

Lemma counts_intro K e T O s : exact T O -> widths O -> tables K e T O s -> counts K e s.
Proof. intros HE HW HT. by exists T, O. Qed.

Lemma ok_counts {A} K e (m : M kstate A) Q :
  (forall T O, exact T O -> widths O -> ok (tables K e T O) m Q) -> ok (counts K e) m Q.
Proof. intros Hm. apply ok_exists; intros T. apply ok_exists; intros O. apply ok_pure; intros [HE HW]. by apply Hm. Qed.

(** What leaves the tables alone leaves the counts exact. *)
Lemma counts_keeps {A} K e (m : M kstate A) : (forall T O, keeps (tables K e T O) m) -> keeps (counts K e) m.
Proof. intros Hm. apply ok_counts. intros T O HE HW. eapply ok_weaken; [apply Hm|done|]. intros a s. by apply counts_intro. Qed.

Lemma counts_forget K k e s : counts (k :: K) e s -> counts K e s.
Proof. intros (T & O & HE & [H1 H2 H3 H4]). exists T, O. split; [done|]. inversion H3. by split. Qed.

Section Calls.
Context `{Layout} `{Code} (me : nat).

Lemma me_caller : (me, RUNNING) ∈ caller me.
Proof. by apply list_elem_of_singleton. Qed.

Lemma sys_dup_ok : keeps (counts (caller me) None) (sys_dup me).
Proof.
  apply ok_counts. intros T O HE HW. unfold sys_dup. eapply ok_bind; [apply argfd_ok|].
  intros [[fd f]|]; [|apply ok_ret'; intros s [Hs _]; by eapply counts_intro].
  eapply (ok_weaken _ (tables (caller me) None T O)); [|by intros s [? _]|intros ? ? HX; exact HX].
  eapply ok_bind; [apply fdalloc_ok, me_caller|]. intros [fd'|]; [|apply ok_ret'; intros s Hs; by eapply counts_intro].
  apply ok_pure. intros (o & Ho & Hfd). eapply ok_bind; [apply filedup_ok|]. intros ?. apply ok_ret'. intros s (_ & r & Hr & _ & Hs).
  eapply counts_intro; [by eapply exact_open|by apply widths_put|exact Hs].
Qed.

Lemma sys_close_ok : keeps (counts (caller me) None) (sys_close me).
Proof.
  apply ok_counts. intros T O HE HW. unfold sys_close. eapply ok_bind; [apply argfd_ok|].
  intros [[fd f]|]; [|apply ok_ret'; intros s [Hs _]; by eapply counts_intro].
  eapply (ok_weaken _ (fun s => (exists o, O !! me = Some o /\ o !! fd = Some (Some f)) /\ tables (caller me) None T O s));
    [|by intros s [? ?]|intros ? ? HX; exact HX].
  apply ok_pure. intros (o & Ho & Hfd). eapply ok_bind; [by apply ok_set_fd; left|]. intros ?.
  eapply ok_bind; [apply fileclose_ok|]. intros ?. apply ok_ret'. intros s (r & Hr & _ & Hs).
  eapply counts_intro; [by eapply exact_close|by apply widths_put|exact Hs].
Qed.

End Calls.

(** ** Calls that leave the tables alone *)

Section Frames.
Context (I : kstate -> Prop) `{!Stable I} `{Layout} `{Code} (me : nat).

Lemma keeps_argint n : keeps I (argint me n).
Proof. unfold argint, argraw, tf_get. keep. Qed.
Lemma keeps_argaddr n : keeps I (argaddr me n).
Proof. unfold argaddr, argraw, tf_get. keep. Qed.
Lemma keeps_fetchstr a n : keeps I (fetchstr me a n).
Proof. unfold fetchstr. keep. Qed.
Lemma keeps_fetchaddr a : keeps I (fetchaddr me a).
Proof. unfold fetchaddr. keep. Qed.
Lemma keeps_argstr n m : keeps I (argstr me n m).
Proof. unfold argstr. apply keeps_bind; [apply keeps_argaddr|]. intros a. apply keeps_fetchstr. Qed.
Lemma keeps_tf_set off v : keeps I (tf_set me off v).
Proof. unfold tf_set. keep. Qed.
Lemma keeps_knamei path : keeps I (knamei me path).
Proof. unfold knamei, mycwd. keep. Qed.
Lemma keeps_knameiparent path name : keeps I (knameiparent me path name).
Proof. unfold knameiparent, mycwd. keep. Qed.
Hint Resolve keeps_argint keeps_argaddr keeps_argstr keeps_fetchstr keeps_fetchaddr keeps_tf_set keeps_knamei keeps_knameiparent : keeps.

Lemma keeps_abort_op : keeps I (abort_op me).
Proof. unfold abort_op, fail. keep. Qed.
Hint Resolve keeps_abort_op : keeps.

Lemma keeps_create path type major minor : keeps I (create me path type major minor).
Proof. unfold create, kilock, kiunlockput, kiupdate, kinode, kiassign. keep. Qed.
Hint Resolve keeps_create : keeps.

Lemma keeps_create_op path type major minor : keeps I (create_op me path type major minor).
Proof. unfold create_op, kiunlockput. keep. Qed.
Hint Resolve keeps_create_op : keeps.

Lemma keeps_sys_mkdir : keeps I (sys_mkdir me).
Proof. unfold sys_mkdir. keep. Qed.
Lemma keeps_sys_mknod : keeps I (sys_mknod me).
Proof. unfold sys_mknod. keep. Qed.
Lemma keeps_sys_link : keeps I (sys_link me).
Proof. unfold sys_link, link_bad, kilock, kiunlock, kiput, kiunlockput, kiupdate, kinode, kiassign, fail. keep. Qed.
Lemma keeps_isdirempty dp : keeps I (isdirempty me dp).
Proof. unfold isdirempty, kinode. keep. Qed.
Hint Resolve keeps_isdirempty : keeps.
Lemma keeps_sys_unlink : keeps I (sys_unlink me).
Proof. unfold sys_unlink, unlink_bad, kilock, kiunlock, kiput, kiunlockput, kiupdate, kinode, kiassign, fail. keep. Qed.
Lemma keeps_sys_crash : keeps I (sys_crash me).
Proof. unfold sys_crash, kiunlockput, kinode, fail. keep. Qed.

End Frames.

(** ** Calls that may put the caller to sleep *)

Section Sleeping.
Context `{Layout} `{Code} (me : nat) (T : list Z) (O : list (list (option nat))).
Local Notation I0 := (tables [] None T O).

(** A state in which the process is in use. *)
Lemma keeps_set_state i f : (forall x, p_ofile (f x) = p_ofile x /\ idle (p_state (f x)) = false) -> keeps I0 (passign i f).
Proof.
  intros Hf. unfold passign. eapply ok_bind; [apply ok_fetch|]. intros x. apply ok_modify. intros s [[H1 H2 H3 H4] Hx].
  destruct (Hf x) as [E1 E2]. split; [done| |constructor|]; cbn.
  - rewrite list_fmap_insert, E1, H2. apply list_insert_id. rewrite <- H2, list_lookup_fmap, Hx. done.
  - intros j y Hy Hi He. apply lookup_insert_list in Hy as [(-> & -> & _)|[_ Hy]]; [congruence|]. by eapply H4.
Qed.

Lemma keeps_asleep c : keeps I0 (passign me (asleep c)).
Proof. by apply keeps_set_state. Qed.
Hint Resolve keeps_asleep : keeps.

(** A pipe's reader that sleeps. *)
Lemma keeps_kpiperead pi addr n : keeps I0 (kpiperead me pi addr n).
Proof.
  unfold kpiperead. apply keeps_bind; [keep|]. intros p s Hs. unfold waits, on_pipe_mem, bind at 1, fetch.
  destruct (k_pipes s !! pi) as [q|]; [|done]. rewrite after_nil. unfold lift.
  destruct (piperead _ _ _ _ _ _) as [a x t|? x t|c x t| |]; try done; [by apply (stable_wakes I0), (stable_eq s)|].
  assert (I0 (wake_events t (set_k_pipes (<[pi := x.1]> (k_pipes s)) (set_k_mem x.2 s)))) as Hs' by (by apply (stable_wakes I0), (stable_eq s)).
  pose proof (keeps_asleep c _ Hs') as Ha. unfold ksleep, passign, bind, pderef, fetch in *. by destruct (_ !! me).
Qed.

Lemma keeps_kpipewrite pi addr n i : keeps I0 (kpipewrite me pi addr n i).
Proof. unfold kpipewrite. keep. Qed.
Lemma keeps_kconsoleread dst n : keeps I0 (kconsoleread me dst n).
Proof. unfold kconsoleread, console_call. keep. Qed.
Lemma keeps_kconsoleread_resume target dst n : keeps I0 (kconsoleread_resume me target dst n).
Proof. unfold kconsoleread_resume, console_call. keep. Qed.
Hint Resolve keeps_kpiperead keeps_kpipewrite keeps_kconsoleread keeps_kconsoleread_resume : keeps.

Lemma keeps_fileread f addr n : keeps I0 (fileread me f addr n).
Proof. unfold fileread, devsw, readi_user, advance. keep. Qed.

Lemma keeps_filewrite_loop p f ip addr n fuel : forall i, keeps I0 (filewrite_loop me fuel p f ip addr n i).
Proof.
  induction fuel as [|fuel IH]; intros i; cbn [filewrite_loop]; case_match; try apply keeps_ret; [by intros s Hs|].
  unfold writei_txn, writei_user, advance. keep.
Qed.
Hint Resolve keeps_filewrite_loop : keeps.

Lemma keeps_filewrite f addr n : keeps I0 (filewrite me f addr n).
Proof. unfold filewrite, devsw, kconsolewrite. keep. Qed.
Lemma keeps_filestat pad f addr : keeps I0 (filestat me pad f addr).
Proof. unfold filestat. keep. Qed.

Lemma keeps_argfd n : keeps I0 (argfd me n).
Proof. pose proof (keeps_argint I0 me). unfold argfd. keep. Qed.
Hint Resolve keeps_argfd keeps_fileread keeps_filewrite keeps_filestat keeps_argint keeps_argaddr keeps_argstr keeps_fetchstr keeps_fetchaddr
  keeps_tf_set keeps_knamei keeps_knameiparent keeps_abort_op : keeps.

Lemma keeps_sys_read : keeps I0 (sys_read me).
Proof. unfold sys_read, fail. keep. Qed.
Lemma keeps_sys_write : keeps I0 (sys_write me).
Proof. unfold sys_write, fail. keep. Qed.
Lemma keeps_sys_fstat pad : keeps I0 (sys_fstat me pad).
Proof. unfold sys_fstat, fail. keep. Qed.
Lemma keeps_sys_chdir : keeps I0 (sys_chdir me).
Proof. unfold sys_chdir, open_bad, kilock, kiunlock, kiput, kiunlockput, kinode, mycwd, fail. keep. Qed.
Lemma keeps_sys_sbrk : keeps I0 (sys_sbrk me).
Proof. unfold sys_sbrk, growproc. keep. Qed.
Lemma keeps_sleep_loop n t0 : keeps I0 (sleep_loop me n t0).
Proof. unfold sleep_loop. keep. Qed.
Hint Resolve keeps_sleep_loop : keeps.
Lemma keeps_sys_sleep : keeps I0 (sys_sleep me).
Proof. unfold sys_sleep. keep. Qed.

Lemma keeps_kill pid : keeps I0 (kill pid).
Proof.
  unfold kill. apply keeps_bind; [|intros; apply keeps_ret]. apply keeps_for_each. intros p. apply keeps_bind; [keep|]. intros x.
  case_match; [|apply keeps_ret]. apply keeps_bind; [keep|]. intros ?. apply keeps_bind; [|intros; apply keeps_ret].
  case_decide; [|apply keeps_ret]. by apply keeps_set_state.
Qed.

Lemma keeps_sys_kill : keeps I0 (sys_kill me).
Proof. pose proof keeps_kill. unfold sys_kill. keep. Qed.

End Sleeping.

Section Exec.
Context `{Layout} `{Code} (me : nat) (T : list Z) (O : list (list (option nat))).
Local Notation I0 := (tables [] None T O).

Lemma keeps_loadseg pt va ip off sz : keeps I0 (loadseg me pt va ip off sz).
Proof.
  unfold loadseg. case_match; [keep|]. generalize (Z.to_nat (sz / PGSIZE + 2)) as fuel, 0 as i.
  induction fuel as [|fuel IH]; intros i; cbn [loadseg_loop]; case_match; try apply keeps_ret; [by intros s Hs|]. keep.
Qed.

Lemma keeps_load_segments pt ip n : forall off sz, keeps I0 (load_segments me n pt ip off sz).
Proof.
  pose proof keeps_loadseg. induction n as [|n IH]; intros off sz; cbn [load_segments]; [apply keeps_ret|]. unfold readi_struct. keep.
Qed.

Lemma keeps_push_args pt base argv : forall sp us, keeps I0 (push_args me argv pt sp base us).
Proof. induction argv as [|a argv IH]; intros sp us; cbn [push_args]; [apply keeps_ret|]. keep. Qed.

Lemma keeps_fetch_args uargv n : forall argv, keeps I0 (fetch_args me n uargv argv).
Proof.
  pose proof (keeps_fetchaddr I0 me). pose proof (keeps_fetchstr I0 me).
  induction n as [|n IH]; intros argv; cbn [fetch_args]; [apply keeps_ret|]. keep.
Qed.

Lemma keeps_exec path argv : keeps I0 (exec me path argv).
Proof.
  pose proof keeps_load_segments. pose proof keeps_push_args. pose proof (keeps_knamei I0 me). pose proof (keeps_tf_set I0 me).
  unfold exec, exec_bad, exec_stack, exec_commit, exec_bad, readi_struct, kilock, kiunlockput. keep.
Qed.

Lemma keeps_sys_exec : keeps I0 (sys_exec me).
Proof.
  pose proof keeps_exec. pose proof keeps_fetch_args. pose proof (keeps_argstr I0 me). pose proof (keeps_argaddr I0 me).
  unfold sys_exec, fail. keep.
Qed.

End Exec.

(** ** Calls that change the tables *)

Section Changes.
Context `{Layout} `{Code} (me : nat).
Local Notation IC := (counts (caller me) None).

Lemma put_alloc (T : list Z) f : T !! f = Some 0 -> <[f := 1 - 1]> (<[f := 1]> T) = T.
Proof. intros Hf. rewrite list_insert_insert_eq. by apply list_insert_id. Qed.

(** Closing a file that was just allocated. *)
Lemma close_new_ok T O f : T !! f = Some 0 ->
  ok (tables (caller me) None (<[f := 1]> T) O) (fileclose me f) (fun _ => tables (caller me) None T O).
Proof.
  intros Hf. eapply ok_weaken; [apply fileclose_ok|done|]. intros ? s (r & Hr & _ & Hs).
  rewrite list_lookup_insert_eq in Hr by (by eapply lookup_lt_Some). injection Hr as <-. by rewrite put_alloc in Hs.
Qed.

Lemma open_inode_ok ip omode : keeps IC (open_inode me ip omode).
Proof.
  apply ok_counts. intros T O HE HW. unfold open_inode, open_bad, kinode, kiunlockput, kiunlock. pose proof (keeps_abort_op) as Ha.
  assert (keeps (tables (caller me) None T O) (fs_op me (fun pid => iunlockput pid ip) ;;; abort_op me)) as Hbad by keep.
  assert (ok (tables (caller me) None T O) (fs_op me (fun pid => iunlockput pid ip) ;;; abort_op me) (fun _ => IC)) as Hbad'.
  { eapply ok_weaken; [exact Hbad|done|]. intros ? s. by apply counts_intro. }
  kstep. case_match; [exact Hbad'|]. eapply ok_bind; [apply filealloc_ok|]. intros [f|]; [|exact Hbad'].
  apply ok_pure. intros Hf. eapply ok_bind; [apply fdalloc_ok, me_caller|]. intros [fd|].
  - apply ok_pure. intros (o & Ho & Hfd). do 6 kstep. apply ok_ret'. intros s. apply counts_intro; [|by apply widths_put].
    by eapply (exact_open T O me o fd f 0).
  - eapply ok_bind; [by apply close_new_ok|]. intros ?. exact Hbad'.
Qed.

Lemma sys_open_ok : keeps IC (sys_open me).
Proof.
  unfold sys_open, fail, open_bad, kilock, kiunlockput, kinode. pose proof open_inode_ok as Ho.
  assert (forall A (m : M kstate A), (forall T O, keeps (tables (caller me) None T O) m) -> keeps IC m) as Hk by (intros; by apply counts_keeps).
  pose proof keeps_create. pose proof keeps_argint. pose proof keeps_argstr. pose proof keeps_knamei. pose proof keeps_abort_op.
  repeat first [apply Ho | apply keeps_ret | apply Hk; intros ? ?; keep | apply keeps_bind; [|intros ?] | case_match].
Qed.

Lemma pipealloc_ok T O : ok (tables (caller me) None T O) (pipealloc me) (fun r s =>
  match r with
  | None => tables (caller me) None T O s
  | Some (r, w) => (T !! r = Some 0 /\ T !! w = Some 0 /\ r <> w) /\ tables (caller me) None (<[w := 1]> (<[r := 1]> T)) O s
  end).
Proof.
  unfold pipealloc. eapply ok_bind; [apply filealloc_ok|]. intros [f0|]; [|do 2 kstep; by apply ok_ret'].
  apply ok_pure. intros Hf0. eapply ok_bind; [apply filealloc_ok|]. intros [f1|].
  2: { eapply ok_bind; [by apply close_new_ok|]. intros ?. kstep. by apply ok_ret'. }
  apply ok_pure. intros Hf1. assert (f0 <> f1) as Hne.
  { intros ->. rewrite list_lookup_insert_eq in Hf1 by (by eapply lookup_lt_Some). done. }
  pose proof Hf1 as Hf1'. rewrite list_lookup_insert_ne in Hf1' by done. kstep. case_match.
  - eapply ok_bind; [rewrite list_insert_insert_ne by done; apply close_new_ok; by rewrite list_lookup_insert_ne|]. intros ?.
    eapply ok_bind; [by apply close_new_ok|]. intros ?. by apply ok_ret'.
  - do 3 kstep. by apply ok_ret'.
Qed.

Lemma put_fd_row (O : list (list (option nat))) i o fd v : O !! i = Some o -> put_fd i fd v O = <[i := <[fd := v]> o]> O /\
  put_fd i fd v O !! i = Some (<[fd := v]> o).
Proof.
  intros Hi. unfold put_fd. rewrite (alter_insert _ _ _ o) by done. split; [done|]. apply list_lookup_insert_eq. by eapply lookup_lt_Some.
Qed.

(** Setting a free descriptor and clearing it again. *)
Lemma put_fd_undo (O : list (list (option nat))) i o fd v : O !! i = Some o -> o !! fd = Some None -> put_fd i fd None (put_fd i fd v O) = O.
Proof.
  intros Hi Hfd. destruct (put_fd_row O i o fd v Hi) as [E1 E2]. destruct (put_fd_row _ i _ fd None E2) as [-> _].
  rewrite E1, !list_insert_insert_eq, (list_insert_id o) by done. by apply list_insert_id.
Qed.

Lemma put_fd_comm (O : list (list (option nat))) i fd fd' v v' : fd <> fd' ->
  put_fd i fd v (put_fd i fd' v' O) = put_fd i fd' v' (put_fd i fd v O).
Proof.
  intros Hne. apply list_eq. intros j. unfold put_fd. destruct (decide (j = i)) as [->|Hj].
  - rewrite !list_lookup_alter_eq. destruct (O !! i) as [o|]; [|done]. cbn. f_equal. by apply list_insert_insert_ne.
  - by rewrite !list_lookup_alter_ne.
Qed.

(** Closing both ends of a new pipe. *)
Lemma close_both_ok T O rf wf : T !! rf = Some 0 /\ T !! wf = Some 0 /\ rf <> wf -> exact T O -> widths O ->
  ok (tables (caller me) None (<[wf := 1]> (<[rf := 1]> T)) O) (fileclose me rf ;;; fileclose me wf ;;; fail) (fun (_ : call) => IC).
Proof.
  intros (Hr & Hw & Hne) HE HW. rewrite list_insert_insert_ne by done.
  eapply ok_bind; [apply close_new_ok; by rewrite list_lookup_insert_ne|]. intros ?.
  eapply ok_bind; [by apply close_new_ok|]. intros ?. apply ok_ret'. intros s. by apply counts_intro.
Qed.

Lemma sys_pipe_ok : keeps IC (sys_pipe me).
Proof.
  apply ok_counts. intros T O HE HW. unfold sys_pipe. pose proof (keeps_argaddr) as Ha. do 2 kstep.
  eapply ok_bind; [apply pipealloc_ok|]. intros [[rf wf]|]; [|apply ok_ret'; intros s; by apply counts_intro].
  apply ok_pure. intros Hrw. eapply ok_bind; [apply fdalloc_ok, me_caller|]. intros [fd0|]; [|by apply close_both_ok].
  apply ok_pure. intros (o & Ho & Hfd0). eapply ok_bind; [apply fdalloc_ok, me_caller|].
  destruct (put_fd_row O me o fd0 (Some rf) Ho) as [E1 E2]. intros [fd1|].
  2: { eapply ok_bind; [by apply ok_set_fd; left|]. intros ?. rewrite (put_fd_undo O me o) by done. by apply close_both_ok. }
  apply ok_pure. intros (o1 & Ho1 & Hfd1). assert (fd1 <> fd0) as Hne.
  { intros ->. rewrite E2 in Ho1. injection Ho1 as <-. rewrite list_lookup_insert_eq in Hfd1 by (by eapply lookup_lt_Some). done. }
  assert (ok (tables (caller me) None (<[wf := 1]> (<[rf := 1]> T)) (put_fd me fd1 (Some wf) (put_fd me fd0 (Some rf) O)))
    (set_ofile me fd0 None ;;; set_ofile me fd1 None ;;; fileclose me rf ;;; fileclose me wf ;;; fail) (fun (_ : call) => IC)) as Hundo.
  { eapply ok_bind; [by apply ok_set_fd; left|]. intros ?. eapply ok_bind; [by apply ok_set_fd; left|]. intros ?.
    rewrite (put_fd_comm _ _ fd0 fd1), (put_fd_undo O me o fd0) by done.
    rewrite (put_fd_undo O me o fd1); [by apply close_both_ok|done|].
    rewrite E2 in Ho1. injection Ho1 as <-. by rewrite list_lookup_insert_ne in Hfd1. }
  kstep. case_match; [exact Hundo|]. kstep. case_match; [exact Hundo|]. apply ok_ret'. intros s.
  destruct Hrw as (Hr & Hw & Hrw). apply counts_intro; [|by do 2 apply widths_put].
  eapply (exact_open _ _ me o1 fd1 wf 0); [|done|done|by rewrite list_lookup_insert_ne]. by eapply (exact_open T O me o fd0 rf 0).
Qed.

End Changes.

(** ** Processes that come and go *)

Section Lifetime.
Context `{Layout} `{Code} (me : nat).
Local Notation IC := (counts (caller me) None).

Lemma tables_know K e T O s i x : tables K e T O s -> k_procs s !! i = Some x -> p_state x <> SLEEPING -> tables ((i, p_state x) :: K) e T O s.
Proof. intros [H1 H2 H3 H4] Hi Hx. split; [done|done| |done]. constructor; [|done]. cbn. by rewrite Hi. Qed.

Lemma tables_forget K k e T O s : tables (k :: K) e T O s -> tables K e T O s.
Proof. intros [H1 H2 H3 H4]. split; [done|done| |done]. by inversion H3. Qed.

Lemma tables_other K e T O s i st : tables ((i, st) :: K) e T O s -> (me, RUNNING) ∈ K -> st <> RUNNING -> i <> me.
Proof.
  intros [_ _ Hk _] Hj Hne ->. inversion Hk as [|? ? [_ H1] Hk']; subst. rewrite Forall_forall in Hk'.
  destruct (Hk' _ Hj) as [_ H2]. cbn in *. congruence.
Qed.

(** A process that is not in use has no descriptors. *)
Lemma tables_clean K T O s i st : tables ((i, st) :: K) None T O s -> idle st = true -> exists o, O !! i = Some o /\ Forall (fun x => x = None) o.
Proof.
  intros Hs Hi. destruct Hs as [H1 H2 H3 H4] eqn:E. inversion H3 as [|? ? [_ Hst] _]; subst. cbn in Hst.
  destruct (k_procs s !! i) as [x|] eqn:Hx; [|done]. injection Hst as <-. exists (p_ofile x). rewrite list_lookup_fmap, Hx.
  split; [done|]. by apply (H4 i).
Qed.

Lemma find_unused_tables K e T O : ok (tables K e T O) find_unused (fun r =>
  match r with None => tables K e T O | Some p => tables ((p, UNUSED) :: K) e T O end).
Proof.
  eapply ok_weaken; [apply (ok_for_each (tables K e T O) (fun p => tables ((p, UNUSED) :: K) e T O))|done|by intros []].
  intros p. eapply ok_bind; [apply ok_fetch|]. intros x. apply ok_ret'. intros s [Hk Hx].
  case_decide as Hu; [|done]. rewrite <- Hu. apply tables_know; [done..|by rewrite Hu].
Qed.

Lemma allocproc_tables K e T O : ok (tables K e T O) (allocproc me) (fun r =>
  match r with None => tables K e T O | Some p => tables ((p, UNUSED) :: K) e T O end).
Proof.
  unfold allocproc, allocpid. eapply ok_bind; [apply find_unused_tables|]. intros [p|]; [|by apply ok_ret'].
  do 4 kstep. case_match; [by apply ok_ret'; intros s Hs; eapply tables_forget|]. do 3 kstep. by apply ok_ret'.
Qed.

(** A new state for a process other than the caller: in use, or without
    descriptors. *)
Lemma ok_new_state T O i f st st' e : st <> RUNNING -> (forall x, p_ofile (f x) = p_ofile x /\ p_state (f x) = st') ->
  (idle st' = true -> idle st = true /\ e = None) -> e = None \/ e = Some i ->
  ok (tables ((i, st) :: caller me) e T O) (passign i f) (fun _ => tables (caller me) None T O).
Proof.
  intros Hst Hf Hi He. unfold passign. eapply ok_bind; [apply ok_fetch|]. intros x. apply ok_modify. intros s [Hs Hx].
  pose proof (tables_other _ _ _ _ _ _ _ Hs (me_caller me) Hst) as Hne. destruct Hs as [H1 H2 H3 H4]. destruct (Hf x) as [E1 E2].
  apply Forall_cons in H3 as [[_ Hsx] H3']. cbn in Hsx. rewrite Hx in Hsx. injection Hsx as Hsx. split; [done| | |]; cbn.
  - rewrite list_fmap_insert, E1, H2. apply list_insert_id. by rewrite <- H2, list_lookup_fmap, Hx.
  - constructor; [|constructor]. apply Forall_cons in H3' as [Hm _]. cbn in *. by rewrite list_lookup_insert_ne.
  - intros j y Hy Hj _. apply lookup_insert_list in Hy as [(-> & -> & _)|[Hji Hy]].
    + rewrite E1. rewrite E2 in Hj. destruct (Hi Hj) as [? ->]. apply (H4 i); [done|congruence|done].
    + apply (H4 j); [done|done|]. destruct He as [->| ->]; [done|congruence].
Qed.

Lemma freeproc_tables T O p st : idle st = true -> ok (tables ((p, st) :: caller me) None T O) (freeproc me p) (fun _ => tables (caller me) None T O).
Proof.
  intros Hst. unfold freeproc. do 4 kstep. eapply (ok_new_state _ _ _ _ st UNUSED); [by intros ->|done|done|by left].
Qed.

Lemma keeps_wakeup1_tables K e T O i : keeps (tables K e T O) (wakeup1 i).
Proof.
  unfold wakeup1, passign. eapply ok_bind; [apply ok_fetch|]. intros x. apply ok_modify. intros s [[H1 H2 H3 H4] Hx].
  split; [done| | |]; cbn.
  - rewrite list_fmap_insert, p_ofile_wake, H2. apply list_insert_id. by rewrite <- H2, list_lookup_fmap, Hx.
  - eapply known_insert; [exact Hx|by apply state_wake|done].
  - intros j y Hy Hj He. apply lookup_insert_list in Hy as [(-> & -> & _)|[_ Hy]]; [|by eapply H4]. rewrite p_ofile_wake.
    apply (H4 i); [done| |done]. unfold wake_proc in Hj. by case_decide.
Qed.

(** The loop of [fork] over the descriptors: those of [np] from [i] on are
    still free. *)
Definition dup_inv (p : proc) (np i : nat) (s : kstate) : Prop := exists T O,
  (exact T O /\ widths O /\ exists o, O !! np = Some o /\ forall j, (i <= j < NOFILE)%nat -> o !! j = Some None) /\
  tables ((np, UNUSED) :: caller me) (Some np) T O s.

Lemma dup_ofiles_ok p np : ok (dup_inv p np 0) (dup_ofiles p np) (fun _ => dup_inv p np NOFILE).
Proof.
  apply (ok_for_seq (dup_inv p np)). intros i Hi. apply ok_exists; intros T. apply ok_exists; intros O.
  apply ok_pure; intros (HE & HW & o & Ho & Hfree). destruct (p_ofile p !! i) as [[f|]|].
  2, 3: (apply ok_ret'; intros s Hs; exists T, O; split; [|done]; split; [done|]; split; [done|]; exists o; split; [done|];
    intros j Hj; apply Hfree; lia).
  eapply ok_bind; [apply filedup_ok|]. intros f'. apply ok_pure; intros ->. apply ok_exists; intros r.
  eapply (ok_weaken _ (fun s => T !! f = Some r /\ tables ((np, UNUSED) :: caller me) (Some np) (<[f := r + 1]> T) O s));
    [|by intros s (? & _ & ?)|intros ? ? HX; exact HX].
  apply ok_pure. intros Hr. eapply ok_weaken; [apply ok_set_fd; right; by left|intros s Hs; exact Hs|]. intros ? s Hs.
  exists (<[f := r + 1]> T), (put_fd np i (Some f) O). split; [|done]. split; [|split; [by apply widths_put|]].
  - eapply exact_open; [done|exact Ho|apply Hfree; lia|done].
  - destruct (put_fd_row O np o i (Some f) Ho) as [_ E]. eexists; split; [exact E|]. intros j Hj.
    rewrite list_lookup_insert_ne by lia. apply Hfree. lia.
Qed.

(** A fresh process satisfies the invariant of the loop. *)
Lemma dup_inv_start p np T O s : exact T O -> widths O -> tables ((np, UNUSED) :: caller me) None T O s -> dup_inv p np 0 s.
Proof.
  intros HE HW Hs. destruct (tables_clean _ _ _ _ _ _ Hs eq_refl) as (o & Ho & Hclean). exists T, O. split.
  - split; [done|]. split; [done|]. exists o. split; [done|]. intros j Hj. unfold widths in HW. rewrite Forall_lookup in Hclean. rewrite Forall_lookup in HW.
    specialize (HW np o Ho). destruct (o !! j) as [x|] eqn:E; [by rewrite (Hclean j x E)|]. apply lookup_ge_None in E. lia.
  - destruct Hs as [H1 H2 H3 H4]. split; [done|done|done|]. intros i x Hx Hi Hne. by apply (H4 i).
Qed.

Lemma keeps_dup_inv {A} p np i (m : M kstate A) : (forall T O, keeps (tables ((np, UNUSED) :: caller me) (Some np) T O) m) -> keeps (dup_inv p np i) m.
Proof.
  intros Hm. apply ok_exists; intros T. apply ok_exists; intros O. apply ok_pure; intros HF. eapply ok_weaken; [apply Hm|done|].
  intros a s Hs. by exists T, O.
Qed.

Lemma fork_counts : keeps IC (fork me).
Proof.
  apply ok_counts. intros T O HE HW. unfold fork, tf_set_of. kstep. eapply ok_bind; [apply allocproc_tables|].
  intros [np|]; [|apply ok_ret'; intros s; by apply counts_intro]. do 2 kstep. case_match.
  { eapply ok_bind; [by apply freeproc_tables|]. intros ?. apply ok_ret'. intros s. by apply counts_intro. }
  do 4 kstep. eapply ok_bind; [eapply ok_weaken; [apply (dup_ofiles_ok a np)|intros s Hs; by eapply dup_inv_start|intros ? ? HX; exact HX]|].
  intros ?. do 5 (eapply ok_step; [apply keeps_dup_inv; intros ? ?; keep|intros ?]).
  eapply (ok_bind _ _ (fun _ => IC)); [|intros ?; by apply ok_ret'].
  apply ok_exists; intros T'. apply ok_exists; intros O'. apply ok_pure; intros (HE' & HW' & _).
  eapply ok_weaken; [by apply (ok_new_state T' O' np _ UNUSED RUNNABLE); [|..|right]|intros s Hs; exact Hs|]. intros ? s. by apply counts_intro.
Qed.

(** The loop of [exit] over the descriptors. *)
Definition close_inv (i : nat) (s : kstate) : Prop := exists T O,
  (exact T O /\ widths O /\ exists o, O !! me = Some o /\ forall j, (j < i)%nat -> o !! j = Some None) /\ tables (caller me) None T O s.

Lemma close_ofiles_ok : ok (close_inv 0) (close_ofiles me) (fun _ => close_inv NOFILE).
Proof.
  apply (ok_for_seq close_inv). intros i Hi. apply ok_exists; intros T. apply ok_exists; intros O.
  apply ok_pure; intros (HE & HW & o & Ho & Hfree). eapply ok_bind; [apply ok_fetch|]. intros x.
  eapply ok_pre; [intros s [Hs Hx]; exact (tables_proc _ _ _ _ _ _ _ Hs Hx)|]. intros Hox. assert (p_ofile x = o) as -> by congruence.
  eapply (ok_weaken _ (tables (caller me) None T O)); [|by intros s [? _]|intros ? ? HX; exact HX].
  destruct (o !! i) as [[f|]|] eqn:Hfd.
  - eapply ok_bind; [apply fileclose_ok|]. intros ?. apply ok_exists; intros r. apply ok_pure; intros Hr. apply ok_pure; intros _.
    eapply ok_weaken; [by apply ok_set_fd; left|intros s Hs; exact Hs|]. intros ? s Hs.
    exists (<[f := r - 1]> T), (put_fd me i None O). split; [|done]. split; [exact (exact_close _ _ _ _ _ _ _ HE Ho Hfd Hr)|split; [by apply widths_put|]].
    destruct (put_fd_row O me o i None Ho) as [_ E]. eexists; split; [exact E|]. intros j Hj. destruct (decide (j = i)) as [->|].
    + apply list_lookup_insert_eq. by eapply lookup_lt_Some.
    + rewrite list_lookup_insert_ne by done. apply Hfree. lia.
  - apply ok_ret'. intros s Hs. exists T, O. split; [|done]. split; [done|]. split; [done|]. exists o. split; [done|]. intros j Hj.
    destruct (decide (j = i)) as [->|]; [done|]. apply Hfree. lia.
  - apply lookup_ge_None in Hfd. unfold widths in HW. rewrite Forall_lookup in HW. specialize (HW me o Ho). unfold NOFILE in *. lia.
Qed.

Lemma keeps_close_inv {A} i (m : M kstate A) : (forall T O, keeps (tables (caller me) None T O) m) -> keeps (close_inv i) m.
Proof.
  intros Hm. apply ok_exists; intros T. apply ok_exists; intros O. apply ok_pure; intros HF. eapply ok_weaken; [apply Hm|done|].
  intros a s Hs. by exists T, O.
Qed.

Lemma zombie_ok : ok (close_inv NOFILE) (passign me (set_p_state ZOMBIE)) (fun _ => counts [] None).
Proof.
  apply ok_exists; intros T. apply ok_exists; intros O. apply ok_pure; intros (HE & HW & o & Ho & Hfree).
  unfold passign. eapply ok_bind; [apply ok_fetch|]. intros x. apply ok_modify. intros s [Hs Hx].
  pose proof (tables_proc _ _ _ _ _ _ _ Hs Hx) as Hox. assert (p_ofile x = o) as Ex by congruence. destruct Hs as [H1 H2 H3 H4].
  exists T, O. split; [done|]. split; [done| |constructor|]; cbn.
  - rewrite list_fmap_insert. cbn. rewrite Ex, H2. by apply list_insert_id.
  - intros j y Hy Hj _. apply lookup_insert_list in Hy as [(-> & -> & _)|[_ Hy]]; [|by apply (H4 j)]. cbn. rewrite Ex.
    apply Forall_lookup. intros k v Hk. unfold widths in HW. rewrite Forall_lookup in HW. specialize (HW me o Ho). apply lookup_lt_Some in Hk as Hlt.
    rewrite Hfree in Hk by lia. by injection Hk.
Qed.

Lemma exit_counts : ok IC (exit me) (fun _ => counts [] None).
Proof.
  assert (forall K e T O, keeps (tables K e T O) (reparent me)) as Hre.
  { intros. pose proof keeps_wakeup1_tables. unfold reparent. keep. }
  unfold exit. eapply ok_step; [apply keeps_get|]. intros init. case_decide; [apply ok_panic|].
  eapply (ok_bind _ _ (fun _ => close_inv NOFILE)).
  { eapply ok_weaken; [apply close_ofiles_ok| |intros ? ? HX; exact HX]. intros s (T & O & [HE HW] & Hs). exists T, O. split; [|done].
    destruct Hs as [HT HO HK HN]. apply Forall_cons in HK as [[_ Hm] _]. cbn in Hm. destruct (k_procs s !! me) as [x|] eqn:Hx; [|done].
    split; [done|]. split; [done|]. exists (p_ofile x). split; [by rewrite <- HO, list_lookup_fmap, Hx|]. intros j Hj. lia. }
  intros ?. pose proof keeps_wakeup1_tables.
  do 10 (eapply ok_step; [apply keeps_close_inv; intros ? ?; keep|intros ?]). apply zombie_ok.
Qed.

Lemma wait_scan_tables T O l : forall h, ok (tables (caller me) None T O) (wait_scan me l h) (fun _ => tables (caller me) None T O).
Proof.
  induction l as [|np l IH]; intros h; cbn [wait_scan]; [by apply ok_ret'|]. eapply ok_bind; [apply ok_fetch|]. intros x.
  assert (forall h, ok (fun s => tables (caller me) None T O s /\ k_procs s !! np = Some x) (wait_scan me l h) (fun _ => tables (caller me) None T O)) as Hgo.
  { intros h'. eapply ok_weaken; [apply (IH h')|by intros s [? _]|intros ? ? HX; exact HX]. }
  case_decide; [|apply Hgo]. case_decide as Hz; [|apply Hgo].
  eapply ok_weaken; [|intros s [Hs Hx]; exact (conj (tables_know _ _ _ _ _ _ _ Hs Hx ltac:(by rewrite Hz)) I)|intros ? ? HX; exact HX].
  rewrite Hz. eapply ok_bind; [eapply ok_weaken; [by apply (freeproc_tables T O np ZOMBIE)|by intros s [? _]|intros ? ? HX; exact HX]|].
  intros ?. by apply ok_ret'.
Qed.

Lemma wait_counts : ok IC (wait me) (fun _ => counts [] None).
Proof.
  apply ok_counts. intros T O HE HW. unfold wait. eapply ok_bind; [apply wait_scan_tables|]. intros r.
  eapply (ok_weaken _ (tables [] None T O) _ _ (fun _ => tables [] None T O)); [|intros s; apply tables_forget|intros ? s; by apply counts_intro].
  pose proof (keeps_asleep me T O) as Ha.
  change (keeps (tables [] None T O) (match r with
    | inl pid => ret (inl pid)
    | inr havekids => p <- myproc me ;; if negb havekids || ctrue (p_killed p) then ret (inl (-1))
                      else passign me (asleep (ChProc me)) ;;; ret (inr InWait)
    end)). keep.
Qed.

End Lifetime.

(** ** Every system call *)

Section Syscall.
Context `{Layout} `{Code} (me : nat) (ntest_and_set : Z) (pad : list Z).
Local Notation IC := (counts (caller me) None).
Local Notation I0 := (counts [] None).

(** A call that keeps the tables, or the counts, gives exact counts. *)
Lemma frame_call {A} (m : M kstate A) : (forall T O, keeps (tables [] None T O) m) -> ok IC m (fun _ => I0).
Proof. intros Hm. eapply ok_weaken; [apply (counts_keeps [] None m Hm)|intros s; apply counts_forget|done]. Qed.

Lemma count_call {A} (m : M kstate A) : keeps IC m -> ok IC m (fun _ => I0).
Proof. intros Hm. eapply ok_weaken; [apply Hm|done|]. intros ? s. apply counts_forget. Qed.

Lemma syscalls_ok num f : syscalls ntest_and_set pad me num = Some f -> ok IC f (fun _ => I0).
Proof.
  unfold syscalls. intros E. pose proof (fork_counts me) as Hfork.
  repeat (case_match; [injection E as <-|]); [..|done].
  1: (apply count_call; unfold sys_fork; apply keeps_bind; [exact Hfork|intros ?; apply keeps_ret]).
  1: (eapply ok_bind; [apply exit_counts|intros ?; by apply ok_ret']).
  1: (unfold sys_wait; exact (wait_counts me)).
  1: apply count_call, sys_pipe_ok.
  1: (apply frame_call; intros; apply keeps_sys_read).
  1: (apply frame_call; intros; apply keeps_sys_kill).
  1: (apply frame_call; intros; apply keeps_sys_exec).
  1: (apply frame_call; intros; apply keeps_sys_fstat).
  1: (apply frame_call; intros; apply keeps_sys_chdir).
  1: apply count_call, sys_dup_ok.
  1: (apply frame_call; intros; unfold sys_getpid; keep).
  1: (apply frame_call; intros; apply keeps_sys_sbrk).
  1: (apply frame_call; intros; apply keeps_sys_sleep).
  1: (apply frame_call; intros; unfold sys_uptime; keep).
  1: apply count_call, sys_open_ok.
  1: (apply frame_call; intros; apply keeps_sys_write).
  1: (apply frame_call; intros; apply keeps_sys_mknod; apply _).
  1: (apply frame_call; intros; apply keeps_sys_unlink; apply _).
  1: (apply frame_call; intros; apply keeps_sys_link; apply _).
  1: (apply frame_call; intros; apply keeps_sys_mkdir; apply _).
  1: apply count_call, sys_close_ok.
  1: (apply frame_call; intros; keep).
  1: (apply frame_call; intros; apply keeps_sys_crash; apply _).
Qed.

Lemma finish_ok r : keeps I0 (finish me r).
Proof. apply counts_keeps. intros T O. pose proof (keeps_tf_set (tables [] None T O) me). unfold finish. keep. Qed.

Lemma syscall_ok : ok IC (syscall ntest_and_set pad me) (fun _ => I0).
Proof.
  unfold syscall. eapply ok_step; [apply counts_keeps; intros; unfold tf_get; keep|]. intros a7.
  destruct (syscalls ntest_and_set pad me (i32 a7)) as [f|] eqn:Ef.
  - eapply ok_bind; [by eapply syscalls_ok|]. intros r. case_match; [by apply ok_ret'|apply finish_ok].
  - eapply (ok_weaken _ I0); [|intros s; apply counts_forget|intros ? ? HX; exact HX].
    do 2 (eapply ok_step; [apply counts_keeps; intros; unfold kprintf; keep|intros ?]). apply finish_ok.
Qed.

Lemma resume_ok k : ok IC (resume me k) (fun _ => I0).
Proof.
  unfold resume. eapply ok_step; [apply counts_keeps; intros; unfold awake; keep|]. intros ?.
  eapply (ok_bind _ _ (fun _ => I0)); [|intros r; apply finish_ok]. destruct k.
  - apply frame_call; intros; apply keeps_kpiperead.
  - apply frame_call; intros; apply keeps_kpipewrite.
  - apply frame_call; intros; apply keeps_kconsoleread_resume.
  - exact (wait_counts me).
  - apply frame_call; intros; apply keeps_sleep_loop.
Qed.

Lemma clockintr_ok : keeps I0 clockintr.
Proof.
  apply counts_keeps. intros T O. unfold clockintr. apply keeps_bind; [keep|]. intros ? s Hs. by apply (stable_wakeup (I := tables [] None T O)).
Qed.

Lemma kuartintr_ok input : keeps I0 (kuartintr me input).
Proof.
  apply counts_keeps. intros T O. induction input as [|c input IH]; cbn [kuartintr]; [apply keeps_ret|].
  unfold kconsoleintr, procdump, kprintf. keep.
Qed.

Lemma set_state_ok i f : (forall x, p_ofile (f x) = p_ofile x /\ idle (p_state (f x)) = false) -> keeps I0 (passign i f).
Proof. intros Hf. apply counts_keeps. intros T O. by apply keeps_set_state. Qed.

End Syscall.

(** ** The kernel at work *)

(** A process that runs makes a system call, goes on with one it slept in, or
    gives up the CPU; the scheduler picks a runnable process; an interrupt is
    handled. *)
Inductive kernel_step `{Layout} `{Code} (ntest_and_set : Z) (pad : list Z) : kstate -> kstate -> Prop :=
| ks_syscall me s r s' t : running me s -> syscall ntest_and_set pad me s = Ok r s' t -> kernel_step ntest_and_set pad s s'
| ks_resume me k s r s' t : running me s -> resume me k s = Ok r s' t -> kernel_step ntest_and_set pad s s'
| ks_yield me s s' t : running me s -> yield me s = Ok tt s' t -> kernel_step ntest_and_set pad s s'
| ks_schedule p s b s' t : schedule (fun _ => ret tt) p s = Ok b s' t -> kernel_step ntest_and_set pad s s'
| ks_clock s s' t : clockintr s = Ok tt s' t -> kernel_step ntest_and_set pad s s'
| ks_uart me input s s' t : kuartintr me input s = Ok tt s' t -> kernel_step ntest_and_set pad s s'.

Lemma running_counts me s : running me s -> counts [] None s -> counts (caller me) None s.
Proof. intros Hr (T & O & HE & [H1 H2 H3 H4]). exists T, O. split; [done|]. split; [done|done| |done]. constructor; [done|constructor]. Qed.

Lemma kernel_step_counts `{Layout} `{Code} n pad s s' : counts [] None s -> kernel_step n pad s s' -> counts [] None s'.
Proof.
  intros Hs Hst. destruct Hst as [me s r s' t Hr E|me k s r s' t Hr E|me s s' t Hr E|p s b s' t E|s s' t E|me input s s' t E];
    try (pose proof (running_counts _ _ Hr Hs) as Hm).
  - exact (ok_run _ _ _ _ _ _ _ (syscall_ok me n pad) Hm E).
  - exact (ok_run _ _ _ _ _ _ _ (resume_ok me k) Hm E).
  - refine (ok_run _ _ _ _ _ _ _ (set_state_ok me _ _) Hs E). done.
  - assert (keeps (counts [] None) (schedule (fun _ => ret tt) p)) as Hsch; [|exact (keeps_run _ _ _ _ _ _ Hsch Hs E)]. unfold schedule.
    eapply ok_step; [apply counts_keeps; intros; keep|]. intros x. case_decide; [|by apply ok_ret'].
    eapply ok_step; [by apply set_state_ok|]. intros ?. eapply ok_step; [apply keeps_ret|]. intros ?. by apply ok_ret'.
  - exact (keeps_run _ clockintr _ _ _ _ clockintr_ok Hs E).
  - exact (keeps_run _ (kuartintr me input) _ _ _ _ (kuartintr_ok me input) Hs E).
Qed.

(** The counts are exact: [f_ref] is the number of descriptors, and processes
    that are not in use have none open. *)
Record counted (s : kstate) : Prop := {
  cn_refs : forall f x, k_ftable s !! f = Some x -> f_ref x = refs f (p_ofile <$> k_procs s);
  cn_idle : forall p x, k_procs s !! p = Some x -> p_state x = UNUSED \/ p_state x = ZOMBIE -> forall o, o ∈ p_ofile x -> o = None;
  cn_width : forall p x, k_procs s !! p = Some x -> length (p_ofile x) = NOFILE }.

Lemma counted_counts s : counted s <-> counts [] None s.
Proof.
  split.
  - intros [H1 H2 H3]. exists (f_ref <$> k_ftable s), (p_ofile <$> k_procs s). split; [split|].
    + intros f r Hf. rewrite list_lookup_fmap in Hf. destruct (k_ftable s !! f) eqn:E; [|done]. injection Hf as <-. by apply H1.
    + apply Forall_fmap, Forall_lookup. intros i x Hx. by apply (H3 i).
    + split; [done..|constructor|]. intros i x Hx Hi _. apply Forall_forall. intros o. apply (H2 i x Hx). revert Hi. destruct (p_state x); cbn; auto; done.
  - intros (T & O & [HE HW] & [<- <- _ H4]). split.
    + intros f x Hf. apply HE. by rewrite list_lookup_fmap, Hf.
    + intros p x Hx Hi o Ho. assert (Forall (fun o => o = None) (p_ofile x)) as Hall by (apply (H4 p x Hx); [by destruct Hi as [->| ->]|done]).
      rewrite Forall_forall in Hall. by apply Hall.
    + intros p x Hx. unfold widths in HW. rewrite Forall_fmap, Forall_lookup in HW. exact (HW p x Hx).
Qed.


(** A process with one descriptor calls dup(0): the count of the file goes
    from 1 to 2. *)
Definition dup_procs_ex : list proc :=
  set_p_state RUNNING (set_p_ofile (Some 0%nat :: replicate 15 None) proc0) :: replicate 63 proc0.
Definition dup_ex : kstate :=
  set_k_mem (Kmem (fun a => if a =? TF_A7 then 10 else 0) 0)
    (set_k_ftable [File FD_DEVICE 1 1 1 0 0 0 1] (set_k_procs dup_procs_ex kstate_ex)).
#[local] Instance file_code_ex : Code := Build_Code 0 0 0 0 0.

Lemma counted_dup_ex : counted dup_ex.
Proof.
  split.
  - intros [|f] x Hx; [injection Hx as <-; reflexivity|discriminate].
  - intros [|p] x Hx Hi o Ho; [injection Hx as <-; by destruct Hi|].
    apply lookup_replicate_1 in Hx as [-> _]. by apply elem_of_replicate in Ho as [-> _].
  - intros [|p] x Hx; [by injection Hx as <-|]. by apply lookup_replicate_1 in Hx as [-> _].
Qed.

