(* ===== verification/Boot.v ===== *)
(** * Booting (kernel/start.c, kernel/main.c)

    [start] runs in machine mode on each hart and ends in [main]; hart 0 sets
    the kernel up. *)

From Stdlib Require Import ZArith Lia.
From stdpp Require Import base gmap list strings.
From S2P Require Import Prelude CString Kalloc Vm Sleeplock Bio Log Fs Printf Console Pipe Kstate File Proc Sysargs Sysfile Exec Trap.
Local Open Scope xv6_scope.

(** ** Machine mode (start.c) *)

(** The registers [start] writes, and the words of [mscratch0] and the CLINT
    it sets. *)
Record mregs := MRegs {
  m_status : Z; m_epc : Z; m_satp : Z; m_medeleg : Z; m_mideleg : Z; m_mscratch : Z; m_mtvec : Z; m_mie : Z;
  m_tp : Z; m_mtimecmp : Z; m_scratch : list Z }.

Definition CLINT_MTIMECMP (hartid : Z) : Z := CLINT + 0x4000 + 8 * hartid.
Definition MSTATUS_MPP_MASK : Z := Z.shiftl 3 11.
Definition MSTATUS_MPP_S : Z := Z.shiftl 1 11.
Definition MSTATUS_MIE : Z := Z.shiftl 1 3.
Definition MIE_MTIE : Z := Z.shiftl 1 7.
Definition interval : Z := 1000000.

Section Start.
(** The addresses of [main], [timervec] and [mscratch0]; the hart's number and
    the clock. *)
Context (main_addr timervec_addr mscratch0 mhartid mtime : Z).

(** [m_scratch] are the hart's words of mscratch0. *)
Definition timerinit (m : mregs) : mregs :=
  MRegs (Z.lor (m_status m) MSTATUS_MIE) (m_epc m) (m_satp m) (m_medeleg m) (m_mideleg m)
    (mscratch0 + 8 * (32 * mhartid)) timervec_addr (Z.lor (m_mie m) MIE_MTIE) (m_tp m) (u64 (mtime + interval))
    (<[5%nat := interval]> (<[4%nat := CLINT_MTIMECMP mhartid]> (m_scratch m))).

Definition start (m : mregs) : mregs :=
  let m := MRegs (Z.lor (clear_bits (m_status m) MSTATUS_MPP_MASK) MSTATUS_MPP_S) main_addr 0 0xffff 0xffff
             (m_mscratch m) (m_mtvec m) (m_mie m) (m_tp m) (m_mtimecmp m) (m_scratch m) in
  let m := timerinit m in
  MRegs (m_status m) (m_epc m) (m_satp m) (m_medeleg m) (m_mideleg m) (m_mscratch m) (m_mtvec m) (m_mie m)
    mhartid (m_mtimecmp m) (m_scratch m).

End Start.

(** ** main *)

Section Main.
Context `{Layout} `{Code} (virtio_disk_init : Z -> M kstate unit).

Definition w_satp (x : Z) (h : hart) : hart :=
  Hart (h_sstatus h) (h_sepc h) (h_scause h) (h_stval h) (h_stvec h) x (h_tp h) (h_sip h) (h_sie h).

(** kvminithart (vm.c) *)
Definition kvminithart : M kst unit := kpt <- on_k (get k_kpt) ;; on_h (w_satp (MAKE_SATP kpt)).

(** What hart 0 does before the scheduler.  The stores of [uartinit], [plicinit]
    and [plicinithart] to their devices are not part of the state. *)
Definition main_hart0 : M kst unit :=
  on_k (on_cons 0 (on_pr printfinit)) ;;;
  on_k (kprintf 0 newline []) ;;;
  on_k (kprintf 0 ("xv6 kernel is booting" +:+ newline) []) ;;;
  on_k (kprintf 0 newline []) ;;;
  on_k (on_mem 0 kinit) ;;;
  kpt <- on_k (on_mem 0 kvminit) ;;
  on_k (modify (set_k_kpt kpt)) ;;;
  kvminithart ;;;
  on_k (procinit 0) ;;;
  kvminithart ;;;
  trapinithart ;;;
  on_k (on_fsys 0 (on_log (on_bio binit))) ;;;
  on_k (on_fsys 0 iinit) ;;;
  on_k (virtio_disk_init ROOTDEV) ;;;
  on_k (userinit 0).

(** The other harts, once hart 0 is done. *)
Definition main_others : M kst unit :=
  h <- get snd ;;
  on_k (kprintf 0 ("hart %d starting" +:+ newline) [AInt (h_tp h)]) ;;;
  kvminithart ;;;
  trapinithart.

End Main.
