(* ===== verification/Ulib.v ===== *)
(** * The user library (user/ulib.c, user/printf.c, user/user.h)

    A user program is a tree of system calls: at each call it waits for the
    answer of the kernel, a return value and the bytes stored through its
    pointer arguments.  A character array of a program is a list of bytes. *)

From Stdlib Require Import ZArith Lia.
From stdpp Require Import base list strings.
From S2P Require Import Prelude CString Printf.

(** ** Programs *)

(** The system calls of user.h that the programs here make; an argument that
    points to a string or buffer is its contents. *)
Inductive ucall :=
| Cfork | Cwait | Cpipe
| Cwrite (fd : Z) (bs : list Z) | Cread (fd n : Z) | Cclose (fd : Z) | Cdup (fd : Z)
| Ckill (pid : Z) | Cexec (path : list Z) (argv : list (list Z)) | Copen (path : list Z) (mode : Z)
| Cmknod (path : list Z) (major minor : Z) | Cunlink (path : list Z) | Cfstat (fd : Z) | Clink (old new : list Z)
| Cmkdir (path : list Z) | Cchdir (path : list Z) | Csbrk (n : Z) | Csleep (n : Z).

(** [UExit] is a call of exit(); [UStuck] a loop out of fuel; [UUndef] an
    access C leaves undefined. *)
Inductive uprog (A : Type) :=
| URet (a : A) | UExit | UStuck | UUndef | USys (c : ucall) (k : Z -> list Z -> uprog A).
Arguments URet {A} a.
Arguments UExit {A}.
Arguments UStuck {A}.
Arguments UUndef {A}.
Arguments USys {A} c k.

Fixpoint ubind {A B} (p : uprog A) (f : A -> uprog B) : uprog B :=
  match p with
  | URet a => f a
  | UExit => UExit
  | UStuck => UStuck
  | UUndef => UUndef
  | USys c k => USys c (fun r bs => ubind (k r bs) f)
  end.

Declare Scope user_scope.
Delimit Scope user_scope with user.
Notation "x <- p ;; f" := (ubind p (fun x => f)) (at level 100, p at next level, right associativity) : user_scope.
Notation "p ;;; f" := (ubind p (fun _ => f)) (at level 100, right associativity) : user_scope.
Local Open Scope user_scope.

Definition sys (c : ucall) : uprog Z := USys c (fun r _ => URet r).
Definition sys_bytes (c : ucall) : uprog (Z * list Z) := USys c (fun r bs => URet (r, bs)).

(** Entry [i] of an array of ints. *)
Definition int_at (bs : list Z) (i : nat) : Z := i32 (le_val (bytes_at (4 * i) 4 bs)).

(** How a program ends when a kernel in state [S] answers its calls. *)
Inductive uresult (A : Type) := Returned (a : A) | Exited | Stuck | Undefined.
Arguments Returned {A} a.
Arguments Exited {A}.
Arguments Stuck {A}.
Arguments Undefined {A}.

Fixpoint urun {S A} (os : ucall -> S -> Z * list Z * S) (p : uprog A) (s : S) : uresult A * S :=
  match p with
  | URet a => (Returned a, s)
  | UExit => (Exited, s)
  | UStuck => (Stuck, s)
  | UUndef => (Undefined, s)
  | USys c k => let '(r, bs, s') := os c s in urun os (k r bs) s'
  end.

Lemma urun_bind {S A B} (os : ucall -> S -> Z * list Z * S) (p : uprog A) (f : A -> uprog B) s :
  urun os (ubind p f) s =
  match urun os p s with
  | (Returned a, s') => urun os (f a) s'
  | (Exited, s') => (Exited, s')
  | (Stuck, s') => (Stuck, s')
  | (Undefined, s') => (Undefined, s')
  end.
Proof.
  revert s. induction p as [a| | | |c k IH]; intros s; simpl; try done. destruct (os c s) as [[r bs] s']. apply IH.
Qed.

(** ** ulib.c *)

(** Copies up to the NUL; a destination that is too short is undefined. *)
Fixpoint strcpy (s t : list Z) : option (list Z) :=
  match s with
  | [] => None
  | _ :: s' =>
      let c := chr t 0 in
      if c =? 0 then Some (0 :: s') else l ← strcpy s' (drop 1 t); Some (c :: l)
  end.

(** The difference of the first characters that differ, as unsigned. *)
Fixpoint strcmp (p q : list Z) : Z :=
  match p with
  | [] => u8 0 - u8 (chr q 0)
  | c :: p' => if ctrue c && (c =? chr q 0) then strcmp p' (drop 1 q) else u8 c - u8 (chr q 0)
  end.

(** The offset of the character. *)
Fixpoint strchr (s : list Z) (c : Z) : option nat :=
  match s with
  | [] => None
  | x :: s' => if x =? 0 then None else if x =? c then Some 0%nat else S <$> strchr s' c
  end.

Definition umemset (dst : list Z) (c : Z) (n : nat) : list Z := replicate n (u8 c) ++ drop n dst.

(** Always upwards, whatever the overlap. *)
Definition umemmove (dst src : Z) (n : nat) (m : mem) : mem := copy_up n dst src m.

(** n = n*10 + *s++ - '0' in an int. *)
Fixpoint atoi_loop (s : list Z) (n : Z) : Z :=
  match s with
  | [] => n
  | c :: s' => if (48 <=? c) && (c <=? 57) then atoi_loop s' (i32 (n * 10 + c - 48)) else n
  end.
Definition atoi (s : list Z) : Z := atoi_loop s 0.

(** for(i=0; i+1 < max; ): [room] is max - 1 - i; the line read so far is
    [line]. *)
Fixpoint gets_loop (room : nat) (line : list Z) : uprog (list Z) :=
  match room with
  | O => URet line
  | S room' =>
      r <- sys_bytes (Cread 0 1) ;;
      if fst r <? 1 then URet line
      else
        let c := chr (snd r) 0 in
        if (c =? 10) || (c =? 13) then URet (line ++ [c]) else gets_loop room' (line ++ [c])
  end.
(** The contents of [buf] afterwards. *)
Definition gets (buf : list Z) (max : nat) : uprog (list Z) :=
  line <- gets_loop (max - 1) [] ;; URet (line ++ [0] ++ drop (length line + 1) buf).

(** The bytes are those of the struct stat. *)
Definition ustat (n : list Z) : uprog (Z * list Z) :=
  fd <- sys (Copen n 0) ;;
  if fd <? 0 then URet (-1, [])
  else
    r <- sys_bytes (Cfstat fd) ;;
    sys (Cclose fd) ;;;
    URet r.

(** ** printf.c *)

Definition putc (fd c : Z) : uprog unit := sys (Cwrite fd [u8 c]) ;;; URet tt.
Fixpoint putcs_ (fd : Z) (cs : list Z) : uprog unit :=
  match cs with [] => URet tt | c :: cs' => putc fd c ;;; putcs_ fd cs' end.

(** digits[], in capitals. *)
Definition udigit (d : Z) : Z := if d <? 10 then 48 + d else 55 + d.
Fixpoint udigits_rev (fuel : nat) (x base : Z) : list Z :=
  match fuel with
  | O => []
  | S fuel' => udigit (x mod base) :: (if x / base =? 0 then [] else udigits_rev fuel' (x / base) base)
  end.
Definition uint_chars (xx base : Z) (sgn : bool) : list Z :=
  let neg := sgn && (i32 xx <? 0) in
  let x := if neg then u32 (- i32 xx) else u32 xx in
  rev (udigits_rev 32 x base ++ (if neg then [45] else [])).
Definition uprintint (fd xx base : Z) (sgn : bool) : uprog unit := putcs_ fd (uint_chars xx base sgn).

Fixpoint uhex_chars (n : nat) (x : Z) : list Z :=
  match n with O => [] | S n' => udigit (Z.shiftr x 60) :: uhex_chars n' (u64 (Z.shiftl x 4)) end.
Definition uprintptr (fd x : Z) : uprog unit := putcs_ fd (48 :: 120 :: uhex_chars 16 x).

(** The format conversions; [%l] cuts its argument to an int, and [%c] is
    there too.  A [%] at the end of the format prints nothing. *)
Fixpoint vprintf (fd : Z) (fmt : list Z) (ap : list arg) : uprog unit :=
  match fmt with
  | [] => URet tt
  | c :: fmt' =>
      if c =? 0 then URet tt
      else if negb (c =? PERCENT) then putc fd c ;;; vprintf fd fmt' ap
      else
        match fmt' with
        | [] => URet tt
        | c :: fmt'' =>
            if c =? 0 then URet tt
            else if c =? 100 then
              match ap with AInt x :: ap' => uprintint fd x 10 true ;;; vprintf fd fmt'' ap' | _ => UUndef end
            else if c =? 108 then
              match ap with APtr x :: ap' => uprintint fd x 10 false ;;; vprintf fd fmt'' ap' | _ => UUndef end
            else if c =? 120 then
              match ap with AInt x :: ap' => uprintint fd x 16 false ;;; vprintf fd fmt'' ap' | _ => UUndef end
            else if c =? 112 then
              match ap with APtr x :: ap' => uprintptr fd x ;;; vprintf fd fmt'' ap' | _ => UUndef end
            else if c =? 115 then
              match ap with
              | AStr s :: ap' => putcs_ fd (cstr (default [40; 110; 117; 108; 108; 41] s)) ;;; vprintf fd fmt'' ap'
              | _ => UUndef
              end
            else if c =? 99 then
              match ap with AInt x :: ap' => putc fd x ;;; vprintf fd fmt'' ap' | _ => UUndef end
            else if c =? PERCENT then putc fd PERCENT ;;; vprintf fd fmt'' ap
            else putc fd PERCENT ;;; putc fd c ;;; vprintf fd fmt'' ap
        end
  end.
Definition fprintf (fd : Z) (fmt : list Z) (ap : list arg) : uprog unit := vprintf fd fmt ap.
Definition uprintf (fmt : list Z) (ap : list arg) : uprog unit := vprintf 1 fmt ap.

(** The string with a newline at its end. *)
Definition ln (s : string) : list Z := chars s ++ [10].
