(* ===== verification/Sh.v ===== *)
(** * The shell (user/sh.c)

    Parsing a command line in place: tokens are pairs of pointers into the
    line, and [nulterminate] afterwards stores a NUL at the end of each.  A
    pointer is an offset; the parser's state is the offset [*ps].  [Panic m] is
    a call of the shell's own [panic(m)].  Then running the command that was
    parsed, as a program of Ulib.v.  Memory allocation succeeds here. *)

From Stdlib Require Import ZArith Lia.
From stdpp Require Import base list strings.
From S2P Require Import Prelude CString Printf Ulib.
Local Open Scope xv6_scope.

(** ** Commands *)

(** argv[i] and eargv[i], or file and efile. *)
Record span := Span { sp_start : nat; sp_end : nat }.
Record redir := Redir { rd_file : span; rd_mode : Z; rd_fd : Z }.

Inductive cmd :=
| EXEC (argv : list span)
| REDIR (c : cmd) (r : redir)
| PIPE (left right : cmd)
| LIST (left right : cmd)
| BACK (c : cmd).

Definition MAXARGS : nat := 10.
Definition whitespace : list Z := [32; 9; 13; 10; 11].
Definition symbols : list Z := [60; 124; 62; 38; 59; 40; 41].

Definition is_ws (c : Z) : bool := bool_decide (is_Some (strchr whitespace c)).
Definition is_sym (c : Z) : bool := bool_decide (is_Some (strchr symbols c)).

(** Redirections around a command, the first one innermost. *)
Definition wrap (c : cmd) (rs : list redir) : cmd := foldl REDIR c rs.

(** NUL-terminate all the counted strings. *)
Definition nul (buf : list Z) (x : span) : list Z := <[sp_end x := 0]> buf.
Fixpoint nulterminate (c : cmd) (buf : list Z) : list Z :=
  match c with
  | EXEC argv => foldl nul buf argv
  | REDIR c r => nul (nulterminate c buf) (rd_file r)
  | PIPE l r => nulterminate r (nulterminate l buf)
  | LIST l r => nulterminate r (nulterminate l buf)
  | BACK c => nulterminate c buf
  end.

(** ** Tokens *)

Section Parser.
Context (buf : list Z).

Definition es : nat := strlen buf.

(** while(s < es && p( *s )) s++; *)
Fixpoint skip_loop (fuel : nat) (p : Z -> bool) (s : nat) : nat :=
  match fuel with
  | O => s
  | S fuel' => if (s <? es)%nat && p (chr buf s) then skip_loop fuel' p (S s) else s
  end.
Definition skip (p : Z -> bool) (s : nat) : nat := skip_loop (es - s) p s.

(** The token and where it ends, given where it starts. *)
Definition token_at (s : nat) : Z * nat :=
  let c := chr buf s in
  if c =? 0 then (0, s)
  else if bool_decide (c ∈ [124; 40; 41; 59; 38; 60]) then (c, S s)
  else if c =? 62 then
    if chr buf (S s) =? 62 then (43, S (S s)) else (62, S s)
  else (97, skip (fun c => negb (is_ws c) && negb (is_sym c)) s).

Definition gettoken : M nat (Z * span) :=
  s <- get (skip is_ws) ;;
  let '(tok, e) := token_at s in
  modify (fun _ => skip is_ws e) ;;;
  ret (tok, Span s e).

Definition peek (toks : list Z) : M nat bool :=
  modify (skip is_ws) ;;;
  s <- get (fun s => s) ;;
  ret (ctrue (chr buf s) && bool_decide (is_Some (strchr toks (chr buf s)))).

(** ** The grammar *)

Fixpoint redirs_loop (fuel : nat) : M nat (list redir) :=
  match fuel with
  | O => diverge
  | S fuel' =>
      b <- peek [60; 62] ;;
      if b then
        t <- gettoken ;;
        f <- gettoken ;;
        if negb (fst f =? 97) then panic "missing file for redirection"
        else
          let r := if fst t =? 60 then Redir (snd f) O_RDONLY 0 else Redir (snd f) (Z.lor O_WRONLY O_CREATE) 1 in
          rs <- redirs_loop fuel' ;;
          ret (r :: rs)
      else ret []
  end.
(** Each round passes a character. *)
Definition parseredirs : M nat (list redir) :=
  s <- get (fun s => s) ;; redirs_loop (S (es - s)).

(** The loop of [parseexec].  [ret] there is the execcmd under the redirections
    so far; arguments go into the execcmd. *)
Fixpoint exec_loop (fuel : nat) (argv : list span) (rs : list redir) : M nat cmd :=
  match fuel with
  | O => diverge
  | S fuel' =>
      b <- peek [124; 41; 38; 59] ;;
      if b then ret (wrap (EXEC argv) rs)
      else
        t <- gettoken ;;
        if fst t =? 0 then ret (wrap (EXEC argv) rs)
        else if negb (fst t =? 97) then panic "syntax"
        else
          let argv := argv ++ [snd t] in
          if (MAXARGS <=? length argv)%nat then panic "too many args"
          else
            rs' <- parseredirs ;;
            exec_loop fuel' argv (rs ++ rs')
  end.

Fixpoint back_loop (fuel : nat) (c : cmd) : M nat cmd :=
  match fuel with
  | O => diverge
  | S fuel' => b <- peek [38] ;; if b then gettoken ;;; back_loop fuel' (BACK c) else ret c
  end.

Fixpoint parseline (fuel : nat) : M nat cmd :=
  match fuel with
  | O => diverge
  | S fuel' =>
      c <- parsepipe fuel' ;;
      s <- get (fun s => s) ;;
      c <- back_loop (S (es - s)) c ;;
      b <- peek [59] ;;
      if b then gettoken ;;; r <- parseline fuel' ;; ret (LIST c r) else ret c
  end
with parsepipe (fuel : nat) : M nat cmd :=
  match fuel with
  | O => diverge
  | S fuel' =>
      c <- parseexec fuel' ;;
      b <- peek [124] ;;
      if b then gettoken ;;; r <- parsepipe fuel' ;; ret (PIPE c r) else ret c
  end
with parseexec (fuel : nat) : M nat cmd :=
  match fuel with
  | O => diverge
  | S fuel' =>
      b <- peek [40] ;;
      if b then parseblock fuel'
      else
        rs <- parseredirs ;;
        s <- get (fun s => s) ;;
        exec_loop (S (es - s)) [] rs
  end
with parseblock (fuel : nat) : M nat cmd :=
  match fuel with
  | O => diverge
  | S fuel' =>
      b <- peek [40] ;;
      if negb b then panic "parseblock"
      else
        gettoken ;;;
        c <- parseline fuel' ;;
        b <- peek [41] ;;
        if negb b then panic "syntax - missing )"
        else
          gettoken ;;;
          rs <- parseredirs ;;
          ret (wrap c rs)
  end.

(** From [parseline] to [parseline] at least one character is passed, through
    at most four calls. *)
Definition parse_fuel (s : nat) : nat := 4 * (es - s) + 4.

(** fprintf(2, ...) goes to the characters sent. *)
Definition eputs (l : list Z) : M nat unit := for_all l (fun c => emit (EPutc c)).

(** The command, and the line once its words are NUL-terminated. *)
Definition parsecmd : M nat (cmd * list Z) :=
  modify (fun _ => 0%nat) ;;;
  c <- parseline (parse_fuel 0) ;;
  peek [] ;;;
  s <- get (fun s => s) ;;
  if negb (s =? es)%nat then
    eputs (chars "leftovers: " ++ cstr (drop s buf) ++ [10]) ;;;
    panic "syntax"
  else ret (c, nulterminate c buf).

End Parser.


(** ** Running commands *)

Local Close Scope xv6_scope.
Local Open Scope user_scope.

Definition word_at (buf : list Z) (x : span) : list Z := cstr (drop (sp_start x) buf).

Definition sh_panic {A} (s : list Z) : uprog A := fprintf 2 (ln "%s") [AStr (Some s)] ;;; UExit.

Definition fork1 : uprog Z :=
  pid <- sys Cfork ;;
  if pid =? -1 then sh_panic (chars "fork") else URet pid.

(** Ends in exit() or exec() on every path: [if(fork1() == 0) runcmd(c)] goes on
    in the parent only. *)
Fixpoint runcmd (buf : list Z) (c : cmd) : uprog unit :=
  match c with
  | EXEC [] => UExit
  | EXEC (a :: _ as argv) =>
      sys (Cexec (word_at buf a) (word_at buf <$> argv)) ;;;
      fprintf 2 (ln "exec %s failed") [AStr (Some (word_at buf a))] ;;;
      UExit
  | REDIR c r =>
      sys (Cclose (rd_fd r)) ;;;
      fd <- sys (Copen (word_at buf (rd_file r)) (rd_mode r)) ;;
      if fd <? 0 then
        fprintf 2 (ln "open %s failed") [AStr (Some (word_at buf (rd_file r)))] ;;; UExit
      else runcmd buf c ;;; UExit
  | LIST l r =>
      pid <- fork1 ;;
      (if pid =? 0 then runcmd buf l else URet tt) ;;;
      sys Cwait ;;;
      runcmd buf r ;;;
      UExit
  | PIPE l r =>
      p <- sys_bytes Cpipe ;;
      if fst p <? 0 then sh_panic (chars "pipe")
      else
        let p0 := int_at (snd p) 0 in
        let p1 := int_at (snd p) 1 in
        pid <- fork1 ;;
        (if pid =? 0 then
           sys (Cclose 1) ;;; sys (Cdup p1) ;;; sys (Cclose p0) ;;; sys (Cclose p1) ;;; runcmd buf l
         else URet tt) ;;;
        pid <- fork1 ;;
        (if pid =? 0 then
           sys (Cclose 0) ;;; sys (Cdup p0) ;;; sys (Cclose p0) ;;; sys (Cclose p1) ;;; runcmd buf r
         else URet tt) ;;;
        sys (Cclose p0) ;;; sys (Cclose p1) ;;; sys Cwait ;;; sys Cwait ;;;
        UExit
  | BACK c =>
      pid <- fork1 ;;
      (if pid =? 0 then runcmd buf c else URet tt) ;;;
      UExit
  end.

Definition sent_chars (t : list event) : list Z :=
  omap (fun e => match e with EPutc c => Some c | _ => None end) t.

(** runcmd(parsecmd(buf)) *)
Definition run_line (buf : list Z) : uprog unit :=
  match parsecmd buf 0%nat with
  | Ok (c, buf') _ _ => runcmd buf' c
  | Panic m _ t => putcs_ 2 (sent_chars t) ;;; sh_panic (chars m)
  | Sleep _ _ _ | Diverge => UStuck
  | Undef => UUndef
  end.

Definition getcmd (buf : list Z) (nbuf : nat) : uprog (Z * list Z) :=
  fprintf 2 (chars "$ ") [] ;;;
  let buf := umemset buf 0 nbuf in
  buf <- gets buf nbuf ;;
  URet (if chr buf 0 =? 0 then -1 else 0, buf).

(** Ensure that three file descriptors are open. *)
Fixpoint open_console (fuel : nat) : uprog unit :=
  match fuel with
  | O => UStuck
  | S fuel' =>
      fd <- sys (Copen (chars "console") O_RDWR) ;;
      if 0 <=? fd then
        if 3 <=? fd then sys (Cclose fd) ;;; URet tt else open_console fuel'
      else URet tt
  end.

(** Read and run input commands. *)
Fixpoint sh_loop (fuel : nat) (buf : list Z) : uprog unit :=
  match fuel with
  | O => UStuck
  | S fuel' =>
      g <- getcmd buf 100 ;;
      let '(r, buf) := g in
      if r <? 0 then UExit
      else if (chr buf 0 =? 99) && (chr buf 1 =? 100) && (chr buf 2 =? 32) then
        let buf := <[(strlen buf - 1)%nat := 0]> buf in
        r <- sys (Cchdir (cstr (drop 3 buf))) ;;
        (if r <? 0 then fprintf 2 (ln "cannot cd %s") [AStr (Some (cstr (drop 3 buf)))] else URet tt) ;;;
        sh_loop fuel' buf
      else
        pid <- fork1 ;;
        (if pid =? 0 then run_line buf else URet tt) ;;;
        sys Cwait ;;;
        sh_loop fuel' buf
  end.

Definition sh_main (fuel : nat) : uprog unit :=
  open_console fuel ;;; sh_loop fuel (replicate 100 0).
