(* ===== verification/ShFacts.v ===== *)
(** * The shell's parser is its grammar

    The line as a list of tokens, a grammar on such lists, and the proof that
    [parsecmd] returns a command exactly when the grammar derives it.  On every
    line [parsecmd] either returns or calls [panic], and NUL-terminating the
    words never damages one. *)

From Stdlib Require Import ZArith Lia.
From stdpp Require Import base list strings.
From S2P Require Import Prelude CString Printf Ulib Sh.
Local Open Scope xv6_scope.

(** ** The grammar *)

Notation tok := (Z * span)%type.

Definition redir_of (d : Z) (x : span) : option redir :=
  if d =? 60 then Some (Redir x O_RDONLY 0)
  else if bool_decide (d ∈ [62; 43]) then Some (Redir x (Z.lor O_WRONLY O_CREATE) 1)
  else None.

(** Words and redirections, in any order. *)
Inductive args : list tok -> list span -> list redir -> Prop :=
| args_nil : args [] [] []
| args_word x ts ws rs : args ts ws rs -> args ((97, x) :: ts) (x :: ws) rs
| args_redir d y x r ts ws rs :
    redir_of d x = Some r -> args ts ws rs -> args ((d, y) :: (97, x) :: ts) ws (r :: rs).

Inductive nonterminal := Line | Pipeline | Simple.

Definition backs (n : nat) (c : cmd) : cmd := Nat.iter n BACK c.
Definition amps (ts : list tok) : Prop := Forall (fun t => fst t = 38) ts.

(** - Line     ::= Pipeline &* | Pipeline &* ; Line
    - Pipeline ::= Simple | Simple '|' Pipeline
    - Simple   ::= words and redirections | '(' Line ')' redirections *)
Inductive derives : nonterminal -> list tok -> cmd -> Prop :=
| d_line ts c bs : derives Pipeline ts c -> amps bs -> derives Line (ts ++ bs) (backs (length bs) c)
| d_list ts c bs x ts' c' :
    derives Pipeline ts c -> amps bs -> derives Line ts' c' ->
    derives Line (ts ++ bs ++ (59, x) :: ts') (LIST (backs (length bs) c) c')
| d_simple ts c : derives Simple ts c -> derives Pipeline ts c
| d_pipe ts c x ts' c' :
    derives Simple ts c -> derives Pipeline ts' c' -> derives Pipeline (ts ++ (124, x) :: ts') (PIPE c c')
| d_exec ts ws rs : args ts ws rs -> (length ws < MAXARGS)%nat -> derives Simple ts (wrap (EXEC ws) rs)
| d_block x ts c y ts' rs :
    derives Line ts c -> args ts' [] rs -> derives Simple ((40, x) :: ts ++ (41, y) :: ts') (wrap c rs).

(** ** Characters *)

Definition plain (c : Z) : bool := negb (is_ws c) && negb (is_sym c).

Lemma strchr_in l c : 0 ∉ l -> (is_Some (strchr l c) <-> c ∈ l).
Proof.
  induction l as [|x l IH]; intros H0; cbn [strchr].
  { split; [by intros [? ?]|by intros ?%elem_of_nil]. }
  apply not_elem_of_cons in H0 as [Hx H0]. rewrite (proj2 (Z.eqb_neq x 0)) by congruence.
  rewrite elem_of_cons. destruct (Z.eqb_spec x c) as [->|Hc].
  - split; [by left|by eexists].
  - rewrite fmap_is_Some, (IH H0). split; [by right|intros [?|?]; [congruence|done]].
Qed.

Lemma is_ws_in c : is_ws c = bool_decide (c ∈ whitespace).
Proof. apply bool_decide_ext, strchr_in. compute_done. Qed.
Lemma is_sym_in c : is_sym c = bool_decide (c ∈ symbols).
Proof. apply bool_decide_ext, strchr_in. compute_done. Qed.

Section Line.
Context (buf : list Z).
Local Abbreviation es := (es buf).
Local Abbreviation ch := (chr buf).

Lemma ch_end : ch es = 0.
Proof.
  unfold Sh.es, chr. induction buf as [|c l IH]; [done|]. cbn [strlen]. destruct (ctrue c) eqn:E; [done|].
  unfold ctrue in E. bools. cbn. lia.
Qed.
Lemma ch_in s : (s < es)%nat -> ch s <> 0.
Proof.
  unfold Sh.es, chr. revert s. induction buf as [|c l IH]; cbn [strlen]; intros s Hs; [lia|].
  destruct (ctrue c) eqn:E; [|lia]. unfold ctrue in E. bools. destruct s; cbn; [lia|apply IH; lia].
Qed.

(** ** Skipping *)

Lemma skip_loop_spec p n s :
  (s + n = es)%nat ->
  let s' := skip_loop buf n p s in
  (s <= s' <= es)%nat /\ (forall i, (s <= i < s')%nat -> p (ch i) = true) /\ (s' = es \/ p (ch s') = false).
Proof.
  revert s. induction n as [|n IH]; intros s Hn; cbn [skip_loop].
  { repeat split; [lia..|left; lia]. }
  rewrite (proj2 (Nat.ltb_lt s es)) by lia. cbn [andb]. destruct (p (ch s)) eqn:E.
  - destruct (IH (S s)) as (? & Hp & ?); [lia|]. repeat split; [lia..| |done].
    intros i Hi. destruct (decide (i = s)) as [->|]; [done|apply Hp; lia].
  - repeat split; [lia..|by right].
Qed.

Lemma skip_le p s : (s <= es)%nat -> (s <= skip buf p s <= es)%nat.
Proof. intros Hs. apply (skip_loop_spec p (es - s) s). lia. Qed.
Lemma skip_over p s i : (s <= i < skip buf p s)%nat -> p (ch i) = true.
Proof.
  intros Hi. destruct (le_lt_dec s es).
  - apply (skip_loop_spec p (es - s) s); [lia|done].
  - unfold skip in Hi. replace (es - s)%nat with 0%nat in Hi by lia. cbn in Hi. lia.
Qed.
Lemma skip_stop p s : (s <= es)%nat -> skip buf p s = es \/ p (ch (skip buf p s)) = false.
Proof. intros Hs. apply (skip_loop_spec p (es - s) s). lia. Qed.

Lemma skip_stay p s : s = es \/ p (ch s) = false -> skip buf p s = s.
Proof.
  intros H. unfold skip. destruct (es - s)%nat as [|n] eqn:E; [done|]. cbn [skip_loop].
  destruct H as [->|Hp]; [lia|]. by rewrite Hp, andb_false_r.
Qed.
Lemma skip_idem p s : (s <= es)%nat -> skip buf p (skip buf p s) = skip buf p s.
Proof. intros Hs. by apply skip_stay, skip_stop. Qed.

(** ** Tokens *)

Definition is_word (x : span) : Prop :=
  (sp_start x < sp_end x <= es)%nat /\
  (forall i, (sp_start x <= i < sp_end x)%nat -> plain (ch i) = true /\ ch i <> 0) /\
  (ch (sp_end x) = 0 \/ plain (ch (sp_end x)) = false).

(** A token starting at [s], where no blank is. *)
Inductive token_spec (s : nat) : Z * nat -> Prop :=
| tk_end : s = es -> token_spec s (0, s)
| tk_sym : (s < es)%nat -> ch s ∈ symbols -> token_spec s (ch s, S s)
| tk_append : (S s < es)%nat -> ch s = 62 -> token_spec s (43, S (S s))
| tk_word e : ch s ∉ symbols -> is_word (Span s e) -> token_spec s (97, e).

Lemma ch_zero s : (s <= es)%nat -> ch s = 0 -> s = es.
Proof. intros Hs H0. destruct (decide (s = es)); [done|]. destruct (ch_in s); [lia|done]. Qed.

Lemma token_at_spec s : (s <= es)%nat -> is_ws (ch s) = false -> token_spec s (token_at buf s).
Proof.
  intros Hs Hw. unfold token_at. destruct (Z.eqb_spec (ch s) 0) as [E|E]; [by constructor; apply ch_zero|].
  assert (s < es)%nat as Hlt by (destruct (decide (s = es)) as [->|]; [by rewrite ch_end in E|lia]).
  case_bool_decide as Hin.
  { constructor; [done|]. revert Hin. unfold symbols. rewrite !elem_of_cons. tauto. }
  destruct (Z.eqb_spec (ch s) 62) as [E'|E'].
  { destruct (Z.eqb_spec (ch (S s)) 62) as [E2|E2].
    - constructor; [|done]. destruct (decide (S s = es)) as [E3|]; [by rewrite E3, ch_end in E2|lia].
    - rewrite <- E'. constructor; [done|]. rewrite E'. compute_done. }
  assert (ch s ∉ symbols) as Hns.
  { intros H. apply Hin. revert H. unfold symbols. rewrite !elem_of_cons, elem_of_nil. intuition congruence. }
  constructor; [done|]. pose proof (skip_le plain s Hs) as Hle. unfold plain in Hle.
  pose proof (skip_over plain s) as Hov. unfold plain in Hov.
  pose proof (skip_stop plain s Hs) as Hst. unfold plain in Hst.
  set (e := skip buf _ s) in *.
  assert (plain (ch s) = true) as Hp.
  { unfold plain. by rewrite Hw, is_sym_in, (bool_decide_eq_false_2 _ Hns). }
  assert (e <> s) as Hne.
  { intros He. destruct Hst as [Hst|Hst]; [lia|]. unfold plain in Hp. rewrite He in Hst. congruence. }
  split; [cbn; lia|split]; cbn.
  - intros i Hi. split; [by apply Hov|apply ch_in; lia].
  - destruct Hst as [->|Hst]; [left; apply ch_end|by right].
Qed.

Lemma token_at_end s : token_at buf s = (0, s) <-> ch s = 0.
Proof.
  unfold token_at. destruct (Z.eqb_spec (ch s) 0) as [E|E]; [done|]. split; [|done].
  case_bool_decide as Hin; [intros [=]; congruence|]. repeat case_match; congruence.
Qed.

Fixpoint tokens_from (fuel s : nat) : list tok :=
  match fuel with
  | O => []
  | S fuel' =>
      let s := skip buf is_ws s in
      let '(t, e) := token_at buf s in
      if t =? 0 then [] else (t, Span s e) :: tokens_from fuel' e
  end.
Definition tokens (s : nat) : list tok := tokens_from (es - s) s.

Lemma ws_end : is_ws (ch es) = false.
Proof. by rewrite ch_end. Qed.
Lemma skip_not_ws s : (s <= es)%nat -> is_ws (ch (skip buf is_ws s)) = false.
Proof. intros Hs. destruct (skip_stop is_ws s Hs) as [->|H]; [apply ws_end|done]. Qed.

Lemma token_spec_bounds s t e : (s <= es)%nat -> token_spec s (t, e) ->
  (t = 0 /\ s = es /\ e = s) \/ (t <> 0 /\ (s < e <= es)%nat).
Proof.
  intros Hs H. inversion H as [|? Hin|?|? ? Hw]; subst; [by left|right..].
  - split; [by apply ch_in|lia].
  - split; [done|lia].
  - destruct Hw as [Hw _]. cbn in Hw. split; [done|lia].
Qed.

Lemma tokens_from_enough f g s :
  (s <= es)%nat -> (es - s <= f)%nat -> (es - s <= g)%nat -> tokens_from f s = tokens_from g s.
Proof.
  revert g s. induction f as [|f IH]; intros [|g] s Hs Hf Hg; cbn [tokens_from]; [done|..].
  1,2: assert (s = es) as -> by lia; rewrite skip_stay by (by left);
    by rewrite (proj2 (token_at_end es) ch_end).
  pose proof (skip_le is_ws s Hs) as Hk.
  pose proof (token_at_spec (skip buf is_ws s) ltac:(lia) (skip_not_ws s Hs)) as Ht.
  destruct (token_at buf (skip buf is_ws s)) as [t e].
  destruct (token_spec_bounds (skip buf is_ws s) t e ltac:(lia) Ht) as [(-> & _)|[Ht0 He]]; [done|].
  rewrite (proj2 (Z.eqb_neq t 0)) by done. f_equal. apply IH; lia.
Qed.

(** What the tokens at [s] are. *)
Inductive tokens_spec (s : nat) : list tok -> Prop :=
| tks_end : skip buf is_ws s = es -> tokens_spec s []
| tks_cons t e : (skip buf is_ws s < e <= es)%nat -> t <> 0 -> token_spec (skip buf is_ws s) (t, e) ->
    token_at buf (skip buf is_ws s) = (t, e) ->
    tokens_spec s ((t, Span (skip buf is_ws s) e) :: tokens e).

Lemma tokens_eq s : (s <= es)%nat -> tokens_spec s (tokens s).
Proof.
  intros Hs. pose proof (skip_le is_ws s Hs) as Hk.
  pose proof (token_at_spec (skip buf is_ws s) ltac:(lia) (skip_not_ws s Hs)) as Ht.
  unfold tokens. destruct (es - s)%nat as [|f] eqn:Ef; cbn [tokens_from]; [constructor; lia|].
  destruct (token_at buf (skip buf is_ws s)) as [t e] eqn:E.
  destruct (token_spec_bounds (skip buf is_ws s) t e ltac:(lia) Ht) as [(-> & ? & _)|[Ht0 He]]; [by constructor|].
  rewrite (proj2 (Z.eqb_neq t 0)) by done.
  rewrite (tokens_from_enough f (es - e) e) by lia. by constructor.
Qed.

Lemma tokens_skip s : (s <= es)%nat -> tokens (skip buf is_ws s) = tokens s.
Proof.
  intros Hs. pose proof (skip_le is_ws s Hs) as Hk. unfold tokens.
  rewrite (tokens_from_enough _ (S (es - s))) by lia.
  rewrite (tokens_from_enough (es - s) (S (es - s)) s) by lia.
  cbn [tokens_from]. by rewrite skip_idem.
Qed.

Lemma tokens_length s : (s <= es)%nat -> (length (tokens s) <= es - s)%nat.
Proof.
  remember (es - s)%nat as n eqn:En. revert s En. induction (lt_wf n) as [n _ IH]. intros s -> Hs.
  pose proof (skip_le is_ws s Hs). destruct (tokens_eq s Hs) as [|t e He]; [cbn; lia|].
  cbn [length]. specialize (IH (es - e)%nat ltac:(lia) e eq_refl ltac:(lia)). lia.
Qed.

Lemma tokens_words s : (s <= es)%nat -> Forall (fun t => fst t = 97 -> is_word (snd t)) (tokens s).
Proof.
  remember (es - s)%nat as n eqn:En. revert s En. induction (lt_wf n) as [n _ IH]. intros s -> Hs.
  pose proof (skip_le is_ws s Hs). destruct (tokens_eq s Hs) as [|t e He Ht0 Ht _]; [done|].
  constructor; [|apply (IH (es - e)%nat); lia]. cbn. intros ->.
  inversion Ht as [|? Hin Hc|?|]; [|done]. rewrite Hc in Hin. by assert (97 ∉ symbols) by compute_done.
Qed.

(** ** Runs of the parser

    [runs k m s Q]: the run of [m] ends, with nothing printed and [Q] of its
    result, or, unless [k], in a panic. *)

Definition runs {A} (k : bool) (m : M nat A) (s : nat) (Q : A -> nat -> Prop) : Prop :=
  match m s with
  | Ok a s' t => t = [] /\ (s' <= es)%nat /\ Q a s'
  | Panic _ _ _ => k = false
  | _ => False
  end.

Lemma runs_bind {A B} k (m : M nat A) (f : A -> M nat B) s Q :
  runs k m s (fun a s' => runs k (f a) s' Q) -> runs k (bind m f) s Q.
Proof.
  unfold runs, bind. destruct (m s) as [a s' t| | | |]; try done. intros (-> & _ & H).
  by destruct (f a s').
Qed.
Lemma runs_ret {A} k (a : A) s (Q : A -> nat -> Prop) : (s <= es)%nat -> Q a s -> runs k (ret a) s Q.
Proof. done. Qed.
Lemma runs_get {A} k (g : nat -> A) s (Q : A -> nat -> Prop) : (s <= es)%nat -> Q (g s) s -> runs k (get g) s Q.
Proof. done. Qed.
Lemma runs_panic {A} m s (Q : A -> nat -> Prop) : runs false (panic m) s Q.
Proof. done. Qed.
Lemma runs_mono {A} k (m : M nat A) s (P Q : A -> nat -> Prop) :
  runs k m s P -> (forall a s', (s' <= es)%nat -> P a s' -> Q a s') -> runs k m s Q.
Proof. unfold runs. destruct (m s); try done. intros (? & ? & ?) HQ. auto. Qed.

(** The character a token starts with, for the tokens that are not words. *)
Definition lead (t : Z) : Z := if t =? 43 then 62 else t.
Definition starts (toks : list Z) (ts : list tok) : bool :=
  match ts with [] => false | (t, _) :: _ => bool_decide (lead t ∈ toks) end.

Lemma runs_peek k toks s (Q : bool -> nat -> Prop) :
  (s <= es)%nat -> toks ⊆ symbols ->
  (forall s', (s' <= es)%nat -> tokens s' = tokens s -> Q (starts toks (tokens s)) s') ->
  runs k (peek buf toks) s Q.
Proof.
  intros Hs Hsub H. pose proof (skip_le is_ws s Hs) as Hk.
  specialize (H _ (proj2 Hk) (tokens_skip s Hs)).
  assert (0 ∉ toks) as H0 by (intros ?%Hsub; by assert (0 ∉ symbols) by compute_done).
  unfold runs, peek, bind, modify, get, ret, after. cbn. split; [done|]. split; [lia|].
  rewrite (bool_decide_ext _ _ (strchr_in toks (ch (skip buf is_ws s)) H0)).
  replace (ctrue _ && _) with (starts toks (tokens s)); [done|].
  destruct (tokens_eq s Hs) as [Hend|t e He Ht0 Ht _]; cbn [starts]; [by rewrite Hend, ch_end|].
  unfold ctrue. rewrite (proj2 (Z.eqb_neq (ch _) 0)) by (apply ch_in; lia). cbn [negb andb].
  inversion Ht as [|? Hin Hc|? Hc|? Hns]; subst.
  - done.
  - unfold lead. rewrite (proj2 (Z.eqb_neq (ch _) 43)); [done|].
    intros E. rewrite E in Hin. by assert (43 ∉ symbols) by compute_done.
  - by rewrite Hc.
  - rewrite !bool_decide_eq_false_2; [done|..]; intros ?%Hsub; [done|].
    by assert (97 ∉ symbols) by compute_done.
Qed.

Lemma runs_gettoken_end k s (Q : Z * span -> nat -> Prop) :
  (s <= es)%nat -> tokens s = [] ->
  (forall x s', (s' <= es)%nat -> tokens s' = [] -> Q (0, x) s') -> runs k (gettoken buf) s Q.
Proof.
  intros Hs E H. destruct (tokens_eq s Hs) as [Hend|]; [|done].
  unfold runs, gettoken, bind, get, ret, after. rewrite Hend, (proj2 (token_at_end es) ch_end). cbn.
  rewrite skip_stay by (by left). split; [done|]. split; [done|]. apply H; [done|].
  unfold tokens. by rewrite Nat.sub_diag.
Qed.

Lemma runs_gettoken k s t x ts (Q : Z * span -> nat -> Prop) :
  (s <= es)%nat -> tokens s = (t, x) :: ts ->
  (forall s', (s' <= es)%nat -> tokens s' = ts -> Q (t, x) s') -> runs k (gettoken buf) s Q.
Proof.
  intros Hs E H. destruct (tokens_eq s Hs) as [|t' e He Ht0 Ht Ea]; [done|].
  injection E as -> <- <-. unfold runs, gettoken, bind, get, ret, after. rewrite Ea. cbn.
  split; [done|]. pose proof (skip_le is_ws e (proj2 He)). split; [lia|]. apply H; [lia|].
  apply tokens_skip. lia.
Qed.

(** ** Redirections and arguments *)

Lemma redir_of_lead t x :
  redir_of t x =
  if bool_decide (lead t ∈ [60; 62]) then
    Some (if t =? 60 then Redir x O_RDONLY 0 else Redir x (Z.lor O_WRONLY O_CREATE) 1)
  else None.
Proof.
  unfold redir_of, lead. destruct (Z.eqb_spec t 60) as [->|H60]; [done|].
  destruct (Z.eqb_spec t 43) as [->|H43]; [done|]. 
  rewrite (bool_decide_ext (t ∈ [62; 43]) (t ∈ [60; 62])); [done|]. rewrite !elem_of_cons, elem_of_nil. tauto.
Qed.

Lemma redirs_sub : [60; 62] ⊆ symbols.
Proof. intros x. unfold symbols. rewrite !elem_of_cons. tauto. Qed.
Lemma stops_sub : [124; 41; 38; 59] ⊆ symbols.
Proof. intros x. unfold symbols. rewrite !elem_of_cons. tauto. Qed.
Lemma one_sub c : c ∈ symbols -> [c] ⊆ symbols.
Proof. by intros Hc x ->%list_elem_of_singleton. Qed.

Lemma redirs_sound fuel s :
  (s <= es)%nat -> (length (tokens s) < fuel)%nat ->
  runs false (redirs_loop buf fuel) s (fun rs s' => exists ts, tokens s = ts ++ tokens s' /\ args ts [] rs).
Proof.
  revert s. induction fuel as [|fuel IH]; intros s Hs Hf; [lia|]. cbn [redirs_loop].
  apply runs_bind, runs_peek; [done|apply redirs_sub|]. intros s1 Hs1 E1.
  destruct (tokens s) as [|[t y] ts]; cbn [starts].
  { apply runs_ret; [done|]. exists []. rewrite E1. by split; [|constructor]. }
  case_bool_decide as Hl; [|apply runs_ret; [done|]; exists []; rewrite E1; by split; [|constructor]].
  apply runs_bind, (runs_gettoken _ _ _ _ _ _ Hs1 E1). intros s2 Hs2 E2.
  destruct ts as [|[t2 x] ts].
  { apply runs_bind, (runs_gettoken_end _ _ _ Hs2 E2). intros; apply runs_panic. }
  apply runs_bind, (runs_gettoken _ _ _ _ _ _ Hs2 E2). intros s3 Hs3 E3. cbn [fst snd].
  destruct (Z.eqb_spec t2 97) as [->|]; [|apply runs_panic]. cbn [negb] in *. cbn [length] in Hf.
  apply runs_bind. eapply runs_mono; [apply IH; [done|rewrite E3; lia]|]. intros rs s4 Hs4 (ts' & E & Ha).
  apply runs_ret; [done|]. exists ((t, y) :: (97, x) :: ts'). rewrite E3 in E. split; [by rewrite E|].
  constructor; [|done]. by rewrite redir_of_lead, bool_decide_eq_true_2.
Qed.

Lemma redirs_complete fuel s ts rs rest :
  args ts [] rs -> (s <= es)%nat -> tokens s = ts ++ rest -> starts [60; 62] rest = false ->
  (length ts < fuel)%nat ->
  runs true (redirs_loop buf fuel) s (fun rs' s' => rs' = rs /\ tokens s' = rest).
Proof.
  intros Ha. remember [] as ws eqn:Ew. revert fuel s Ew.
  induction Ha as [|x ts ws rs Ha IH|d y x r ts ws rs Hr Ha IH]; intros fuel s Ew Hs E Hst Hf; [|done|];
    (destruct fuel as [|fuel]; [cbn in Hf; lia|]); cbn [redirs_loop];
    (apply runs_bind, runs_peek; [done|apply redirs_sub|]); intros s1 Hs1 E1; rewrite E in *.
  { cbn [app] in *. rewrite Hst. by apply runs_ret. }
  rewrite redir_of_lead in Hr. cbn [app starts] in *. case_bool_decide; [|done].
  apply runs_bind, (runs_gettoken _ _ _ _ _ _ Hs1 E1). intros s2 Hs2 E2.
  apply runs_bind, (runs_gettoken _ _ _ _ _ _ Hs2 E2). intros s3 Hs3 E3. cbn [fst snd length] in *.
  apply runs_bind. eapply runs_mono; [by apply IH; [..|lia]|]. intros rs' s4 Hs4 [-> E4].
  apply runs_ret; [done|]. split; [|done]. by injection Hr as <-.
Qed.

Lemma parseredirs_sound s :
  (s <= es)%nat ->
  runs false (parseredirs buf) s (fun rs s' => exists ts, tokens s = ts ++ tokens s' /\ args ts [] rs).
Proof.
  intros Hs. apply runs_bind, runs_get; [done|]. apply redirs_sound; [done|].
  pose proof (tokens_length s Hs). lia.
Qed.
Lemma parseredirs_complete s ts rs rest :
  args ts [] rs -> (s <= es)%nat -> tokens s = ts ++ rest -> starts [60; 62] rest = false ->
  runs true (parseredirs buf) s (fun rs' s' => rs' = rs /\ tokens s' = rest).
Proof.
  intros Ha Hs E Hst. apply runs_bind, runs_get; [done|]. apply (redirs_complete _ _ ts); try done.
  pose proof (tokens_length s Hs) as H. rewrite E, length_app in H. lia.
Qed.

Lemma args_app ts1 ts2 ws1 ws2 rs1 rs2 :
  args ts1 ws1 rs1 -> args ts2 ws2 rs2 -> args (ts1 ++ ts2) (ws1 ++ ws2) (rs1 ++ rs2).
Proof. induction 1; intros; cbn; [done|constructor; auto..]. Qed.

(** The redirections before the first word. *)
Lemma args_split ts ws rs :
  args ts ws rs ->
  exists ts1 ts2 rs1 rs2, ts = ts1 ++ ts2 /\ rs = rs1 ++ rs2 /\ args ts1 [] rs1 /\
    ((ts2 = [] /\ ws = [] /\ rs2 = []) \/
     exists x ts3 ws', ts2 = (97, x) :: ts3 /\ ws = x :: ws' /\ args ts3 ws' rs2).
Proof.
  induction 1 as [|x ts ws rs Ha IH|d y x r ts ws rs Hr Ha IH].
  - exists [], [], [], []. by repeat split; [constructor|left].
  - exists [], ((97, x) :: ts), [], rs. repeat split; [constructor|right]. by exists x, ts, ws.
  - destruct IH as (ts1 & ts2 & rs1 & rs2 & -> & -> & H1 & H2).
    exists ((d, y) :: (97, x) :: ts1), ts2, (r :: rs1), rs2. repeat split; [|done]. by constructor.
Qed.

Lemma exec_sound fuel s argv rs0 :
  (s <= es)%nat -> (length (tokens s) < fuel)%nat -> (length argv < MAXARGS)%nat ->
  runs false (exec_loop buf fuel argv rs0) s (fun c s' => exists ts ws rs,
    tokens s = ts ++ tokens s' /\ args ts ws rs /\ c = wrap (EXEC (argv ++ ws)) (rs0 ++ rs) /\
    (length (argv ++ ws) < MAXARGS)%nat).
Proof.
  revert s argv rs0. induction fuel as [|fuel IH]; intros s argv rs0 Hs Hf Hl; [lia|]. cbn [exec_loop].
  apply runs_bind, runs_peek; [done|apply stops_sub|]. intros s1 Hs1 E1.
  assert (forall s', (s' <= es)%nat -> tokens s' = tokens s ->
    runs false (ret (wrap (EXEC argv) rs0)) s' (fun c s' => exists ts ws rs,
      tokens s = ts ++ tokens s' /\ args ts ws rs /\ c = wrap (EXEC (argv ++ ws)) (rs0 ++ rs) /\
      (length (argv ++ ws) < MAXARGS)%nat)) as Hend.
  { intros s' Hs' E'. apply runs_ret; [done|]. exists [], [], []. rewrite !app_nil_r. by repeat split; [|constructor|]. }
  case_match; [by apply Hend|].
  destruct (tokens s) as [|[t x] ts].
  { apply runs_bind, (runs_gettoken_end _ _ _ Hs1 E1). intros y s2 Hs2 E2. by apply Hend. }
  apply runs_bind, (runs_gettoken _ _ _ _ _ _ Hs1 E1). intros s2 Hs2 E2. cbn [fst snd length] in *.
  destruct (Z.eqb_spec t 0) as [->|]; [by destruct (tokens_eq s1 Hs1); [|injection E1]|].
  destruct (Z.eqb_spec t 97) as [->|]; [|apply runs_panic]. cbn [negb].
  destruct (Nat.leb_spec MAXARGS (length (argv ++ [x]))); [apply runs_panic|].
  apply runs_bind. eapply runs_mono; [by apply parseredirs_sound|]. intros rs' s3 Hs3 (ts' & E3 & Ha).
  assert (length (tokens s3) <= length ts)%nat by (rewrite <- E2, E3, length_app; lia).
  eapply runs_mono; [apply (IH s3 (argv ++ [x]) (rs0 ++ rs')); [done|lia|done]|].
  intros c s4 Hs4 (ts2 & ws & rs & E4 & Ha2 & -> & Hl2).
  exists ((97, x) :: ts' ++ ts2), (x :: ws), (rs' ++ rs). rewrite <- !(assoc_L (++)) in *. cbn [app] in *.
  split; [by rewrite <- (assoc_L (++) ts'), <- E4, <- E3, E2|]. split; [|done].
  constructor. apply (args_app _ _ [] _ _ _ Ha Ha2).
Qed.

(** The tokens that may come after a command. *)
Definition follows (toks : list Z) (rest : list tok) : Prop := rest = [] \/ starts toks rest = true.

Lemma follows_redirs rest : follows [124; 41; 38; 59] rest -> starts [60; 62] rest = false.
Proof.
  intros [->|H]; [done|]. destruct rest as [|[t x] rest]; [done|]. cbn [starts] in *.
  apply bool_decide_eq_true in H. apply bool_decide_eq_false. revert H.
  rewrite !elem_of_cons, elem_of_nil. lia.
Qed.

Lemma exec_complete fuel s argv rs0 ts ws rs rest :
  args ts ws rs -> (ts = [] \/ exists x ts', ts = (97, x) :: ts') ->
  (s <= es)%nat -> tokens s = ts ++ rest -> follows [124; 41; 38; 59] rest ->
  (length ts < fuel)%nat -> (length (argv ++ ws) < MAXARGS)%nat ->
  runs true (exec_loop buf fuel argv rs0) s (fun c s' =>
    c = wrap (EXEC (argv ++ ws)) (rs0 ++ rs) /\ tokens s' = rest).
Proof.
  revert s argv rs0 ts ws rs. induction fuel as [|fuel IH]; intros s argv rs0 ts ws rs Ha Hw Hs E Hfo Hf Hl; [lia|].
  cbn [exec_loop]. apply runs_bind, runs_peek; [done|apply stops_sub|]. intros s1 Hs1 E1. rewrite E in *.
  destruct Hw as [->|(x & ts' & ->)].
  { inversion Ha; subst. cbn [app] in *. rewrite !app_nil_r. destruct Hfo as [-> | ->]; [|by apply runs_ret].
    cbn [starts]. apply runs_bind, (runs_gettoken_end _ _ _ Hs1 E1). intros y s2 Hs2 E2. by apply runs_ret. }
  cbn [app starts] in *. rewrite bool_decide_eq_false_2 by compute_done.
  apply runs_bind, (runs_gettoken _ _ _ _ _ _ Hs1 E1). intros s2 Hs2 E2. cbn [fst snd length] in *.
  inversion Ha as [|? ? ws' ? Ha'|? ? ? ? ? ? ? Hr]; subst; [|done].
  rewrite (cons_middle x argv ws'), (assoc_L (++) argv [x] ws') in Hl |- *. cbn [Z.eqb negb].
  destruct (Nat.leb_spec MAXARGS (length (argv ++ [x]))); [rewrite length_app in Hl; lia|].
  destruct (args_split _ _ _ Ha') as (t1 & t2 & r1 & r2 & -> & -> & A1 & A2).
  rewrite <- (assoc_L (++)) in E2. rewrite length_app in Hf.
  assert (args t2 ws' r2 /\ (t2 = [] \/ exists x ts', t2 = (97, x) :: ts')) as [A3 Hw].
  { destruct A2 as [(-> & -> & ->)|(y & t3 & ws2 & -> & -> & ?)]; split; [constructor|by left|by constructor|].
    right. by exists y, t3. }
  apply runs_bind. eapply runs_mono.
  { apply (parseredirs_complete _ t1 _ _ A1 Hs2 E2). destruct Hw as [->|(y & t3 & ->)]; [by apply follows_redirs|done]. }
  intros rs' s3 Hs3 [-> E3]. rewrite (assoc_L (++) rs0). by eapply IH; eauto with lia.
Qed.

(** ** The grammar's loops and rules *)

Lemma starts_one c ts : c <> 62 -> starts [c] ts = true -> exists x ts', ts = (c, x) :: ts'.
Proof.
  destruct ts as [|[t x] ts]; [done|]. cbn [starts]. rewrite bool_decide_eq_true, list_elem_of_singleton. unfold lead.
  intros Hc. destruct (Z.eqb_spec t 43); intros <-; [done|eauto].
Qed.
Lemma starts_cons c x ts : c <> 43 -> starts [c] ((c, x) :: ts) = true.
Proof.
  intros Hc. cbn [starts]. unfold lead. rewrite (proj2 (Z.eqb_neq c 43)) by done.
  apply bool_decide_eq_true_2, list_elem_of_here.
Qed.

Lemma backs_BACK n c : backs n (BACK c) = backs (S n) c.
Proof. symmetry. apply Nat.iter_succ_r. Qed.

Lemma back_sound fuel s c :
  (s <= es)%nat -> (length (tokens s) < fuel)%nat ->
  runs false (back_loop buf fuel c) s (fun c' s' => exists bs,
    tokens s = bs ++ tokens s' /\ amps bs /\ c' = backs (length bs) c).
Proof.
  revert s c. induction fuel as [|fuel IH]; intros s c Hs Hf; [lia|]. cbn [back_loop].
  apply runs_bind, runs_peek; [done|by apply one_sub; compute_done|]. intros s1 Hs1 E1.
  destruct (starts [38] (tokens s)) eqn:Est.
  - apply starts_one in Est as (x & ts & Es); [|done]. rewrite Es in *. cbn [length] in Hf.
    apply runs_bind, (runs_gettoken _ _ _ _ _ _ Hs1 E1). intros s2 Hs2 E2.
    eapply runs_mono; [apply IH; [done|rewrite E2; lia]|]. intros c' s3 Hs3 (bs & E3 & Hb & ->).
    exists ((38, x) :: bs). rewrite <- E2, E3. split; [done|]. split; [by constructor|]. apply backs_BACK.
  - apply runs_ret; [done|]. exists []. rewrite E1. by split; [|split; [constructor|]].
Qed.

Lemma back_complete fuel s c bs rest :
  amps bs -> (s <= es)%nat -> tokens s = bs ++ rest -> starts [38] rest = false -> (length bs < fuel)%nat ->
  runs true (back_loop buf fuel c) s (fun c' s' => c' = backs (length bs) c /\ tokens s' = rest).
Proof.
  intros Hb. revert fuel s c. induction Hb as [|[t x] bs Ht Hb IH]; intros [|fuel] s c Hs E Hst Hf; try (cbn in Hf; lia);
    cbn [back_loop]; (apply runs_bind, runs_peek; [done|by apply one_sub; compute_done|]);
    intros s1 Hs1 E1; rewrite E in *; cbn [app] in *.
  - rewrite Hst. by apply runs_ret.
  - cbn in Ht, Hf. subst t. rewrite starts_cons by done.
    apply runs_bind, (runs_gettoken _ _ _ _ _ _ Hs1 E1). intros s2 Hs2 E2. cbn [length].
    rewrite <- backs_BACK. by apply IH; [..|lia].
Qed.

Definition yields (n : nonterminal) (s : nat) (c : cmd) (s' : nat) : Prop :=
  exists ts, tokens s = ts ++ tokens s' /\ derives n ts c.

Lemma sound_line fuel :
  (forall s, (s <= es)%nat -> (4 * length (tokens s) + 3 <= fuel)%nat ->
    runs false (parsepipe buf fuel) s (yields Pipeline s)) ->
  (forall s, (s <= es)%nat -> (4 * length (tokens s) + 4 <= fuel)%nat ->
    runs false (parseline buf fuel) s (yields Line s)) ->
  forall s, (s <= es)%nat -> (4 * length (tokens s) + 4 <= S fuel)%nat ->
    runs false (parseline buf (S fuel)) s (yields Line s).
Proof.
  intros Hp Hl s Hs Hf. cbn [parseline].
  apply runs_bind. eapply runs_mono; [apply Hp; [done|lia]|]. intros c s1 Hs1 (ts & E1 & D1).
  apply runs_bind, runs_get; [done|].
  apply runs_bind. eapply runs_mono; [apply back_sound; [done|pose proof (tokens_length s1 Hs1); lia]|].
  intros c' s2 Hs2 (bs & E2 & Hb & ->). rewrite E2 in E1.
  apply runs_bind, runs_peek; [done|by apply one_sub; compute_done|]. intros s3 Hs3 E3.
  destruct (starts [59] (tokens s2)) eqn:Est.
  - apply starts_one in Est as (x & ts' & Es); [|done]. rewrite Es in *.
    apply runs_bind, (runs_gettoken _ _ _ _ _ _ Hs3 E3). intros s4 Hs4 E4.
    assert (length (tokens s) = length ts + (length bs + S (length (tokens s4))))%nat
      by (rewrite E1, E4, !length_app; done).
    apply runs_bind. eapply runs_mono; [apply Hl; [done|lia]|]. intros r s5 Hs5 (ts5 & E5 & D5).
    apply runs_ret; [done|]. exists (ts ++ bs ++ (59, x) :: ts5). split; [|by constructor].
    rewrite E1, <- E4, E5, <- !(assoc_L (++)). done.
  - apply runs_ret; [done|]. exists (ts ++ bs). split; [|by constructor].
    by rewrite E1, E3, (assoc_L (++)).
Qed.

Lemma sound_pipe fuel :
  (forall s, (s <= es)%nat -> (4 * length (tokens s) + 2 <= fuel)%nat ->
    runs false (parseexec buf fuel) s (yields Simple s)) ->
  (forall s, (s <= es)%nat -> (4 * length (tokens s) + 3 <= fuel)%nat ->
    runs false (parsepipe buf fuel) s (yields Pipeline s)) ->
  forall s, (s <= es)%nat -> (4 * length (tokens s) + 3 <= S fuel)%nat ->
    runs false (parsepipe buf (S fuel)) s (yields Pipeline s).
Proof.
  intros He Hp s Hs Hf. cbn [parsepipe].
  apply runs_bind. eapply runs_mono; [apply He; [done|lia]|]. intros c s1 Hs1 (ts & E1 & D1).
  apply runs_bind, runs_peek; [done|by apply one_sub; compute_done|]. intros s3 Hs3 E3.
  destruct (starts [124] (tokens s1)) eqn:Est.
  - apply starts_one in Est as (x & ts' & Es); [|done]. rewrite Es in *.
    apply runs_bind, (runs_gettoken _ _ _ _ _ _ Hs3 E3). intros s4 Hs4 E4.
    assert (length (tokens s) = length ts + S (length (tokens s4)))%nat by (rewrite E1, E4, !length_app; done).
    apply runs_bind. eapply runs_mono; [apply Hp; [done|lia]|]. intros r s5 Hs5 (ts5 & E5 & D5).
    apply runs_ret; [done|]. exists (ts ++ (124, x) :: ts5). split; [|by constructor].
    rewrite E1, <- E4, E5, <- !(assoc_L (++)). done.
  - apply runs_ret; [done|]. exists ts. split; [by rewrite E1, E3|by constructor].
Qed.

Lemma sound_exec fuel :
  (forall s, (s <= es)%nat -> (4 * length (tokens s) + 1 <= fuel)%nat -> starts [40] (tokens s) = true ->
    runs false (parseblock buf fuel) s (yields Simple s)) ->
  forall s, (s <= es)%nat -> (4 * length (tokens s) + 2 <= S fuel)%nat ->
    runs false (parseexec buf (S fuel)) s (yields Simple s).
Proof.
  intros Hb s Hs Hf. cbn [parseexec].
  apply runs_bind, runs_peek; [done|by apply one_sub; compute_done|]. intros s1 Hs1 E1.
  destruct (starts [40] (tokens s)) eqn:Est.
  - unfold yields. rewrite <- E1 in *. apply Hb; [done|lia|done].
  - apply runs_bind. eapply runs_mono; [by apply parseredirs_sound|]. intros rs s2 Hs2 (ts & E2 & A2).
    apply runs_bind, runs_get; [done|].
    eapply runs_mono; [apply exec_sound; [done|pose proof (tokens_length s2 Hs2); lia|cbn; unfold MAXARGS; lia]|].
    intros c s3 Hs3 (ts3 & ws & rs3 & E3 & A3 & -> & Hl). exists (ts ++ ts3).
    split; [by rewrite <- E1, E2, E3, (assoc_L (++))|]. constructor; [|done]. by apply (args_app _ _ [] ws).
Qed.

Lemma sound_block fuel :
  (forall s, (s <= es)%nat -> (4 * length (tokens s) + 4 <= fuel)%nat ->
    runs false (parseline buf fuel) s (yields Line s)) ->
  forall s, (s <= es)%nat -> (4 * length (tokens s) + 1 <= S fuel)%nat -> starts [40] (tokens s) = true ->
    runs false (parseblock buf (S fuel)) s (yields Simple s).
Proof.
  intros Hl s Hs Hf Hst. cbn [parseblock].
  apply runs_bind, runs_peek; [done|by apply one_sub; compute_done|]. intros s1 Hs1 E1. rewrite Hst. cbn [negb].
  apply starts_one in Hst as (x & ts & Es); [|done]. unfold yields. rewrite Es in *. cbn [length] in Hf.
  apply runs_bind, (runs_gettoken _ _ _ _ _ _ Hs1 E1). intros s2 Hs2 E2.
  apply runs_bind. eapply runs_mono; [apply Hl; [done|rewrite E2; lia]|]. intros c s3 Hs3 (ts3 & E3 & D3).
  apply runs_bind, runs_peek; [done|by apply one_sub; compute_done|]. intros s4 Hs4 E4.
  destruct (starts [41] (tokens s3)) eqn:Est; [|apply runs_panic].
  apply starts_one in Est as (y & ts5 & E5); [|done]. rewrite E5 in *. cbn [negb].
  apply runs_bind, (runs_gettoken _ _ _ _ _ _ Hs4 E4). intros s6 Hs6 E6.
  apply runs_bind. eapply runs_mono; [by apply parseredirs_sound|]. intros rs s7 Hs7 (ts7 & E7 & A7).
  apply runs_ret; [done|]. exists ((40, x) :: ts3 ++ (41, y) :: ts7). split; [|by constructor].
  rewrite <- E2, E3, <- E6, E7. cbn [app]. by rewrite <- (assoc_L (++)).
Qed.

Lemma parse_sound fuel :
  (forall s, (s <= es)%nat -> (4 * length (tokens s) + 4 <= fuel)%nat ->
    runs false (parseline buf fuel) s (yields Line s)) /\
  (forall s, (s <= es)%nat -> (4 * length (tokens s) + 3 <= fuel)%nat ->
    runs false (parsepipe buf fuel) s (yields Pipeline s)) /\
  (forall s, (s <= es)%nat -> (4 * length (tokens s) + 2 <= fuel)%nat ->
    runs false (parseexec buf fuel) s (yields Simple s)) /\
  (forall s, (s <= es)%nat -> (4 * length (tokens s) + 1 <= fuel)%nat -> starts [40] (tokens s) = true ->
    runs false (parseblock buf fuel) s (yields Simple s)).
Proof.
  induction fuel as [|fuel (IHl & IHp & IHe & IHb)]; [repeat split; intros; lia|].
  split; [by apply sound_line|]. split; [by apply sound_pipe|]. split; [by apply sound_exec|by apply sound_block].
Qed.

(** What parses a nonterminal, and what may follow it. *)
Definition parser (n : nonterminal) : nat -> M nat cmd :=
  match n with Line => parseline buf | Pipeline => parsepipe buf | Simple => parseexec buf end.
Definition follow (n : nonterminal) : list Z :=
  match n with Line => [41] | Pipeline => [41; 38; 59] | Simple => [124; 41; 38; 59] end.
Definition needs (n : nonterminal) : nat := match n with Line => 4 | Pipeline => 3 | Simple => 2 end.

Definition recognises (n : nonterminal) (ts : list tok) (c : cmd) : Prop :=
  forall fuel s rest, (s <= es)%nat -> tokens s = ts ++ rest -> follows (follow n) rest ->
    (4 * length ts + needs n <= fuel)%nat ->
    runs true (parser n fuel) s (fun c' s' => c' = c /\ tokens s' = rest).

Lemma follows_sub l l' rest : l ⊆ l' -> follows l rest -> follows l' rest.
Proof.
  intros Hl [->|H]; [by left|right]. destruct rest as [|[t x] rest]; [done|]. cbn [starts] in *.
  apply bool_decide_eq_true in H. apply bool_decide_eq_true. auto.
Qed.
Lemma follows_not l c rest : c ∉ l -> follows l rest -> starts [c] rest = false.
Proof.
  intros Hl [->|H]; [done|]. destruct rest as [|[t x] rest]; [done|]. cbn [starts] in *.
  apply bool_decide_eq_true in H. apply bool_decide_eq_false. intros E%list_elem_of_singleton.
  by rewrite E in H.
Qed.
Lemma follows_cons l t x rest : lead t ∈ l -> follows l ((t, x) :: rest).
Proof. intros H. right. by apply bool_decide_eq_true. Qed.

Lemma amps_follow bs rest : amps bs -> follows [41; 38; 59] rest -> follows [41; 38; 59] (bs ++ rest).
Proof. intros [|[t x] bs' Ht _]; cbn; [done|]. cbn in Ht. subst t. intros _. apply follows_cons. compute_done. Qed.

(** Pipeline &* *)
Lemma complete_backs ts c bs fuel s rest {A} (k : cmd -> M nat A) Q :
  recognises Pipeline ts c -> amps bs -> (s <= es)%nat -> tokens s = ts ++ bs ++ rest ->
  follows [41; 59] rest -> (4 * length ts + 3 <= fuel)%nat ->
  (forall s', (s' <= es)%nat -> tokens s' = rest -> runs true (k (backs (length bs) c)) s' Q) ->
  runs true (c <- parsepipe buf fuel ;; s <- get (fun s => s) ;; c <- back_loop buf (S (es - s)) c ;; k c) s Q.
Proof.
  intros Hp Hb Hs E Hfo Hf H. apply runs_bind. eapply runs_mono.
  { apply (Hp fuel s (bs ++ rest)); [done..| |done]. apply amps_follow; [done|].
    revert Hfo. apply follows_sub. intros x. rewrite !elem_of_cons. tauto. }
  intros c' s1 Hs1 [-> E1]. apply runs_bind, runs_get; [done|]. apply runs_bind. eapply runs_mono.
  { apply (back_complete _ _ _ bs rest); [done..| |].
    - apply (follows_not [41; 59]); [compute_done|done].
    - pose proof (tokens_length s1 Hs1) as Hl. rewrite E1, length_app in Hl. lia. }
  intros c' s2 Hs2 [-> E2]. by apply H.
Qed.

Lemma complete_line ts c bs : recognises Pipeline ts c -> amps bs -> recognises Line (ts ++ bs) (backs (length bs) c).
Proof.
  intros Hp Hb [|fuel] s rest Hs E Hfo Hf; cbn [needs parser follow] in *; [lia|]. rewrite length_app in Hf.
  rewrite <- (assoc_L (++)) in E. eapply complete_backs; [done..| |lia|].
  { revert Hfo. apply follows_sub. intros x. rewrite !elem_of_cons. tauto. }
  intros s1 Hs1 E1. apply runs_bind, runs_peek; [done|by apply one_sub; compute_done|]. intros s2 Hs2 E2.
  rewrite E1 in *. rewrite (follows_not [41]) by (done || compute_done). by apply runs_ret.
Qed.

Lemma complete_list ts c bs x ts' c' :
  recognises Pipeline ts c -> amps bs -> recognises Line ts' c' ->
  recognises Line (ts ++ bs ++ (59, x) :: ts') (LIST (backs (length bs) c) c').
Proof.
  intros Hp Hb Hl [|fuel] s rest Hs E Hfo Hf; cbn [needs parser follow] in *; [lia|].
  rewrite !length_app in Hf. cbn [length] in Hf.
  rewrite <- !(assoc_L (++)) in E. cbn [app] in E. eapply complete_backs; [done..| |lia|].
  { apply follows_cons. compute_done. }
  intros s1 Hs1 E1. apply runs_bind, runs_peek; [done|by apply one_sub; compute_done|]. intros s2 Hs2 E2.
  rewrite E1 in *. rewrite starts_cons by done.
  apply runs_bind, (runs_gettoken _ _ _ _ _ _ Hs2 E2). intros s3 Hs3 E3.
  apply runs_bind. eapply runs_mono; [apply (Hl fuel s3 rest); cbn [needs]; [done..|lia]|].
  intros r s4 Hs4 [-> E4]. by apply runs_ret.
Qed.

Lemma complete_simple ts c : recognises Simple ts c -> recognises Pipeline ts c.
Proof.
  intros Hp [|fuel] s rest Hs E Hfo Hf; cbn [needs parser follow] in *; [lia|]. cbn [parsepipe].
  apply runs_bind. eapply runs_mono; [apply (Hp fuel s rest); cbn [needs]; [done..| |lia]|].
  { revert Hfo. apply follows_sub. intros y. cbn [follow]. rewrite !elem_of_cons. tauto. }
  intros c' s1 Hs1 [-> E1]. apply runs_bind, runs_peek; [done|by apply one_sub; compute_done|]. intros s2 Hs2 E2.
  rewrite E1 in *. rewrite (follows_not [41; 38; 59]) by (done || compute_done). by apply runs_ret.
Qed.

Lemma complete_pipe ts c x ts' c' :
  recognises Simple ts c -> recognises Pipeline ts' c' -> recognises Pipeline (ts ++ (124, x) :: ts') (PIPE c c').
Proof.
  intros Hs' Hp [|fuel] s rest Hs E Hfo Hf; cbn [needs parser follow] in *; [lia|]. cbn [parsepipe].
  rewrite !length_app in Hf. cbn [length] in Hf. rewrite <- !(assoc_L (++)) in E. cbn [app] in E.
  apply runs_bind. eapply runs_mono; [apply (Hs' fuel s _ Hs E); cbn [needs]; [|lia]|].
  { apply follows_cons. compute_done. }
  intros c1 s1 Hs1 [-> E1]. apply runs_bind, runs_peek; [done|by apply one_sub; compute_done|]. intros s2 Hs2 E2.
  rewrite E1 in *. rewrite starts_cons by done.
  apply runs_bind, (runs_gettoken _ _ _ _ _ _ Hs2 E2). intros s3 Hs3 E3.
  apply runs_bind. eapply runs_mono; [apply (Hp fuel s3 rest); cbn [needs]; [done..|lia]|].
  intros r s4 Hs4 [-> E4]. by apply runs_ret.
Qed.

Lemma args_no_block ts ws rs rest :
  args ts ws rs -> follows [124; 41; 38; 59] rest -> starts [40] (ts ++ rest) = false.
Proof.
  intros [|x ts' ws' rs' _|d y x r ts' ws' rs' Hr _] Hfo; cbn [app].
  - apply (follows_not [124; 41; 38; 59]); [compute_done|done].
  - done.
  - rewrite redir_of_lead in Hr. cbn [starts]. case_bool_decide as Hd; [|done].
    apply bool_decide_eq_false_2. revert Hd. rewrite !elem_of_cons, elem_of_nil. lia.
Qed.

Lemma complete_exec ts ws rs :
  args ts ws rs -> (length ws < MAXARGS)%nat -> recognises Simple ts (wrap (EXEC ws) rs).
Proof.
  intros Ha Hw [|fuel] s rest Hs E Hfo Hf; cbn [needs parser follow] in *; [lia|]. cbn [parseexec].
  apply runs_bind, runs_peek; [done|by apply one_sub; compute_done|]. intros s1 Hs1 E1.
  rewrite E in *. rewrite (args_no_block _ ws rs) by done.
  destruct (args_split _ _ _ Ha) as (t1 & t2 & r1 & r2 & -> & -> & A1 & A2).
  assert (args t2 ws r2 /\ (t2 = [] \/ exists x ts', t2 = (97, x) :: ts')) as [A3 Ht].
  { destruct A2 as [(-> & -> & ->)|(y & t3 & ws2 & -> & -> & ?)]; split; [constructor|by left|by constructor|].
    right. by exists y, t3. }
  rewrite <- (assoc_L (++)) in E1. apply runs_bind. eapply runs_mono.
  { apply (parseredirs_complete _ t1 _ _ A1 Hs1 E1). destruct Ht as [->|(y & t3 & ->)]; [by apply follows_redirs|done]. }
  intros rs' s2 Hs2 [-> E2]. apply runs_bind, runs_get; [done|].
  apply (exec_complete _ _ [] _ _ _ _ _ A3 Ht Hs2 E2 Hfo); [|done].
  pose proof (tokens_length s2 Hs2) as Hl. rewrite E2, length_app in Hl. lia.
Qed.

Lemma complete_block x ts c y ts' rs :
  recognises Line ts c -> args ts' [] rs -> recognises Simple ((40, x) :: ts ++ (41, y) :: ts') (wrap c rs).
Proof.
  intros Hl Ha [|[|fuel]] s rest Hs E Hfo Hf; cbn [needs parser follow length] in *; [lia..|].
  cbn [parseexec parseblock]. rewrite length_app in Hf. cbn [length] in Hf.
  cbn [app] in E. rewrite <- (assoc_L (++)) in E. cbn [app] in E.
  apply runs_bind, runs_peek; [done|by apply one_sub; compute_done|]. intros s1 Hs1 E1.
  rewrite E in *. rewrite starts_cons by done.
  apply runs_bind, runs_peek; [done|by apply one_sub; compute_done|]. intros s2 Hs2 E2.
  rewrite E1 in *. rewrite starts_cons by done. cbn [negb].
  apply runs_bind, (runs_gettoken _ _ _ _ _ _ Hs2 E2). intros s3 Hs3 E3.
  apply runs_bind. eapply runs_mono; [apply (Hl fuel s3 _ Hs3 E3); cbn [needs]; [|lia]|].
  { apply follows_cons. compute_done. }
  intros c' s4 Hs4 [-> E4]. apply runs_bind, runs_peek; [done|by apply one_sub; compute_done|]. intros s5 Hs5 E5.
  rewrite E4 in *. rewrite starts_cons by done. cbn [negb].
  apply runs_bind, (runs_gettoken _ _ _ _ _ _ Hs5 E5). intros s6 Hs6 E6.
  apply runs_bind. eapply runs_mono; [apply (parseredirs_complete _ ts' _ _ Ha Hs6 E6), follows_redirs, Hfo|].
  intros rs' s7 Hs7 [-> E7]. by apply runs_ret.
Qed.

Lemma parse_complete n ts c : derives n ts c -> recognises n ts c.
Proof.
  induction 1; eauto using complete_line, complete_list, complete_simple, complete_pipe, complete_exec, complete_block.
Qed.

(** ** Lines *)

Lemma tokens_end s : (s <= es)%nat -> tokens s = [] <-> skip buf is_ws s = es.
Proof. intros Hs. destruct (tokens_eq s Hs); split; try done. lia. Qed.

Lemma eputs_Ok l s : eputs l s = Ok tt s (EPutc <$> l).
Proof. unfold eputs. induction l as [|c l IH]; [done|]. cbn [for_all]. unfold bind. cbn [emit]. by rewrite IH. Qed.

Lemma parsecmd_run s0 :
  match parsecmd buf s0 with
  | Ok (c, buf') _ _ => derives Line (tokens 0) c /\ buf' = nulterminate c buf
  | Panic _ _ _ => True
  | _ => False
  end.
Proof.
  pose proof (tokens_length 0 (Nat.le_0_l _)) as Hl.
  pose proof (proj1 (parse_sound (parse_fuel buf 0)) 0%nat (Nat.le_0_l _)) as H.
  unfold parse_fuel in H at 1. specialize (H ltac:(lia)).
  unfold parsecmd, bind at 1, modify. cbn [after]. unfold runs in H. unfold bind at 1.
  destruct (parseline buf (parse_fuel buf 0) 0%nat) as [c s t| | | |]; try done.
  destruct H as (-> & Hs & ts & E & D). unfold peek, bind, modify, get, ret, after. cbn -[eputs skip negb].
  destruct (Nat.eqb_spec (skip buf is_ws s) es) as [He|He]; cbn [negb].
  - split; [|done]. apply (tokens_end s Hs) in He. by rewrite E, He, app_nil_r.
  - by rewrite eputs_Ok.
Qed.

Lemma parsecmd_accepts s0 c :
  derives Line (tokens 0) c -> exists s, parsecmd buf s0 = Ok (c, nulterminate c buf) s [].
Proof.
  intros D. pose proof (tokens_length 0 (Nat.le_0_l _)) as Hl.
  pose proof (parse_complete _ _ _ D (parse_fuel buf 0) 0%nat [] (Nat.le_0_l _)) as H. rewrite app_nil_r in H.
  unfold parse_fuel in H at 1. specialize (H eq_refl (or_introl eq_refl) ltac:(cbn [needs]; lia)).
  unfold parsecmd, bind at 1, modify. cbn [after]. cbn [parser] in H. unfold runs in H. unfold bind at 1.
  destruct (parseline buf (parse_fuel buf 0) 0%nat) as [c' s t| | | |]; try done.
  destruct H as (-> & Hs & -> & E). apply (tokens_end s Hs) in E.
  unfold peek, bind, modify, get, ret, after. cbn. rewrite E, Nat.eqb_refl. cbn [negb]. by eexists.
Qed.

End Line.

(** ** Words *)

Fixpoint spans (c : cmd) : list span :=
  match c with
  | EXEC argv => argv
  | REDIR c r => spans c ++ [rd_file r]
  | PIPE l r | LIST l r => spans l ++ spans r
  | BACK c => spans c
  end.

Lemma spans_wrap c rs : spans (wrap c rs) = spans c ++ (rd_file <$> rs).
Proof.
  unfold wrap. revert c. induction rs as [|r rs IH]; intros c; cbn [foldl fmap list_fmap]; [by rewrite app_nil_r|].
  rewrite IH. cbn [spans]. by rewrite <- (assoc_L (++)).
Qed.
Lemma spans_backs n c : spans (backs n c) = spans c.
Proof. by induction n. Qed.

Lemma args_spans ts ws rs x : args ts ws rs -> x ∈ ws ++ (rd_file <$> rs) -> (97, x) ∈ ts.
Proof.
  induction 1 as [|y ts ws rs Ha IH|d z y r ts ws rs Hr Ha IH]; cbn; [by intros ?%elem_of_nil|..].
  - rewrite !elem_of_cons. intros [->|?]; auto.
  - assert (rd_file r = y) as <- by (unfold redir_of in Hr; repeat case_match; by simplify_eq).
    rewrite elem_of_app, !elem_of_cons in *. intuition congruence.
Qed.

Lemma derives_spans n ts c x : derives n ts c -> x ∈ spans c -> (97, x) ∈ ts.
Proof.
  induction 1 as [ts c bs _ IH _|ts c bs y ts' c' _ IH1 _ _ IH2|ts c _ IH|ts c y ts' c' _ IH1 _ IH2
    |ts ws rs Ha _|y ts c z ts' rs _ IH Ha];
    cbn [spans]; rewrite ?spans_wrap, ?spans_backs, ?elem_of_app, ?elem_of_cons, ?elem_of_app, ?elem_of_cons; intros Hx.
  - auto.
  - destruct Hx as [Hx|Hx]; auto.
  - auto.
  - destruct Hx as [Hx|Hx]; auto.
  - eapply args_spans; [done|]. by apply elem_of_app.
  - destruct Hx as [Hx|Hx]; [auto|]. do 3 right. by eapply args_spans.
Qed.

(** The writes of [nulterminate] fall on ends of words. *)
Lemma chr_insert buf i j v : chr (<[i := v]> buf) j = if decide (i = j) then (if decide (j < length buf)%nat then v else 0) else chr buf j.
Proof.
  unfold chr. rewrite !nth_lookup. destruct (decide (i = j)) as [->|Hij].
  - destruct (decide (j < length buf)%nat).
    + by rewrite list_lookup_insert_eq.
    + by rewrite lookup_ge_None_2 by (rewrite length_insert; lia).
  - by rewrite list_lookup_insert_ne.
Qed.

Lemma nulterminate_chr c buf j :
  chr (nulterminate c buf) j = if decide (j ∈ (sp_end <$> spans c)) then 0 else chr buf j.
Proof.
  assert (forall xs buf, chr (foldl nul buf xs) j = if decide (j ∈ (sp_end <$> xs)) then 0 else chr buf j) as Hf.
  { clear. induction xs as [|x xs IH]; intros buf; cbn [foldl fmap list_fmap]; [done|]. rewrite IH. unfold nul.
    rewrite chr_insert. repeat case_decide; rewrite ?elem_of_cons in *; naive_solver. }
  revert buf. induction c as [argv|c IH r|l IHl r IHr|l IHl r IHr|c IH]; intros buf; cbn [nulterminate spans].
  - apply Hf.
  - unfold nul. rewrite chr_insert, IH, fmap_app. cbn [fmap list_fmap].
    repeat case_decide; rewrite ?elem_of_app, ?list_elem_of_singleton in *; naive_solver.
  - rewrite IHr, IHl, fmap_app. repeat case_decide; rewrite ?elem_of_app in *; naive_solver.
  - rewrite IHr, IHl, fmap_app. repeat case_decide; rewrite ?elem_of_app in *; naive_solver.
  - apply IH.
Qed.

Lemma strlen_chr l n : (forall i, (i < n)%nat -> chr l i <> 0) -> chr l n = 0 -> strlen l = n.
Proof.
  revert n. induction l as [|c l IH]; intros [|n] Hi Hn; cbn [strlen]; [done|by destruct (Hi 0%nat); [lia|]|..].
  - cbn in Hn. by subst c.
  - assert (c <> 0) as Hc by (apply (Hi 0%nat); lia). unfold ctrue. rewrite (proj2 (Z.eqb_neq c 0)) by done.
    cbn [negb]. f_equal. apply IH; [|done]. intros i Hil. apply (Hi (S i)). lia.
Qed.

(** Bytes of [l] that are not NUL, read where [l'] agrees, then a NUL. *)
Lemma cstr_slice (l l' : list Z) a n :
  (forall i, (i < n)%nat -> chr l (a + i) <> 0 /\ chr l' (a + i) = chr l (a + i)) -> chr l' (a + n) = 0 ->
  cstr (drop a l') = bytes_at a n l.
Proof.
  intros H H0. assert (forall l i, chr (drop a l) i = chr l (a + i)) as Hd.
  { intros. unfold chr. by rewrite !nth_lookup, lookup_drop. }
  unfold cstr. rewrite (strlen_chr _ n).
  - unfold bytes_at. apply list_eq. intros i. destruct (decide (i < n)%nat) as [Hi|Hi].
    + rewrite !lookup_take_lt by done. rewrite !lookup_drop. destruct (H i Hi) as [Hn E].
      unfold chr in Hn, E. rewrite !nth_lookup in *.
      destruct (l !! (a + i)%nat), (l' !! (a + i)%nat); cbn in *; congruence.
    + by rewrite !lookup_take_ge by lia.
  - intros i Hi. rewrite Hd. destruct (H i Hi) as [? ->]. done.
  - by rewrite Hd.
Qed.

Lemma nulterminate_words buf c x :
  (forall y, y ∈ spans c -> is_word buf y) -> x ∈ spans c ->
  word_at (nulterminate c buf) x = bytes_at (sp_start x) (sp_end x - sp_start x) buf.
Proof.
  intros Hw Hx. destruct (Hw x Hx) as (Hb & Hp & He). apply cstr_slice.
  - intros i Hi. destruct (Hp (sp_start x + i)%nat) as [Hpl Hn]; [lia|]. split; [done|].
    rewrite nulterminate_chr. case_decide as Hin; [|done]. exfalso.
    apply list_elem_of_fmap in Hin as (y & Ey & Hy). destruct (Hw y Hy) as (_ & _ & [H0|H0]).
    + by rewrite <- Ey in H0.
    + rewrite <- Ey in H0. congruence.
  - replace (sp_start x + (sp_end x - sp_start x))%nat with (sp_end x) by lia.
    rewrite nulterminate_chr. case_decide as Hin; [done|]. destruct Hin. apply list_elem_of_fmap. by exists x.
Qed.

(** ** The parser *)

(** C18: on every line parsecmd either returns a command or calls panic: its
    loops and recursion end.  When it returns, every argument and file name of
    the command is a maximal run of characters that are neither blanks nor
    operators, and after nulterminate the C string it points to is exactly that
    run: no NUL is stored inside another word. *)
Theorem parsecmd_words buf s0 :
  match parsecmd buf s0 with
  | Ok (c, buf') _ _ => forall x, x ∈ spans c ->
      is_word buf x /\ word_at buf' x = bytes_at (sp_start x) (sp_end x - sp_start x) buf
  | Panic _ _ _ => True
  | _ => False
  end.
Proof.
  pose proof (parsecmd_run buf s0) as H. destruct (parsecmd buf s0) as [[c buf'] s t| | | |]; try done.
  destruct H as [D ->]. assert (forall y, y ∈ spans c -> is_word buf y) as Hw.
  { intros y Hy. eapply derives_spans in D; [|done].
    exact (proj1 (Forall_forall _ _) (tokens_words buf 0 (Nat.le_0_l _)) _ D eq_refl). }
  intros x Hx. split; [auto|by apply nulterminate_words].
Qed.

(** C15: parsecmd returns a command exactly when the shell's grammar derives it
    from the tokens of the line: the recursive descent with its lookahead on
    raw characters, its loops and its in-place redirections decides the
    grammar and builds its tree. *)
Theorem parsecmd_grammar buf c s0 :
  (exists buf' s t, parsecmd buf s0 = Ok (c, buf') s t) <-> derives Line (tokens buf 0) c.
Proof.
  split.
  - intros (buf' & s & t & E). pose proof (parsecmd_run buf s0) as H. rewrite E in H. apply H.
  - intros D. destruct (parsecmd_accepts buf s0 c D) as [s E]. eauto.
Qed.
