(* ===== verification/ShRun.v ===== *)
(** * What the shell runs

    The processes a command line starts, followed through every fork on a
    kernel whose calls succeed, each with its own table of descriptors.  The
    programs they exec, and the descriptors those programs inherit, are the
    ones the command asks for: each end of a pipe reaches one program only, so
    that closing it is the end of the file for the other side. *)

From Stdlib Require Import ZArith Lia.
From stdpp Require Import base list strings.
From S2P Require Import Prelude CString Printf Ulib Sh ShFacts.
Local Open Scope user_scope.

(** ** Processes and descriptors *)

(** What a descriptor refers to: something the shell was given, a file it
    opened, an end of the [n]-th pipe. *)
Inductive obj := OGiven (n : nat) | OFile (path : list Z) (mode : Z) | ORd (n : nat) | OWr (n : nat).

Notation fdtable := (list (option obj)).

(** The lowest free descriptor, as fdalloc() of kernel/sysfile.c finds it. *)
Fixpoint free_fd (t : fdtable) : option nat :=
  match t with
  | [] => None
  | None :: _ => Some 0%nat
  | Some _ :: t' => S <$> free_fd t'
  end.

Definition install (o : obj) (t : fdtable) : Z * fdtable :=
  match free_fd t with Some fd => (Z.of_nat fd, <[fd := Some o]> t) | None => (-1, t) end.

(** A program exec'ed: its path, arguments and descriptors. *)
Record started := Started { st_path : list Z; st_argv : list (list Z); st_fds : fdtable }.

(** Every program that [p], or a process it forks, execs; [n] pipes were made
    before.  A child's programs come before those of the rest of its parent. *)
Fixpoint execs (p : uprog unit) (t : fdtable) (n : nat) : list started * nat :=
  match p with
  | USys c k =>
      match c with
      | Cfork =>
          let '(l, n) := execs (k 0 []) t n in
          let '(l', n) := execs (k 1 []) t n in
          (l ++ l', n)
      | Cexec path argv => ([Started path argv t], n)
      | Cclose fd => execs (k 0 []) (<[Z.to_nat fd := None]> t) n
      | Cdup fd =>
          match t !! Z.to_nat fd with
          | Some (Some o) => let '(fd, t) := install o t in execs (k fd []) t n
          | _ => execs (k (-1) []) t n
          end
      | Copen path mode => let '(fd, t) := install (OFile path mode) t in execs (k fd []) t n
      | Cpipe =>
          let '(fd0, t) := install (ORd n) t in
          let '(fd1, t) := install (OWr n) t in
          execs (k 0 (le_bytes 4 fd0 ++ le_bytes 4 fd1)) t (S n)
      | _ => execs (k 0 []) t n
      end
  | _ => ([], n)
  end.

(** ** The meaning of a command *)

(** Standard input, output and error, and nothing else. *)
Definition table (i o e : obj) : fdtable := [Some i; Some o; Some e] ++ replicate 13 None.

Section Wiring.
Context (buf : list Z) (e : obj).

Fixpoint wiring (c : cmd) (i o : obj) (n : nat) : list started * nat :=
  match c with
  | EXEC [] => ([], n)
  | EXEC (a :: _ as argv) => ([Started (word_at buf a) (word_at buf <$> argv) (table i o e)], n)
  | REDIR c r =>
      let f := OFile (word_at buf (rd_file r)) (rd_mode r) in
      if rd_fd r =? 0 then wiring c f o n else wiring c i f n
  | LIST l r =>
      let '(ls, n) := wiring l i o n in
      let '(rs, n) := wiring r i o n in
      (ls ++ rs, n)
  | PIPE l r =>
      let '(ls, m) := wiring l i (OWr n) (S n) in
      let '(rs, m) := wiring r (ORd n) o m in
      (ls ++ rs, m)
  | BACK c => wiring c i o n
  end.
End Wiring.

(** ** Programs that do not return *)

Fixpoint no_return {A} (p : uprog A) : Prop :=
  match p with
  | URet _ => False
  | USys _ k => forall r bs, no_return (k r bs)
  | _ => True
  end.

Lemma no_return_bind {A B} (p : uprog A) (f : A -> uprog B) : (forall a, no_return (f a)) -> no_return (ubind p f).
Proof. intros Hf. induction p; cbn; auto. Qed.

Lemma no_return_left {A B} (p : uprog A) (f : A -> uprog B) : no_return p -> no_return (ubind p f).
Proof. induction p; cbn; auto; done. Qed.

Lemma execs_no_return (p : uprog unit) f t n : no_return p -> execs (ubind p f) t n = execs p t n.
Proof.
  revert t n. induction p as [a| | | |c k IH]; intros t n Hp; cbn in *; try done.
  destruct c; try (by apply IH); try done.
  - rewrite IH by apply Hp. destruct (execs (k 0 []) t n) as [l m]. by rewrite IH by apply Hp.
  - destruct (install _ t) as [a t1], (install _ t1) as [b t2]. by apply IH.
  - destruct (t !! _) as [[o|]|]; [|by apply IH..]. destruct (install o t) as [a t1]. by apply IH.
  - destruct (install _ t) as [a t1]. by apply IH.
Qed.

Lemma runcmd_no_return buf c : no_return (runcmd buf c).
Proof.
  induction c as [[|a argv]|c IH r|l IHl r IHr|l IHl r IHr|c IH]; cbn [runcmd]; [done|..];
    repeat first [done | case_match | apply no_return_bind; intros].
Qed.

(** ** Redirections of parsed commands *)

Fixpoint redirs_ok (c : cmd) : Prop :=
  match c with
  | EXEC _ => True
  | REDIR c r => (rd_fd r = 0 \/ rd_fd r = 1) /\ redirs_ok c
  | PIPE l r | LIST l r => redirs_ok l /\ redirs_ok r
  | BACK c => redirs_ok c
  end.

Lemma wrap_redirs_ok ts ws rs c : args ts ws rs -> redirs_ok c -> redirs_ok (wrap c rs).
Proof.
  intros Ha. revert c. induction Ha as [|x ts ws rs Ha IH|d y x r ts ws rs Hr Ha IH]; intros c Hc; [done|auto|].
  apply (IH (REDIR c r)). split; [|done]. unfold redir_of in Hr. repeat case_match; simplify_eq; auto.
Qed.

Lemma derives_redirs_ok k ts c : derives k ts c -> redirs_ok c.
Proof.
  assert (forall n c, redirs_ok c -> redirs_ok (backs n c)) as Hb by (intros n; by induction n).
  induction 1; cbn [redirs_ok]; auto; [by eapply wrap_redirs_ok..].
Qed.

(** ** The processes of a line *)

Section Calls.
Context (t : fdtable) (n : nat).

Lemma execs_close fd (p : uprog unit) : execs (sys (Cclose fd) ;;; p) t n = execs p (<[Z.to_nat fd := None]> t) n.
Proof. done. Qed.
Lemma execs_wait (p : uprog unit) : execs (sys Cwait ;;; p) t n = execs p t n.
Proof. done. Qed.
Lemma execs_open path mode (k : Z -> uprog unit) :
  execs (fd <- sys (Copen path mode) ;; k fd) t n =
  let '(fd, t') := install (OFile path mode) t in execs (k fd) t' n.
Proof. done. Qed.
Lemma execs_dup fd o (p : uprog unit) :
  t !! Z.to_nat fd = Some (Some o) -> execs (sys (Cdup fd) ;;; p) t n = execs p (snd (install o t)) n.
Proof. cbn. intros ->. by destruct (install o t). Qed.
Lemma execs_fork (k : Z -> uprog unit) :
  execs (pid <- fork1 ;; k pid) t n =
  let '(l, m) := execs (k 0) t n in let '(l', m) := execs (k 1) t m in (l ++ l', m).
Proof. done. Qed.
End Calls.

(** The table once a pipe is made. *)
Definition piped (i o e : option obj) (a b : option obj) : fdtable := [i; o; e; a; b] ++ replicate 11 None.

Lemma execs_pipe (k : Z * list Z -> uprog unit) i o e n :
  execs (p <- sys_bytes Cpipe ;; k p) (table i o e) n =
  execs (k (0, le_bytes 4 3 ++ le_bytes 4 4)) (piped (Some i) (Some o) (Some e) (Some (ORd n)) (Some (OWr n))) (S n).
Proof. done. Qed.

Lemma ubind_ret {A B} (a : A) (f : A -> uprog B) : ubind (URet a) f = f a.
Proof. done. Qed.

Ltac never_returns := repeat first [apply runcmd_no_return | apply no_return_bind; intros].

Lemma runcmd_pipe buf l r i o e n :
  execs (runcmd buf (PIPE l r)) (table i o e) n =
  let '(ls, m) := execs (runcmd buf l) (table i (OWr n) e) (S n) in
  let '(rs, m) := execs (runcmd buf r) (table (ORd n) o e) m in
  (ls ++ rs, m).
Proof.
  cbn [runcmd]. rewrite execs_pipe. cbn [fst snd Z.ltb Z.compare]. cbv zeta.
  replace (int_at _ 0) with 3 by done. replace (int_at _ 1) with 4 by done.
  rewrite execs_fork. cbn [Z.eqb Pos.eqb]. rewrite execs_no_return, ubind_ret by never_returns.
  rewrite execs_close, (execs_dup _ _ _ (OWr n)), !execs_close by done.
  change (execs (runcmd buf l) _ _) with (execs (runcmd buf l) (table i (OWr n) e) (S n)).
  destruct (execs (runcmd buf l) _ _) as [ls m].
  rewrite execs_fork. cbn [Z.eqb Pos.eqb]. rewrite execs_no_return, ubind_ret by never_returns.
  rewrite execs_close, (execs_dup _ _ _ (ORd n)), !execs_close by done.
  change (execs (runcmd buf r) _ _) with (execs (runcmd buf r) (table (ORd n) o e) m).
  destruct (execs (runcmd buf r) _ _) as [rs m']. rewrite !execs_close, !execs_wait. cbn [execs]. by rewrite app_nil_r.
Qed.

Lemma runcmd_redir buf c r i o e n :
  rd_fd r = 0 \/ rd_fd r = 1 ->
  execs (runcmd buf (REDIR c r)) (table i o e) n =
  let f := OFile (word_at buf (rd_file r)) (rd_mode r) in
  if rd_fd r =? 0 then execs (runcmd buf c) (table f o e) n else execs (runcmd buf c) (table i f e) n.
Proof.
  intros [E | E]; cbn [runcmd]; rewrite E, execs_close, execs_open.
  - change (install _ _) with (0, table (OFile (word_at buf (rd_file r)) (rd_mode r)) o e). cbn [Z.ltb Z.compare].
    apply execs_no_return, runcmd_no_return.
  - change (install _ _) with (1, table i (OFile (word_at buf (rd_file r)) (rd_mode r)) e). cbn [Z.ltb Z.compare].
    apply execs_no_return, runcmd_no_return.
Qed.

Lemma runcmd_execs buf c i o e n :
  redirs_ok c -> execs (runcmd buf c) (table i o e) n = wiring buf e c i o n.
Proof.
  revert i o n. induction c as [[|a argv]|c IH r|l IHl r IHr|l IHl r IHr|c IH]; intros i o n Hok.
  - done.
  - done.
  - destruct Hok as [Hfd Hok]. rewrite runcmd_redir by done. cbn [wiring]. cbv zeta. by rewrite !IH.
  - destruct Hok as [Hl Hr]. rewrite runcmd_pipe, IHl by done. cbn [wiring].
    destruct (wiring buf e l i (OWr n) (S n)) as [ls m]. by rewrite IHr.
  - destruct Hok as [Hl Hr]. cbn [runcmd wiring]. rewrite execs_fork. cbn [Z.eqb Pos.eqb].
    rewrite execs_no_return, ubind_ret, IHl by (done || never_returns).
    destruct (wiring buf e l i o n) as [ls m]. by rewrite execs_wait, execs_no_return, IHr by (done || never_returns).
  - cbn [runcmd wiring]. rewrite execs_fork. cbn [Z.eqb Pos.eqb].
    rewrite execs_no_return, ubind_ret, IH by (done || never_returns).
    destruct (wiring buf e c i o n) as [ls m]. cbn [execs]. by rewrite app_nil_r.
Qed.

