(* ===== verification/Grep.v ===== *)
(** * Searching for a pattern (user/grep.c)

    The matcher against a declarative meaning of patterns, and the reading
    loop: whatever pieces the input comes in, the lines printed are those of
    the input that match, up to the first that does not fit in the buffer. *)

From Stdlib Require Import ZArith Lia.
From stdpp Require Import base list strings.
From S2P Require Import Prelude CString Printf Ulib.
Local Open Scope user_scope.

(** ** The matcher

    Patterns and texts are C strings; the end of the list is the NUL. *)

(** c*re, where [here] matches re. *)
Fixpoint matchstar (here : list Z -> bool) (c : Z) (text : list Z) : bool :=
  if here text then true
  else
    match text with
    | [] => false
    | t :: text' => if (t =? c) || (c =? 46) then matchstar here c text' else false
    end.

Fixpoint matchhere (re text : list Z) : bool :=
  match re with
  | [] => true
  | c :: re' =>
      let rest :=
        if (c =? 36) && match re' with [] => true | _ => false end then
          match text with [] => true | _ => false end
        else
          match text with
          | [] => false
          | t :: text' => if (c =? 46) || (c =? t) then matchhere re' text' else false
          end in
      match re' with
      | [] => rest
      | s :: re'' => if s =? 42 then matchstar (matchhere re'') c text else rest
      end
  end.

(** do if(matchhere(re, text)) return 1; while( *text++ != 0 ) *)
Fixpoint match_from (re text : list Z) : bool :=
  if matchhere re text then true
  else match text with [] => false | _ :: text' => match_from re text' end.

Definition match_re (re text : list Z) : bool :=
  match re with
  | c :: re' => if c =? 94 then matchhere re' text else match_from re text
  | [] => match_from re text
  end.

(** ** The reading loop *)

Definition GBUF : nat := 1024.

(** The inner loop, over the lines of the buffer from [p]. *)
Fixpoint grep_lines (fuel : nat) (pattern buf : list Z) (p : nat) : uprog (list Z * nat) :=
  match fuel with
  | O => UStuck
  | S fuel' =>
      match strchr (drop p buf) 10 with
      | None => URet (buf, p)
      | Some i =>
          let q := (p + i)%nat in
          let buf := <[q := 0]> buf in
          if match_re pattern (cstr (drop p buf)) then
            let buf := <[q := 10]> buf in
            sys (Cwrite 1 (bytes_at p (q + 1 - p) buf)) ;;;
            grep_lines fuel' pattern buf (q + 1)
          else grep_lines fuel' pattern buf (q + 1)
      end
  end.

Fixpoint grep_loop (fuel : nat) (pattern : list Z) (fd : Z) (buf : list Z) (m : nat) : uprog (list Z) :=
  match fuel with
  | O => UStuck
  | S fuel' =>
      r <- sys_bytes (Cread fd (Z.of_nat (GBUF - m - 1))) ;;
      if 0 <? fst r then
        let buf := bytes_put m (snd r) buf in
        let m := (m + Z.to_nat (fst r))%nat in
        let buf := <[m := 0]> buf in
        g <- grep_lines GBUF pattern buf 0 ;;
        let '(buf, p) := g in
        if (0 <? m)%nat then
          let m := (m - p)%nat in
          grep_loop fuel' pattern fd (bytes_put 0 (bytes_at p m buf) buf) m
        else grep_loop fuel' pattern fd buf m
      else URet buf
  end.

(** [buf] is static: the answer is its contents afterwards. *)
Definition grep (fuel : nat) (pattern : list Z) (fd : Z) (buf : list Z) : uprog (list Z) :=
  grep_loop fuel pattern fd buf 0.

Fixpoint grep_files (fuel : nat) (pattern : list Z) (files : list (list Z)) (buf : list Z) : uprog unit :=
  match files with
  | [] => UExit
  | f :: files' =>
      fd <- sys (Copen f 0) ;;
      if fd <? 0 then uprintf (ln "grep: cannot open %s") [AStr (Some f)] ;;; UExit
      else
        buf <- grep fuel pattern fd buf ;;
        sys (Cclose fd) ;;;
        grep_files fuel pattern files' buf
  end.

Definition grep_main (fuel : nat) (argv : list (list Z)) : uprog unit :=
  let buf := replicate GBUF 0 in
  match argv with
  | _ :: pattern :: files =>
      match files with
      | [] => grep fuel pattern 0 buf ;;; UExit
      | _ => grep_files fuel pattern files buf
      end
  | _ => fprintf 2 (ln "usage: grep pattern [file ...]") [] ;;; UExit
  end.

(** ** What patterns mean *)

(** A character of the pattern stands for itself, or for any if it is a dot. *)
Definition stands (c t : Z) : Prop := t = c \/ c = 46.

(** The pattern matches at the start of the text. *)
Inductive accepts : list Z -> list Z -> Prop :=
| acc_nil text : accepts [] text
| acc_star c re u text : Forall (stands c) u -> accepts re text -> accepts (c :: 42 :: re) (u ++ text)
| acc_end : accepts [36] []
| acc_one c re t text :
    hd 0 re <> 42 -> (c :: re) <> [36] -> stands c t -> accepts re text -> accepts (c :: re) (t :: text).

(** A line contains a match; after a caret, it starts with one. *)
Definition line_matches (re line : list Z) : Prop :=
  match re with
  | 94 :: re' => accepts re' line
  | _ => exists u v, line = u ++ v /\ accepts re v
  end.

Lemma matchstar_spec here c text :
  matchstar here c text = true <-> exists u v, text = u ++ v /\ Forall (stands c) u /\ here v = true.
Proof.
  assert (forall t, (t =? c) || (c =? 46) = true <-> stands c t) as Hst.
  { intros t. unfold stands. by rewrite orb_true_iff, !Z.eqb_eq. }
  induction text as [|t text IH]; cbn [matchstar]; destruct (here _) eqn:E.
  - split; [|done]. by exists [], [].
  - split; [done|]. intros ([|] & [|] & ? & _ & ?); simplify_eq/=; congruence.
  - split; [|done]. by exists [], (t :: text).
  - transitivity (stands c t /\ matchstar here c text = true).
    { specialize (Hst t). destruct (_ || _); naive_solver. }
    rewrite IH. split.
    + intros [Ht (u & v & -> & Hu & Hv)]. exists (t :: u), v. split; [done|]. by split; [constructor|].
    + intros ([|t' u] & v & E' & Hu & Hv); simplify_eq/=; [congruence|].
      inversion Hu; subst. split; [done|]. by exists u, v.
Qed.

Lemma matchhere_one c re text :
  hd 0 re <> 42 -> (c :: re) <> [36] ->
  matchhere (c :: re) text =
  match text with [] => false | t :: text' => if (c =? 46) || (c =? t) then matchhere re text' else false end.
Proof.
  intros Hs He. cbn [matchhere]. assert ((c =? 36) && match re with [] => true | _ => false end = false) as ->.
  { destruct re; [|apply andb_false_r]. rewrite andb_true_r. apply Z.eqb_neq. congruence. }
  destruct re as [|s re]; [done|]. cbn in Hs. by rewrite (proj2 (Z.eqb_neq s 42) Hs).
Qed.

Lemma stands_bool c t : (c =? 46) || (c =? t) = true <-> stands c t.
Proof. unfold stands. rewrite orb_true_iff, !Z.eqb_eq. intuition. Qed.

Lemma matchhere_sound re text : accepts re text -> matchhere re text = true.
Proof.
  induction 1 as [|c re u text Hu Ha IH| |c re t text Hs He Ht Ha IH]; [done|..].
  - apply matchstar_spec. by exists u, text.
  - done.
  - rewrite matchhere_one by done. by rewrite (proj2 (stands_bool c t) Ht).
Qed.

Lemma matchhere_complete n re text : (length re <= n)%nat -> matchhere re text = true -> accepts re text.
Proof.
  revert re text. induction n as [|n IH]; intros [|c re] text Hn H; cbn in Hn; [constructor|lia|constructor|].
  destruct (decide (hd 0 re = 42)) as [Hs|Hs].
  { destruct re as [|s re]; [done|]. cbn in Hs, Hn. subst s.
    apply matchstar_spec in H as (u & v & -> & Hu & Hv). constructor; [done|]. apply IH; [lia|done]. }
  destruct (decide ((c :: re) = [36])) as [E|E].
  { injection E as -> ->. destruct text; [constructor|done]. }
  rewrite matchhere_one in H by done. destruct text as [|t text]; [done|].
  destruct (_ || _) eqn:Et; [|done]. apply stands_bool in Et. constructor; auto with lia.
Qed.

Lemma matchhere_spec re text : matchhere re text = true <-> accepts re text.
Proof. split; [by apply (matchhere_complete (length re))|apply matchhere_sound]. Qed.

Lemma match_from_spec re text : match_from re text = true <-> exists u v, text = u ++ v /\ accepts re v.
Proof.
  induction text as [|t text IH]; cbn [match_from]; destruct (matchhere _ _) eqn:E.
  - split; [|done]. exists [], []. split; [done|]. by apply matchhere_spec.
  - split; [done|]. intros ([|] & [|] & ? & H); simplify_eq/=. apply matchhere_spec in H. congruence.
  - split; [|done]. exists [], (t :: text). split; [done|]. by apply matchhere_spec.
  - rewrite IH. split.
    + intros (u & v & -> & H). by exists (t :: u), v.
    + intros ([|t' u] & v & E' & H); simplify_eq/=; [|by exists u, v].
      apply matchhere_spec in H. congruence.
Qed.

Lemma match_re_spec re line : match_re re line = true <-> line_matches re line.
Proof.
  unfold match_re, line_matches. destruct re as [|c re]; [apply match_from_spec|].
  destruct (Z.eqb_spec c 94) as [->|Hc]; [apply matchhere_spec|]. rewrite match_from_spec.
  by repeat (case_match; try done).
Qed.

Instance line_matches_dec re line : Decision (line_matches re line).
Proof.
  refine (match match_re re line as b return (match_re re line = b -> _) with true => _ | false => _ end eq_refl); intros E;
    [left|right]; rewrite <- match_re_spec, E; done.
Defined.

Lemma match_re_decide re line : match_re re line = bool_decide (line_matches re line).
Proof. apply eq_true_iff_eq. by rewrite bool_decide_eq_true, match_re_spec. Qed.

(** ** Lines *)

(** The complete lines of a text, and what is left after the last newline. *)
Fixpoint lines (s : list Z) : list (list Z) :=
  match s with
  | [] => []
  | c :: s' =>
      if c =? 10 then [] :: lines s'
      else match lines s' with [] => [] | l :: ls => (c :: l) :: ls end
  end.

(** Those before the first that is longer than the buffer. *)
Fixpoint fitting (ls : list (list Z)) : list (list Z) :=
  match ls with
  | [] => []
  | l :: ls' => if (length l + 1 <? GBUF)%nat then l :: fitting ls' else []
  end.

Definition grep_spec (re input : list Z) : list Z :=
  concat ((fun l => l ++ [10]) <$> filter (line_matches re) (fitting (lines input))).

Definition printed (re : list Z) (ls : list (list Z)) : list Z :=
  concat ((fun l => l ++ [10]) <$> filter (line_matches re) ls).

Lemma printed_app re ls ls' : printed re (ls ++ ls') = printed re ls ++ printed re ls'.
Proof. unfold printed. by rewrite filter_app, fmap_app, concat_app. Qed.

Lemma lines_none s : 10 ∉ s -> lines s = [].
Proof.
  induction s as [|c s IH]; [done|]. intros [Hc Hs]%not_elem_of_cons. cbn [lines].
  rewrite (proj2 (Z.eqb_neq c 10)) by congruence. by rewrite IH.
Qed.
Lemma lines_line l s : 10 ∉ l -> lines (l ++ 10 :: s) = l :: lines s.
Proof.
  induction l as [|c l IH]; [done|]. intros [Hc Hs]%not_elem_of_cons. cbn [app lines].
  rewrite (proj2 (Z.eqb_neq c 10)) by congruence. by rewrite IH.
Qed.

Lemma first_line (s : list Z) : 10 ∉ s \/ exists l s', s = l ++ 10 :: s' /\ 10 ∉ l.
Proof.
  induction s as [|c s [IH|(l & s' & -> & IH)]]; [left; apply not_elem_of_nil|..];
    destruct (decide (c = 10)) as [->|Hc].
  - right. exists [], s. split; [done|apply not_elem_of_nil].
  - left. apply not_elem_of_cons. by split; [congruence|].
  - right. exists [], (l ++ 10 :: s'). split; [done|apply not_elem_of_nil].
  - right. exists (c :: l), s'. split; [done|]. apply not_elem_of_cons. by split; [congruence|].
Qed.

Lemma fitting_app ls ls' :
  Forall (fun l => length l + 1 < GBUF)%nat ls -> fitting (ls ++ ls') = ls ++ fitting ls'.
Proof.
  induction 1 as [|l ls Hl _ IH]; [done|]. cbn [app fitting]. rewrite (proj2 (Nat.ltb_lt _ _) Hl). by rewrite IH.
Qed.

Lemma lines_short s n : (length s < n)%nat -> Forall (fun l => length l + 1 < n)%nat (lines s).
Proof.
  remember (length s) as k eqn:Ek. revert s Ek n. induction (lt_wf k) as [k _ IH]. intros s -> n Hn.
  destruct (first_line s) as [H|(l & s' & -> & H)]; [by rewrite lines_none|].
  rewrite lines_line by done. rewrite length_app in Hn. cbn [length] in Hn.
  constructor; [lia|]. eapply IH; [|done|lia]. rewrite length_app. cbn [length]. lia.
Qed.

Lemma fitting_long l s : 10 ∉ l -> (GBUF <= length l + 1)%nat -> fitting (lines (l ++ s)) = [].
Proof.
  intros Hl Hn. destruct (first_line s) as [H|(l' & s' & -> & H)].
  - rewrite lines_none; [done|]. rewrite elem_of_app. tauto.
  - rewrite (assoc_L (++)), lines_line by (rewrite elem_of_app; tauto). cbn [fitting].
    rewrite (proj2 (Nat.ltb_ge _ _)); [done|]. rewrite length_app. lia.
Qed.

(** ** The loop over a buffer *)

Lemma strchr_found l s c : 0 ∉ l -> c ∉ l -> c <> 0 -> strchr (l ++ c :: s) c = Some (length l).
Proof.
  intros H0 Hc Hn. induction l as [|x l IH]; cbn [app strchr length].
  - rewrite (proj2 (Z.eqb_neq c 0)), Z.eqb_refl by done. done.
  - apply not_elem_of_cons in H0 as [Hx0 H0], Hc as [Hxc Hc].
    rewrite (proj2 (Z.eqb_neq x 0)), (proj2 (Z.eqb_neq x c)), IH by congruence. done.
Qed.
Lemma strchr_absent l s c : 0 ∉ l -> c ∉ l -> strchr (l ++ 0 :: s) c = None.
Proof.
  intros H0 Hc. induction l as [|x l IH]; cbn [app strchr]; [done|].
  apply not_elem_of_cons in H0 as [Hx0 H0], Hc as [Hxc Hc].
  by rewrite (proj2 (Z.eqb_neq x 0)), (proj2 (Z.eqb_neq x c)), IH by congruence.
Qed.
Lemma cstr_stop l s : 0 ∉ l -> cstr (l ++ 0 :: s) = l.
Proof.
  intros H0. induction l as [|x l IH]; cbn [app]; rewrite cstr_cons; [done|].
  apply not_elem_of_cons in H0 as [Hx0 H0]. unfold ctrue. by rewrite (proj2 (Z.eqb_neq x 0)), IH by congruence.
Qed.

(** A kernel that delivers the input in pieces of its choice, at least a byte
    and at most what was asked for while there is any. *)
Record gkernel := GKernel { g_input : list Z; g_sizes : list nat; g_out : list Z }.
Definition gos (c : ucall) (k : gkernel) : Z * list Z * gkernel :=
  match c with
  | Cread _ n =>
      let size := Nat.min (Z.to_nat n) (Nat.min (length (g_input k)) (S (hd 0%nat (g_sizes k)))) in
      (Z.of_nat size, take size (g_input k), GKernel (drop size (g_input k)) (tail (g_sizes k)) (g_out k))
  | Cwrite _ bs => (Z.of_nat (length bs), [], GKernel (g_input k) (g_sizes k) (g_out k ++ bs))
  | _ => (0, [], k)
  end.
Definition print (bs : list Z) (k : gkernel) : gkernel := GKernel (g_input k) (g_sizes k) (g_out k ++ bs).

Lemma put_mid (pre l rest : list Z) x y :
  <[(length pre + length l)%nat := y]> (pre ++ l ++ x :: rest) = pre ++ l ++ y :: rest.
Proof. rewrite insert_app_r. f_equal. rewrite <- (Nat.add_0_r (length l)), insert_app_r. done. Qed.

Lemma slice_mid (pre l rest : list Z) x :
  bytes_at (length pre) (length pre + length l + 1 - length pre) (pre ++ l ++ x :: rest) = l ++ [x].
Proof.
  unfold bytes_at. rewrite drop_app_length. replace (_ - _)%nat with (length l + 1)%nat by lia.
  by rewrite take_app_add.
Qed.

Lemma grep_lines_run re fuel pre body junk k :
  0 ∉ body -> (length body < fuel)%nat ->
  exists pre' tl,
    urun gos (grep_lines fuel re (pre ++ body ++ 0 :: junk) (length pre)) k =
      (Returned (pre' ++ tl ++ 0 :: junk, length pre'), print (printed re (lines body)) k) /\
    (length pre' + length tl = length pre + length body)%nat /\ 10 ∉ tl /\ 0 ∉ tl /\
    forall rest, lines (body ++ rest) = lines body ++ lines (tl ++ rest).
Proof.
  revert pre body k. induction fuel as [|fuel IH]; intros pre body k H0 Hf; [lia|]. cbn [grep_lines].
  rewrite drop_app_length. destruct (first_line body) as [Hn|(l & body' & -> & Hn)].
  { exists pre, body. rewrite strchr_absent, lines_none by done. cbn. unfold print. rewrite app_nil_r.
    by destruct k. }
  rewrite !not_elem_of_app, not_elem_of_cons in H0. destruct H0 as (H0 & _ & H0').
  rewrite length_app in Hf |- *. cbn [length] in Hf |- *.
  rewrite <- (assoc_L (++)). cbn [app]. rewrite strchr_found by done. cbv zeta.
  rewrite put_mid, drop_app_length, cstr_stop, match_re_decide by done.
  rewrite lines_line by done. change (l :: lines body') with ([l] ++ lines body'). rewrite printed_app.
  assert (forall x k', exists pre' tl,
    urun gos (grep_lines fuel re (pre ++ l ++ x :: body' ++ 0 :: junk) (length pre + length l + 1)) k' =
      (Returned (pre' ++ tl ++ 0 :: junk, length pre'), print (printed re (lines body')) k') /\
    (length pre' + length tl = length pre + (length l + S (length body')))%nat /\ 10 ∉ tl /\ 0 ∉ tl /\
    forall rest, lines ((l ++ 10 :: body') ++ rest) = ([l] ++ lines body') ++ lines (tl ++ rest)) as Hnext.
  { intros x k'. destruct (IH (pre ++ l ++ [x]) body' k' H0' ltac:(lia)) as (pre' & tl & R & Hl & H10 & Hz & Hr).
    exists pre', tl. rewrite !length_app in *. cbn [length] in *. rewrite <- !(assoc_L (++)) in R. cbn [app] in R.
    split; [by rewrite <- R, Nat.add_assoc|]. split; [lia|]. split; [done|]. split; [done|].
    intros rest. rewrite <- (assoc_L (++)). cbn [app]. by rewrite lines_line, Hr by done. }
  assert (printed re [l] = if bool_decide (line_matches re l) then l ++ [10] else []) as ->.
  { unfold printed. rewrite filter_cons. case_bool_decide; case_decide; try done. cbn. by rewrite app_nil_r. }
  case_bool_decide as Hm.
  - rewrite put_mid, slice_mid.
    destruct (Hnext 10 (print (l ++ [10]) k)) as (pre' & tl & R & H). exists pre', tl. split; [|done].
    etransitivity; [exact R|]. unfold print. cbn [g_input g_sizes g_out]. by rewrite <- (assoc_L (++) (g_out k)).
  - apply Hnext.
Qed.

Lemma bytes_put_front (l chunk junk : list Z) :
  (length chunk <= length junk)%nat -> bytes_put (length l) chunk (l ++ junk) = l ++ chunk ++ drop (length chunk) junk.
Proof.
  intros H. unfold bytes_put. rewrite <- (Nat.add_0_r (length l)), list_inserts_app_r. f_equal.
  rewrite <- (take_drop (length chunk) junk) at 1. apply list_inserts_0_r. rewrite length_take. lia.
Qed.

(** The buffer after a read and its NUL. *)
Lemma fill_buffer (l chunk junk : list Z) :
  (length chunk < length junk)%nat ->
  exists junk', <[(length l + length chunk)%nat := 0]> (bytes_put (length l) chunk (l ++ junk)) =
    [] ++ (l ++ chunk) ++ 0 :: junk' /\ length junk' = (length junk - length chunk - 1)%nat.
Proof.
  intros H. rewrite bytes_put_front by lia. destruct (drop (length chunk) junk) as [|x junk'] eqn:E.
  { apply (f_equal length) in E. rewrite length_drop in E. cbn in E. lia. }
  exists junk'. split; [by rewrite put_mid, <- (assoc_L (++))|].
  apply (f_equal length) in E. rewrite length_drop in E. cbn in E. lia.
Qed.

Lemma grep_spec_step re body tl rest :
  (length body < GBUF)%nat -> lines (body ++ rest) = lines body ++ lines (tl ++ rest) ->
  grep_spec re (body ++ rest) = printed re (lines body) ++ grep_spec re (tl ++ rest).
Proof.
  intros Hb E. unfold grep_spec. rewrite E, fitting_app by (by apply lines_short). apply printed_app.
Qed.

Lemma grep_loop_run re fd fuel l junk k :
  10 ∉ l -> 0 ∉ l -> 0 ∉ g_input k -> (length l + length junk = GBUF)%nat -> (0 < length junk)%nat ->
  (length (g_input k) < fuel)%nat ->
  exists buf k', urun gos (grep_loop fuel re fd (l ++ junk) (length l)) k = (Returned buf, k') /\
    g_out k' = g_out k ++ grep_spec re (l ++ g_input k).
Proof.
  revert l junk k. induction fuel as [|fuel IH]; intros l junk k H10 H0 Hi Hlen Hj Hf; [lia|].
  cbn [grep_loop]. rewrite urun_bind. cbn [sys_bytes urun gos].
  set (size := Nat.min (Z.to_nat _) _). cbn [fst snd].
  assert (size <= length (g_input k))%nat as Hsz by lia.
  assert (size < length junk)%nat as Hsj by lia.
  destruct (Z.ltb_spec 0 (Z.of_nat size)) as [Hpos|Hz].
  2: { exists (l ++ junk), (GKernel (drop size (g_input k)) (tail (g_sizes k)) (g_out k)). split; [done|].
       cbn [g_out]. unfold grep_spec. replace (fitting (lines (l ++ g_input k))) with (@nil (list Z)); [by rewrite app_nil_r|].
       symmetry. destruct (decide (g_input k = [])) as [E|E].
       - rewrite E, app_nil_r, lines_none by done. done.
       - apply fitting_long; [done|]. destruct (g_input k); [done|]. cbn [length] in *. lia. }
  cbv zeta. rewrite Nat2Z.id. set (chunk := take size (g_input k)).
  assert (length chunk = size) as Hc by (apply length_take_le; lia). rewrite <- Hc in Hsj |- *.
  destruct (fill_buffer l chunk junk Hsj) as (junk' & E & Hj'). rewrite E.
  assert (g_input k = chunk ++ drop size (g_input k)) as Ei by (symmetry; apply take_drop).
  assert (0 ∉ chunk /\ 0 ∉ drop size (g_input k)) as [Hc0 Hd0].
  { rewrite Ei, not_elem_of_app in Hi. done. }
  assert (length (l ++ chunk) < GBUF)%nat as Hbody by (rewrite length_app; lia).
  destruct (grep_lines_run re GBUF [] (l ++ chunk) junk' (GKernel (drop (length chunk) (g_input k)) (tail (g_sizes k)) (g_out k)))
    as (pre & tl & R & Hl & Ht10 & Ht0 & Hr); [by rewrite not_elem_of_app|done|].
  rewrite urun_bind. cbn [length] in R. rewrite R. cbn [length Nat.add] in Hl. rewrite length_app in Hl.
  rewrite (proj2 (Nat.ltb_lt 0 (length l + length chunk))) by lia.
  replace (length l + length chunk - length pre)%nat with (length tl) by lia.
  replace (bytes_at (length pre) (length tl) (pre ++ tl ++ 0 :: junk')) with tl
    by (unfold bytes_at; by rewrite drop_app_length, take_app_length).
  pose proof (bytes_put_front [] tl (pre ++ tl ++ 0 :: junk')) as Hput. cbn [app length] in Hput.
  rewrite Hput by (rewrite !length_app; lia).
  assert (grep_spec re (l ++ g_input k) =
    printed re (lines (l ++ chunk)) ++ grep_spec re (tl ++ drop (length chunk) (g_input k))) as Espec.
  { rewrite Ei at 1. rewrite (assoc_L (++) l), Hc. by apply grep_spec_step. }
  edestruct (IH tl (drop (length tl) (pre ++ tl ++ 0 :: junk'))) as (buf & k' & R' & Ho); [done|done| | | | |].
  5: { exists buf, k'. split; [exact R'|]. rewrite Ho, Espec. unfold print. cbn [g_out g_input].
       symmetry. apply (assoc_L (++)). }
  1: by rewrite Hc. all: cbn [print g_input]; rewrite ?length_drop, ?length_app; cbn [length]; lia.
Qed.

(** C19: grep returns, and whatever pieces the input arrives in it prints, in
    order and with their newlines, exactly the complete lines that match the
    pattern, up to the first line that does not fit in its buffer.  The matcher
    decides the declarative meaning of patterns. *)
Theorem grep_prints re fd input sizes fuel :
  0 ∉ input -> (length input < fuel)%nat ->
  exists buf k', urun gos (grep fuel re fd (replicate GBUF 0)) (GKernel input sizes []) = (Returned buf, k') /\
    g_out k' = concat ((fun l => l ++ [10]) <$> filter (line_matches re) (fitting (lines input))).
Proof.
  intros H0 Hf.
  exact (grep_loop_run re fd fuel [] (replicate GBUF 0) (GKernel input sizes [])
    (not_elem_of_nil _) (not_elem_of_nil _) H0 eq_refl ltac:(cbn; lia) Hf).
Qed.

Lemma grep_prints_witness : exists buf k',
  urun gos (grep 40 (chars "a.*c") 0 (replicate GBUF 0)) (GKernel (ln "xabbc" ++ ln "ab" ++ chars "ac") [3%nat; 0%nat; 4%nat] []) =
    (Returned buf, k') /\ g_out k' = ln "xabbc".
Proof.
  destruct (grep_prints (chars "a.*c") 0 (ln "xabbc" ++ ln "ab" ++ chars "ac") [3%nat; 0%nat; 4%nat] 40)
    as (buf & k' & R & Ho).
  - compute_done.
  - cbn. lia.
  - exists buf, k'. split; [exact R|]. rewrite Ho. vm_compute. reflexivity.
Defined.
