(* ===== verification/Umalloc.v ===== *)
(** * The allocator of user programs (user/umalloc.c)

    Kernighan and Ritchie's free list: a ring of headers sorted by address,
    searched first fit from [freep].  Addresses count headers of 16 bytes, as
    the pointer arithmetic on [Header *] does. *)

From Stdlib Require Import ZArith Lia.
From stdpp Require Import base gmap list.
From S2P Require Import Prelude CString Printf Ulib.
Local Open Scope user_scope.

(** s.ptr and s.size. *)
Record header := Header { hd_ptr : Z; hd_size : Z }.

Record uheap := UHeap { u_hdrs : gmap Z header; u_freep : Z }.

Definition set_hdr (a : Z) (x : header) (h : uheap) : uheap := UHeap (<[a := x]> (u_hdrs h)) (u_freep h).
Definition set_freep (a : Z) (h : uheap) : uheap := UHeap (u_hdrs h) a.

Section Allocator.
(** &base *)
Context (base : Z).

(** p->s, for a pointer to a header. *)
Definition hdr (h : uheap) (p : Z) : uprog header :=
  match u_hdrs h !! p with Some x => URet x | None => UUndef end.

(** The header after which [bp] belongs. *)
Fixpoint free_find (fuel : nat) (h : uheap) (bp p : Z) : uprog Z :=
  match fuel with
  | O => UStuck
  | S fuel' =>
      x <- hdr h p ;;
      if (p <? bp) && (bp <? hd_ptr x) then URet p
      else if (hd_ptr x <=? p) && ((p <? bp) || (bp <? hd_ptr x)) then URet p
      else free_find fuel' h bp (hd_ptr x)
  end.

(** At most once around the ring. *)
Definition ring_fuel (h : uheap) : nat := S (size (u_hdrs h)).

(** free(bp + 1) *)
Definition ufree (h : uheap) (bp : Z) : uprog uheap :=
  p <- free_find (ring_fuel h) h bp (u_freep h) ;;
  x <- hdr h p ;;
  b <- hdr h bp ;;
  b <- (if bp + hd_size b =? hd_ptr x then
          nx <- hdr h (hd_ptr x) ;;
          URet (Header (hd_ptr nx) (u32 (hd_size b + hd_size nx)))
        else URet (Header (hd_ptr x) (hd_size b))) ;;
  let h := set_hdr bp b h in
  x <- hdr h p ;;
  let h :=
    if p + hd_size x =? bp then set_hdr p (Header (hd_ptr b) (u32 (hd_size x + hd_size b))) h
    else set_hdr p (Header bp (hd_size x)) h in
  URet (set_freep p h).

(** The answer 0 is the null pointer; sbrk's argument is an int. *)
Definition morecore (h : uheap) (nu : Z) : uprog (uheap * Z) :=
  let nu := if nu <? 4096 then 4096 else nu in
  p <- sys (Csbrk (i32 (nu * 16))) ;;
  if p =? -1 then URet (h, 0)
  else
    let hp := p / 16 in
    let old := default (Header 0 0) (u_hdrs h !! hp) in
    h <- ufree (set_hdr hp (Header (hd_ptr old) nu) h) hp ;;
    URet (h, u_freep h).

(** A block of at least [nunits] was found at [p], after [prevp]. *)
Definition take_block (h : uheap) (nunits prevp p : Z) (x : header) : uprog (uheap * Z) :=
  if hd_size x =? nunits then
    y <- hdr h prevp ;;
    let h := set_hdr prevp (Header (hd_ptr x) (hd_size y)) h in
    URet (set_freep prevp h, p + 1)
  else
    let sz := hd_size x - nunits in
    let h := set_hdr p (Header (hd_ptr x) sz) h in
    let q := p + sz in
    let old := default (Header 0 0) (u_hdrs h !! q) in
    let h := set_hdr q (Header (hd_ptr old) nunits) h in
    URet (set_freep prevp h, q + 1).

Fixpoint malloc_loop (fuel : nat) (h : uheap) (nunits prevp p : Z) : uprog (uheap * Z) :=
  match fuel with
  | O => UStuck
  | S fuel' =>
      x <- hdr h p ;;
      if nunits <=? hd_size x then take_block h nunits prevp p x
      else if p =? u_freep h then
        r <- morecore h nunits ;;
        let '(h, p) := r in
        if p =? 0 then URet (h, 0)
        else x <- hdr h p ;; malloc_loop fuel' h nunits p (hd_ptr x)
      else malloc_loop fuel' h nunits p (hd_ptr x)
  end.

Definition nunits_of (nbytes : Z) : Z := u32 ((nbytes + 16 - 1) / 16 + 1).

(** At most twice around: once to find nothing, once after morecore. *)
Definition malloc (h : uheap) (nbytes : Z) : uprog (uheap * Z) :=
  let nunits := nunits_of nbytes in
  let h := if u_freep h =? 0 then set_freep base (set_hdr base (Header base 0) h) else h in
  x <- hdr h (u_freep h) ;;
  malloc_loop (2 * ring_fuel h + 2) h nunits (u_freep h) (hd_ptr x).

End Allocator.
