(* ===== verification/UmallocFacts.v ===== *)
(** * Blocks handed out by malloc do not overlap

    The free list as the sorted list of its blocks; what [free] and [malloc] do
    to it; and that the blocks a program holds stay apart, and calls return,
    through any sequence of calls. *)

From Stdlib Require Import ZArith Lia.
From stdpp Require Import base gmap list.
From S2P Require Import Prelude CString Printf Ulib Umalloc.
Local Open Scope user_scope.

(** ** The ring *)

Notation block := (Z * Z)%type.

(** The address of the first block, or [e]. *)
Definition first_addr (L : list block) (e : Z) : Z := match L with [] => e | (a, _) :: _ => a end.

(** The headers of [L] in a row, the last one pointing to [e]. *)
Fixpoint linked (m : gmap Z header) (L : list block) (e : Z) : Prop :=
  match L with
  | [] => True
  | (a, n) :: L' => m !! a = Some (Header (first_addr L' e) n) /\ linked m L' e
  end.

(** Blocks by address from [lo] to [hi], no two adjacent. *)
Fixpoint spaced (lo : Z) (L : list block) (hi : Z) : Prop :=
  match L with
  | [] => lo <= hi
  | (a, n) :: L' => lo < a /\ 0 <= n /\ spaced (a + n) L' hi
  end.

Lemma first_addr_app L1 L2 e : first_addr (L1 ++ L2) e = first_addr L1 (first_addr L2 e).
Proof. by destruct L1 as [|[a n] L1]. Qed.

Lemma linked_split m L1 L2 e : linked m (L1 ++ L2) e <-> linked m L1 (first_addr L2 e) /\ linked m L2 e.
Proof.
  induction L1 as [|[a n] L1 IH]; cbn [app linked]; [tauto|]. rewrite IH, first_addr_app. tauto.
Qed.

Lemma linked_insert m L e a x : a ∉ L.*1 -> linked (<[a := x]> m) L e <-> linked m L e.
Proof.
  induction L as [|[b n] L IH]; cbn; [done|]. intros [Hb HL]%not_elem_of_cons.
  rewrite lookup_insert_ne by congruence. by rewrite IH.
Qed.

Lemma linked_lookup m L1 a n L2 e : linked m (L1 ++ (a, n) :: L2) e -> m !! a = Some (Header (first_addr L2 e) n).
Proof. rewrite linked_split. by intros [_ [H _]]. Qed.

Lemma spaced_le lo L hi : spaced lo L hi -> lo <= hi.
Proof.
  revert lo. induction L as [|[a n] L IH]; intros lo; cbn; [done|]. intros (? & ? & H). specialize (IH _ H). lia.
Qed.
Lemma spaced_weaken lo lo' L hi hi' : lo' <= lo -> hi <= hi' -> spaced lo L hi -> spaced lo' L hi'.
Proof.
  revert lo lo'. induction L as [|[a n] L IH]; intros lo lo' Hl Hh; cbn; [lia|]. intros (? & ? & H).
  split; [lia|]. split; [lia|]. by apply (IH (a + n)).
Qed.
Lemma spaced_app lo L1 L2 hi : spaced lo (L1 ++ L2) hi <-> exists mid, spaced lo L1 mid /\ spaced mid L2 hi.
Proof.
  revert lo. induction L1 as [|[a n] L1 IH]; intros lo; cbn [app spaced].
  - split; [intros H; by exists lo|]. intros (mid & Hm & H). by apply (spaced_weaken mid lo L2 hi hi).
  - rewrite IH. naive_solver.
Qed.

Lemma spaced_bounds lo L hi a n : spaced lo L hi -> (a, n) ∈ L -> lo < a /\ 0 <= n /\ a + n <= hi.
Proof.
  revert lo. induction L as [|[b k] L IH]; intros lo; cbn; [by intros _ ?%elem_of_nil|].
  intros (Hb & Hk & H). pose proof (spaced_le _ _ _ H). intros [[= -> ->]|Hin]%elem_of_cons; [lia|].
  specialize (IH _ H Hin). lia.
Qed.

Lemma elem_of_addrs (L : list block) a : a ∈ L.*1 <-> exists n, (a, n) ∈ L.
Proof.
  rewrite list_elem_of_fmap. split.
  - intros ([b n] & -> & H). by exists n.
  - intros (n & H). by exists (a, n).
Qed.

Lemma spaced_NoDup lo L hi : spaced lo L hi -> NoDup (lo :: L.*1).
Proof.
  revert lo. induction L as [|[a n] L IH]; intros lo; cbn.
  { intros _. apply list.NoDup_singleton. }
  intros (Ha & Hn & H). apply list.NoDup_cons. split.
  - rewrite not_elem_of_cons. split; [lia|]. intros (k & Hk)%elem_of_addrs.
    pose proof (spaced_bounds _ _ _ _ _ H Hk). lia.
  - specialize (IH _ H). apply list.NoDup_cons in IH as [_ IH]. apply list.NoDup_cons. split; [|done].
    intros (k & Hk)%elem_of_addrs. pose proof (spaced_bounds _ _ _ _ _ H Hk). lia.
Qed.

Lemma linked_dom m L e : linked m L e -> Forall (fun a => a ∈ dom m) L.*1.
Proof.
  induction L as [|[a n] L IH]; cbn; [constructor|]. intros [Ha HL]. constructor; [|auto]. apply elem_of_dom. eauto.
Qed.

Lemma linked_length m L e : linked m L e -> NoDup L.*1 -> (length L <= size m)%nat.
Proof.
  intros Hl Hd. rewrite <- size_dom, <- (length_fmap fst L).
  rewrite <- (size_list_to_set (C := gset Z)) by done. apply subseteq_size. intros a Ha%elem_of_list_to_set.
  by eapply Forall_forall in Ha; [|by eapply linked_dom].
Qed.

(** ** Finding the place of a block *)

Section Ring.
Context (base : Z).

Lemma hdr_found h p x : u_hdrs h !! p = Some x -> hdr h p = URet x.
Proof. unfold hdr. by intros ->. Qed.

Definition stops (bp p nx : Z) : bool :=
  ((p <? bp) && (bp <? nx)) || ((nx <=? p) && ((p <? bp) || (bp <? nx))).

Lemma free_find_step fuel h bp p x :
  u_hdrs h !! p = Some x ->
  free_find (S fuel) h bp p = if stops bp p (hd_ptr x) then URet p else free_find fuel h bp (hd_ptr x).
Proof.
  intros E. cbn [free_find]. rewrite (hdr_found _ _ _ E). cbn [ubind]. unfold stops.
  by destruct ((p <? bp) && (bp <? hd_ptr x)); cbn [orb]; [|destruct (_ && _)].
Qed.

Lemma free_find_walk fuel h bp B R :
  linked (u_hdrs h) (B ++ R) base ->
  (forall B1 a n B2, B = B1 ++ (a, n) :: B2 -> stops bp a (first_addr (B2 ++ R) base) = false) ->
  free_find (length B + fuel) h bp (first_addr (B ++ R) base) = free_find fuel h bp (first_addr R base).
Proof.
  induction B as [|[a n] B IH]; intros Hl Hs; [done|]. cbn [app length Nat.add]. destruct Hl as [Ha Hl].
  cbn [first_addr]. rewrite (free_find_step _ _ _ _ _ Ha). cbn [hd_ptr]. rewrite (Hs [] a n B eq_refl).
  apply IH; [done|]. intros B1 b k B2 ->. by apply (Hs ((a, n) :: B1) b k).
Qed.

(** The block of the ring after which [bp] comes. *)
Lemma find_split (N : list block) bp :
  N <> [] -> first_addr N bp < bp ->
  exists A p n C, N = A ++ (p, n) :: C /\ p < bp /\ (C = [] \/ bp <= first_addr C bp).
Proof.
  induction N as [|[a n] N IH]; [done|]. intros _ Ha. cbn in Ha.
  destruct (decide (N <> [] /\ first_addr N bp < bp)) as [[HN Hlt]|Hn].
  - destruct (IH HN Hlt) as (A & p & k & C & -> & H). by exists ((a, n) :: A), p, k, C.
  - exists [], a, n, N. split; [done|]. split; [done|]. destruct N; [by left|right].
    destruct (decide (first_addr (p :: N) bp < bp)); [by destruct Hn|lia].
Qed.

Lemma spaced_split lo A p n C hi :
  spaced lo (A ++ (p, n) :: C) hi ->
  spaced lo A p /\ lo < p /\ 0 <= n /\ spaced (p + n) C hi /\ (forall a k, (a, k) ∈ A -> a + k < p).
Proof.
  rewrite spaced_app. intros (mid & HA & Hp & Hn & HC). pose proof (spaced_le _ _ _ HA).
  split; [by apply (spaced_weaken lo lo A mid p); [lia..|]|]. split; [lia|]. split; [done|]. split; [done|].
  intros a k Hin. pose proof (spaced_bounds _ _ _ _ _ HA Hin). lia.
Qed.

(** In a row of the ring, and at its end, only the place of [bp] stops. *)
Lemma stops_before bp lo A p n C top B1 a k B2 R :
  spaced lo (A ++ (p, n) :: C) top -> p < bp -> A = R ++ B1 ++ (a, k) :: B2 ->
  stops bp a (first_addr (B2 ++ (p, n) :: C) base) = false.
Proof.
  intros Hsp Hp ->. apply spaced_split in Hsp as (HA & _ & _ & _ & Hlt).
  rewrite (assoc_L (++)) in HA. apply spaced_split in HA as (_ & _ & Hk & HB & _).
  assert (a < first_addr (B2 ++ (p, n) :: C) base < bp) as Hnx.
  { destruct B2 as [|[b j] B2]; cbn.
    - specialize (Hlt a k). rewrite !elem_of_app, elem_of_cons in Hlt. specialize (Hlt ltac:(tauto)). lia.
    - destruct HB as (? & ? & HB). specialize (spaced_le _ _ _ HB). lia. }
  unfold stops. apply orb_false_iff. rewrite !andb_false_iff, !Z.ltb_ge, Z.leb_gt. lia.
Qed.

Lemma stops_after bp lo C top B1 a k B2 :
  spaced lo C top -> (C = [] \/ bp < first_addr C bp) -> base < bp -> C = B1 ++ (a, k) :: B2 ->
  stops bp a (first_addr B2 base) = false.
Proof.
  intros Hsp Hbp Hb ->. assert (bp < a) as Ha.
  { destruct Hbp as [Hbp|Hbp]; [by destruct B1|]. destruct B1 as [|[b j] B1]; cbn in Hbp; [done|].
    destruct Hsp as (_ & ? & Hsp). apply (spaced_bounds _ _ _ a k) in Hsp; [lia|].
    rewrite elem_of_app, elem_of_cons. tauto. }
  apply spaced_split in Hsp as (_ & _ & Hk & HB & _).
  unfold stops. apply orb_false_iff. rewrite !andb_false_iff, orb_false_iff, !Z.ltb_ge, Z.leb_gt.
  destruct B2 as [|[b j] B2]; cbn [first_addr] in *; [lia|]. destruct HB as [HB _]. lia.
Qed.

Lemma free_find_at fuel h bp A p n C :
  linked (u_hdrs h) (A ++ (p, n) :: C) base -> p < bp -> base <= p -> (C = [] \/ bp < first_addr C bp) ->
  free_find (S fuel) h bp p = URet p.
Proof.
  intros Hl Hp Hb HC. rewrite (free_find_step _ _ _ _ _ (linked_lookup _ _ _ _ _ _ Hl)). cbn [hd_ptr].
  replace (stops _ _ _) with true; [done|]. symmetry. unfold stops. apply orb_true_iff.
  rewrite !andb_true_iff, !Z.ltb_lt, Z.leb_le, orb_true_iff, !Z.ltb_lt.
  destruct HC as [->|HC]; [cbn; lia|]. destruct C as [|[c j] C]; cbn in *; lia.
Qed.

Lemma free_find_ok fuel h bp lo A p n C top :
  linked (u_hdrs h) (A ++ (p, n) :: C) base -> spaced lo (A ++ (p, n) :: C) top ->
  first_addr (A ++ (p, n) :: C) base = base -> base <= p ->
  p < bp -> (C = [] \/ bp < first_addr C bp) -> u_freep h ∈ (A ++ (p, n) :: C).*1 ->
  (length (A ++ (p, n) :: C) < fuel)%nat ->
  free_find fuel h bp (u_freep h) = URet p.
Proof.
  intros Hl Hsp Hb Hbp Hp HC Hf Hfu. rewrite fmap_app, elem_of_app, fmap_cons, elem_of_cons in Hf.
  rewrite length_app in Hfu. cbn [length] in Hfu.
  assert (forall fuel A', (exists R, A = R ++ A') -> (length A' < fuel)%nat ->
    free_find fuel h bp (first_addr (A' ++ (p, n) :: C) base) = URet p) as Hto.
  { intros f A' [R ->] Hlen. replace f with (length A' + S (f - length A' - 1))%nat by lia.
    rewrite <- (assoc_L (++)) in Hl. apply linked_split in Hl as [_ Hl]. rewrite free_find_walk; [|done|].
    - cbn [first_addr]. by eapply free_find_at.
    - intros B1 a k B2 ->. by eapply stops_before. }
  destruct Hf as [Hf|[Hf|Hf]].
  - apply elem_of_addrs in Hf as [k Hf]. apply list_elem_of_split in Hf as (R & A' & ->).
    apply (Hto fuel ((u_freep h, k) :: A')); [by exists R|]. rewrite length_app in Hfu. cbn in Hfu |- *. lia.
  - cbn in Hf. rewrite Hf. apply (Hto fuel []); [exists A; by rewrite app_nil_r|]. cbn. lia.
  - apply elem_of_addrs in Hf as [k Hf]. apply list_elem_of_split in Hf as (C1 & C2 & ->).
    rewrite length_app in Hfu. cbn [length] in Hfu.
    apply linked_split in Hl as [_ [_ [_ Hl]%linked_split]]. apply spaced_split in Hsp as (_ & _ & _ & Hsp & _).
    pose proof (free_find_walk (fuel - S (length C2)) h bp ((u_freep h, k) :: C2) []) as Hw.
    rewrite app_nil_r in Hw. cbn [length first_addr] in Hw.
    replace fuel with (S (length C2) + (fuel - S (length C2)))%nat by lia. rewrite Hw; [|done|].
    + rewrite <- Hb. apply Hto; [by exists []|lia].
    + intros B1 a j B2 E. rewrite app_nil_r. eapply (stops_after bp _ _ _ (C1 ++ B1)); [done|done|lia|].
      by rewrite E, (assoc_L (++)).
Qed.
End Ring.

(** ** Changing the tail of a row *)

Lemma linked_agree m m' L e : (forall a, a ∈ L.*1 -> m' !! a = m !! a) -> linked m L e -> linked m' L e.
Proof.
  induction L as [|[a n] L IH]; cbn; [done|]. intros H [Ha Hl]. split.
  - rewrite H by apply list_elem_of_here. done.
  - apply IH; [|done]. intros b Hb. apply H. by right.
Qed.

Lemma linked_splice m m' A p n C e k C2 :
  linked m (A ++ (p, n) :: C) e -> (forall a, a ∈ A.*1 -> m' !! a = m !! a) ->
  m' !! p = Some (Header (first_addr C2 e) k) -> linked m' C2 e -> linked m' (A ++ (p, k) :: C2) e.
Proof.
  rewrite !linked_split. cbn [first_addr linked]. intros [HA _] Hag Hp HC. split; [by eapply linked_agree|done].
Qed.

Lemma spaced_splice lo A p n C hi k C2 hi' :
  spaced lo (A ++ (p, n) :: C) hi -> 0 <= k -> spaced (p + k) C2 hi' -> spaced lo (A ++ (p, k) :: C2) hi'.
Proof. rewrite !spaced_app. cbn [spaced]. intros (mid & HA & Hp & _) Hk HC. exists mid. tauto. Qed.

Lemma spaced_from lo lo' C hi : spaced lo C hi -> lo' <= hi -> (forall c k C', C = (c, k) :: C' -> lo' < c) -> spaced lo' C hi.
Proof. destruct C as [|[c k] C]; cbn; [done|]. intros (_ & Hk & H) _ Hc. by split; [eapply Hc|]. Qed.

(** ** The heap of a program

    [F] are the free blocks, [live] the sizes of the blocks handed out, headers
    included, and [top] the end of the heap. *)

Section Heap.
Context (base : Z).

Record hinv (h : uheap) (F : list block) (live : gmap Z Z) (top : Z) : Prop := {
  hi_base : 0 < base;
  hi_top : base < top < 2 ^ 32;
  hi_ring : linked (u_hdrs h) ((base, 0) :: F) base;
  hi_spaced : spaced base F top;
  hi_sizes : forall b k, (b, k) ∈ F -> 0 < k;
  hi_freep : u_freep h ∈ base :: F.*1;
  hi_live : forall a n, live !! a = Some n ->
    base < a /\ 0 < n /\ a + n <= top /\ exists q, u_hdrs h !! a = Some (Header q n);
  hi_apart : forall a n b k, live !! a = Some n -> live !! b = Some k -> a < b -> a + n <= b;
  hi_free : forall a n b k, live !! a = Some n -> (b, k) ∈ F -> a + n <= b \/ b + k <= a
}.

Lemma hi_ring_spaced h F live top : hinv h F live top -> spaced (base - 1) ((base, 0) :: F) top.
Proof. intros I. cbn. split; [lia|]. split; [lia|]. rewrite Z.add_0_r. apply (hi_spaced _ _ _ _ I). Qed.

Lemma hi_ring_free h F live top a n b k :
  hinv h F live top -> live !! a = Some n -> (b, k) ∈ (base, 0) :: F -> (a + n <= b \/ b + k <= a) /\ a <> b.
Proof.
  intros I Ha [[= -> ->]|Hb]%elem_of_cons; destruct (hi_live _ _ _ _ I a n Ha) as (? & ? & _); [lia|].
  pose proof (hi_free _ _ _ _ I _ _ _ _ Ha Hb). pose proof (hi_sizes _ _ _ _ I _ _ Hb). lia.
Qed.

Lemma hi_ring_length h F live top : hinv h F live top -> (S (length F) < ring_fuel h)%nat.
Proof.
  intros I. change (S (length F)) with (length (((base, 0) : block) :: F)).
  apply le_n_S, (linked_length _ _ base); [apply (hi_ring _ _ _ _ I)|].
  cbn [fmap list_fmap fst]. eapply spaced_NoDup. apply (hi_spaced _ _ _ _ I).
Qed.

(** The place of a live block among the free ones. *)
Lemma live_place h F live top bp n :
  hinv h F live top -> live !! bp = Some n ->
  exists A p np C, (base, 0) :: F = A ++ (p, np) :: C /\ base <= p /\ 0 <= np /\ p + np <= bp /\ p < bp /\
    (C = [] \/ bp + n <= first_addr C bp) /\ (forall c kc C', C = (c, kc) :: C' -> 0 < kc /\ bp + n <= c /\ c + kc <= top) /\
    free_find (ring_fuel h) h bp (u_freep h) = URet p.
Proof.
  intros I Hbp. destruct (hi_live _ _ _ _ I _ _ Hbp) as (Hb & Hn & Ht & _).
  pose proof (hi_ring_spaced _ _ _ _ I) as Hsp. pose proof (hi_ring _ _ _ _ I) as Hl.
  destruct (find_split ((base, 0) :: F) bp) as (A & p & np & C & E & Hp & HC); [done|done|].
  pose proof (fun b k => hi_ring_free _ _ _ _ bp n b k I Hbp) as Hd.
  pose proof (fun b k => spaced_bounds _ _ _ b k Hsp) as Hbd.
  assert (first_addr (A ++ (p, np) :: C) base = base) as Hfa by (by rewrite <- E).
  pose proof (hi_freep _ _ _ _ I) as Hfp. pose proof (hi_ring_length _ _ _ _ I) as Hlen.
  change (base :: F.*1) with ((base, 0) :: F).*1 in Hfp.
  change (S (length F)) with (length (((base, 0) : block) :: F)) in Hlen. rewrite E in *.
  assert ((p, np) ∈ A ++ (p, np) :: C) as Hpin by (rewrite elem_of_app, elem_of_cons; tauto).
  destruct (Hd _ _ Hpin) as [Hdp _]. destruct (Hbd _ _ Hpin) as (Hpl & Hnp & _).
  assert (forall c kc C', C = (c, kc) :: C' -> 0 < kc /\ bp + n <= c /\ c + kc <= top) as HCn.
  { intros c kc C' ->. assert ((c, kc) ∈ A ++ (p, np) :: (c, kc) :: C') as Hin
      by (rewrite elem_of_app, !elem_of_cons; tauto).
    destruct (Hd _ _ Hin) as [Hdc Hne]. destruct (Hbd _ _ Hin) as (_ & Hk & Hct).
    assert (bp < c) as Hlt by (destruct HC as [HC|HC]; [done|cbn in HC; lia]).
    rewrite <- E, elem_of_cons in Hin. destruct Hin as [[= -> ->]|Hin]; [lia|].
    pose proof (hi_sizes _ _ _ _ I _ _ Hin). lia. }
  exists A, p, np, C. split; [done|]. split; [lia|]. split; [done|]. split; [lia|]. split; [done|].
  split; [destruct C as [|[c kc] C]; [by left|right; cbn; by apply (HCn c kc C)]|]. split; [done|].
  eapply free_find_ok; [done..|lia|done| |done|done].
  destruct C as [|[c kc] C]; [by left|right; cbn]. destruct (HCn c kc C eq_refl) as (? & ? & ?). lia.
Qed.

(** The freed block with the one after it, if they touch. *)
Definition absorbs (bp n : Z) (C : list block) (nb : Z) (C' : list block) : Prop :=
  (exists k, C = (bp + n, k) :: C' /\ nb = n + k) \/
  (C' = C /\ nb = n /\ forall c k C', C = (c, k) :: C' -> bp + n < c).

Lemma ufree_run h F live top bp n :
  hinv h F live top -> live !! bp = Some n ->
  exists A p np C nb C' h',
    (base, 0) :: F = A ++ (p, np) :: C /\ absorbs bp n C nb C' /\ base <= p /\ p < bp /\ p + np <= bp /\
    ufree h bp = URet h' /\ u_freep h' = p /\
    (forall a, a <> p -> a <> bp -> u_hdrs h' !! a = u_hdrs h !! a) /\
    (if p + np =? bp then u_hdrs h' !! p = Some (Header (first_addr C' base) (np + nb))
     else u_hdrs h' !! p = Some (Header bp np) /\ u_hdrs h' !! bp = Some (Header (first_addr C' base) nb)).
Proof.
  intros I Hbp. destruct (live_place _ _ _ _ _ _ I Hbp) as (A & p & np & C & E & Hb & Hnp & Hpb & Hlt & _ & HC & Hfind).
  destruct (hi_live _ _ _ _ I _ _ Hbp) as (_ & Hn & Ht & q & Hq).
  pose proof (hi_ring _ _ _ _ I) as Hl. rewrite E in Hl. pose proof (linked_lookup _ _ _ _ _ _ Hl) as Hp.
  pose proof (hi_top _ _ _ _ I) as Hsm. pose proof (hi_base _ _ _ _ I) as Hb0.
  unfold ufree. rewrite Hfind. cbn [ubind]. rewrite (hdr_found _ _ _ Hp), (hdr_found _ _ _ Hq). cbn [ubind hd_ptr hd_size].
  assert (exists nb C', absorbs bp n C nb C' /\ bp + nb <= top /\ 0 <= nb /\
    (if bp + n =? first_addr C base then
       nx <- hdr h (first_addr C base) ;; URet (Header (hd_ptr nx) (u32 (n + hd_size nx)))
     else URet (Header (first_addr C base) n)) = URet (Header (first_addr C' base) nb)) as (nb & C' & Hab & Hnb & Hnb0 & ->).
  { destruct C as [|[c k] C]; cbn [first_addr].
    - rewrite (proj2 (Z.eqb_neq (bp + n) base)) by lia. exists n, []. split; [by right|]. split; [lia|]. by split; [lia|].
    - destruct (HC c k C eq_refl) as (Hk & Hcn & Hct). destruct (Z.eqb_spec (bp + n) c) as [<-|Hne].
      + exists (n + k), C. split; [left; by exists k|]. split; [lia|]. split; [lia|].
        apply linked_split in Hl as [_ [_ [Hc _]]]. rewrite (hdr_found _ _ _ Hc). cbn [ubind hd_ptr hd_size].
        unfold u32. rewrite Z.mod_small by lia. done.
      + exists n, ((c, k) :: C). split; [right|split; [lia|by split; [lia|]]].
        split; [done|]. split; [done|]. intros ? ? ? [= <- _ _]. lia. }
  cbn [ubind]. rewrite (hdr_found (set_hdr bp _ h) p (Header (first_addr C base) np))
    by (cbn; rewrite lookup_insert_ne by lia; done). cbn [ubind hd_ptr hd_size].
  exists A, p, np, C, nb, C'. eexists. do 5 (split; [done|]). split; [done|]. split; [done|].
  destruct (Z.eqb_spec (p + np) bp) as [Hm|Hm]; cbn.
  - split; [intros a ? ?; by rewrite !lookup_insert_ne by congruence|]. rewrite lookup_insert_eq.
    unfold u32. rewrite Z.mod_small by lia. done.
  - split; [intros a ? ?; by rewrite !lookup_insert_ne by congruence|]. rewrite lookup_insert_eq. split; [done|].
    by rewrite lookup_insert_ne, lookup_insert_eq by lia.
Qed.

Lemma absorbs_spaced bp n C nb C' lo top :
  absorbs bp n C nb C' -> spaced lo C top -> bp + n <= top -> spaced (bp + nb) C' top.
Proof.
  intros [(k & -> & ->)|(-> & -> & HC)] Hs Ht; [|by eapply spaced_from].
  destruct Hs as (_ & _ & Hs). by rewrite Z.add_assoc.
Qed.
Lemma absorbs_linked bp n C nb C' m : absorbs bp n C nb C' -> linked m C base -> linked m C' base.
Proof. intros [(k & -> & ->)|(-> & -> & HC)] Hl; [apply Hl|done]. Qed.
Lemma absorbs_sub bp n C nb C' x : absorbs bp n C nb C' -> x ∈ C' -> x ∈ C.
Proof. intros [(k & -> & ->)|(-> & -> & HC)] Hx; [by right|done]. Qed.

(** An interval apart from a block and from what it absorbs. *)
Lemma absorbs_apart bp n C nb C' a na :
  absorbs bp n C nb C' -> 0 < na -> 0 < n -> (a + na <= bp \/ bp + n <= a) ->
  (forall b k, (b, k) ∈ C -> 0 < k /\ (a + na <= b \/ b + k <= a)) -> a + na <= bp \/ bp + nb <= a.
Proof.
  intros [(k & -> & ->)|(-> & -> & HC)] Hna Hn Hd HF; [|done].
  destruct (HF (bp + n) k) as [Hk Hdk]; [by left|]. lia.
Qed.

(** The ring after [free], and its blocks: old ones, the freed one, or the one
    before it grown by it. *)
Definition freed (A : list block) (p np bp nb : Z) (C' : list block) : list block :=
  if p + np =? bp then A ++ (p, np + nb) :: C' else A ++ (p, np) :: (bp, nb) :: C'.

Lemma freed_blocks F A p np C bp n nb C' :
  (base, 0) :: F = A ++ (p, np) :: C -> absorbs bp n C nb C' -> p < bp ->
  exists F', freed A p np bp nb C' = (base, 0) :: F' /\
    ((bp, nb) ∈ F' \/ (p, np + nb) ∈ F') /\
    forall b k, (b, k) ∈ F' -> (b, k) ∈ F \/ (b, k) = (bp, nb) \/
      (b = p /\ k = np + nb /\ p + np = bp /\ (p, np) ∈ F).
Proof.
  intros E Hab Hp. assert (forall x, x ∈ C' -> x ∈ C) as Hsub by (intros x; by apply (absorbs_sub bp n C nb)).
  unfold freed. destruct A as [|x A].
  - injection E as <- <- ->. replace (_ =? bp) with false by (symmetry; apply Z.eqb_neq; lia).
    exists ((bp, nb) :: C'). split; [done|]. split; [left; by left|]. intros b k [->|H]%elem_of_cons; auto.
  - injection E as <- ->. destruct (Z.eqb_spec (p + np) bp) as [Hm|Hm]; eexists; (split; [reflexivity|]);
      setoid_rewrite elem_of_app; setoid_rewrite elem_of_cons.
    + split; [tauto|]. intros b k [H|[[= -> ->]|H]]; [tauto| |auto]. right; right. tauto.
    + setoid_rewrite elem_of_cons. split; [tauto|]. intros b k [H|[H|[H|H]]]; auto.
Qed.

Lemma freed_length F A p np C bp n nb C' F' :
  (base, 0) :: F = A ++ (p, np) :: C -> absorbs bp n C nb C' -> freed A p np bp nb C' = (base, 0) :: F' ->
  (length F' <= S (length F))%nat.
Proof.
  intros E%(f_equal length) Hab EF%(f_equal length). assert (length C' <= length C)%nat.
  { destruct Hab as [(k & -> & _)|(-> & _)]; cbn; lia. }
  revert EF. unfold freed. case_match; rewrite length_app in *; cbn [length] in *; lia.
Qed.

Lemma freed_apart h F live top bp n A p np C nb C' F' a na b k :
  hinv h F live top -> live !! bp = Some n -> (base, 0) :: F = A ++ (p, np) :: C -> absorbs bp n C nb C' ->
  p < bp -> freed A p np bp nb C' = (base, 0) :: F' ->
  a <> bp -> live !! a = Some na -> (b, k) ∈ F' -> a + na <= b \/ b + k <= a.
Proof.
  intros I Hbp E Hab Hp EF Hne Ha Hin.
  destruct (freed_blocks F A p np C bp n nb C' E Hab Hp) as (F2 & EF2 & _ & Hcase).
  rewrite EF in EF2. injection EF2 as <-.
  destruct (hi_live _ _ _ _ I _ _ Hbp) as (_ & Hn & _). destruct (hi_live _ _ _ _ I _ _ Ha) as (Hba & Hna & _).
  assert (a + na <= bp \/ bp + nb <= a) as Hd.
  { apply (absorbs_apart bp n C nb C' a na Hab); [done|done| |].
    - destruct (Z.lt_total a bp) as [?|[?|?]]; [left|done|right];
        [by eapply (hi_apart _ _ _ _ I a na bp n)|by eapply (hi_apart _ _ _ _ I bp n a na)].
    - intros c j Hc. assert ((c, j) ∈ F) as HF.
      { destruct A as [|x A]; [by injection E as _ _ ->|]. injection E as _ ->. rewrite elem_of_app, elem_of_cons. tauto. }
      split; [by apply (hi_sizes _ _ _ _ I c j)|by apply (hi_free _ _ _ _ I a na c j)]. }
  destruct (Hcase b k Hin) as [HF|[[= -> ->]|(-> & -> & Hm & HF)]].
  - by apply (hi_free _ _ _ _ I a na b k).
  - done.
  - pose proof (hi_free _ _ _ _ I a na p np Ha HF). pose proof (hi_sizes _ _ _ _ I p np HF). lia.
Qed.

Lemma freed_ring h h' lo A p np C top bp n nb C' :
  linked (u_hdrs h) (A ++ (p, np) :: C) base -> spaced lo (A ++ (p, np) :: C) top ->
  absorbs bp n C nb C' -> 0 <= np -> 0 <= nb -> p < bp -> p + np <= bp -> bp + n <= top ->
  (forall a, a <> p -> a <> bp -> u_hdrs h' !! a = u_hdrs h !! a) ->
  (if p + np =? bp then u_hdrs h' !! p = Some (Header (first_addr C' base) (np + nb))
   else u_hdrs h' !! p = Some (Header bp np) /\ u_hdrs h' !! bp = Some (Header (first_addr C' base) nb)) ->
  linked (u_hdrs h') (freed A p np bp nb C') base /\ spaced lo (freed A p np bp nb C') top.
Proof.
  intros Hl Hsp Hab Hnp Hnb Hp Hpb Ht Hag Hh.
  pose proof (spaced_split _ _ _ _ _ _ Hsp) as (HA & _ & _ & HC & Hlt).
  pose proof (absorbs_spaced _ _ _ _ _ _ _ Hab HC Ht) as HC'.
  assert (forall a, a ∈ A.*1 -> u_hdrs h' !! a = u_hdrs h !! a) as HagA.
  { intros a (k & Hk)%elem_of_addrs. pose proof (Hlt _ _ Hk). pose proof (spaced_bounds _ _ _ _ _ HA Hk).
    apply Hag; lia. }
  assert (linked (u_hdrs h') C' base) as HlC.
  { apply (linked_agree (u_hdrs h)).
    - intros a (k & Hk)%elem_of_addrs. pose proof (spaced_bounds _ _ _ _ _ HC' Hk). apply Hag; lia.
    - eapply absorbs_linked; [done|]. by apply linked_split in Hl as [_ [_ Hl]]. }
  unfold freed. destruct (Z.eqb_spec (p + np) bp) as [Hm|Hm].
  - split; [by eapply linked_splice|]. eapply spaced_splice; [done|lia|]. by replace (p + (np + nb)) with (bp + nb) by lia.
  - destruct Hh as [Hhp Hhb]. split; [by eapply linked_splice|]. eapply spaced_splice; [done|done|]. cbn. split; [lia|done].
Qed.

Lemma absorbs_pos bp n C nb C' lo top : absorbs bp n C nb C' -> spaced lo C top -> 0 < n -> 0 < nb /\ n <= nb.
Proof. intros [(k & -> & ->)|(-> & -> & HC)] Hs Hn; [|lia]. destruct Hs as (_ & Hk & _). lia. Qed.

Lemma ufree_ok h F live top bp n :
  hinv h F live top -> live !! bp = Some n ->
  exists h' F', ufree h bp = URet h' /\ hinv h' F' (delete bp live) top /\ (length F' <= S (length F))%nat /\
    exists b k, (b, k) ∈ F' /\ n <= k.
Proof.
  intros I Hbp. destruct (ufree_run _ _ _ _ _ _ I Hbp) as (A & p & np & C & nb & C' & h' & E & Hab & Hb & Hp & Hpb & Hr & Hfp & Hag & Hh).
  destruct (freed_blocks F A p np C bp n nb C' E Hab Hp) as (F' & EF & Hnew & Hcase).
  exists h', F'. split; [done|].
  destruct (hi_live _ _ _ _ I _ _ Hbp) as (Hbb & Hn & Ht & _).
  pose proof (hi_ring_spaced _ _ _ _ I) as Hsp. pose proof (hi_ring _ _ _ _ I) as Hl. rewrite E in Hsp, Hl.
  pose proof (spaced_split _ _ _ _ _ _ Hsp) as (_ & _ & Hnp & HC & _).
  destruct (absorbs_pos _ _ _ _ _ _ _ Hab HC Hn) as [Hnb Hnn].
  destruct (freed_ring _ h' _ _ _ _ _ _ _ _ _ _ Hl Hsp Hab Hnp ltac:(lia) Hp Hpb Ht Hag Hh) as [Hl' Hsp'].
  assert (p ∈ (freed A p np bp nb C').*1) as Hpin.
  { unfold freed. case_match; rewrite fmap_app, fmap_cons, elem_of_app, elem_of_cons; tauto. }
  pose proof (freed_length F A p np C bp n nb C' F' E Hab EF) as Hlen.
  rewrite EF in Hl', Hsp', Hpin. split; [split|split; [exact Hlen|]].
  - apply (hi_base _ _ _ _ I).
  - apply (hi_top _ _ _ _ I).
  - done.
  - destruct Hsp' as (_ & _ & Hsp'). by rewrite Z.add_0_r in Hsp'.
  - intros b k Hin. destruct (Hcase b k Hin) as [HF|[[= -> ->]|(-> & -> & _ & HF)]]; [by eapply hi_sizes|lia|lia].
  - by rewrite Hfp.
  - intros a na [Hne Ha]%lookup_delete_Some. destruct (hi_live _ _ _ _ I _ _ Ha) as (? & ? & ? & q & Hq).
    assert ((p, np) ∈ (base, 0) :: F) as HpF by (rewrite E, elem_of_app, elem_of_cons; tauto).
    destruct (hi_ring_free _ _ _ _ _ _ _ _ I Ha HpF) as [_ Hap]. rewrite Hag by congruence. eauto.
  - intros a na b k [_ Ha]%lookup_delete_Some [_ Hk]%lookup_delete_Some. by apply (hi_apart _ _ _ _ I a na b k).
  - intros a na b k [Hne Ha]%lookup_delete_Some Hin. by eapply (freed_apart h F live top bp n A p np C nb C' F').
  - destruct Hnew as [Hin|Hin]; eexists _, _; (split; [exact Hin|lia]).
Qed.

(** ** Taking a block *)

Lemma ring_pred h F live top q p n :
  hinv h F live top -> q ∈ base :: F.*1 -> u_hdrs h !! q = Some (Header p n) -> p <> base ->
  exists A nq np C, (base, 0) :: F = A ++ (q, nq) :: (p, np) :: C /\ n = nq.
Proof.
  intros I Hq Hh Hp. change (base :: F.*1) with ((base, 0) :: F).*1 in Hq.
  apply elem_of_addrs in Hq as [nq Hq]. apply list_elem_of_split in Hq as (A & C & E).
  pose proof (hi_ring _ _ _ _ I) as Hl. rewrite E in Hl. apply linked_lookup in Hl. rewrite Hh in Hl.
  injection Hl as E1 ->. destruct C as [|[c k] C]; cbn in E1; [done|]. subst c. by exists A, nq, k, C.
Qed.

Lemma live_fresh h F live top b n p np :
  hinv h F live top -> (p, np) ∈ F -> p <= b < p + np -> 0 < n -> b + n <= p + np ->
  live !! b = None /\ (forall a na, live !! a = Some na -> a <> b /\ (a + na <= b \/ b + n <= a)).
Proof.
  intros I HF Hb Hn Hend.
  assert (forall a na, live !! a = Some na -> a <> b /\ (a + na <= b \/ b + n <= a)) as H.
  { intros a na Ha. pose proof (hi_free _ _ _ _ I a na p np Ha HF).
    destruct (hi_live _ _ _ _ I a na Ha) as (_ & ? & _). lia. }
  split; [|done]. destruct (live !! b) as [na|] eqn:E; [|done]. by destruct (H b na E).
Qed.

(** A heap whose free list [F'] lies within [F] and leaves out the block at [b]. *)
Lemma hinv_take h h' F F' live top b n p np :
  hinv h F live top -> (p, np) ∈ F -> p <= b < p + np -> 0 < n -> b + n <= p + np ->
  linked (u_hdrs h') ((base, 0) :: F') base -> spaced base F' top -> u_freep h' ∈ base :: F'.*1 ->
  (forall c k, (c, k) ∈ F' -> 0 < k /\ (b + n <= c \/ c + k <= b) /\ exists c' k', (c', k') ∈ F /\ c' <= c /\ c + k <= c' + k') ->
  (exists q, u_hdrs h' !! b = Some (Header q n)) ->
  (forall a na, live !! a = Some na -> u_hdrs h' !! a = u_hdrs h !! a) ->
  live !! b = None /\ hinv h' F' (<[b := n]> live) top.
Proof.
  intros I HF Hb Hn Hend Hl Hsp Hfp HF' Hhb Hag.
  destruct (live_fresh _ _ _ _ b n _ _ I HF Hb Hn Hend) as [Hnone Hd]. split; [done|].
  pose proof (spaced_bounds _ _ _ _ _ (hi_spaced _ _ _ _ I) HF) as (Hp & _ & Htop).
  split.
  - apply (hi_base _ _ _ _ I).
  - apply (hi_top _ _ _ _ I).
  - done.
  - done.
  - intros c k Hc. apply (HF' c k Hc).
  - done.
  - intros a na [[<- <-]|[Hne Ha]]%lookup_insert_Some; [split; [lia|]; split; [lia|]; split; [lia|done]|].
    rewrite (Hag a na Ha). by apply (hi_live _ _ _ _ I).
  - intros a na c k [[<- <-]|[Hne Ha]]%lookup_insert_Some [[<- <-]|[Hne' Hc]]%lookup_insert_Some Hlt.
    + lia.
    + destruct (Hd c k Hc). destruct (hi_live _ _ _ _ I c k Hc) as (_ & ? & _). lia.
    + destruct (Hd a na Ha). lia.
    + by apply (hi_apart _ _ _ _ I a na c k).
  - intros a na c k Ha Hc. destruct (HF' c k Hc) as (Hk & Hbc & c' & k' & Hin & ? & ?).
    apply lookup_insert_Some in Ha as [[<- <-]|[Hne Ha]]; [done|].
    pose proof (hi_free _ _ _ _ I a na c' k' Ha Hin). lia.
Qed.

Lemma ring_retail F A q nq X Y :
  (base, 0) :: F = A ++ (q, nq) :: Y ->
  exists F', A ++ (q, nq) :: X = (base, 0) :: F' /\
    (forall x, x ∈ F' -> x ∈ X \/ (x ∈ F /\ x ∈ A ++ [(q, nq)])) /\ q ∈ base :: F'.*1 /\ (forall x, x ∈ Y -> x ∈ F).
Proof.
  destruct A as [|y A].
  - intros [= <- <- ->]. exists X. split; [done|]. split; [by left|]. split; [by left|done].
  - intros [= <- ->]. eexists. split; [reflexivity|]. setoid_rewrite elem_of_app. setoid_rewrite elem_of_cons.
    split; [|split; [|tauto]].
    + intros x [Hx|[->|Hx]]; [right|right|by left]; tauto.
    + right. apply elem_of_addrs. exists nq. rewrite elem_of_app, elem_of_cons. tauto.
Qed.

Lemma hi_live_not_ring h F live top a na b :
  hinv h F live top -> live !! a = Some na -> b ∈ ((base, 0) :: F).*1 -> a <> b.
Proof. intros I Ha (k & Hk)%elem_of_addrs. by destruct (hi_ring_free _ _ _ _ a na b k I Ha Hk). Qed.

Lemma take_exact h F live top A q nq p np C :
  hinv h F live top -> (base, 0) :: F = A ++ (q, nq) :: (p, np) :: C -> 0 < np ->
  exists h' F', take_block h np q p (Header (first_addr C base) np) = URet (h', p + 1) /\
    live !! p = None /\ hinv h' F' (<[p := np]> live) top.
Proof.
  intros I E Hn. pose proof (hi_ring_spaced _ _ _ _ I) as Hsp. pose proof (hi_ring _ _ _ _ I) as Hl. rewrite E in Hsp, Hl.
  destruct (ring_retail F A q nq C _ E) as (F' & EF & Hin & Hq & HY).
  pose proof (spaced_split _ _ _ _ _ _ Hsp) as (HA & _ & Hnq & (Hqp & _ & HC) & Hlt).
  unfold take_block. cbn [hd_size hd_ptr]. rewrite Z.eqb_refl, (hdr_found _ _ _ (linked_lookup _ _ _ _ _ _ Hl)).
  cbn [ubind hd_ptr hd_size]. eexists _, F'. split; [reflexivity|].
  pose proof (HY (p, np) ltac:(by left)) as HpF.
  assert (forall a, a ∈ A.*1 -> a <> q) as HAq.
  { intros a (k & Hk)%elem_of_addrs. pose proof (Hlt _ _ Hk). pose proof (spaced_bounds _ _ _ _ _ HA Hk). lia. }
  apply (hinv_take h _ F F' live top p np p np); try done; try lia; cbn [u_hdrs u_freep set_freep set_hdr].
  - rewrite <- EF. eapply linked_splice; [done|intros a Ha; by rewrite lookup_insert_ne by (apply not_eq_sym; auto)| |].
    + by rewrite lookup_insert_eq.
    + apply linked_insert; [|by apply linked_split in Hl as [_ (_ & _ & Hl)]].
      intros (k & Hk)%elem_of_addrs. pose proof (spaced_bounds _ _ _ _ _ HC Hk). lia.
  - enough (spaced (base - 1) ((base, 0) :: F') top) as (_ & _ & H) by (by rewrite Z.add_0_r in H).
    rewrite <- EF. eapply spaced_splice; [done|done|]. eapply spaced_weaken; [| |exact HC]; lia.
  - intros c k Hc. destruct (Hin _ Hc) as [HcC|[HcF HcA]].
    + pose proof (spaced_bounds _ _ _ _ _ HC HcC). pose proof (HY (c, k) ltac:(by right)) as HcF.
      pose proof (hi_sizes _ _ _ _ I c k HcF). split; [done|]. split; [lia|]. exists c, k. split; [done|lia].
    + pose proof (hi_sizes _ _ _ _ I c k HcF). split; [done|]. split; [right|exists c, k; split; [done|lia]].
      apply elem_of_app in HcA as [HcA|[= -> ->]%list_elem_of_singleton]; [|lia]. pose proof (Hlt _ _ HcA). lia.
  - rewrite lookup_insert_ne by lia. eexists. apply linked_split in Hl as [_ [_ [Hp _]]]. exact Hp.
  - intros a na Ha. rewrite lookup_insert_ne; [done|]. apply not_eq_sym. eapply hi_live_not_ring; [done..|].
    rewrite E, fmap_app, fmap_cons, elem_of_app, elem_of_cons. tauto.
Qed.

Lemma take_split h F live top A q nq p np C n :
  hinv h F live top -> (base, 0) :: F = A ++ (q, nq) :: (p, np) :: C -> 0 < n < np ->
  exists h' F', take_block h n q p (Header (first_addr C base) np) = URet (h', p + (np - n) + 1) /\
    live !! (p + (np - n)) = None /\ hinv h' F' (<[p + (np - n) := n]> live) top.
Proof.
  intros I E Hn. pose proof (hi_ring_spaced _ _ _ _ I) as Hsp. pose proof (hi_ring _ _ _ _ I) as Hl. rewrite E in Hsp, Hl.
  destruct (ring_retail F A q nq ((p, np - n) :: C) _ E) as (F' & EF & Hin & Hq & HY).
  pose proof (spaced_split _ _ _ _ _ _ Hsp) as (HA & _ & Hnq & (Hqp & _ & HC) & Hlt).
  unfold take_block. cbn [hd_size hd_ptr]. rewrite (proj2 (Z.eqb_neq np n)) by lia.
  cbv zeta. eexists _, F'. split; [reflexivity|].
  pose proof (HY (p, np) ltac:(by left)) as HpF.
  assert (forall a, a ∈ (A ++ [(q, nq)]).*1 -> a < p) as Hlow.
  { intros a (k & [Hk|[= -> ->]%list_elem_of_singleton]%elem_of_app)%elem_of_addrs; [|lia].
    pose proof (Hlt _ _ Hk). pose proof (spaced_bounds _ _ _ _ _ HA Hk). lia. }
  apply (hinv_take h _ F F' live top (p + (np - n)) n p np); try done; try lia; cbn [u_hdrs u_freep set_freep set_hdr].
  - rewrite <- EF, (cons_middle (q, nq)), (assoc_L (++)). rewrite (cons_middle (q, nq)), (assoc_L (++)) in Hl.
    eapply linked_splice; [done|intros a Ha%Hlow; by rewrite !lookup_insert_ne by lia| |].
    + by rewrite lookup_insert_ne, lookup_insert_eq by lia.
    + assert (forall a, a < p + np -> a ∉ C.*1) as HCa.
      { intros a Ha (k & Hk)%elem_of_addrs. pose proof (spaced_bounds _ _ _ _ _ HC Hk). lia. }
      apply linked_insert; [apply HCa; lia|]. apply linked_insert; [apply HCa; lia|].
      by apply linked_split in Hl as [_ (_ & Hl)].
  - enough (spaced (base - 1) ((base, 0) :: F') top) as (_ & _ & H) by (by rewrite Z.add_0_r in H).
    rewrite <- EF. eapply spaced_splice; [done|done|]. cbn. split; [done|]. split; [lia|].
    eapply spaced_weaken; [| |exact HC]; lia.
  - intros c k Hc. destruct (Hin _ Hc) as [[[= -> ->]|HcC]%elem_of_cons|[HcF HcA]].
    + split; [lia|]. split; [lia|]. exists p, np. split; [done|lia].
    + pose proof (spaced_bounds _ _ _ _ _ HC HcC). pose proof (HY (c, k) ltac:(by right)) as HcF.
      pose proof (hi_sizes _ _ _ _ I c k HcF). split; [done|]. split; [lia|]. exists c, k. split; [done|lia].
    + pose proof (hi_sizes _ _ _ _ I c k HcF). split; [done|]. split; [right|exists c, k; split; [done|lia]].
      apply elem_of_app in HcA as [HcA|[= -> ->]%list_elem_of_singleton]; [|lia]. pose proof (Hlt _ _ HcA). lia.
  - rewrite lookup_insert_eq. by eexists.
  - intros a na Ha. destruct (live_fresh _ _ _ _ (p + (np - n)) n _ _ I HpF ltac:(lia) ltac:(lia) ltac:(lia)) as [_ Hd].
    destruct (Hd a na Ha). rewrite !lookup_insert_ne; [done| |congruence].
    apply not_eq_sym. eapply hi_live_not_ring; [done..|].
    rewrite E, fmap_app, !fmap_cons, elem_of_app, !elem_of_cons. tauto.
Qed.

Lemma hi_base_header h F live top : hinv h F live top -> u_hdrs h !! base = Some (Header (first_addr F base) 0).
Proof. intros I. apply (hi_ring _ _ _ _ I). Qed.

Lemma take_ok h F live top n q p k x :
  hinv h F live top -> q ∈ base :: F.*1 -> u_hdrs h !! q = Some (Header p k) -> u_hdrs h !! p = Some x ->
  0 < n <= hd_size x ->
  exists h' F' b, take_block h n q p x = URet (h', b + 1) /\ live !! b = None /\ base < b /\
    hinv h' F' (<[b := n]> live) top.
Proof.
  intros I Hq Hqp Hp Hn. assert (p <> base) as Hpb.
  { intros ->. rewrite (hi_base_header _ _ _ _ I) in Hp. injection Hp as <-. cbn in Hn. lia. }
  destruct (ring_pred _ _ _ _ _ _ _ I Hq Hqp Hpb) as (A & nq & np & C & E & ->).
  pose proof (hi_ring _ _ _ _ I) as Hl. rewrite E in Hl.
  pose proof Hl as Hl'. apply linked_split in Hl' as [_ [_ [Hp' _]]]. rewrite Hp in Hp'. injection Hp' as ->. cbn in Hn.
  assert (base < p) as Hbp.
  { destruct (ring_retail F A q nq [] _ E) as (_ & _ & _ & _ & HY).
    apply (spaced_bounds _ _ _ p np (hi_spaced _ _ _ _ I)). apply HY. by left. }
  destruct (decide (np = n)) as [->|Hne].
  - destruct (take_exact _ _ _ _ _ _ _ _ _ _ I E ltac:(lia)) as (h' & F' & R & Hf & I').
    exists h', F', p. by repeat (split; [done|]).
  - destruct (take_split _ _ _ _ _ _ _ _ _ _ n I E ltac:(lia)) as (h' & F' & R & Hf & I').
    exists h', F', (p + (np - n)). split; [done|]. split; [done|]. split; [lia|done].
Qed.

(** ** The search *)

Definition more_branch (fuel : nat) (h : uheap) (n : Z) : uprog (uheap * Z) :=
  r <- morecore h n ;;
  let '(h, p) := r in
  if p =? 0 then URet (h, 0) else x <- hdr h p ;; malloc_loop fuel h n p (hd_ptr x).

Definition finds (h : uheap) (F : list block) (n : Z) (run : uprog (uheap * Z)) : Prop :=
  exists q p k x, q ∈ base :: F.*1 /\ u_hdrs h !! q = Some (Header p k) /\ u_hdrs h !! p = Some x /\
    n <= hd_size x /\ run = take_block h n q p x.

Lemma hi_freep_header h F live top : hinv h F live top -> exists x, u_hdrs h !! u_freep h = Some x.
Proof.
  intros I. pose proof (hi_freep _ _ _ _ I) as Hf. change (base :: F.*1) with ((base, 0) :: F).*1 in Hf.
  pose proof (linked_dom _ _ _ (hi_ring _ _ _ _ I)) as Hd. rewrite Forall_forall in Hd.
  by apply Hd, elem_of_dom in Hf.
Qed.

Lemma search h F live top n W q nq fuel :
  hinv h F live top -> linked (u_hdrs h) ((q, nq) :: W) (u_freep h) ->
  (forall x, x ∈ (q, nq) :: W -> x ∈ (base, 0) :: F) -> u_freep h ∉ W.*1 -> (length W < fuel)%nat ->
  finds h F n (malloc_loop fuel h n q (first_addr W (u_freep h))) \/
  ((forall a k, (a, k) ∈ W -> k < n) /\ (forall x, u_hdrs h !! u_freep h = Some x -> hd_size x < n) /\
   malloc_loop fuel h n q (first_addr W (u_freep h)) = more_branch (fuel - length W - 1) h n).
Proof.
  intros I. revert q nq fuel. induction W as [|[a na] W IH]; intros q nq fuel [Hq Hl] Hin Hnf Hfu;
    (destruct fuel as [|fuel]; [cbn in Hfu; lia|]);
    (assert (q ∈ base :: F.*1) as HqN
      by (apply (elem_of_addrs ((base, 0) :: F)); exists nq; apply Hin; by left)).
  - destruct (hi_freep_header _ _ _ _ I) as [x Hx]. cbn [first_addr malloc_loop] in *.
    rewrite (hdr_found _ _ _ Hx). cbn [ubind]. destruct (Z.leb_spec n (hd_size x)).
    + left. by exists q, (u_freep h), nq, x.
    + right. split; [by intros ? ? ?%elem_of_nil|]. split; [intros y; rewrite Hx; by intros [= <-]|].
      rewrite Z.eqb_refl. replace (S fuel - _ - 1)%nat with fuel by (cbn; lia). done.
  - destruct Hl as [Ha Hl]. cbn [first_addr malloc_loop] in *. rewrite (hdr_found _ _ _ Ha). cbn [ubind hd_size hd_ptr].
    cbn in Hnf, Hfu. apply not_elem_of_cons in Hnf as [Hna Hnf].
    destruct (Z.leb_spec n na); [left; by exists q, a, nq, (Header (first_addr W (u_freep h)) na)|].
    rewrite (proj2 (Z.eqb_neq a _)) by congruence.
    destruct (IH a na fuel) as [Hf|(HW & Hx & R)]; [done|intros x Hx; apply Hin; by right|done|lia|by left|].
    right. split; [|done]. intros b k [[= -> ->]|Hb]%elem_of_cons; [done|by apply (HW b k)].
Qed.

(** The ring from [freep] on. *)
Lemma ring_from_freep h F live top :
  hinv h F live top ->
  exists nf W, linked (u_hdrs h) ((u_freep h, nf) :: W) (u_freep h) /\ length W = length F /\
    u_freep h ∉ W.*1 /\ (forall x, x ∈ (u_freep h, nf) :: W <-> x ∈ (base, 0) :: F).
Proof.
  intros I. pose proof (hi_freep _ _ _ _ I) as Hf. change (base :: F.*1) with ((base, 0) :: F).*1 in Hf.
  apply elem_of_addrs in Hf as [nf Hf]. apply list_elem_of_split in Hf as (A & C & E).
  pose proof (hi_ring _ _ _ _ I) as Hl. pose proof (spaced_NoDup _ _ _ (hi_spaced _ _ _ _ I)) as Hnd.
  change (base :: F.*1) with ((base, 0) :: F).*1 in Hnd. rewrite E in Hl, Hnd.
  exists nf, (C ++ A). apply linked_split in Hl as [HlA HlC]. cbn [first_addr] in HlA. split; [|split; [|split]].
  - rewrite app_comm_cons. apply linked_split. split; [|done].
    replace (first_addr A (u_freep h)) with base; [done|]. by destruct A as [|x A]; injection E as <- _.
  - apply (f_equal length) in E. rewrite length_app in *. cbn [length] in E. lia.
  - rewrite fmap_app, fmap_cons, list.NoDup_app, list.NoDup_cons in Hnd. destruct Hnd as (_ & HA & HC & _).
    rewrite fmap_app, not_elem_of_app. split; [done|]. intros Ha. apply (HA _ Ha). by left.
  - intros x. rewrite E, !elem_of_cons, !elem_of_app, elem_of_cons. tauto.
Qed.

Lemma malloc_search h F live top n x fuel :
  hinv h F live top -> 0 < n -> u_hdrs h !! u_freep h = Some x -> (length F < fuel)%nat ->
  finds h F n (malloc_loop fuel h n (u_freep h) (hd_ptr x)) \/
  ((forall b k, (b, k) ∈ F -> k < n) /\
   malloc_loop fuel h n (u_freep h) (hd_ptr x) = more_branch (fuel - length F - 1) h n).
Proof.
  intros I Hn Hx Hfu. destruct (ring_from_freep _ _ _ _ I) as (nf & W & Hl & Hlen & Hnf & Hin).
  pose proof Hl as [Hx' _]. rewrite Hx in Hx'. injection Hx' as ->. cbn [hd_ptr].
  destruct (search _ _ _ _ n W (u_freep h) nf fuel I Hl) as [Hf|(HW & Hfr & R)];
    [intros y; apply Hin|done|lia|by left|right].
  rewrite <- Hlen. split; [|done]. intros b k Hb.
  assert ((b, k) ∈ (u_freep h, nf) :: W) as [[= -> ->]|Hb']%elem_of_cons by (apply Hin; by right).
  - apply (Hfr _ Hx).
  - by apply (HW b k).
Qed.

(** ** More memory *)

Lemma hinv_grow h F live top u n top' q :
  hinv h F live top -> top <= u -> 0 < n -> u + n <= top' -> top' < 2 ^ 32 ->
  hinv (set_hdr u (Header q n) h) F (<[u := n]> live) top' /\ live !! u = None.
Proof.
  intros I Hu Hn Ht Hs. pose proof (hi_top _ _ _ _ I) as Hbt.
  pose proof (fun a na => hi_live _ _ _ _ I a na) as HL.
  pose proof (fun b k => spaced_bounds _ _ _ b k (hi_spaced _ _ _ _ I)) as HF.
  destruct (live !! u) as [k|] eqn:Ek; [destruct (HL _ _ Ek) as (_ & ? & ? & _); lia|]. split; [|done].
  split; cbn [u_hdrs u_freep set_hdr].
  - apply (hi_base _ _ _ _ I).
  - lia.
  - apply linked_insert; [|apply (hi_ring _ _ _ _ I)].
    intros (k & [[= -> ->]|Hk]%elem_of_cons)%elem_of_addrs; [lia|]. destruct (HF _ _ Hk) as (_ & ? & ?).
    pose proof (hi_sizes _ _ _ _ I _ _ Hk). lia.
  - eapply spaced_weaken; [| |apply (hi_spaced _ _ _ _ I)]; lia.
  - apply (hi_sizes _ _ _ _ I).
  - apply (hi_freep _ _ _ _ I).
  - intros a na [[<- <-]|[Hne Ha]]%lookup_insert_Some.
    + split; [lia|]. split; [lia|]. split; [lia|]. exists q. apply lookup_insert_eq.
    + destruct (HL _ _ Ha) as (? & ? & ? & r & Hr). rewrite lookup_insert_ne by done.
      split; [done|]. split; [done|]. split; [lia|]. by exists r.
  - intros a na b k [[<- <-]|[Hne Ha]]%lookup_insert_Some [[<- <-]|[Hne' Hb]]%lookup_insert_Some Hlt.
    + lia.
    + destruct (HL _ _ Hb) as (? & ? & ? & _). lia.
    + destruct (HL _ _ Ha) as (? & ? & ? & _). lia.
    + by apply (hi_apart _ _ _ _ I a na b k).
  - intros a na b k [[<- <-]|[Hne Ha]]%lookup_insert_Some Hb; [|by apply (hi_free _ _ _ _ I a na b k)].
    destruct (HF _ _ Hb). lia.
Qed.

(** What sbrk promises: it fails, or gives memory above all given before. *)
Definition sbrk_spec {S} (os : ucall -> S -> Z * list Z * S) (brk : S -> Z) : Prop :=
  forall n s, 0 <= n < 2 ^ 31 -> n mod 16 = 0 ->
    exists r bs s', os (Csbrk n) s = (r, bs, s') /\
      ((r = -1 /\ brk s' = brk s) \/
       exists u, r = u * 16 /\ brk s <= u /\ brk s' = u + n / 16 /\ brk s' < 2 ^ 32).

Section Calls.
Context {S : Type} (os : ucall -> S -> Z * list Z * S) (brk : S -> Z) (Hsbrk : sbrk_spec os brk).

Lemma morecore_ok h F live s nu :
  hinv h F live (brk s) -> 0 < nu < 2 ^ 27 ->
  exists h' F' r s', urun os (morecore h nu) s = (Returned (h', r), s') /\ hinv h' F' live (brk s') /\
    (length F' <= Datatypes.S (length F))%nat /\
    (r = 0 \/ (r <> 0 /\ r = u_freep h' /\ exists b k, (b, k) ∈ F' /\ nu <= k)).
Proof.
  intros I Hnu. unfold morecore. cbv zeta. set (m := if nu <? 4096 then 4096 else nu).
  assert (nu <= m < 2 ^ 27) as Hm by (unfold m; destruct (Z.ltb_spec nu 4096); lia).
  assert (i32 (m * 16) = m * 16) as -> by (unfold i32; rewrite Z.mod_small by lia; destruct (Z.ltb_spec (m * 16) (2 ^ 31)); lia).
  destruct (Hsbrk (m * 16) s) as (r & bs & s' & E & Hr); [lia|apply Z.mod_mul; lia|].
  cbn [sys ubind urun]. rewrite E. destruct Hr as [[-> Hb]|(u & -> & Hu & Hb & Hs)].
  - exists h, F, 0, s'. rewrite Hb. split; [done|]. split; [done|]. split; [lia|by left].
  - pose proof (hi_base _ _ _ _ I) as H0. pose proof (hi_top _ _ _ _ I) as Ht.
    rewrite (proj2 (Z.eqb_neq (u * 16) (-1))) by lia. rewrite Z.div_mul in * by lia.
    edestruct (hinv_grow h F live (brk s) u m (brk s')) as [I' Hnone]; [done|done|lia|lia|done|].
    destruct (ufree_ok _ _ _ _ u m I') as (h' & F' & R & I'' & Hlen & b & k & Hin & Hk); [apply lookup_insert_eq|].
    rewrite R. cbn [ubind urun]. rewrite delete_insert_id in I'' by done.
    exists h', F', (u_freep h'), s'. split; [done|]. split; [done|]. split; [done|]. right.
    pose proof (hi_freep _ _ _ _ I'') as Hf. split; [|split; [done|exists b, k; split; [done|lia]]].
    pose proof (hi_spaced _ _ _ _ I'') as Hsp.
    apply elem_of_cons in Hf as [->|(j & Hj)%elem_of_addrs]; [lia|]. pose proof (spaced_bounds _ _ _ _ _ Hsp Hj). lia.
Qed.

(** ** malloc *)

(** Before the first malloc [freep] is null and nothing is handed out. *)
Definition uheap_ok (h : uheap) (live : gmap Z Z) (top : Z) : Prop :=
  (u_freep h = 0 /\ live = ∅ /\ 0 < base /\ base < top < 2 ^ 32) \/ exists F, hinv h F live top.

Lemma take_found h F live s n run :
  hinv h F live (brk s) -> 0 < n -> finds h F n run ->
  exists h' r, urun os run s = (Returned (h', r), s) /\ r <> 0 /\ live !! (r - 1) = None /\
    uheap_ok h' (<[r - 1 := n]> live) (brk s).
Proof.
  intros I Hn (q & p & k & x & Hq & Hqp & Hp & Hnx & ->).
  destruct (take_ok _ _ _ _ n _ _ _ _ I Hq Hqp Hp ltac:(lia)) as (h' & F' & b & -> & Hnone & Hb & I').
  pose proof (hi_base _ _ _ _ I). exists h', (b + 1). replace (b + 1 - 1) with b by lia.
  split; [done|]. split; [lia|]. split; [done|]. right. by exists F'.
Qed.

Definition malloc_result (live : gmap Z Z) (n : Z) (h' : uheap) (r : Z) (s' : S) : Prop :=
  (r = 0 /\ uheap_ok h' live (brk s')) \/
  (r <> 0 /\ live !! (r - 1) = None /\ uheap_ok h' (<[r - 1 := n]> live) (brk s')).

Lemma malloc_loop_ok h F live s n x fuel :
  hinv h F live (brk s) -> 0 < n < 2 ^ 27 -> u_hdrs h !! u_freep h = Some x -> (2 * length F + 2 < fuel)%nat ->
  exists h' r s', urun os (malloc_loop fuel h n (u_freep h) (hd_ptr x)) s = (Returned (h', r), s') /\
    malloc_result live n h' r s'.
Proof.
  intros I Hn Hx Hfu. destruct (malloc_search h F live (brk s) n x fuel I ltac:(lia) Hx ltac:(lia)) as [Hf|[_ ->]].
  { destruct (take_found h F live s n _ I ltac:(lia) Hf) as (h' & r & R & Hr). exists h', r, s. split; [done|by right]. }
  unfold more_branch. rewrite urun_bind.
  destruct (morecore_ok _ _ _ _ n I Hn) as (h1 & F1 & r & s1 & -> & I1 & Hlen & [->|(Hr & -> & b & k & Hin & Hk)]).
  { exists h1, 0, s1. split; [done|]. left. split; [done|]. right. by exists F1. }
  rewrite (proj2 (Z.eqb_neq _ 0) Hr). destruct (hi_freep_header _ _ _ _ I1) as [y Hy].
  rewrite (hdr_found _ _ _ Hy). cbn [ubind].
  destruct (malloc_search h1 F1 live (brk s1) n y (fuel - length F - 1) I1 ltac:(lia) Hy ltac:(lia)) as [Hf|[Hnone _]].
  - destruct (take_found h1 F1 live s1 n _ I1 ltac:(lia) Hf) as (h' & r & R & Hr'). exists h', r, s1. split; [done|by right].
  - specialize (Hnone b k Hin). lia.
Qed.

Lemma nunits_of_small nbytes : 0 <= nbytes < 2 ^ 31 - 64 -> 0 < nunits_of nbytes < 2 ^ 27.
Proof.
  intros H. unfold nunits_of, u32. pose proof (Z.div_pos (nbytes + 16 - 1) 16).
  assert ((nbytes + 16 - 1) / 16 < 2 ^ 27 - 2) by (apply Z.div_lt_upper_bound; lia). rewrite Z.mod_small; lia.
Qed.

Lemma malloc_ok h live s nbytes :
  uheap_ok h live (brk s) -> 0 <= nbytes < 2 ^ 31 - 64 ->
  exists h' r s', urun os (malloc base h nbytes) s = (Returned (h', r), s') /\
    malloc_result live (nunits_of nbytes) h' r s'.
Proof.
  intros Hok Hnb. pose proof (nunits_of_small _ Hnb) as Hn. unfold malloc. cbv zeta.
  set (h1 := if u_freep h =? 0 then _ else h).
  assert (exists F, hinv h1 F live (brk s)) as [F I].
  { unfold h1. destruct Hok as [(-> & -> & Hb & Ht)|[F I]].
    - cbn [Z.eqb]. exists []. split; cbn; try done; try lia; rewrite ?lookup_insert_eq.
      + done.
      + by intros b k ?%elem_of_nil.
      + by left.
    - exists F. pose proof (hi_base _ _ _ _ I) as Hb. pose proof (hi_freep _ _ _ _ I) as Hf.
      rewrite (proj2 (Z.eqb_neq (u_freep h) 0)); [done|].
      apply elem_of_cons in Hf as [->|(j & Hj)%elem_of_addrs]; [lia|].
      pose proof (spaced_bounds _ _ _ _ _ (hi_spaced _ _ _ _ I) Hj). lia. }
  destruct (hi_freep_header _ _ _ _ I) as [x Hx]. rewrite (hdr_found _ _ _ Hx). cbn [ubind].
  apply (malloc_loop_ok _ F); [done..|]. pose proof (hi_ring_length _ _ _ _ I). lia.
Qed.

(** ** Sequences of calls *)

(** A program that frees only what it holds. *)
Inductive mstep : uheap * gmap Z Z * S -> uheap * gmap Z Z * S -> Prop :=
| m_null h live s nbytes h' s' :
    0 <= nbytes < 2 ^ 31 - 64 -> urun os (malloc base h nbytes) s = (Returned (h', 0), s') ->
    mstep (h, live, s) (h', live, s')
| m_malloc h live s nbytes h' r s' :
    0 <= nbytes < 2 ^ 31 - 64 -> urun os (malloc base h nbytes) s = (Returned (h', r), s') -> r <> 0 ->
    mstep (h, live, s) (h', <[r - 1 := nunits_of nbytes]> live, s')
| m_free h live s bp n h' s' :
    live !! bp = Some n -> urun os (ufree h bp) s = (Returned h', s') ->
    mstep (h, live, s) (h', delete bp live, s').

Lemma ufree_live h live s bp n :
  uheap_ok h live (brk s) -> live !! bp = Some n ->
  exists h', urun os (ufree h bp) s = (Returned h', s) /\ uheap_ok h' (delete bp live) (brk s).
Proof.
  intros [(_ & -> & _)|[F I]] Hbp; [done|].
  destruct (ufree_ok _ _ _ _ _ _ I Hbp) as (h' & F' & -> & I' & _). exists h'. split; [done|]. right. by exists F'.
Qed.

Lemma mstep_ok st st' :
  mstep st st' -> uheap_ok (fst (fst st)) (snd (fst st)) (brk (snd st)) ->
  uheap_ok (fst (fst st')) (snd (fst st')) (brk (snd st')).
Proof.
  intros [h live s nb h' s' Hnb R|h live s nb h' r s' Hnb R Hr|h live s bp n h' s' Hbp R]; cbn; intros Hok.
  - destruct (malloc_ok _ _ _ _ Hok Hnb) as (h2 & r2 & s2 & R2 & Hres). rewrite R in R2. injection R2 as <- <- <-.
    destruct Hres as [[_ H]|[? _]]; done.
  - destruct (malloc_ok _ _ _ _ Hok Hnb) as (h2 & r2 & s2 & R2 & Hres). rewrite R in R2. injection R2 as <- <- <-.
    destruct Hres as [[? _]|(_ & _ & H)]; done.
  - destruct (ufree_live _ _ _ _ _ Hok Hbp) as (h2 & R2 & H). rewrite R in R2. by injection R2 as <- <-.
Qed.

Lemma uheap_ok_apart h live top a n b k :
  uheap_ok h live top -> live !! a = Some n -> live !! b = Some k -> a <> b -> a + n <= b \/ b + k <= a.
Proof.
  intros [(_ & -> & _)|[F I]] Ha Hb Hne; [done|]. destruct (Z.lt_total a b) as [?|[?|?]]; [left|done|right].
  - by apply (hi_apart _ _ _ _ I a n b k).
  - by apply (hi_apart _ _ _ _ I b k a n).
Qed.
End Calls.
End Heap.


(** A kernel with plenty of memory from address 4096 * 16 on. *)
Definition demo_os (c : ucall) (brk : Z) : Z * list Z * Z :=
  match c with
  | Csbrk n => if brk + n / 16 <? 2 ^ 32 then (brk * 16, [], brk + n / 16) else (-1, [], brk)
  | _ => (0, [], brk)
  end.

Lemma demo_sbrk : sbrk_spec demo_os (fun brk => brk).
Proof.
  intros n s Hn Hm. cbn [demo_os]. destruct (Z.ltb_spec (s + n / 16) (2 ^ 32)); eexists _, _, _; (split; [done|]).
  - right. exists s. by repeat split; try lia.
  - by left.
Qed.

Definition demo_call (h : uheap) (s nbytes : Z) : uheap * Z * Z :=
  match urun demo_os (malloc 100 h nbytes) s with (Returned (h', r), s') => (h', r, s') | _ => (h, 0, s) end.
Definition demo_1 := demo_call (UHeap ∅ 0) 4096 100.
Definition demo_2 := demo_call (fst (fst demo_1)) (snd demo_1) 20.

Definition demo_live : gmap Z Z := <[8181 := 3]> (<[8184 := 8]> ∅).


(** The size asked of sbrk is cut to an int: a request for 2^32 - 1 bytes grows
    the heap by one header and returns a block that lies beyond its end. *)
Example malloc_huge_request : exists h,
  urun demo_os (malloc 100 (UHeap ∅ 0) (2 ^ 32 - 1)) 4096 = (Returned (h, 4097), 4097).
Proof. eexists. vm_compute. reflexivity. Qed.
