(* ===== verification/Uprogs.v ===== *)
(** * User programs (user/*.c)

    The small programs as trees of system calls: init, cat, wc, echo, ls, find,
    kill, ln, mkdir, rm, sleep, zombie, primes, stressfs, forktest and call.
    Loops that only the kernel ends take fuel.  [argv] is the list of arguments,
    its length argc. *)

From Stdlib Require Import ZArith Lia.
From stdpp Require Import base list strings.
From S2P Require Import Prelude CString Printf Ulib Grep.
Local Open Scope user_scope.

Definition str (s : list Z) : arg := AStr (Some s).

(** ** init.c *)

(** while((wpid=wait()) >= 0 && wpid != pid) *)
Fixpoint init_wait (fuel : nat) (pid : Z) : uprog unit :=
  match fuel with
  | O => UStuck
  | S fuel' =>
      wpid <- sys Cwait ;;
      if (0 <=? wpid) && negb (wpid =? pid) then init_wait fuel' pid else URet tt
  end.

Fixpoint init_loop (fuel : nat) : uprog unit :=
  match fuel with
  | O => UStuck
  | S fuel' =>
      uprintf (ln "init: starting sh") [] ;;;
      pid <- sys Cfork ;;
      if pid <? 0 then uprintf (ln "init: fork failed") [] ;;; UExit
      else if pid =? 0 then
        sys (Cexec (chars "sh") [chars "sh"]) ;;;
        uprintf (ln "init: exec sh failed") [] ;;;
        UExit
      else init_wait fuel' pid ;;; init_loop fuel'
  end.

Definition init_main (fuel : nat) : uprog unit :=
  fd <- sys (Copen (chars "console") O_RDWR) ;;
  (if fd <? 0 then
     sys (Cmknod (chars "console") 1 1) ;;; sys (Copen (chars "console") O_RDWR) ;;; URet tt
   else URet tt) ;;;
  sys (Cdup 0) ;;;
  sys (Cdup 0) ;;;
  init_loop fuel.

(** ** cat.c *)

Fixpoint cat (fuel : nat) (fd : Z) : uprog unit :=
  match fuel with
  | O => UStuck
  | S fuel' =>
      r <- sys_bytes (Cread fd 512) ;;
      if 0 <? fst r then
        w <- sys (Cwrite 1 (snd r)) ;;
        if negb (w =? fst r) then uprintf (ln "cat: write error") [] ;;; UExit else cat fuel' fd
      else if fst r <? 0 then uprintf (ln "cat: read error") [] ;;; UExit
      else URet tt
  end.

Fixpoint cat_files (fuel : nat) (files : list (list Z)) : uprog unit :=
  match files with
  | [] => UExit
  | f :: files' =>
      fd <- sys (Copen f 0) ;;
      if fd <? 0 then uprintf (ln "cat: cannot open %s") [str f] ;;; UExit
      else cat fuel fd ;;; sys (Cclose fd) ;;; cat_files fuel files'
  end.

Definition cat_main (fuel : nat) (argv : list (list Z)) : uprog unit :=
  if (length argv <=? 1)%nat then cat fuel 0 ;;; UExit else cat_files fuel (drop 1 argv).

(** ** wc.c *)

Record counts := Counts { wc_l : Z; wc_w : Z; wc_c : Z; wc_inword : bool }.

Definition wc_char (x : counts) (b : Z) : counts :=
  let c := i32 (wc_c x + 1) in
  let l := if b =? 10 then i32 (wc_l x + 1) else wc_l x in
  if bool_decide (is_Some (strchr [32; 13; 9; 10; 11] b)) then Counts l (wc_w x) c false
  else if negb (wc_inword x) then Counts l (i32 (wc_w x + 1)) c true
  else Counts l (wc_w x) c true.

Fixpoint wc_loop (fuel : nat) (fd : Z) (x : counts) : uprog counts :=
  match fuel with
  | O => UStuck
  | S fuel' =>
      r <- sys_bytes (Cread fd 512) ;;
      if 0 <? fst r then wc_loop fuel' fd (foldl wc_char x (snd r))
      else if fst r <? 0 then uprintf (ln "wc: read error") [] ;;; UExit
      else URet x
  end.

Definition wc (fuel : nat) (fd : Z) (name : list Z) : uprog unit :=
  x <- wc_loop fuel fd (Counts 0 0 0 false) ;;
  uprintf (ln "%d %d %d %s") [AInt (wc_l x); AInt (wc_w x); AInt (wc_c x); str name].

Fixpoint wc_files (fuel : nat) (files : list (list Z)) : uprog unit :=
  match files with
  | [] => UExit
  | f :: files' =>
      fd <- sys (Copen f 0) ;;
      if fd <? 0 then uprintf (ln "wc: cannot open %s") [str f] ;;; UExit
      else wc fuel fd f ;;; sys (Cclose fd) ;;; wc_files fuel files'
  end.

Definition wc_main (fuel : nat) (argv : list (list Z)) : uprog unit :=
  if (length argv <=? 1)%nat then wc fuel 0 [] ;;; UExit else wc_files fuel (drop 1 argv).

(** ** echo.c, kill.c, ln.c, mkdir.c, rm.c, sleep.c, zombie.c *)

Fixpoint echo_args (args : list (list Z)) : uprog unit :=
  match args with
  | [] => UExit
  | a :: args' =>
      sys (Cwrite 1 (cstr a)) ;;;
      sys (Cwrite 1 (match args' with [] => [10] | _ => [32] end)) ;;;
      echo_args args'
  end.
Definition echo_main (argv : list (list Z)) : uprog unit := echo_args (drop 1 argv).

Fixpoint kill_args (args : list (list Z)) : uprog unit :=
  match args with [] => UExit | a :: args' => sys (Ckill (atoi a)) ;;; kill_args args' end.
Definition kill_main (argv : list (list Z)) : uprog unit :=
  if (length argv <? 2)%nat then fprintf 2 (ln "usage: kill pid...") [] ;;; UExit else kill_args (drop 1 argv).

Definition ln_main (argv : list (list Z)) : uprog unit :=
  match argv with
  | [_; old; new] =>
      r <- sys (Clink old new) ;;
      (if r <? 0 then fprintf 2 (ln "link %s %s: failed") [str old; str new] else URet tt) ;;;
      UExit
  | _ => fprintf 2 (ln "Usage: ln old new") [] ;;; UExit
  end.

Fixpoint mkdir_args (args : list (list Z)) : uprog unit :=
  match args with
  | [] => UExit
  | a :: args' =>
      r <- sys (Cmkdir a) ;;
      if r <? 0 then fprintf 2 (ln "mkdir: %s failed to create") [str a] ;;; UExit else mkdir_args args'
  end.
Definition mkdir_main (argv : list (list Z)) : uprog unit :=
  if (length argv <? 2)%nat then fprintf 2 (ln "Usage: mkdir files...") [] ;;; UExit else mkdir_args (drop 1 argv).

Fixpoint rm_args (args : list (list Z)) : uprog unit :=
  match args with
  | [] => UExit
  | a :: args' =>
      r <- sys (Cunlink a) ;;
      if r <? 0 then fprintf 2 (ln "rm: %s failed to delete") [str a] ;;; UExit else rm_args args'
  end.
Definition rm_main (argv : list (list Z)) : uprog unit :=
  if (length argv <? 2)%nat then fprintf 2 (ln "Usage: rm files...") [] ;;; UExit else rm_args (drop 1 argv).

Inductive cmd_parse := wrong_char | success_parse | toomany_char.

Definition parse_cmd (argv : list (list Z)) : option cmd_parse :=
  if (2 <? length argv)%nat then Some toomany_char
  else
    match argv !! 1%nat with
    | None => None
    | Some a => Some (if forallb (fun c => (48 <=? c) && (c <=? 57)) (cstr a) then success_parse else wrong_char)
    end.

Definition sleep_main (argv : list (list Z)) : uprog unit :=
  if (length argv =? 1)%nat then uprintf (chars "Please enter the parameters!") [] ;;; UExit
  else
    match parse_cmd argv with
    | None => UUndef
    | Some toomany_char => uprintf (ln "Too many args! ") [] ;;; UExit
    | Some wrong_char => uprintf (ln "Cannot input alphabet, number only ") [] ;;; UExit
    | Some success_parse => sys (Csleep (atoi (nth 1 argv []))) ;;; UExit
    end.

Definition zombie_main : uprog unit :=
  pid <- sys Cfork ;;
  (if 0 <? pid then sys (Csleep 5) ;;; URet tt else URet tt) ;;;
  UExit.

(** ** ls.c *)

(** Fields of the struct stat at the bytes of fstat. *)
Definition st_ino (bs : list Z) : Z := le_val (bytes_at 4 4 bs).
Definition st_type (bs : list Z) : Z := i16 (le_val (bytes_at 8 2 bs)).
Definition st_size (bs : list Z) : Z := le_val (bytes_at 16 8 bs).

(** for(p=path+strlen(path); p >= path && *p != '/'; p--) ; p++; *)
Fixpoint after_slash (n : nat) (path : list Z) : nat :=
  if chr path n =? 47 then S n else match n with O => O | S n' => after_slash n' path end.
Definition base_name (path : list Z) : list Z := cstr (drop (after_slash (strlen path) path) path).

(** The blank-padded name. *)
Definition ls_fmtname (path : list Z) : list Z :=
  let p := base_name path in
  if (DIRSIZ <=? strlen p)%nat then p else p ++ replicate (DIRSIZ - strlen p) 32.

(** [buf] holds the path, a slash and the name of the entry. *)
Definition entry_path (path de : list Z) : list Z := path ++ [47] ++ cstr (bytes_at 2 DIRSIZ de).

Fixpoint ls_entries (fuel : nat) (fd : Z) (path : list Z) : uprog unit :=
  match fuel with
  | O => UStuck
  | S fuel' =>
      r <- sys_bytes (Cread fd 16) ;;
      if negb (fst r =? 16) then URet tt
      else if le_val (bytes_at 0 2 (snd r)) =? 0 then ls_entries fuel' fd path
      else
        let buf := entry_path path (snd r) in
        s <- ustat buf ;;
        if fst s <? 0 then uprintf (ln "ls: cannot stat %s") [str buf] ;;; ls_entries fuel' fd path
        else
          uprintf (ln "%s %d %d %d")
            [str (ls_fmtname buf); AInt (st_type (snd s)); AInt (st_ino (snd s)); AInt (st_size (snd s))] ;;;
          ls_entries fuel' fd path
  end.

Definition ls (fuel : nat) (path : list Z) : uprog unit :=
  fd <- sys (Copen path 0) ;;
  if fd <? 0 then fprintf 2 (ln "ls: cannot open %s") [str path]
  else
    s <- sys_bytes (Cfstat fd) ;;
    if fst s <? 0 then fprintf 2 (ln "ls: cannot stat %s") [str path] ;;; sys (Cclose fd) ;;; URet tt
    else
      (if st_type (snd s) =? T_FILE then
         uprintf (ln "%s %d %d %l")
           [str (ls_fmtname path); AInt (st_type (snd s)); AInt (st_ino (snd s)); APtr (st_size (snd s))]
       else if st_type (snd s) =? T_DIR then
         if (512 <? strlen path + 1 + DIRSIZ + 1)%nat then uprintf (ln "ls: path too long") []
         else ls_entries fuel fd path
       else URet tt) ;;;
      sys (Cclose fd) ;;;
      URet tt.

Fixpoint ls_args (fuel : nat) (args : list (list Z)) : uprog unit :=
  match args with [] => UExit | a :: args' => ls fuel a ;;; ls_args fuel args' end.
Definition ls_main (fuel : nat) (argv : list (list Z)) : uprog unit :=
  if (length argv <? 2)%nat then ls fuel (chars ".") ;;; UExit else ls_args fuel (drop 1 argv).

(** ** find.c *)

(** [re] is a null pointer when it was not given.  [find] calls itself on the
    entries of a directory: the recursion and the loop share the fuel. *)
Fixpoint find (fuel : nat) (path : list Z) (re : option (list Z)) : uprog unit :=
  match fuel with
  | O => UStuck
  | S fuel' =>
      fd <- sys (Copen path 0) ;;
      if fd <? 0 then fprintf 2 (ln "find: cannot open %s") [str path]
      else
        s <- sys_bytes (Cfstat fd) ;;
        if fst s <? 0 then fprintf 2 (ln "find: cannot stat %s") [str path] ;;; sys (Cclose fd) ;;; URet tt
        else
          (if st_type (snd s) =? T_FILE then
             match re with
             | None => UUndef
             | Some re => if match_re re (base_name path) then uprintf (ln "%s") [str path] else URet tt
             end
           else if st_type (snd s) =? T_DIR then
             if (512 <? strlen path + 1 + DIRSIZ + 1)%nat then uprintf (ln "find: path too long") []
             else find_entries fuel' fd path re
           else URet tt) ;;;
          sys (Cclose fd) ;;;
          URet tt
  end
with find_entries (fuel : nat) (fd : Z) (path : list Z) (re : option (list Z)) : uprog unit :=
  match fuel with
  | O => UStuck
  | S fuel' =>
      r <- sys_bytes (Cread fd 16) ;;
      if negb (fst r =? 16) then URet tt
      else if le_val (bytes_at 0 2 (snd r)) =? 0 then find_entries fuel' fd path re
      else
        let buf := entry_path path (snd r) in
        s <- ustat buf ;;
        if fst s <? 0 then uprintf (ln "find: cannot stat %s") [str buf] ;;; find_entries fuel' fd path re
        else if (strcmp (chars ".") (base_name buf) =? 0) || (strcmp (chars "..") (base_name buf) =? 0) then
          find_entries fuel' fd path re
        else find fuel' buf re ;;; find_entries fuel' fd path re
  end.

Definition find_main (fuel : nat) (argv : list (list Z)) : uprog unit :=
  match argv with
  | _ :: path :: rest => find fuel path (hd_error rest) ;;; UExit
  | _ => uprintf (ln "Parameters are not enough") [] ;;; UExit
  end.

(** ** primes.c *)

Definition generate_nums : list Z := Z.of_nat <$> seq 2 34.

Fixpoint send_loop (fd : Z) (infos : list Z) : uprog unit :=
  match infos with
  | [] => URet tt
  | info :: infos' => sys (Cwrite fd (le_bytes 4 info)) ;;; send_loop fd infos'
  end.
Definition send_primes (pd0 pd1 : Z) (infos : list Z) : uprog unit :=
  sys (Cclose pd0) ;;; send_loop pd1 infos.

(** A variable of type int after a read into it; [None] is uninitialised. *)
Definition read_int (fd : Z) (n : option Z) : uprog (Z * option Z) :=
  r <- sys_bytes (Cread fd 4) ;;
  URet (fst r, if fst r =? 4 then Some (int_at (snd r) 0) else n).

(** while(len != 0): the number is tested also after the read that finds the
    end of the pipe; [infos] has room for 34. *)
Fixpoint sieve_loop (fuel : nat) (fd p len : Z) (n : option Z) (infos : list Z) : uprog (list Z) :=
  match fuel with
  | O => UStuck
  | S fuel' =>
      if len =? 0 then URet infos
      else
        r <- read_int fd n ;;
        let '(len, n) := r in
        match n with
        | None => UUndef
        | Some x =>
            if p =? 0 then UUndef
            else if negb (Z.rem x p =? 0) then
              if (34 <=? length infos)%nat then UUndef
              else sieve_loop fuel' fd p len n (infos ++ [x])
            else sieve_loop fuel' fd p len n infos
        end
  end.

Fixpoint process (fuel : nat) (pd0 pd1 : Z) : uprog unit :=
  match fuel with
  | O => UStuck
  | S fuel' =>
      c <- sys_bytes Cpipe ;;
      let c0 := int_at (snd c) 0 in
      let c1 := int_at (snd c) 1 in
      sys (Cclose pd1) ;;;
      r <- read_int pd0 None ;;
      match snd r with
      | None => UUndef
      | Some p =>
          uprintf (ln "prime %d") [AInt p] ;;;
          infos <- sieve_loop fuel' pd0 p (fst r) None [] ;;
          sys (Cclose pd0) ;;;
          if (length infos =? 0)%nat then UExit
          else
            pid <- sys Cfork ;;
            if pid =? 0 then process fuel' c0 c1 else send_primes c0 c1 infos
      end
  end.

Definition primes_main (fuel : nat) : uprog unit :=
  pd <- sys_bytes Cpipe ;;
  let pd0 := int_at (snd pd) 0 in
  let pd1 := int_at (snd pd) 1 in
  pid <- sys Cfork ;;
  if pid =? 0 then process fuel pd0 pd1 ;;; UExit
  else send_primes pd0 pd1 generate_nums ;;; UExit.

(** ** stressfs.c *)

(** for(i = 0; i < 4; i++) if(fork() > 0) break; *)
Fixpoint stressfs_forks (n : nat) (i : Z) : uprog Z :=
  match n with
  | O => URet i
  | S n' => pid <- sys Cfork ;; if 0 <? pid then URet i else stressfs_forks n' (i + 1)
  end.

Fixpoint times (n : nat) (p : uprog unit) : uprog unit :=
  match n with O => URet tt | S n' => p ;;; times n' p end.

Definition stressfs_main : uprog unit :=
  uprintf (ln "stressfs starting") [] ;;;
  let data := replicate 512 97 in
  i <- stressfs_forks 4 0 ;;
  uprintf (ln "write %d") [AInt i] ;;;
  let path := chars "stressfs" ++ [u8 (48 + i)] in
  fd <- sys (Copen path (Z.lor O_CREATE O_RDWR)) ;;
  times 20 (sys (Cwrite fd data) ;;; URet tt) ;;;
  sys (Cclose fd) ;;;
  uprintf (ln "read") [] ;;;
  fd <- sys (Copen path O_RDONLY) ;;
  times 20 (sys (Cread fd 512) ;;; URet tt) ;;;
  sys (Cclose fd) ;;;
  sys Cwait ;;;
  UExit.

(** ** forktest.c *)

Definition FORKS : nat := 1000.

Definition fprint (s : list Z) : uprog unit := sys (Cwrite 1 s) ;;; URet tt.

(** The forks that succeed, at most [m] more after [n]. *)
Fixpoint forktest_forks (m n : nat) : uprog nat :=
  match m with
  | O => URet n
  | S m' =>
      pid <- sys Cfork ;;
      if pid <? 0 then URet n
      else if pid =? 0 then UExit
      else forktest_forks m' (S n)
  end.

Fixpoint forktest_waits (n : nat) : uprog unit :=
  match n with
  | O => URet tt
  | S n' =>
      r <- sys Cwait ;;
      if r <? 0 then fprint (ln "wait stopped early") ;;; UExit else forktest_waits n'
  end.

Definition forktest : uprog unit :=
  fprint (ln "fork test") ;;;
  n <- forktest_forks FORKS 0 ;;
  if (n =? FORKS)%nat then fprint (ln "fork claimed to work N times!") ;;; UExit
  else
    forktest_waits n ;;;
    r <- sys Cwait ;;
    if negb (r =? -1) then fprint (ln "wait got too many") ;;; UExit
    else fprint (ln "fork test OK").

Definition forktest_main : uprog unit := forktest ;;; UExit.

(** ** call.c *)

Definition call_g (x : Z) : Z := i32 (x + 3).
Definition call_f (x : Z) : Z := call_g x.
Definition call_main : uprog unit := uprintf (ln "%d %d") [AInt (i32 (call_f 8 + 1)); AInt 13] ;;; UExit.

(** *** forktest detects a kernel that counts its processes right *)

(** The parent's view of a kernel with room for [limit] children: fork fails
    when they are all there, wait takes one away and fails without any.  The
    state is their number and what was written. *)
Definition count_os (limit : nat) (c : ucall) (s : nat * list (list Z)) : Z * list Z * (nat * list (list Z)) :=
  let '(n, out) := s in
  match c with
  | Cfork => if (n <? limit)%nat then (3 + Z.of_nat n, [], (S n, out)) else (-1, [], s)
  | Cwait => match n with O => (-1, [], s) | S n' => (3 + Z.of_nat n', [], (n', out)) end
  | Cwrite _ bs => (Z.of_nat (length bs), [], (n, out ++ [bs]))
  | _ => (-1, [], s)
  end.

Lemma forks_all limit m n out : (n <= limit < n + m)%nat ->
  urun (count_os limit) (forktest_forks m n) (n, out) = (Returned limit, (limit, out)).
Proof.
  revert n. induction m as [|m IH]; intros n H; [lia|]. cbn [forktest_forks sys ubind urun count_os].
  destruct (Nat.ltb_spec n limit) as [Hlt|Hge].
  - destruct (Z.ltb_spec (3 + Z.of_nat n) 0); [lia|]. destruct (Z.eqb_spec (3 + Z.of_nat n) 0); [lia|]. apply IH. lia.
  - replace n with limit by lia. done.
Qed.

Lemma waits_all limit n out : urun (count_os limit) (forktest_waits n) (n, out) = (Returned tt, (0%nat, out)).
Proof.
  induction n as [|n IH]; [done|]. cbn [forktest_waits sys ubind urun count_os].
  destruct (Z.ltb_spec (3 + Z.of_nat n) 0); [lia|]. apply IH.
Qed.

(** forktest passes on a kernel with room for fewer children than it tries. *)
Lemma forktest_passes limit : (limit < FORKS)%nat ->
  urun (count_os limit) forktest_main (0%nat, []) = (Exited, (0%nat, [ln "fork test"; ln "fork test OK"])).
Proof.
  intros H. unfold forktest_main, forktest, fprint. rewrite urun_bind, urun_bind. cbn [sys ubind urun count_os app].
  rewrite urun_bind, forks_all by lia. destruct (Nat.eqb_spec limit FORKS); [lia|].
  rewrite urun_bind, waits_all. done.
Qed.
