(* ===== verification/Asm.v ===== *)
(** * The assembly (kernel/trampoline.S, kernelvec.S, swtch.S, entry.S)

    The instructions these files use, on the registers of a hart and memory,
    and the files as lists of them.  Addresses are translated by the page table
    in satp; what the translation is, and what a called C function does, are
    arguments. *)

From Stdlib Require Import ZArith Lia.
From stdpp Require Import base list strings.
From S2P Require Import Prelude CString Kalloc.

(** ** Registers *)

Inductive reg :=
| zero | ra | sp | gp | tp | t0 | t1 | t2 | s0 | s1 | a0 | a1 | a2 | a3 | a4 | a5 | a6 | a7
| s2 | s3 | s4 | s5 | s6 | s7 | s8 | s9 | s10 | s11 | t3 | t4 | t5 | t6.
#[global] Instance reg_eq_dec : EqDecision reg.
Proof. solve_decision. Defined.

Inductive csr := satp | sscratch | sip | mscratch | mhartid.
#[global] Instance csr_eq_dec : EqDecision csr.
Proof. solve_decision. Defined.

Record mach := Mach { x : reg -> Z; c : csr -> Z; memory : mem }.

Definition set_x (r : reg) (v : Z) (m : mach) : mach :=
  Mach (fun r' => if decide (r' = r /\ r <> zero) then v else x m r') (c m) (memory m).
Definition set_c (r : csr) (v : Z) (m : mach) : mach :=
  Mach (x m) (fun r' => if decide (r' = r) then v else c m r') (memory m).
Definition set_mem (mm : mem) (m : mach) : mach := Mach (x m) (c m) mm.

(** ** Instructions *)

(** [li] and [la] load a number; [Call f] calls the C function [f]. *)
Inductive instr :=
| Sd (rs : reg) (off : Z) (rb : reg)
| Ld (rd : reg) (off : Z) (rb : reg)
| Csrrw (rd : reg) (r : csr) (rs : reg)
| Csrr (rd : reg) (r : csr)
| Csrw (r : csr) (rs : reg)
| Addi (rd rs : reg) (imm : Z)
| Add (rd r1 r2 : reg)
| Mul (rd r1 r2 : reg)
| Li (rd : reg) (v : Z)
| Sfence
| Call (f : string)
| Jr (r : reg)
| Ret
| Sret
| Mret.

(** Where control goes: to an address, back from a trap to supervisor or
    machine mode, or past the end. *)
Inductive goto := Jump (a : Z) | FromS | FromM | Past.

Section Exec.
(** Translation of a virtual address under satp; the C functions, whose call
    and return may leave anything in ra. *)
Context (tr : Z -> Z -> Z) (callee : string -> mach -> mach).

Definition addr (m : mach) (rb : reg) (off : Z) : Z := tr (c m satp) (u64 (x m rb + off)).

(** One instruction: the next state, or where control goes. *)
Definition step (i : instr) (m : mach) : mach + goto :=
  match i with
  | Sd rs off rb => inl (set_mem (store64 (addr m rb off) (x m rs) (memory m)) m)
  | Ld rd off rb => inl (set_x rd (load64 (memory m) (addr m rb off)) m)
  | Csrrw rd r rs => inl (set_c r (x m rs) (set_x rd (c m r) m))
  | Csrr rd r => inl (set_x rd (c m r) m)
  | Csrw r rs => inl (set_c r (x m rs) m)
  | Addi rd rs imm => inl (set_x rd (u64 (x m rs + imm)) m)
  | Add rd r1 r2 => inl (set_x rd (u64 (x m r1 + x m r2)) m)
  | Mul rd r1 r2 => inl (set_x rd (u64 (x m r1 * x m r2)) m)
  | Li rd v => inl (set_x rd (u64 v) m)
  | Sfence => inl m
  | Call f => inl (callee f m)
  | Jr r => inr (Jump (x m r))
  | Ret => inr (Jump (x m ra))
  | Sret => inr FromS
  | Mret => inr FromM
  end.

Fixpoint execute (l : list instr) (m : mach) : mach * goto :=
  match l with
  | [] => (m, Past)
  | i :: k => match step i m with inl m' => execute k m' | inr g => (m, g) end
  end.
End Exec.

(** ** The code *)

(** Traps from user space. *)
Definition uservec : list instr :=
  [ Csrrw a0 sscratch a0; Sd ra 40 a0; Sd sp 48 a0; Sd gp 56 a0; Sd tp 64 a0; Sd t0 72 a0;
    Sd t1 80 a0; Sd t2 88 a0; Sd s0 96 a0; Sd s1 104 a0; Sd a1 120 a0; Sd a2 128 a0;
    Sd a3 136 a0; Sd a4 144 a0; Sd a5 152 a0; Sd a6 160 a0; Sd a7 168 a0; Sd s2 176 a0;
    Sd s3 184 a0; Sd s4 192 a0; Sd s5 200 a0; Sd s6 208 a0; Sd s7 216 a0; Sd s8 224 a0;
    Sd s9 232 a0; Sd s10 240 a0; Sd s11 248 a0; Sd t3 256 a0; Sd t4 264 a0; Sd t5 272 a0;
    Sd t6 280 a0; Csrr t0 sscratch; Sd t0 112 a0; Ld sp 8 a0; Ld tp 32 a0; Ld t0 16 a0;
    Ld t1 0 a0; Csrw satp t1; Sfence; Jr t0 ].

Definition userret : list instr :=
  [ Csrw satp a1; Sfence; Ld t0 112 a0; Csrw sscratch t0; Ld ra 40 a0; Ld sp 48 a0;
    Ld gp 56 a0; Ld tp 64 a0; Ld t0 72 a0; Ld t1 80 a0; Ld t2 88 a0; Ld s0 96 a0;
    Ld s1 104 a0; Ld a1 120 a0; Ld a2 128 a0; Ld a3 136 a0; Ld a4 144 a0; Ld a5 152 a0;
    Ld a6 160 a0; Ld a7 168 a0; Ld s2 176 a0; Ld s3 184 a0; Ld s4 192 a0; Ld s5 200 a0;
    Ld s6 208 a0; Ld s7 216 a0; Ld s8 224 a0; Ld s9 232 a0; Ld s10 240 a0; Ld s11 248 a0;
    Ld t3 256 a0; Ld t4 264 a0; Ld t5 272 a0; Ld t6 280 a0; Csrrw a0 sscratch a0; Sret ].

(** swtch(old, new) *)
Definition swtch : list instr :=
  [ Sd ra 0 a0; Sd sp 8 a0; Sd s0 16 a0; Sd s1 24 a0; Sd s2 32 a0; Sd s3 40 a0;
    Sd s4 48 a0; Sd s5 56 a0; Sd s6 64 a0; Sd s7 72 a0; Sd s8 80 a0; Sd s9 88 a0;
    Sd s10 96 a0; Sd s11 104 a0; Ld ra 0 a1; Ld sp 8 a1; Ld s0 16 a1; Ld s1 24 a1;
    Ld s2 32 a1; Ld s3 40 a1; Ld s4 48 a1; Ld s5 56 a1; Ld s6 64 a1; Ld s7 72 a1;
    Ld s8 80 a1; Ld s9 88 a1; Ld s10 96 a1; Ld s11 104 a1; Ret ].

(** Traps in the kernel. *)
Definition kernelvec : list instr :=
  [ Addi sp sp (-256); Sd ra 0 sp; Sd sp 8 sp; Sd gp 16 sp; Sd tp 24 sp; Sd t0 32 sp;
    Sd t1 40 sp; Sd t2 48 sp; Sd s0 56 sp; Sd s1 64 sp; Sd a0 72 sp; Sd a1 80 sp;
    Sd a2 88 sp; Sd a3 96 sp; Sd a4 104 sp; Sd a5 112 sp; Sd a6 120 sp; Sd a7 128 sp;
    Sd s2 136 sp; Sd s3 144 sp; Sd s4 152 sp; Sd s5 160 sp; Sd s6 168 sp; Sd s7 176 sp;
    Sd s8 184 sp; Sd s9 192 sp; Sd s10 200 sp; Sd s11 208 sp; Sd t3 216 sp; Sd t4 224 sp;
    Sd t5 232 sp; Sd t6 240 sp; Call "kerneltrap"; Ld ra 0 sp; Ld sp 8 sp; Ld gp 16 sp;
    Ld t0 32 sp; Ld t1 40 sp; Ld t2 48 sp; Ld s0 56 sp; Ld s1 64 sp; Ld a0 72 sp;
    Ld a1 80 sp; Ld a2 88 sp; Ld a3 96 sp; Ld a4 104 sp; Ld a5 112 sp; Ld a6 120 sp;
    Ld a7 128 sp; Ld s2 136 sp; Ld s3 144 sp; Ld s4 152 sp; Ld s5 160 sp; Ld s6 168 sp;
    Ld s7 176 sp; Ld s8 184 sp; Ld s9 192 sp; Ld s10 200 sp; Ld s11 208 sp; Ld t3 216 sp;
    Ld t4 224 sp; Ld t5 232 sp; Ld t6 240 sp; Addi sp sp 256; Sret ].

(** Timer interrupts, in machine mode. *)
Definition timervec : list instr :=
  [ Csrrw a0 mscratch a0; Sd a1 0 a0; Sd a2 8 a0; Sd a3 16 a0; Ld a1 32 a0; Ld a2 40 a0;
    Ld a3 0 a1; Add a3 a3 a2; Sd a3 0 a1; Li a1 2; Csrw sip a1; Ld a3 16 a0;
    Ld a2 8 a0; Ld a1 0 a0; Csrrw a0 mscratch a0; Mret ].

(** _entry *)
Definition entry (stack0 : Z) : list instr :=
  [ Li sp stack0; Li a0 (1024 * 4); Csrr a1 mhartid; Addi a1 a1 1; Mul a0 a0 a1; Add sp sp a0;
    Call "start" ].
