(* ===== verification/AsmFacts.v ===== *)
(** * What the assembly saves and restores (facts about Asm.v)

    A trap from user space and back leaves the registers of the process as they
    were, except for what the kernel stored for it in a0; a switch of contexts
    resumes where the context was left; traps inside the kernel and timer
    interrupts go unnoticed by the code they interrupt. *)

From Stdlib Require Import ZArith Lia.
From stdpp Require Import base gmap list strings.
From S2P Require Import Prelude CString Kalloc Vm Sleeplock Bio Log Fs Printf Console Pipe Kstate File Proc Sysargs Sysfile Exec Trap Boot ProcFacts Asm.

(** ** Sequences of stores and loads *)

(** A register and its offset in the area. *)
Notation slots := (list (reg * Z)).
Definition saves (rb : reg) (l : slots) : list instr := (fun p => Sd (fst p) (snd p) rb) <$> l.
Definition loads (rb : reg) (l : slots) : list instr := (fun p => Ld (fst p) (snd p) rb) <$> l.

(** Slots of eight bytes within [n] bytes, one for each register. *)
Record slots_ok (n : Z) (l : slots) : Prop := {
  so_regs : NoDup (fst <$> l);
  so_offs : NoDup (snd <$> l);
  so_zero : zero ∉ fst <$> l;
  so_fit : Forall (fun p => 0 <= snd p /\ snd p + 8 <= n /\ snd p mod 8 = 0) l
}.

(** The area at [va], [n] bytes, is at [pa] in memory. *)
Definition area (tr : Z -> Z -> Z) (s va pa n : Z) : Prop := forall o, 0 <= o < n -> tr s (u64 (va + o)) = pa + o.

(** Registers hold 64-bit words. *)
Definition words (m : mach) : Prop := x m zero = 0 /\ forall r, 0 <= x m r < 2 ^ 64.

(** Machine mode does not translate addresses. *)
Definition bare (s va : Z) : Z := va.

Lemma bare_area s P n : 0 <= P -> P + n <= 2 ^ 64 -> area bare s P P n.
Proof. intros H1 H2 o Ho. unfold bare. apply u64_small. lia. Qed.

Definition store_slots (pa : Z) (v : reg -> Z) (l : slots) (mm : mem) : mem :=
  foldl (fun mm p => store64 (pa + snd p) (v (fst p)) mm) mm l.
Definition load_slots (pa : Z) (l : slots) (m : mach) : mach :=
  foldl (fun m p => set_x (fst p) (load64 (memory m) (pa + snd p)) m) m l.

Section Slots.
Context (n pa : Z).

Lemma store_slots_other l v mm b :
  (forall p, p ∈ l -> ~ pa + snd p <= b < pa + snd p + 8) -> store_slots pa v l mm b = mm b.
Proof.
  revert mm. induction l as [|p l IH]; intros mm H; [done|]. cbn [store_slots foldl].
  fold (store_slots pa v l (store64 (pa + snd p) (v (fst p)) mm)). rewrite IH by (intros; apply H; by right).
  apply store64_other, H. by left.
Qed.

Lemma slots_apart l r o o' : slots_ok n l -> (r, o) ∈ l -> o' mod 8 = 0 -> o <> o' -> o + 8 <= o' \/ o' + 8 <= o.
Proof.
  intros [_ _ _ Hf] Hin Ho' Hne. rewrite Forall_forall in Hf. destruct (Hf _ Hin) as (_ & _ & Ho). cbn in Ho.
  Z.div_mod_to_equations. lia.
Qed.

Lemma load_store_other l v mm o' :
  slots_ok n l -> o' mod 8 = 0 -> o' ∉ snd <$> l -> load64 (store_slots pa v l mm) (pa + o') = load64 mm (pa + o').
Proof.
  intros Hok Ho' Hni. apply load64_ext. intros b Hb. apply store_slots_other. intros [r o] Hin. cbn.
  assert (o <> o') as Hne by (intros ->; apply Hni, list_elem_of_fmap; by exists (r, o')).
  pose proof (slots_apart l r o o' Hok Hin Ho' Hne). lia.
Qed.

Lemma slots_ok_app l1 l2 : slots_ok n (l1 ++ l2) -> slots_ok n l1 /\ slots_ok n l2.
Proof.
  intros [H1 H2 H3 H4]. rewrite !fmap_app in *. apply list.NoDup_app in H1 as (? & _ & ?), H2 as (? & _ & ?).
  rewrite elem_of_app in H3. apply Forall_app in H4 as []. split; (split; [done|done|tauto|done]).
Qed.

Lemma load_store_slot l v mm r o :
  slots_ok n l -> (r, o) ∈ l -> 0 <= v r < 2 ^ 64 -> load64 (store_slots pa v l mm) (pa + o) = v r.
Proof.
  intros Hok Hin Hv. apply list_elem_of_split in Hin as (l1 & l2 & ->). unfold store_slots. rewrite foldl_app. cbn [foldl fst snd].
  assert (o mod 8 = 0) as Ho by (pose proof (so_fit _ _ Hok) as Hf; rewrite Forall_app, Forall_cons in Hf; cbn in Hf; tauto).
  assert (o ∉ snd <$> l2) as Hni.
  { pose proof (so_offs _ _ Hok) as Hn. rewrite fmap_app in Hn. apply list.NoDup_app in Hn as (_ & _ & Hn). by inversion Hn. }
  apply slots_ok_app in Hok as [_ Hok]. change ((r, o) :: l2) with ([(r, o)] ++ l2) in Hok. apply slots_ok_app in Hok as [_ Hok].
  fold (store_slots pa v l1 mm). fold (store_slots pa v l2 (store64 (pa + o) (v r) (store_slots pa v l1 mm))).
  rewrite load_store_other by done. by apply load_store64.
Qed.

Lemma load_slots_cons p l m : load_slots pa (p :: l) m = load_slots pa l (set_x (fst p) (load64 (memory m) (pa + snd p)) m).
Proof. done. Qed.
Lemma load_slots_c l m : c (load_slots pa l m) = c m /\ memory (load_slots pa l m) = memory m.
Proof. revert m. induction l as [|p l IH]; intros m; [done|]. rewrite load_slots_cons. by destruct (IH (set_x (fst p) (load64 (memory m) (pa + snd p)) m)) as [-> ->]. Qed.

Lemma load_slots_other l m r : r ∉ fst <$> l -> x (load_slots pa l m) r = x m r.
Proof.
  revert m. induction l as [|p l IH]; intros m Hr; [done|]. cbn [fmap list_fmap] in Hr. rewrite elem_of_cons in Hr.
  rewrite load_slots_cons, IH by tauto. unfold set_x. cbn [x]. rewrite decide_False by (intros [? _]; tauto). done.
Qed.

Lemma load_slots_at l m r o :
  slots_ok n l -> (r, o) ∈ l -> x (load_slots pa l m) r = load64 (memory m) (pa + o).
Proof.
  intros Hok Hin. apply list_elem_of_split in Hin as (l1 & l2 & ->). unfold load_slots. rewrite foldl_app. cbn [foldl fst snd].
  fold (load_slots pa l1 m). destruct (load_slots_c l1 m) as [_ ->].
  match goal with |- x (foldl _ ?m0 l2) r = _ => fold (load_slots pa l2 m0) end.
  pose proof (so_regs _ _ Hok) as Hn. pose proof (so_zero _ _ Hok) as Hz. rewrite fmap_app in Hn, Hz.
  apply list.NoDup_app in Hn as (_ & _ & Hn). inversion Hn; subst. rewrite load_slots_other by done.
  unfold set_x. cbn [x]. rewrite decide_True; [done|]. split; [done|]. intros ->. apply Hz. rewrite elem_of_app. right. by left.
Qed.
End Slots.

Lemma exec_next tr callee i k m m' : step tr callee i m = inl m' -> execute tr callee (i :: k) m = execute tr callee k m'.
Proof. intros E. cbn [execute]. by rewrite E. Qed.
Lemma exec_end tr callee i k m g : step tr callee i m = inr g -> execute tr callee (i :: k) m = (m, g).
Proof. intros E. cbn [execute]. by rewrite E. Qed.
Ltac asm_step := erewrite exec_next by reflexivity.
Ltac asm_end := erewrite exec_end by reflexivity.

Section ExecSlots.
Context (tr : Z -> Z -> Z) (callee : string -> mach -> mach) (n pa : Z).

Lemma exec_saves rb l k m :
  area tr (c m satp) (x m rb) pa n -> Forall (fun p => 0 <= snd p /\ snd p + 8 <= n /\ snd p mod 8 = 0) l ->
  execute tr callee (saves rb l ++ k) m = execute tr callee k (set_mem (store_slots pa (x m) l (memory m)) m).
Proof.
  intros Ha Hl. revert m Ha. induction Hl as [|[r o] l (H1 & H2 & _) _ IH]; intros m Ha; [by destruct m|].
  cbn [saves fmap list_fmap app execute step fst snd]. rewrite IH by done. unfold addr. rewrite Ha by (cbn in *; lia). by destruct m.
Qed.

Lemma exec_loads rb l k m :
  area tr (c m satp) (x m rb) pa n -> slots_ok n l -> rb ∉ fst <$> l ->
  execute tr callee (loads rb l ++ k) m = execute tr callee k (load_slots pa l m).
Proof.
  revert m. induction l as [|[r o] l IH]; intros m Ha Hok Hrb; [done|]. cbn [fmap list_fmap fst] in Hrb.
  rewrite elem_of_cons in Hrb. pose proof (so_fit _ _ Hok) as Hf. rewrite Forall_cons in Hf. cbn [snd] in Hf.
  change ((r, o) :: l) with ([(r, o)] ++ l) in Hok. apply slots_ok_app in Hok as [_ Hok].
  cbn [loads fmap list_fmap app execute step fst snd load_slots foldl]. unfold addr. rewrite Ha by lia. apply IH; [|done|tauto].
  unfold set_x. cbn [c x]. rewrite decide_False by (intros [? _]; tauto). done.
Qed.
End ExecSlots.

(** ** Registers after an assignment *)

Lemma x_set_eq r v m : r <> zero -> x (set_x r v m) r = v.
Proof. intros H. unfold set_x. cbn [x]. by rewrite decide_True. Qed.
Lemma x_set_ne r r' v m : r' <> r -> x (set_x r v m) r' = x m r'.
Proof. intros H. unfold set_x. cbn [x]. rewrite decide_False; [done|]. by intros [? _]. Qed.
Lemma c_set_eq r v m : c (set_c r v m) r = v.
Proof. unfold set_c. cbn [c]. by rewrite decide_True. Qed.
Lemma c_set_ne r r' v m : r' <> r -> c (set_c r v m) r' = c m r'.
Proof. intros H. unfold set_c. cbn [c]. by rewrite decide_False. Qed.
Lemma x_set_c r v m : x (set_c r v m) = x m.
Proof. done. Qed.
Lemma c_set_x r v m : c (set_x r v m) = c m.
Proof. done. Qed.
Lemma x_set_mem mm m : x (set_mem mm m) = x m.
Proof. done. Qed.
Lemma c_set_mem mm m : c (set_mem mm m) = c m.
Proof. done. Qed.
Lemma memory_set_x r v m : memory (set_x r v m) = memory m.
Proof. done. Qed.
Lemma memory_set_c r v m : memory (set_c r v m) = memory m.
Proof. done. Qed.
Lemma memory_set_mem mm m : memory (set_mem mm m) = mm.
Proof. done. Qed.
Create HintDb mach.
#[export] Hint Rewrite x_set_c c_set_x x_set_mem c_set_mem memory_set_x memory_set_c memory_set_mem c_set_eq : mach.
#[export] Hint Rewrite x_set_eq x_set_ne c_set_ne using discriminate : mach.
Ltac mach := autorewrite with mach.
#[local] Arguments set_x : simpl never.
#[local] Arguments set_c : simpl never.
#[local] Arguments set_mem : simpl never.

(** ** The trapframe *)

Definition user_slots : slots :=
  [(ra, 40); (sp, 48); (gp, 56); (tp, 64); (t0, 72); (t1, 80); (t2, 88); (s0, 96); (s1, 104); (a1, 120); (a2, 128);
   (a3, 136); (a4, 144); (a5, 152); (a6, 160); (a7, 168); (s2, 176); (s3, 184); (s4, 192); (s5, 200); (s6, 208);
   (s7, 216); (s8, 224); (s9, 232); (s10, 240); (s11, 248); (t3, 256); (t4, 264); (t5, 272); (t6, 280)].
Definition frame : slots := user_slots ++ [(a0, TF_A0)].

Ltac slots_ok := split; [by apply (bool_decide_eq_true_1 _)..|by repeat constructor].
Lemma frame_ok : slots_ok TF_SIZE frame.
Proof. slots_ok. Qed.
Lemma user_slots_ok : slots_ok TF_SIZE user_slots.
Proof. slots_ok. Qed.

Definition kernel_slots : slots := [(sp, TF_KERNEL_SP); (tp, TF_KERNEL_HARTID); (t0, TF_KERNEL_TRAP); (t1, TF_KERNEL_SATP)].
Lemma kernel_slots_ok : slots_ok TF_SIZE kernel_slots.
Proof. slots_ok. Qed.
Lemma a0_not_user : a0 ∉ fst <$> user_slots.
Proof. by apply (bool_decide_eq_true_1 _). Qed.

Lemma frame_a0 r o : (r, o) ∈ frame -> r = a0 <-> o = TF_A0.
Proof. intros Hin%list_elem_of_In. cbn in Hin. by destruct_or! Hin; simplify_eq. Qed.

(** The fields of the kernel are not among them. *)
Lemma kernel_slot F v mm o :
  bool_decide (o mod 8 = 0 /\ o ∉ snd <$> frame) = true -> load64 (store_slots F v frame mm) (F + o) = load64 mm (F + o).
Proof. intros [H1 H2]%bool_decide_eq_true_1. apply (load_store_other TF_SIZE); [apply frame_ok|done|done]. Qed.

Lemma frame_all r : r <> zero -> exists o, (r, o) ∈ frame.
Proof.
  intros Hr. assert (r ∈ fst <$> frame) as Hin by (destruct r; [done|by apply (bool_decide_eq_true_1 _)..]).
  apply list_elem_of_fmap in Hin as ([r' o] & -> & H). by exists o.
Qed.

Lemma store_slots_ext pa v v' l mm : (forall r, r ∈ fst <$> l -> v r = v' r) -> store_slots pa v l mm = store_slots pa v' l mm.
Proof.
  revert mm. induction l as [|p l IH]; intros mm H; [done|]. cbn [fmap list_fmap] in H. setoid_rewrite elem_of_cons in H.
  unfold store_slots. cbn [foldl]. rewrite (H (fst p)) by auto. apply IH. auto.
Qed.

Lemma uservec_eq :
  uservec = Csrrw a0 sscratch a0 :: saves a0 user_slots ++
    Csrr t0 sscratch :: Sd t0 112 a0 :: loads a0 kernel_slots ++ [Csrw satp t1; Sfence; Jr t0].
Proof. done. Qed.
Lemma userret_eq :
  userret = Csrw satp a1 :: Sfence :: Ld t0 112 a0 :: Csrw sscratch t0 :: loads a0 user_slots ++ [Csrrw a0 sscratch a0; Sret].
Proof. done. Qed.
Lemma frame_store F v mm : store_slots F v frame mm = store64 (F + 112) (v a0) (store_slots F v user_slots mm).
Proof. unfold frame, store_slots at 1. by rewrite foldl_app. Qed.

Lemma load_kernel F v mm m r o :
  memory m = store_slots F v frame mm -> (r, o) ∈ kernel_slots -> x (load_slots F kernel_slots m) r = load64 mm (F + o).
Proof.
  intros Hm Hin. rewrite (load_slots_at TF_SIZE F _ _ r o kernel_slots_ok Hin), Hm. apply kernel_slot.
  apply list_elem_of_In in Hin. cbn in Hin. by destruct_or! Hin; simplify_eq.
Qed.

Section Trap.
Context (tr : Z -> Z -> Z) (callee : string -> mach -> mach) (F : Z).

Lemma exec_uservec m :
  area tr (c m satp) (c m sscratch) F TF_SIZE ->
  exists m1, execute tr callee uservec m = (m1, Jump (load64 (memory m) (F + TF_KERNEL_TRAP))) /\
    x m1 sp = load64 (memory m) (F + TF_KERNEL_SP) /\ x m1 tp = load64 (memory m) (F + TF_KERNEL_HARTID) /\
    c m1 satp = load64 (memory m) (F + TF_KERNEL_SATP) /\ memory m1 = store_slots F (x m) frame (memory m).
Proof.
  intros Ha. rewrite uservec_eq.
  asm_step. rewrite (exec_saves tr callee TF_SIZE F) by (mach; done || apply (so_fit _ _ user_slots_ok)).
  do 2 asm_step. unfold addr. mach. rewrite Ha by (unfold TF_SIZE; lia).
  rewrite (store_slots_ext F (x (set_x a0 _ m)) (x m)) by (intros r Hr; apply x_set_ne; intros ->; by apply a0_not_user).
  rewrite <- frame_store.
  rewrite (exec_loads tr callee TF_SIZE F) by (mach; done || apply kernel_slots_ok || by apply (bool_decide_eq_true_1 _)).
  set (m' := set_mem (store_slots F (x m) frame (memory m)) _).
  pose proof (fun r o => load_kernel F (x m) (memory m) m' r o eq_refl) as Hk.
  do 2 asm_step. asm_end. mach. rewrite (Hk t0 16), (Hk t1 0) by (by apply (bool_decide_eq_true_1 _)).
  eexists. split; [reflexivity|]. mach. rewrite (Hk sp 8), (Hk tp 32) by (by apply (bool_decide_eq_true_1 _)).
  split_and!; [done..|]. by destruct (load_slots_c F kernel_slots m') as [_ ->].
Qed.

Lemma exec_userret m :
  area tr (x m a1) (x m a0) F TF_SIZE ->
  exists m3, execute tr callee userret m = (m3, FromS) /\ x m3 zero = x m zero /\
    (forall r o, (r, o) ∈ frame -> x m3 r = load64 (memory m) (F + o)) /\
    c m3 satp = x m a1 /\ c m3 sscratch = x m a0 /\ memory m3 = memory m.
Proof.
  intros Ha. rewrite userret_eq. do 4 asm_step. unfold addr. mach. rewrite Ha by (unfold TF_SIZE; lia).
  rewrite (exec_loads tr callee TF_SIZE F) by (mach; done || apply user_slots_ok || apply a0_not_user).
  set (m' := set_c sscratch _ _). destruct (load_slots_c F user_slots m') as [Ec Em].
  asm_step. asm_end. eexists. split; [reflexivity|]. mach. rewrite Ec, Em.
  assert (zero ∉ fst <$> user_slots) as Hz by (by apply (bool_decide_eq_true_1 _)).
  rewrite !load_slots_other by (done || apply a0_not_user). unfold m'. mach. fold m'. split_and!; try done.
  intros r o Hin. unfold frame in Hin. apply elem_of_app in Hin as [Hin|Hin].
  - assert (r <> a0) by (intros ->; apply a0_not_user, list_elem_of_fmap; by exists (a0, o)).
    rewrite x_set_ne by done. rewrite (load_slots_at TF_SIZE F _ _ r o user_slots_ok Hin). unfold m'. by mach.
  - apply list_elem_of_singleton in Hin as [= -> ->]. by mach.
Qed.
End Trap.

(** ** Into the kernel and back *)

Section Return.
Context `{Layout} `{Code}.

Lemma wp_on_k {A} (m : M kstate A) k k' a t h Q :
  m k = Ok a k' t -> Q a (k', h) t -> wp (on_k m) (k, h) Q.
Proof. intros E HQ. apply wp_zoom. cbn [fst]. eapply wp_eq; [exact E|done]. Qed.

Lemma myproc_run me k p : k_procs k !! me = Some p -> myproc me k = Ok p k [].
Proof. intros E. unfold myproc, pderef, fetch. by rewrite E. Qed.
Lemma tf_set_run me k p off v :
  k_procs k !! me = Some p ->
  tf_set me off v k = Ok tt (set_k_mem (set_memory (store64 (p_tf p + off) v (kmemory (k_mem k))) (k_mem k)) k) [].
Proof. intros E. unfold tf_set, bind. by rewrite (myproc_run me k p E). Qed.
Lemma tf_get_run me k p off :
  k_procs k !! me = Some p -> tf_get me off k = Ok (load64 (kmemory (k_mem k)) (p_tf p + off)) k [].
Proof. intros E. unfold tf_get, bind. rewrite (myproc_run me k p E). by destruct k. Qed.

Lemma usertrapret_run me s h p :
  k_procs s !! me = Some p ->
  exists s' h', usertrapret me (s, h) = Ok (TUser (MAKE_SATP (p_pagetable p))) (s', h') [] /\
    h_sepc h' = load64 (kmemory (k_mem s')) (p_tf p + TF_EPC) /\
    h_stvec h' = u64 (TRAMPOLINE + (uservec_addr - trampoline)) /\
    kmemory (k_mem s') =
      store64 (p_tf p + TF_KERNEL_HARTID) (h_tp h) (store64 (p_tf p + TF_KERNEL_TRAP) usertrap_addr
        (store64 (p_tf p + TF_KERNEL_SP) (u64 (p_kstack p + PGSIZE))
          (store64 (p_tf p + TF_KERNEL_SATP) (h_satp h) (kmemory (k_mem s))))).
Proof.
  intros E. assert (wp (usertrapret me) (s, h) (fun a sh t => t = [] /\ a = TUser (MAKE_SATP (p_pagetable p)) /\
    h_sepc (snd sh) = load64 (kmemory (k_mem (fst sh))) (p_tf p + TF_EPC) /\
    h_stvec (snd sh) = u64 (TRAMPOLINE + (uservec_addr - trampoline)) /\
    kmemory (k_mem (fst sh)) =
      store64 (p_tf p + TF_KERNEL_HARTID) (h_tp h) (store64 (p_tf p + TF_KERNEL_TRAP) usertrap_addr
        (store64 (p_tf p + TF_KERNEL_SP) (u64 (p_kstack p + PGSIZE))
          (store64 (p_tf p + TF_KERNEL_SATP) (h_satp h) (kmemory (k_mem s))))))) as Hwp.
  { unfold usertrapret. apply wp_bind, wp_modify, wp_bind, wp_modify. cbn [fst snd].
    apply wp_bind. eapply wp_on_k; [by apply myproc_run|]. apply wp_bind, wp_get. cbn [fst snd].
    do 4 (apply wp_bind; eapply wp_on_k; [eapply tf_set_run; done|]).
    apply wp_bind, wp_modify. cbn [fst snd]. apply wp_bind. eapply wp_on_k; [eapply tf_get_run; done|].
    apply wp_bind, wp_modify, wp_ret. cbn. done. }
  apply wp_run in Hwp as (a & [s' h'] & t & R & -> & -> & H1 & H2 & H3). by exists s', h'.
Qed.

Lemma frame_range r o : (r, o) ∈ frame -> 40 <= o /\ o + 8 <= TF_SIZE.
Proof.
  intros Hin. assert (Forall (fun p : reg * Z => 40 <= snd p /\ snd p + 8 <= TF_SIZE) frame) as HF by (by repeat constructor).
  rewrite Forall_forall in HF. apply (HF _ Hin).
Qed.

(** The kernel runs with the values of its fields of the frame [F]. *)
Definition entered (mm : mem) (F : Z) (m : mach) (g : goto) : Prop :=
  g = Jump (load64 mm (F + TF_KERNEL_TRAP)) /\ x m sp = load64 mm (F + TF_KERNEL_SP) /\
  x m tp = load64 mm (F + TF_KERNEL_HARTID) /\ c m satp = load64 mm (F + TF_KERNEL_SATP).

(** Where a process in user space finds its trapframe. *)
Definition user_mode (pt : Z) (m : mach) : Prop := c m sscratch = TRAPFRAME /\ c m satp = MAKE_SATP pt.

(** C11: a trap is transparent to the process.  [uservec] enters the kernel on
    its stack, page table and CPU number, changing no memory outside the saved
    registers of the trapframe.  When the kernel later returns with
    [usertrapret] and [userret], with [v] as the saved a0 and the other saved
    registers as they were, the process runs with all of its registers as
    before but a0, which is [v], and with its page table; and its next trap
    finds the kernel again: usertrap, the process's own kernel stack, and the
    CPU and page table that [usertrapret] recorded. *)
Theorem trap_roundtrip tr callee me p m :
  let F := p_tf p in let pt := p_pagetable p in
  words m -> user_mode pt m -> area tr (MAKE_SATP pt) TRAPFRAME F TF_SIZE -> 0 <= usertrap_addr < 2 ^ 64 ->
  exists m1 g1, execute tr callee uservec m = (m1, g1) /\ entered (memory m) F m1 g1 /\
    (forall a, ~ F + 40 <= a < F + TF_SIZE -> memory m1 a = memory m a) /\
    forall s h v, k_procs s !! me = Some p -> 0 <= h_tp h < 2 ^ 64 -> 0 <= h_satp h < 2 ^ 64 ->
      (forall r o, (r, o) ∈ frame ->
         load64 (kmemory (k_mem s)) (F + o) = if decide (r = a0) then v else load64 (memory m1) (F + o)) ->
      exists s' h', usertrapret me (s, h) = Ok (TUser (MAKE_SATP pt)) (s', h') [] /\
        forall m2, x m2 zero = 0 -> x m2 a0 = TRAPFRAME -> x m2 a1 = MAKE_SATP pt -> memory m2 = kmemory (k_mem s') ->
        exists m3, execute tr callee userret m2 = (m3, FromS) /\ user_mode pt m3 /\ memory m3 = memory m2 /\
          (forall r, x m3 r = if decide (r = a0) then v else x m r) /\
          forall m4, user_mode pt m4 -> (forall a, F <= a < F + TF_SIZE -> memory m4 a = memory m3 a) ->
          exists m5, execute tr callee uservec m4 = (m5, Jump usertrap_addr) /\
            x m5 sp = u64 (p_kstack p + PGSIZE) /\ x m5 tp = h_tp h /\ c m5 satp = h_satp h.
Proof.
  intros F pt [Hz Hw] [Hss Hsa] Ha Hut.
  destruct (exec_uservec tr callee F m) as (m1 & R1 & E1 & E2 & E3 & Em1); [by rewrite Hss, Hsa|].
  exists m1, (Jump (load64 (memory m) (F + TF_KERNEL_TRAP))). split; [exact R1|].
  split; [exact (conj eq_refl (conj E1 (conj E2 E3)))|]. split.
  { intros a Hout. rewrite Em1. apply store_slots_other. intros [r o] Hin%frame_range. cbn. lia. }
  intros s h v Hp Htp Hsatp Hsaved. destruct (usertrapret_run me s h p Hp) as (s' & h' & R2 & _ & _ & Em).
  exists s', h'. split; [done|]. fold F in Em. intros m2 Hz2 Ha0 Ha1 Hm2. rewrite Hm2.
  destruct (exec_userret tr callee F m2) as (m3 & R3 & Ez & Hregs & Ec & Es & Em3); [by rewrite Ha0, Ha1|].
  exists m3. split; [done|]. split; [split; congruence|]. split; [congruence|]. split.
  - intros r. destruct (decide (r = zero)) as [->|Hr]; [rewrite decide_False by done; congruence|].
    destruct (frame_all r Hr) as [o Hin]. rewrite (Hregs r o Hin), Hm2, Em.
    pose proof (frame_range r o Hin) as [Hlo _]. unfold TF_KERNEL_HARTID, TF_KERNEL_TRAP, TF_KERNEL_SP, TF_KERNEL_SATP.
    rewrite !load_store64_ne by lia. rewrite (Hsaved r o Hin). destruct (decide (r = a0)); [done|].
    rewrite Em1. by apply (load_store_slot TF_SIZE); [apply frame_ok| |].
  - intros m4 [Hss4 Hsa4] Hmem. destruct (exec_uservec tr callee F m4) as (m5 & R5 & F1 & F2 & F3 & _); [by rewrite Hss4, Hsa4|].
    exists m5. assert (forall o, 0 <= o -> o + 8 <= TF_SIZE -> load64 (memory m4) (F + o) = load64 (kmemory (k_mem s')) (F + o)) as Hld.
    { intros o Ho1 Ho2. apply load64_ext. intros b Hb. rewrite Hmem by lia. by rewrite Em3, Hm2. }
    unfold TF_SIZE, TF_KERNEL_HARTID, TF_KERNEL_TRAP, TF_KERNEL_SP, TF_KERNEL_SATP in *.
    rewrite R5, F1, F2, F3, !Hld, Em by lia. assert (0 <= u64 (p_kstack p + PGSIZE) < 2 ^ 64) by (by apply Z.mod_pos_bound).
    split_and!; rewrite ?load_store64_ne by lia; by rewrite load_store64 by done.
Qed.
End Return.

(** A process with registers that all hold 7, which makes a call that returns
    5. *)
#[local] Instance asm_code_ex : Code := Build_Code 0 0x80001000 0 0 0.
Definition frame_ex : Z := 0x87000000.
Definition tr_ex (s va : Z) : Z := va - TRAPFRAME + frame_ex.
Definition regs_ex (r : reg) : Z := if decide (r = zero) then 0 else 7.
Definition user_ex : mach :=
  Mach regs_ex (fun r => if decide (r = sscratch) then TRAPFRAME else MAKE_SATP 0x87001000) (fun _ => 0).
Definition proc_ex : proc := set_p_tf frame_ex (set_p_pagetable 0x87001000 proc0).
Definition call_ex (mm : mem) : kstate :=
  set_k_procs [proc_ex] (set_k_mem (Kmem (store64 (frame_ex + TF_A0) 5 mm) 0) kstate_ex).
Definition leave_ex : mem -> mach :=
  Mach (fun r => if decide (r = zero) then 0 else if decide (r = a0) then TRAPFRAME else MAKE_SATP 0x87001000) (fun _ => 0).

Lemma trap_roundtrip_witness : exists m1 g1, execute tr_ex (fun _ m => m) uservec user_ex = (m1, g1) /\
  exists s' h', usertrapret 0 (call_ex (memory m1), Hart 0 0 0 0 0 0 0 0 0) = Ok (TUser (MAKE_SATP 0x87001000)) (s', h') [] /\
  exists m3, execute tr_ex (fun _ m => m) userret (leave_ex (kmemory (k_mem s'))) = (m3, FromS) /\ x m3 a0 = 5 /\ x m3 sp = 7.
Proof.
  destruct (trap_roundtrip tr_ex (fun _ m => m) 0 proc_ex user_ex) as (m1 & g1 & R1 & _ & _ & Hk).
  - split; [done|]. intros r. cbn. unfold regs_ex. by case_decide.
  - done.
  - intros o Ho. unfold tr_ex, TF_SIZE in *. change TRAPFRAME with 274877898752. change (p_tf proc_ex) with frame_ex.
    rewrite u64_small; lia.
  - done.
  - exists m1, g1. split; [done|].
    destruct (Hk (call_ex (memory m1)) (Hart 0 0 0 0 0 0 0 0 0) 5 eq_refl ltac:(cbn [h_tp]; lia) ltac:(cbn [h_satp]; lia)) as (s' & h' & R2 & Hr).
    { intros r o Hin. cbn [k_mem call_ex set_k_procs set_k_mem kmemory]. change (p_tf proc_ex) with frame_ex.
      pose proof (frame_a0 r o Hin) as Ha0. case_decide as E.
      - rewrite (proj1 Ha0 E). apply load_store64. lia.
      - apply load_store64_ne. pose proof (slots_apart TF_SIZE frame r o TF_A0 frame_ok Hin eq_refl ltac:(tauto)). lia. }
    exists s', h'. split; [exact R2|]. destruct (Hr (leave_ex (kmemory (k_mem s'))) eq_refl eq_refl eq_refl eq_refl) as (m3 & R3 & _ & _ & Hregs & _).
    exists m3. split; [exact R3|]. rewrite !Hregs. split; reflexivity.
Defined.

(** ** Context switches *)

(** struct context *)
Definition context_slots : slots :=
  [(ra, 0); (sp, 8); (s0, 16); (s1, 24); (s2, 32); (s3, 40); (s4, 48); (s5, 56); (s6, 64); (s7, 72); (s8, 80); (s9, 88);
   (s10, 96); (s11, 104)].
Definition CONTEXT_SIZE : Z := 112.
Lemma context_slots_ok : slots_ok CONTEXT_SIZE context_slots.
Proof. slots_ok. Qed.
Lemma swtch_eq : swtch = saves a0 context_slots ++ loads a1 context_slots ++ [Ret].
Proof. done. Qed.

Lemma slots_range n l r o : slots_ok n l -> (r, o) ∈ l -> 0 <= o /\ o + 8 <= n.
Proof. intros Hok Hin. pose proof (so_fit _ _ Hok) as HF. rewrite Forall_forall in HF. pose proof (HF _ Hin). cbn in *. lia. Qed.

(** [swtch] from the context at [old] to the one at [new], both given by their
    place in memory. *)
Definition apart (p q n : Z) : Prop := p + n <= q \/ q + n <= p.

Lemma exec_swtch tr callee m old new :
  area tr (c m satp) (x m a0) old CONTEXT_SIZE -> area tr (c m satp) (x m a1) new CONTEXT_SIZE -> apart old new CONTEXT_SIZE ->
  exists m1, execute tr callee swtch m = (m1, Jump (load64 (memory m) new)) /\
    (forall r o, (r, o) ∈ context_slots -> x m1 r = load64 (memory m) (new + o)) /\
    (forall r, r ∉ fst <$> context_slots -> x m1 r = x m r) /\ c m1 = c m /\
    memory m1 = store_slots old (x m) context_slots (memory m).
Proof.
  intros Ho Hn Hd. assert (a1 ∉ fst <$> context_slots) as Ha1 by (by apply (bool_decide_eq_true_1 _)). rewrite swtch_eq.
  rewrite (exec_saves tr callee CONTEXT_SIZE old) by (done || apply (so_fit _ _ context_slots_ok)).
  rewrite (exec_loads tr callee CONTEXT_SIZE new) by (done || apply context_slots_ok).
  set (m' := set_mem _ m). destruct (load_slots_c new context_slots m') as [Ec Em].
  assert (forall r o, (r, o) ∈ context_slots -> x (load_slots new context_slots m') r = load64 (memory m) (new + o)) as Hr.
  { intros r o Hin. rewrite (load_slots_at CONTEXT_SIZE new _ _ r o context_slots_ok Hin). apply load64_ext. intros b Hb.
    unfold m'. mach. apply store_slots_other. intros [r' o'] Hin'. cbn.
    pose proof (slots_range _ _ _ _ context_slots_ok Hin). pose proof (slots_range _ _ _ _ context_slots_ok Hin').
    unfold apart in Hd. lia. }
  asm_end. rewrite (Hr ra 0) by (by left). rewrite Z.add_0_r.
  eexists. split; [reflexivity|]. split; [exact Hr|]. split; [|by rewrite Ec, Em].
  intros r Hni. by rewrite load_slots_other.
Qed.

(** C12: [swtch] is a call that returns when its context is switched back to.
    It changes no memory but the context it saves, and continues at the return
    address of the other context with the registers saved there, those it does
    not save aside.  When later any [swtch] switches to the saved context,
    which memory still holds, control returns to the caller of the first one
    with its stack pointer and callee-saved registers. *)
Theorem swtch_resumes tr callee m old new :
  words m -> area tr (c m satp) (x m a0) old CONTEXT_SIZE -> area tr (c m satp) (x m a1) new CONTEXT_SIZE ->
  apart old new CONTEXT_SIZE ->
  exists m1, execute tr callee swtch m = (m1, Jump (load64 (memory m) new)) /\
    (forall r o, (r, o) ∈ context_slots -> x m1 r = load64 (memory m) (new + o)) /\
    (forall a, ~ old <= a < old + CONTEXT_SIZE -> memory m1 a = memory m a) /\
    forall m2 cur, area tr (c m2 satp) (x m2 a0) cur CONTEXT_SIZE -> area tr (c m2 satp) (x m2 a1) old CONTEXT_SIZE ->
      apart cur old CONTEXT_SIZE -> (forall a, old <= a < old + CONTEXT_SIZE -> memory m2 a = memory m1 a) ->
      exists m3, execute tr callee swtch m2 = (m3, Jump (x m ra)) /\ forall r, r ∈ fst <$> context_slots -> x m3 r = x m r.
Proof.
  intros [_ Hw] Ho Hn Hd. destruct (exec_swtch tr callee m old new Ho Hn Hd) as (m1 & R1 & Hr1 & _ & _ & Em1).
  exists m1. split; [exact R1|]. split; [exact Hr1|]. split.
  { intros a Ha. rewrite Em1. apply store_slots_other. intros [r o] Hin. cbn.
    pose proof (slots_range _ _ _ _ context_slots_ok Hin). lia. }
  intros m2 cur Hc Ho2 Hd2 Hmem. destruct (exec_swtch tr callee m2 cur old Hc Ho2 Hd2) as (m3 & R3 & Hr3 & _).
  assert (forall r o, (r, o) ∈ context_slots -> load64 (memory m2) (old + o) = x m r) as Hld.
  { intros r o Hin. rewrite <- (load_store_slot CONTEXT_SIZE old context_slots (x m) (memory m) r o context_slots_ok Hin) by apply Hw.
    rewrite <- Em1. apply load64_ext. intros b Hb. pose proof (slots_range _ _ _ _ context_slots_ok Hin). apply Hmem. lia. }
  exists m3. rewrite R3, <- (Hld ra 0), Z.add_0_r by (by left). split; [done|].
  intros r Hr. apply list_elem_of_fmap in Hr as ([r' o] & -> & Hin). cbn [fst]. rewrite (Hr3 r' o Hin). by apply Hld.
Qed.

(** A switch from a context at 1000 to one at 2000 and back. *)
Lemma swtch_resumes_witness : exists m1, execute bare (fun _ m => m) swtch
    (Mach (fun r => if decide (r = a0) then 1000 else if decide (r = a1) then 2000 else if decide (r = zero) then 0 else 7)
      (fun _ => 0) (fun _ => 0)) = (m1, Jump 0) /\
  exists m3, execute bare (fun _ m => m) swtch
    (Mach (fun r => if decide (r = a0) then 2000 else if decide (r = a1) then 1000 else 0) (fun _ => 0) (memory m1)) =
    (m3, Jump 7) /\ x m3 s3 = 7.
Proof.
  destruct (swtch_resumes bare (fun _ m => m)
    (Mach (fun r => if decide (r = a0) then 1000 else if decide (r = a1) then 2000 else if decide (r = zero) then 0 else 7)
      (fun _ => 0) (fun _ => 0)) 1000 2000) as (m1 & R1 & _ & _ & H2).
  - split; [done|]. intros r. cbn. by repeat case_decide.
  - by apply bare_area.
  - by apply bare_area.
  - by left.
  - exists m1. split; [exact R1|].
    destruct (H2 (Mach (fun r => if decide (r = a0) then 2000 else if decide (r = a1) then 1000 else 0) (fun _ => 0) (memory m1)) 2000)
      as (m3 & R3 & Hr); [by apply bare_area|by apply bare_area|by right|done|].
    exists m3. split; [exact R3|]. rewrite Hr; [done|]. by apply (bool_decide_eq_true_1 _).
Defined.

(** ** Traps in the kernel *)

Definition kvec_rest : slots :=
  [(t0, 32); (t1, 40); (t2, 48); (s0, 56); (s1, 64); (a0, 72); (a1, 80); (a2, 88); (a3, 96); (a4, 104); (a5, 112);
   (a6, 120); (a7, 128); (s2, 136); (s3, 144); (s4, 152); (s5, 160); (s6, 168); (s7, 176); (s8, 184); (s9, 192);
   (s10, 200); (s11, 208); (t3, 216); (t4, 224); (t5, 232); (t6, 240)].
Definition kvec_slots : slots := (ra, 0) :: (sp, 8) :: (gp, 16) :: (tp, 24) :: kvec_rest.
Definition kvec_loads : slots := (gp, 16) :: kvec_rest.
Definition KVEC_SIZE : Z := 256.

Lemma kvec_slots_ok : slots_ok KVEC_SIZE kvec_slots.
Proof. slots_ok. Qed.
Lemma kvec_loads_ok : slots_ok KVEC_SIZE kvec_loads.
Proof. slots_ok. Qed.
Lemma kernelvec_eq :
  kernelvec = Addi sp sp (-256) :: saves sp kvec_slots ++
    Call "kerneltrap" :: Ld ra 0 sp :: Ld sp 8 sp :: loads sp kvec_loads ++ [Addi sp sp 256; Sret].
Proof. done. Qed.
Lemma kvec_all r : r <> zero -> r <> tp -> r = ra \/ r = sp \/ exists o, (r, o) ∈ kvec_loads.
Proof.
  intros Hr Ht. destruct (decide (r = ra)), (decide (r = sp)); [tauto..|]. right. right.
  assert (r ∈ fst <$> kvec_loads) as Hin by (destruct r; (done || by apply (bool_decide_eq_true_1 _))).
  apply list_elem_of_fmap in Hin as ([r' o] & -> & H). by exists o.
Qed.

(** What the C compiler promises of [kerneltrap], called with the stack pointer
    at the [n] bytes that are at [K]: it returns with the stack pointer and page table
    it was called with and leaves the frame of its caller alone. *)
Record returns (m m' : mach) (K n : Z) : Prop := {
  rt_zero : x m' zero = 0;
  rt_sp : x m' sp = x m sp;
  rt_satp : c m' satp = c m satp;
  rt_frame : forall a, K <= a < K + n -> memory m' a = memory m a
}.

(** C13: an interrupt of kernel code goes unnoticed.  [kernelvec] calls
    kerneltrap with the registers saved below the stack pointer and no other
    memory changed; when kerneltrap returns, the interrupted code continues
    with all of its registers as they were, but for tp, which is the number of
    the CPU it now runs on. *)
Theorem kernelvec_transparent tr callee m K :
  words m -> area tr (c m satp) (u64 (x m sp - 256)) K KVEC_SIZE ->
  exists m0, (forall a, ~ K <= a < K + KVEC_SIZE -> memory m0 a = memory m a) /\
    x m0 sp = u64 (x m sp - 256) /\ (forall r, r <> sp -> x m0 r = x m r) /\ c m0 = c m /\
    (returns m0 (callee "kerneltrap" m0) K KVEC_SIZE ->
     exists m3, execute tr callee kernelvec m = (m3, FromS) /\ (forall r, r <> tp -> x m3 r = x m r) /\
       x m3 tp = x (callee "kerneltrap" m0) tp /\ c m3 = c (callee "kerneltrap" m0) /\
       memory m3 = memory (callee "kerneltrap" m0)).
Proof.
  intros [Hz Hw] Ha. set (m' := set_x sp (u64 (x m sp + -256)) m).
  set (m0 := set_mem (store_slots K (x m') kvec_slots (memory m')) m').
  assert (x m' sp = u64 (x m sp - 256)) as Hsp by (unfold m'; by mach).
  assert (forall r, r <> sp -> x m' r = x m r) as Hoth by (intros r Hr; unfold m'; by rewrite x_set_ne).
  exists m0. split; [|split; [exact Hsp|split; [exact Hoth|split; [done|]]]].
  { intros a Hout. unfold m0. mach. unfold m'. mach. apply store_slots_other. intros [r o] Hin. cbn.
    pose proof (slots_range _ _ _ _ kvec_slots_ok Hin). lia. }
  intros [Rz Rsp Rsatp Rmem]. set (m1 := callee "kerneltrap" m0) in *. rewrite kernelvec_eq. asm_step. fold m'.
  rewrite (exec_saves tr callee KVEC_SIZE K) by (rewrite ?Hsp; (exact Ha || apply (so_fit _ _ kvec_slots_ok))).
  fold m0. asm_step. fold m1.
  assert (forall r, 0 <= x m' r < 2 ^ 64) as Hw'.
  { intros r. destruct (decide (r = sp)) as [->|Hr]; [rewrite Hsp; by apply Z.mod_pos_bound|by rewrite Hoth]. }
  assert (forall r o, (r, o) ∈ kvec_slots -> load64 (memory m1) (K + o) = x m' r) as Hld.
  { intros r o Hin. rewrite <- (load_store_slot KVEC_SIZE K kvec_slots (x m') (memory m') r o kvec_slots_ok Hin) by done.
    apply load64_ext. intros b Hb. pose proof (slots_range _ _ _ _ kvec_slots_ok Hin). rewrite Rmem by lia. done. }
  assert (area tr (c m1 satp) (x m1 sp) K KVEC_SIZE) as Ha1 by (rewrite Rsatp, Rsp; unfold m0; mach; by rewrite Hsp).
  do 2 asm_step. unfold addr. mach. rewrite !Ha1 by (unfold KVEC_SIZE; lia). rewrite (Hld ra 0), (Hld sp 8) by (by apply (bool_decide_eq_true_1 _)).
  set (m2 := set_x sp _ _). assert (x m2 sp = x m1 sp) as Hsp2 by (unfold m2; mach; rewrite Rsp; reflexivity).
  rewrite (exec_loads tr callee KVEC_SIZE K);
    [|by rewrite Hsp2|apply kvec_loads_ok|by apply (bool_decide_eq_true_1 _)].
  destruct (load_slots_c K kvec_loads m2) as [Ec Em]. asm_step. asm_end. eexists. split; [reflexivity|]. mach.
  rewrite Ec, Em. split_and!; try done.
  - intros r Hr. destruct (decide (r = zero)) as [->|Hnz].
    { rewrite x_set_ne, load_slots_other by (done || by apply (bool_decide_eq_true_1 _)). unfold m2. mach. congruence. }
    assert (sp ∉ fst <$> kvec_loads) as Hni by (by apply (bool_decide_eq_true_1 _)).
    destruct (kvec_all r Hnz Hr) as [->|[->|[o Hin]]].
    + rewrite x_set_ne, load_slots_other by (done || by apply (bool_decide_eq_true_1 _)). unfold m2. mach. by apply Hoth.
    + mach. rewrite load_slots_other, Hsp2, Rsp by done. unfold m0. mach. rewrite Hsp. specialize (Hw sp).
      unfold u64. rewrite Zplus_mod_idemp_l. replace (x m sp - 256 + 256) with (x m sp) by lia. by apply Z.mod_small.
    + assert (r <> sp) by (intros ->; apply Hni, list_elem_of_fmap; by exists (sp, o)).
      rewrite x_set_ne, (load_slots_at KVEC_SIZE K _ _ r o kvec_loads_ok Hin) by done. unfold m2. mach.
      rewrite (Hld r o); [by apply Hoth|]. unfold kvec_slots, kvec_loads in *. rewrite !elem_of_cons in *. tauto.
Qed.

(** The handler moves the process to CPU 1. *)
Definition stack_ex : mach := Mach (fun r => if decide (r = sp) then 4096 else regs_ex r) (fun _ => 0) (fun _ => 0).

Lemma kernelvec_transparent_witness : exists m3,
  execute bare (fun _ => set_x tp 1) kernelvec stack_ex = (m3, FromS) /\ x m3 sp = 4096 /\ x m3 s3 = 7 /\ x m3 tp = 1.
Proof.
  destruct (kernelvec_transparent bare (fun _ => set_x tp 1) stack_ex 3840) as (m0 & _ & Hsp & Hoth & _ & Hk).
  - split; [done|]. intros r. cbn. unfold regs_ex. by repeat case_decide.
  - by apply bare_area.
  - destruct Hk as (m3 & R & Hr & Ht & _).
    { constructor; [|by mach|done|done]. mach. rewrite Hoth; done. }
    exists m3. split; [exact R|]. rewrite Ht, !Hr, x_set_eq by discriminate. split_and!; reflexivity.
Defined.

(** ** Timer interrupts *)

Definition timer_slots : slots := [(a1, 0); (a2, 8); (a3, 16)].
Lemma timer_slots_ok : slots_ok 24 timer_slots.
Proof. slots_ok. Qed.
Lemma timervec_eq :
  timervec = Csrrw a0 mscratch a0 :: saves a0 timer_slots ++
    Ld a1 32 a0 :: Ld a2 40 a0 :: Ld a3 0 a1 :: Add a3 a3 a2 :: Sd a3 0 a1 :: Li a1 2 :: Csrw sip a1 ::
    loads a0 (rev timer_slots) ++ [Csrrw a0 mscratch a0; Mret].
Proof. done. Qed.

Lemma addr_bare m rb off : addr bare m rb off = u64 (x m rb + off).
Proof. done. Qed.

Lemma exec_timervec callee m P T i :
  words m -> c m mscratch = P -> 0 <= P -> P + 48 <= 2 ^ 64 -> 0 <= T -> T + 8 <= 2 ^ 64 -> T + 8 <= P \/ P + 24 <= T ->
  load64 (memory m) (P + 32) = T -> load64 (memory m) (P + 40) = i ->
  exists m3, execute bare callee timervec m = (m3, FromM) /\ (forall r, x m3 r = x m r) /\ c m3 mscratch = P /\ c m3 sip = 2 /\
    load64 (memory m3) T = u64 (load64 (memory m) T + i) /\
    forall a, ~ P <= a < P + 24 -> ~ T <= a < T + 8 -> memory m3 a = memory m a.
Proof.
  intros [Hz Hw] HP HP0 HP1 HT0 HT1 Hd HlT Hli. rewrite timervec_eq. asm_step. rewrite HP.
  set (m0 := set_c mscratch _ _). assert (x m0 a0 = P) as Ha0 by (unfold m0; by mach).
  rewrite (exec_saves bare callee 24 P) by (rewrite ?Ha0; (apply bare_area; lia) || apply (so_fit _ _ timer_slots_ok)).
  set (mm := store_slots P (x m0) timer_slots (memory m0)).
  assert (forall a, ~ P <= a < P + 24 -> mm a = memory m a) as Hmm.
  { intros a Ha. unfold mm. rewrite store_slots_other; [done|]. intros [r o] Hin. cbn.
    pose proof (slots_range _ _ _ _ timer_slots_ok Hin). lia. }
  assert (forall b, b + 8 <= P \/ P + 24 <= b -> load64 mm b = load64 (memory m) b) as Hlm.
  { intros b Hb. apply load64_ext. intros a Ha. apply Hmm. lia. }
  do 5 asm_step. rewrite !addr_bare. mach. rewrite Ha0, !(u64_small (P + _)) by lia. rewrite !(Hlm (P + _)) by lia. rewrite HlT, Hli.
  rewrite Z.add_0_r, u64_small, (Hlm T) by lia. do 2 asm_step. mach.
  match goal with |- context [execute bare callee _ ?s] => set (m2 := s) end.
  assert (memory m2 = store64 T (u64 (load64 (memory m) T + i)) mm) as Em2 by (unfold m2; by mach).
  assert (forall r, r <> a0 -> x m0 r = x m r) as Hm0 by (intros r Hr; unfold m0; mach; by apply x_set_ne).
  assert (slots_ok 24 (rev timer_slots)) as Hrok by slots_ok.
  rewrite (exec_loads bare callee 24 P); [|unfold m2; mach; rewrite Ha0; apply bare_area; lia|done|by apply (bool_decide_eq_true_1 _)].
  destruct (load_slots_c P (rev timer_slots) m2) as [Ec Em]. asm_step. asm_end. eexists. split; [reflexivity|].
  mach. rewrite Ec, Em, Em2. split_and!.
  - intros r. assert (forall r o, (r, o) ∈ timer_slots -> load64 (memory m2) (P + o) = x m0 r) as Hld.
    { intros r' o Hin. pose proof (slots_range _ _ _ _ timer_slots_ok Hin). rewrite Em2, load_store64_ne by lia.
      apply (load_store_slot 24); [apply timer_slots_ok|done|]. rewrite Hm0; [apply Hw|]. intros ->.
      assert (a0 ∉ fst <$> timer_slots) as Hn by (by apply (bool_decide_eq_true_1 _)). apply Hn, list_elem_of_fmap. by exists (a0, o). }
    destruct (decide (r = a0)) as [->|Ha]; [mach; unfold m2, m0; by mach|]. rewrite x_set_ne by done.
    destruct (decide (r ∈ fst <$> rev timer_slots)) as [Hin|Hni].
    + apply list_elem_of_fmap in Hin as ([r' o] & -> & Hin). cbn [fst] in *. rewrite (load_slots_at 24 P _ _ r' o Hrok Hin).
      rewrite (Hld r' o); [by apply Hm0|]. unfold timer_slots in *. cbn [rev app] in Hin. rewrite !elem_of_cons in *. tauto.
    + rewrite load_slots_other by done. assert (r <> a1 /\ r <> a2 /\ r <> a3) as (H1 & H2 & H3)
        by (split_and!; intros ->; apply Hni; by apply (bool_decide_eq_true_1 _)).
      unfold m2. repeat (progress mach || rewrite x_set_ne by done). by apply Hm0.
  - rewrite load_slots_other by (by apply (bool_decide_eq_true_1 _)). unfold m2. by mach.
  - unfold m2. by mach.
  - apply load_store64. by apply Z.mod_pos_bound.
  - intros a H1 H2. rewrite store64_other by done. by apply Hmm.
Qed.

(** A timer interrupt after [timerinit] set the hart up: the interrupted code
    is left alone, the next interrupt is an interval later, and a software
    interrupt for the supervisor is pending. *)
Lemma timer_interrupt callee timervec_addr mscratch0 id mtime r m :
  let r' := timerinit timervec_addr mscratch0 id mtime r in
  words m -> 0 <= id < 8 -> KERNBASE <= mscratch0 < PHYSTOP -> (6 <= length (m_scratch r))%nat ->
  c m mscratch = m_mscratch r' ->
  (forall i w, m_scratch r' !! i = Some w -> load64 (memory m) (m_mscratch r' + 8 * Z.of_nat i) = w) ->
  exists m3, execute bare callee timervec m = (m3, FromM) /\ (forall r, x m3 r = x m r) /\ c m3 mscratch = c m mscratch /\
    c m3 sip = 2 /\
    load64 (memory m3) (CLINT_MTIMECMP id) = u64 (load64 (memory m) (CLINT_MTIMECMP id) + interval) /\
    forall a, KERNBASE <= a -> ~ m_mscratch r' <= a < m_mscratch r' + 24 -> memory m3 a = memory m a.
Proof.
  intros r' Hw Hid Hm Hl HP Hs. unfold KERNBASE, PHYSTOP in *. set (P := m_mscratch r') in *.
  assert (P = mscratch0 + 8 * (32 * id)) as EP by done. unfold KERNBASE in Hm.
  assert (CLINT_MTIMECMP id = 0x2004000 + 8 * id) as ET by done.
  destruct (exec_timervec callee m P (CLINT_MTIMECMP id) interval) as (m3 & R & H1 & H2 & H3 & H4 & H5); try lia; try done.
  - apply (Hs 4%nat). unfold r'. cbn [m_scratch timerinit]. rewrite list_lookup_insert_ne, list_lookup_insert_eq by lia. done.
  - apply (Hs 5%nat). unfold r'. cbn [m_scratch timerinit]. rewrite list_lookup_insert_eq; [done|]. rewrite length_insert. lia.
  - exists m3. rewrite HP. split_and!; [done..|]. intros a Ha Hout. apply H5; [done|]. lia.
Qed.

(** ** The first stack *)

(** Each hart starts on its own page of stack0. *)
Lemma entry_stack tr callee stack0 m :
  0 <= c m mhartid < 8 -> 0 <= stack0 -> stack0 + 8 * 4096 < 2 ^ 64 ->
  execute tr callee (entry stack0) m =
    execute tr callee [Call "start"] (set_x sp (stack0 + 4096 * (c m mhartid + 1))
      (set_x a0 (4096 * (c m mhartid + 1)) (set_x a1 (c m mhartid + 1) (set_x a1 (c m mhartid) (set_x a0 4096 (set_x sp stack0 m)))))).
Proof.
  intros Hid H0 H1. unfold entry. do 6 asm_step. mach. rewrite (u64_small stack0) by lia. change (u64 (1024 * 4)) with 4096.
  rewrite (u64_small (c m mhartid + 1)), (u64_small (4096 * _)), (u64_small (stack0 + _)) by lia. done.
Qed.
