(* ===== verification/Mkfs.v ===== *)
(** * Building a file system image (mkfs/mkfs.c)

    mkfs runs on the host, on a file that it treats as an array of sectors.  A
    read past the end of the file, a failed open and a failed assertion end the
    program: they are [Panic] here.  The host is little-endian. *)

From Stdlib Require Import ZArith Lia.
From stdpp Require Import base gmap list strings.
From S2P Require Import Prelude CString Printf Sleeplock Bio BioFacts Log Fs FsInode.
Local Open Scope xv6_scope.

(** ** Layout *)

Definition FSSIZE : Z := 1000.
Definition NINODES : Z := 200.
Definition nbitmap : Z := FSSIZE / (Z.of_nat BSIZE * 8) + 1.
Definition ninodeblocks : Z := NINODES / IPB + 1.
Definition nlog : Z := Z.of_nat LOGSIZE.
Definition nmeta : Z := 2 + nlog + ninodeblocks + nbitmap.
Definition nblocks : Z := FSSIZE - nmeta.

(** y has the bytes of x in order. *)
Definition xshort (x : Z) : Z := le_val (le_bytes 2 x).
Definition xint (x : Z) : Z := le_val (le_bytes 4 x).

(** The global [sb], once main has filled it. *)
Definition mk_sb : superblock :=
  Superblock FSMAGIC (xint FSSIZE) (xint nblocks) (xint NINODES) (xint nlog) (xint 2) (xint (2 + nlog))
    (xint (2 + nlog + ninodeblocks)).

Definition sb_bytes (sb : superblock) : list Z :=
  concat (le_bytes 4 <$> [sb_magic sb; sb_size sb; sb_nblocks sb; sb_ninodes sb; sb_nlog sb;
                          sb_logstart sb; sb_inodestart sb; sb_bmapstart sb]).

(** The image by sectors, and the globals [freeinode] and [freeblock]. *)
Record mkfs := Mkfs { m_img : gmap Z (list Z); m_freeinode : Z; m_freeblock : Z }.

Definition zeroes : list Z := replicate BSIZE 0.

(** ** Sectors and inodes *)

Definition wsect (sec : Z) (buf : list Z) : M mkfs unit :=
  modify (fun s => Mkfs (<[sec := buf]> (m_img s)) (m_freeinode s) (m_freeblock s)).

Definition rsect (sec : Z) : M mkfs (list Z) :=
  d <- get (fun s => m_img s !! sec) ;;
  match d with Some d => ret d | None => panic "read" end.

(** A struct dinode is an [inode] whose fields in memory are those of [inode0]. *)
Definition winode (inum : Z) (ip : inode) : M mkfs unit :=
  let bn := IBLOCK inum mk_sb in
  buf <- rsect bn ;;
  wsect bn (store_dinode (dip_off inum) ip buf).

Definition rinode (inum : Z) : M mkfs inode :=
  buf <- rsect (IBLOCK inum mk_sb) ;;
  ret (load_dinode (dip_off inum) buf inode0).

Definition mk_ialloc (type : Z) : M mkfs Z :=
  inum <- get m_freeinode ;;
  modify (fun s => Mkfs (m_img s) (u32 (m_freeinode s + 1)) (m_freeblock s)) ;;;
  winode inum (set_size (xint 0) (set_nlink (xshort 1) (set_type (xshort type) inode0))) ;;;
  ret inum.

(** freeblock++ *)
Definition new_block : M mkfs Z :=
  b <- get m_freeblock ;;
  modify (fun s => Mkfs (m_img s) (m_freeinode s) (u32 (m_freeblock s + 1))) ;;;
  ret b.

(** The block bitmap: the first [used] blocks. *)
Definition mk_balloc (used : Z) : M mkfs unit :=
  if negb (used <? Z.of_nat BSIZE * 8) then panic "assert"
  else wsect (sb_bmapstart mk_sb) (foldl (fun buf i => bit_set (Z.of_nat i) buf) zeroes (seq 0 (Z.to_nat used))).

(** ** Appending to a file *)

(** The block [x] for block [fbn] of the file, allocated if it is not there. *)
Definition append_block (din : inode) (fbn : nat) : M mkfs (inode * Z) :=
  if (fbn <? NDIRECT)%nat then
    din <- (if xint (nth fbn (i_addrs din) 0) =? 0 then b <- new_block ;; ret (set_addr fbn (xint b) din) else ret din) ;;
    ret (din, xint (nth fbn (i_addrs din) 0))
  else
    din <- (if xint (nth NDIRECT (i_addrs din) 0) =? 0 then b <- new_block ;; ret (set_addr NDIRECT (xint b) din)
            else ret din) ;;
    let a := xint (nth NDIRECT (i_addrs din) 0) in
    indirect <- rsect a ;;
    indirect <- (if word (fbn - NDIRECT) indirect =? 0 then
                   b <- new_block ;;
                   let indirect := put_word (4 * (fbn - NDIRECT)) (xint b) indirect in
                   wsect a indirect ;;; ret indirect
                 else ret indirect) ;;
    ret (din, xint (word (fbn - NDIRECT) indirect)).

(** while(n > 0): every round takes a byte at least. *)
Fixpoint iappend_loop (fuel : nat) (din : inode) (off : Z) (p : list Z) : M mkfs (inode * Z) :=
  match p with
  | [] => ret (din, off)
  | _ =>
      match fuel with
      | O => diverge
      | S fuel' =>
          let fbn := off / BSZ in
          if negb (fbn <? MAXFILE) then panic "assert"
          else
            r <- append_block din (Z.to_nat fbn) ;;
            let '(din, x) := r in
            let n1 := Nat.min (length p) (Z.to_nat ((fbn + 1) * BSZ - off)) in
            buf <- rsect x ;;
            wsect x (bytes_put (Z.to_nat (off - fbn * BSZ)) (take n1 p) buf) ;;;
            iappend_loop fuel' din (off + Z.of_nat n1) (drop n1 p)
      end
  end.

Definition iappend (inum : Z) (p : list Z) : M mkfs unit :=
  din <- rinode inum ;;
  let off := xint (i_size din) in
  r <- iappend_loop (length p) din off p ;;
  let '(din, off) := r in
  winode inum (set_size (xint off) din).

(** ** main *)

(** struct dirent: the name is at most DIRSIZ bytes, padded with NULs. *)
Definition dirent (inum : Z) (name : list Z) : list Z := le_bytes 2 (xshort inum) ++ strncpy name DIRSIZ.

Definition shortname (arg : list Z) : list Z :=
  if strncmp arg (chars "user/") 5 =? 0 then drop 5 arg else arg.
Definition skip_underscore (s : list Z) : list Z := if chr s 0 =? 95 then drop 1 s else s.

(** A file argument: its name, and the pieces read() returns, none if it cannot
    be opened. *)
Definition add_file (rootino : Z) (f : list Z * option (list (list Z))) : M mkfs unit :=
  let name := shortname (fst f) in
  if bool_decide (47 ∈ cstr name) then panic "assert"
  else
    match snd f with
    | None => panic "open"
    | Some pieces =>
        inum <- mk_ialloc T_FILE ;;
        iappend rootino (dirent inum (skip_underscore name)) ;;;
        for_all pieces (iappend inum)
    end.

Definition fix_root_size (rootino : Z) : M mkfs unit :=
  din <- rinode rootino ;;
  let off := xint (i_size din) in
  let off := u32 ((off / BSZ + 1) * BSZ) in
  winode rootino (set_size (xint off) din).

(** The arguments: the image, then the files.  Opening the image truncates it. *)
Definition mkfs_main (argv : list (list Z * option (list (list Z)))) : M mkfs unit :=
  match argv with
  | [] => panic "usage"
  | (_, None) :: _ => panic "open"
  | (_, Some _) :: files =>
      modify (fun s => Mkfs ∅ (m_freeinode s) nmeta) ;;;
      for_all (seq 0 (Z.to_nat FSSIZE)) (fun i => wsect (Z.of_nat i) zeroes) ;;;
      wsect 1 (bytes_put 0 (sb_bytes mk_sb) zeroes) ;;;
      rootino <- mk_ialloc T_DIR ;;
      if negb (rootino =? ROOTINO) then panic "assert"
      else
        iappend rootino (dirent rootino (chars ".")) ;;;
        iappend rootino (dirent rootino (chars "..")) ;;;
        for_all files (add_file rootino) ;;;
        fix_root_size rootino ;;;
        used <- get m_freeblock ;;
        mk_balloc used
  end.
