(* ===== verification/MkfsFacts.v ===== *)
(** * The image mkfs builds (mkfs/mkfs.c)

    The files of an image and the blocks they own: together exactly the data
    blocks below [freeblock], each once.  Appending extends the file it is given
    and leaves the others alone; the finished image holds the files it was built
    from, in the format the kernel reads. *)

From Stdlib Require Import ZArith Lia.
From stdpp Require Import base gmap list strings numbers.
From S2P Require Import Prelude CString Printf Sleeplock Bio BioFacts Log Fs FsInode FsRead FsFile Mkfs.
Local Open Scope xv6_scope.

#[local] Arguments xint _ : simpl never.
#[local] Arguments word _ _ : simpl never.
#[local] Arguments u32 _ : simpl never.
#[local] Arguments zeroes : simpl never.

(** mkfs has one device; its files are those of device 0. *)
Local Abbreviation file_ok := (FsFile.file_ok 0).

Lemma val_zeroes o n : le_val (bytes_at o n zeroes) = 0.
Proof. apply val_replicate. Qed.
Lemma word_zeroes j : word j zeroes = 0.
Proof. apply word_replicate. Qed.
Lemma nth_zeroes j : nth j zeroes 0 = 0.
Proof. apply nth_replicate_zero. Qed.
Lemma length_zeroes : length zeroes = BSIZE.
Proof. apply length_replicate. Qed.

Lemma xint_small x : 0 <= x < 2 ^ 32 -> xint x = x.
Proof. intros H. unfold xint. apply le_val_bytes. lia. Qed.

Lemma nmeta_eq : nmeta = 46.
Proof. done. Qed.
Ltac layout := rewrite ?nmeta_eq in *; unfold FSSIZE in *.

(** ** Files of an image *)

Definition view (img : gmap Z (list Z)) (k : Z * Z) : list Z := default zeroes (img !! snd k).

Definition used (v : Z * Z -> list Z) (fl : list file) : list Z := concat (blocks v <$> fl).

Record img_ok (img : gmap Z (list Z)) (fb : Z) (fl : list file) : Prop := {
  ik_secs : forall b, 0 <= b < FSSIZE -> exists d, img !! b = Some d /\ length d = BSIZE;
  ik_fb : nmeta <= fb <= FSSIZE;
  ik_free : forall b, fb <= b < FSSIZE -> img !! b = Some zeroes;
  ik_used : used (view img) fl ≡ₚ seqZ nmeta (fb - nmeta);
  ik_files : Forall (file_ok (view img)) fl
}.

Lemma used_app v L1 L2 : used v (L1 ++ L2) = used v L1 ++ used v L2.
Proof. unfold used. by rewrite fmap_app, concat_app. Qed.
Lemma used_cons v f L : used v (f :: L) = blocks v f ++ used v L.
Proof. done. Qed.

(** ** Changing one file *)

Lemma used_frame v v' L :
  Forall (file_ok v) L -> (forall b, b ∈ used v L -> v' (0, b) = v (0, b)) ->
  used v' L = used v L /\ Forall (file_ok v') L.
Proof.
  induction 1 as [|f L Hf _ IH]; intros Hs; [done|]. rewrite !used_cons in *.
  setoid_rewrite elem_of_app in Hs. destruct IH as [-> IH]; [auto|].
  rewrite (blocks_frame v v' f (fo_dev _ _ Hf)) by auto. split; [done|]. constructor; [|done].
  apply (file_ok_frame v v' f); auto.
Qed.

Section Change.
Context (img : gmap Z (list Z)) (fb : Z) (L1 L2 : list file) (f : file).
Hypothesis Hok : img_ok img fb (L1 ++ f :: L2).
Local Abbreviation v := (view img).

Lemma used_perm : used v (L1 ++ f :: L2) ≡ₚ blocks v f ++ used v (L1 ++ L2).
Proof. rewrite !used_app, used_cons. apply Permutation_app_swap_app. Qed.

Lemma chg_ok : file_ok v f.
Proof. pose proof (ik_files _ _ _ Hok) as H. apply Forall_app in H as [_ H]. by inversion H. Qed.

Lemma chg_blocks b : b ∈ blocks v f -> nmeta <= b < fb /\ b ∉ used v (L1 ++ L2).
Proof.
  intros Hb. pose proof (ik_used _ _ _ Hok) as Hu. rewrite used_perm in Hu. split.
  - assert (b ∈ seqZ nmeta (fb - nmeta)) as H by (rewrite <- Hu, elem_of_app; by left).
    apply elem_of_seqZ in H. lia.
  - pose proof (NoDup_seqZ nmeta (fb - nmeta)) as Hn. rewrite <- Hu in Hn.
    apply list.NoDup_app in Hn as (_ & Hd & _). by apply Hd.
Qed.
Lemma chg_others b : b ∈ used v (L1 ++ L2) -> nmeta <= b < fb /\ b ∉ blocks v f.
Proof.
  intros Hb. split; [|by intros [_ H]%chg_blocks].
  assert (b ∈ seqZ nmeta (fb - nmeta)) as H by (rewrite <- (ik_used _ _ _ Hok), used_perm, elem_of_app; by right).
  apply elem_of_seqZ in H. lia.
Qed.
Lemma chg_NoDup : NoDup (blocks v f).
Proof.
  pose proof (NoDup_seqZ nmeta (fb - nmeta)) as Hn. rewrite <- (ik_used _ _ _ Hok), used_perm in Hn.
  by apply list.NoDup_app in Hn as (? & _).
Qed.
Lemma chg_sector b : b ∈ blocks v f -> exists d, img !! b = Some d /\ v (0, b) = d /\ length d = BSIZE.
Proof.
  intros [Hb _]%chg_blocks. pose proof (ik_fb _ _ _ Hok) as Hf.
  destruct (ik_secs _ _ _ Hok b) as (d & Hd & Hl); [layout; lia|].
  exists d. unfold view. cbn. by rewrite Hd.
Qed.

(** The file becomes [f'], with the blocks from [fb] to [fb'] added; sectors of
    the other files and beyond [fb'] stay. *)
Lemma img_ok_change img' fb' f' :
  fb <= fb' <= FSSIZE ->
  (forall b, 0 <= b < FSSIZE -> exists d, img' !! b = Some d /\ length d = BSIZE) ->
  (forall b, b ∈ used v (L1 ++ L2) \/ fb' <= b -> img' !! b = img !! b) ->
  file_ok (view img') f' -> blocks (view img') f' ≡ₚ blocks v f ++ seqZ fb (fb' - fb) ->
  img_ok img' fb' (L1 ++ f' :: L2).
Proof.
  intros Hfb Hsec Hsame Hf' Hbl. pose proof (ik_fb _ _ _ Hok) as Hf. pose proof (ik_files _ _ _ Hok) as Hfl.
  apply Forall_app in Hfl as [H1 H2]. inversion H2 as [|? ? _ H2']; subst.
  assert (Forall (file_ok v) (L1 ++ L2)) as H12 by (by apply Forall_app).
  destruct (used_frame v (view img') (L1 ++ L2) H12) as [Hu HF].
  { intros b Hb. unfold view. cbn. rewrite Hsame by auto. done. }
  apply Forall_app in HF as [HF1 HF2]. constructor.
  - done.
  - lia.
  - intros b Hb. rewrite Hsame by (right; lia). apply (ik_free _ _ _ Hok). lia.
  - transitivity (blocks (view img') f' ++ used (view img') (L1 ++ L2)).
    { rewrite !used_app, used_cons. apply Permutation_app_swap_app. }
    rewrite Hu, Hbl. rewrite <- (assoc_L (++)), (Permutation_app_comm (seqZ _ _)), (assoc_L (++)).
    rewrite <- used_perm, (ik_used _ _ _ Hok).
    replace fb with (nmeta + (fb - nmeta)) at 2 by lia.
    rewrite <- seqZ_app by lia. replace (fb - nmeta + (fb' - fb)) with (fb' - nmeta) by lia. done.
  - apply Forall_app. split; [done|]. by constructor.
Qed.
End Change.

(** ** The block for the next bytes *)

Section Append.
Context (img : gmap Z (list Z)) (fb fi : Z) (L1 L2 : list file) (ip : inode) (k : nat).
Hypothesis Hok : img_ok img fb (L1 ++ (ip, k) :: L2).
Local Abbreviation v := (view img).

Let Hf : file_ok v (ip, k) := chg_ok img fb L1 L2 (ip, k) Hok.

Lemma own_small b : b ∈ blocks v (ip, k) -> b <> 0 /\ xint b = b /\ 0 <= b < FSSIZE.
Proof.
  intros [Hb _]%(chg_blocks _ _ _ _ _ Hok). pose proof (ik_fb _ _ _ Hok). layout.
  split; [lia|]. split; [apply xint_small; lia|lia].
Qed.

Lemma rsect_found s b d : m_img s !! b = Some d -> rsect b s = Ok d s [].
Proof. intros E. unfold rsect, bind, get. cbn. by rewrite E. Qed.

Lemma append_old bn :
  (bn < k)%nat -> append_block ip bn (Mkfs img fi fb) = Ok (ip, baddr v ip bn) (Mkfs img fi fb) [].
Proof.
  intros Hbn. unfold append_block. destruct (own_small _ (blocks_data v (ip, k) bn Hbn)) as (Hnz & Hx & _). cbn [fst] in *.
  destruct (Nat.ltb_spec bn NDIRECT) as [Hd|Hd].
  - rewrite baddr_direct in * by done. rewrite Hx, (proj2 (Z.eqb_neq _ 0) Hnz). unfold bind. cbn [ret after]. by rewrite Hx.
  - destruct (own_small _ (blocks_ind v (ip, k) ltac:(cbn; lia))) as (Hnz' & Hx' & _). cbn [fst] in *.
    fold (iaddr ip). rewrite Hx', (proj2 (Z.eqb_neq _ 0) Hnz'). unfold bind at 1. cbn [ret after].
    destruct (chg_sector _ _ _ _ _ Hok _ (blocks_ind v (ip, k) ltac:(cbn; lia))) as (d & Hd' & Hv & Hl). cbn [fst] in *.
    fold (iaddr ip). rewrite Hx'. rewrite (baddr_indirect (dev:=0)) in * by (done || apply (fo_dev _ _ Hf)). rewrite Hv in *.
    unfold bind. rewrite (rsect_found (Mkfs img fi fb) (iaddr ip) d Hd'). cbn [after].
    rewrite (proj2 (Z.eqb_neq _ 0) Hnz). cbn [ret after app]. by rewrite Hx.
Qed.

(** The state after a new block: [ip'] and [img'] own the blocks up to [fb']. *)
Definition appended (ip' : inode) (img' : gmap Z (list Z)) (fb' : Z) : Prop :=
  append_block ip k (Mkfs img fi fb) = Ok (ip', baddr (view img') ip' k) (Mkfs img' fi fb') [] /\
  img_ok img' fb' (L1 ++ (ip', S k) :: L2) /\
  (forall j, (j < k)%nat -> baddr (view img') ip' j = baddr v ip j) /\
  (forall b, (exists j, (j < k)%nat /\ b = baddr v ip j) \/ b ∈ used v (L1 ++ L2) \/ b < nmeta -> img' !! b = img !! b) /\
  (exists l, ip' = with_addrs l ip) /\ view img' (0, baddr (view img') ip' k) = zeroes.

Lemma append_direct :
  (k < NDIRECT)%nat -> fb < FSSIZE -> appended (set_addr k fb ip) img (fb + 1).
Proof.
  intros Hk Hfb. pose proof (ik_fb _ _ _ Hok) as Hr. destruct Hf as [Hi Hdev _ Hdir Hind _]. cbn [fst snd] in *.
  assert (xint fb = fb) as Hx by (apply xint_small; layout; lia).
  assert (k < length (i_addrs ip))%nat as Hlen by (rewrite (io_len _ Hi); lia).
  assert (baddr v (set_addr k fb ip) k = fb) as Hbk.
  { rewrite baddr_direct by done. cbn [i_addrs set_addr]. by rewrite nth_lookup, list_lookup_insert_eq by done. }
  assert (forall j, (j < k)%nat -> baddr v (set_addr k fb ip) j = baddr v ip j) as Hbj.
  { intros j Hj. rewrite !baddr_direct by lia. cbn [i_addrs set_addr]. by rewrite !nth_lookup, list_lookup_insert_ne by lia. }
  assert (blocks v (set_addr k fb ip, S k) = blocks v (ip, k) ++ [fb]) as Hbl.
  { rewrite (blocks_snoc v ip k v _ fb []); [|done|done|by destruct (Nat.ltb_spec NDIRECT (S k)); [lia|]].
    unfold blocks. cbn [fst snd]. destruct (Nat.ltb_spec NDIRECT k); [lia|]. by rewrite !app_nil_r. }
  split; [|split; [|split; [done|split; [done|split]]]].
  - unfold append_block. rewrite (proj2 (Nat.ltb_lt _ _) Hk), (Hdir k) by lia. cbn [Z.eqb].
    change (xint 0 =? 0) with true. cbv iota. unfold new_block, bind, get, modify, ret, after. cbn.
    rewrite u32_small by (layout; lia). rewrite Hbk, !Hx, nth_lookup, list_lookup_insert_eq by done.
    unfold default, from_option, id. by rewrite Hx.
  - eapply (img_ok_change img fb L1 L2 (ip, k) Hok); [lia|apply (ik_secs _ _ _ Hok)|done| |].
    + constructor; cbn [fst snd set_addr i_addrs i_dev].
      * destruct Hi as [? ? ? ? ? Hl Ha]. constructor; try done; cbn [set_addr i_addrs].
        -- by rewrite length_insert.
        -- apply Forall_insert; [done|layout; lia].
      * done.
      * unfold NDIRECT, NINDIRECT in *. lia.
      * intros j Hj. rewrite nth_lookup, list_lookup_insert_ne by lia. rewrite <- nth_lookup. apply Hdir. lia.
      * intros _. unfold iaddr. cbn [set_addr i_addrs]. rewrite nth_lookup, list_lookup_insert_ne by lia.
        rewrite <- nth_lookup. apply Hind. lia.
      * lia.
    + rewrite Hbl. replace (fb + 1 - fb) with 1 by lia. done.
  - by eexists.
  - rewrite Hbk. unfold view. cbn. rewrite (ik_free _ _ _ Hok) by (layout; lia). done.
Qed.

Lemma append_slot :
  (NDIRECT < k)%nat -> (k < NDIRECT + NINDIRECT)%nat -> fb < FSSIZE ->
  exists img', appended ip img' (fb + 1).
Proof.
  intros Hk Hmax Hfb. pose proof (ik_fb _ _ _ Hok) as Hr. destruct Hf as [Hi Hdev _ _ _ Hsl]. cbn [fst snd] in *.
  pose proof (blocks_ind v (ip, k) Hk) as Hain. cbn [fst] in Hain.
  destruct (own_small _ Hain) as (Hanz & Hax & Har). destruct (chg_blocks _ _ _ _ _ Hok _ Hain) as [Habd Haoth].
  destruct (chg_sector _ _ _ _ _ Hok _ Hain) as (d & Hd & Hv & Hl). rewrite Hv in Hsl.
  assert (xint fb = fb) as Hx by (apply xint_small; layout; lia).
  set (d' := put_word (4 * (k - NDIRECT)) fb d). set (img' := <[iaddr ip := d']> img).
  assert (view img' (0, iaddr ip) = d') as Hv' by (unfold view, img'; cbn [snd]; by rewrite lookup_insert_eq).
  destruct (slot_file_ok k (view img') ip fb d Hi Hdev ltac:(lia) Hmax ltac:(layout; lia) Hl (Hsl Hk) Hv') as [Hfo Hbk].
  assert (forall j, (j < k)%nat -> baddr (view img') ip j = baddr v ip j) as Hbj.
  { intros j Hj. destruct (decide (j < NDIRECT)%nat); [by rewrite !baddr_direct|].
    rewrite !(baddr_indirect (dev:=0)), Hv, Hv' by (done || lia). apply word_put_other. lia. }
  assert (forall j, (j < k)%nat -> baddr v ip j <> iaddr ip) as Hne.
  { intros j Hj E. pose proof (chg_NoDup _ _ _ _ _ Hok) as Hn. unfold blocks in Hn. cbn [fst snd] in Hn.
    rewrite (proj2 (Nat.ltb_lt _ _) Hk) in Hn. apply list.NoDup_app in Hn as (_ & Hn & _).
    apply (Hn (iaddr ip)); [|by left]. rewrite <- E. apply list_elem_of_fmap. exists j. split; [done|]. apply elem_of_seq. lia. }
  exists img'. split; [|split; [|split; [done|split; [|split]]]].
  - unfold append_block. destruct (Nat.ltb_spec k NDIRECT); [lia|].
    change (nth NDIRECT (i_addrs ip) 0) with (iaddr ip). rewrite Hax, (proj2 (Z.eqb_neq _ 0) Hanz).
    unfold bind at 1. cbn [ret after]. change (nth NDIRECT (i_addrs ip) 0) with (iaddr ip). rewrite Hax.
    unfold bind at 1. rewrite (rsect_found (Mkfs img fi fb) (iaddr ip) d Hd). cbn [after].
    rewrite (Hsl Hk) by lia. cbn [Z.eqb]. unfold new_block, wsect, bind, get, modify, ret, after.
    cbv beta iota zeta. cbn [m_img m_freeinode m_freeblock app].
    rewrite u32_small by (layout; lia). rewrite Hx. fold d'. fold img'. rewrite Hbk.
    unfold d'. rewrite word_put_same, Hx by (try (layout; lia); unfold NDIRECT, NINDIRECT, BSIZE in *; lia). done.
  - eapply (img_ok_change img fb L1 L2 (ip, k) Hok); [lia| | |done|].
    + intros b Hb. destruct (decide (b = iaddr ip)) as [->|Hnb].
      * exists d'. unfold img'. rewrite lookup_insert_eq. split; [done|]. unfold d'. by rewrite put_word_length.
      * unfold img'. rewrite lookup_insert_ne by congruence. by apply (ik_secs _ _ _ Hok).
    + intros b Hb. unfold img'. rewrite lookup_insert_ne; [done|]. intros <-. destruct Hb as [Hb|Hb]; [done|lia].
    + rewrite (blocks_snoc v ip k (view img') ip fb [iaddr ip]); [|done|done|by destruct (Nat.ltb_spec NDIRECT (S k)); [|lia]].
      unfold blocks. cbn [fst snd]. rewrite (proj2 (Nat.ltb_lt _ _) Hk). replace (fb + 1 - fb) with 1 by lia.
      change (seqZ fb 1) with [0 + fb]. rewrite Z.add_0_l, <- (assoc_L (++)). apply Permutation_app_head, Permutation_app_comm.
  - intros b Hb. unfold img'. rewrite lookup_insert_ne; [done|]. intros <-.
    destruct Hb as [(j & Hj & E)|[Hb|Hb]]; [by apply (Hne j Hj)|done|lia].
  - exists (i_addrs ip). by destruct ip.
  - rewrite Hbk. unfold view. cbn. unfold img'. rewrite lookup_insert_ne by lia.
    by rewrite (ik_free _ _ _ Hok) by (layout; lia).
Qed.

Lemma append_indirect :
  k = NDIRECT -> fb + 1 < FSSIZE -> exists ip' img', appended ip' img' (fb + 2).
Proof.
  intros Hk Hfb. pose proof (ik_fb _ _ _ Hok) as Hr. destruct Hf as [Hi Hdev _ _ Hind _]. cbn [fst snd] in *.
  specialize (Hind ltac:(lia)).
  assert (xint fb = fb /\ xint (fb + 1) = fb + 1) as [Hx Hx1] by (split; apply xint_small; layout; lia).
  assert (NDIRECT < length (i_addrs ip))%nat as Hlen by (rewrite (io_len _ Hi); lia).
  set (ip' := set_addr NDIRECT fb ip). set (d' := put_word (4 * (k - NDIRECT)) (fb + 1) zeroes).
  set (img' := <[fb := d']> img).
  assert (iaddr ip' = fb) as Ha by (unfold iaddr, ip'; cbn [i_addrs set_addr]; by rewrite nth_lookup, list_lookup_insert_eq by done).
  assert (view img' (0, iaddr ip') = d') as Hv' by (rewrite Ha; unfold view, img'; cbn [snd]; by rewrite lookup_insert_eq).
  assert (inode_ok ip') as Hi'.
  { destruct Hi as [? ? ? ? ? Hl Hal]. constructor; try done; cbn [ip' set_addr i_addrs].
    - by rewrite length_insert.
    - apply Forall_insert; [done|layout; lia]. }
  destruct (slot_file_ok k (view img') ip' (fb + 1) zeroes Hi' Hdev ltac:(lia) ltac:(unfold NINDIRECT; lia) ltac:(layout; lia)
    ltac:(done) ltac:(intros; apply word_zeroes) Hv') as [Hfo Hbk].
  assert (forall j, (j < k)%nat -> baddr (view img') ip' j = baddr v ip j) as Hbj.
  { intros j Hj. rewrite !baddr_direct by lia. cbn [ip' set_addr i_addrs]. by rewrite !nth_lookup, list_lookup_insert_ne by lia. }
  exists ip', img'. split; [|split; [|split; [done|split; [|split]]]].
  - unfold append_block. destruct (Nat.ltb_spec k NDIRECT); [lia|].
    change (nth NDIRECT (i_addrs ip) 0) with (iaddr ip). rewrite Hind. change (xint 0 =? 0) with true. cbv iota.
    unfold new_block at 1, bind at 1 2 3 4, get at 1, modify at 1, ret at 1 2. cbv beta iota zeta. cbn [m_img m_freeinode m_freeblock after app].
    rewrite Hx. fold ip'. change (nth NDIRECT (i_addrs ip') 0) with (iaddr ip'). rewrite Ha, Hx.
    unfold bind at 1. rewrite (rsect_found (Mkfs img fi (u32 (fb + 1))) fb zeroes) by (apply (ik_free _ _ _ Hok); layout; lia).
    cbn [after]. rewrite word_zeroes. cbn [Z.eqb]. unfold new_block, wsect, bind, get, modify, ret, after.
    cbv beta iota zeta. cbn [m_img m_freeinode m_freeblock app].
    rewrite !u32_small by (rewrite ?u32_small by (layout; lia); layout; lia).
    rewrite Hx1. fold d'. fold img'. rewrite Hbk.
    unfold d'. rewrite word_put_same, Hx1 by (try (layout; lia); rewrite length_zeroes; unfold BSIZE; lia).
    by replace (fb + 1 + 1) with (fb + 2) by lia.
  - eapply (img_ok_change img fb L1 L2 (ip, k) Hok); [lia| | |done|].
    + intros b Hb. destruct (decide (b = fb)) as [->|Hnb].
      * exists d'. unfold img'. rewrite lookup_insert_eq. split; [done|]. unfold d'. by rewrite put_word_length.
      * unfold img'. rewrite lookup_insert_ne by congruence. by apply (ik_secs _ _ _ Hok).
    + intros b Hb. unfold img'. rewrite lookup_insert_ne; [done|]. intros <-.
      destruct Hb as [[Hb _]%(chg_others _ _ _ _ _ Hok)|Hb]; lia.
    + rewrite (blocks_snoc v ip k (view img') ip' (fb + 1) [fb]);
        [|done|done|by destruct (Nat.ltb_spec NDIRECT (S k)); [rewrite Ha|lia]].
      unfold blocks. cbn [fst snd]. destruct (Nat.ltb_spec NDIRECT k); [lia|]. rewrite app_nil_r.
      replace (fb + 2 - fb) with 2 by lia. apply Permutation_app_head.
      change (seqZ fb 2) with [0 + fb; 1 + fb]. rewrite Z.add_0_l, Z.add_comm. apply perm_swap.
  - intros b Hb. unfold img'. rewrite lookup_insert_ne; [done|]. intros <-.
    destruct Hb as [(j & Hj & E)|[[Hb _]%(chg_others _ _ _ _ _ Hok)|Hb]]; [|lia|lia].
    pose proof (blocks_data v (ip, k) j Hj) as Hin. cbn [fst] in Hin. rewrite <- E in Hin.
    destruct (chg_blocks _ _ _ _ _ Hok _ Hin). lia.
  - by eexists.
  - rewrite Hbk. unfold view, img'. cbn [snd]. rewrite lookup_insert_ne by lia.
    by rewrite (ik_free _ _ _ Hok) by (layout; lia).
Qed.

Lemma append_new :
  (k < NDIRECT + NINDIRECT)%nat -> fb + cost k <= FSSIZE -> exists ip' img', appended ip' img' (fb + cost k).
Proof.
  unfold cost. intros Hmax Hfb. destruct (Nat.eqb_spec k NDIRECT); [apply append_indirect; [done|lia]|].
  destruct (decide (k < NDIRECT)%nat).
  - eexists _, _. apply append_direct; [done|lia].
  - destruct append_slot as [img' H]; [lia|done|lia|]. by exists ip, img'.
Qed.
End Append.

(** ** Writing into a block of the file *)

Section Write.
Context (img : gmap Z (list Z)) (fb : Z) (L1 L2 : list file) (ip : inode) (k bn : nat).
Hypothesis Hok : img_ok img fb (L1 ++ (ip, k) :: L2).
Hypothesis Hbn : (bn < k)%nat.
Local Abbreviation v := (view img).
Local Abbreviation x := (baddr v ip bn).
Context (o : nat) (new d : list Z).
Hypothesis Hd : img !! x = Some d.
Hypothesis Hfit : (o + length new <= BSIZE)%nat.
Local Abbreviation img' := (<[x := bytes_put o new d]> img).

Lemma write_len : length d = BSIZE.
Proof.
  destruct (chg_sector _ _ _ _ _ Hok _ (blocks_data v (ip, k) bn Hbn)) as (d' & Hd' & _ & Hl). cbn [fst] in Hd'.
  rewrite Hd in Hd'. by injection Hd' as <-.
Qed.

Lemma write_apart j : (j < k)%nat -> j <> bn -> baddr v ip j <> x.
Proof.
  intros Hj Hne E. pose proof (chg_NoDup _ _ _ _ _ Hok) as Hn. unfold blocks in Hn. cbn [fst snd] in Hn.
  apply list.NoDup_app in Hn as (Hn & _). apply Hne. eapply (NoDup_lookup _ _ _ _ Hn).
  - rewrite list_lookup_fmap, lookup_seq_lt by done. cbn. by rewrite E.
  - by rewrite list_lookup_fmap, lookup_seq_lt by done.
Qed.
Lemma write_not_ind : (NDIRECT < k)%nat -> iaddr ip <> x.
Proof.
  intros Hk E. pose proof (chg_NoDup _ _ _ _ _ Hok) as Hn. unfold blocks in Hn. cbn [fst snd] in Hn.
  rewrite (proj2 (Nat.ltb_lt _ _) Hk) in Hn. apply list.NoDup_app in Hn as (_ & Hn & _).
  apply (Hn (iaddr ip)); [|by left]. rewrite E. apply list_elem_of_fmap. exists bn. split; [done|]. apply elem_of_seq. lia.
Qed.

Lemma view_write b : b <> x -> view img' (0, b) = v (0, b).
Proof. intros Hb. unfold view. cbn [snd]. rewrite lookup_insert_ne; [done|]. by apply not_eq_sym. Qed.

Lemma view_written : view img' (0, x) = bytes_put o new d /\ v (0, x) = d.
Proof. unfold view at 1 4. cbn [snd]. by rewrite lookup_insert_eq, Hd. Qed.

Lemma write_baddr j : (j < k)%nat -> baddr (view img') ip j = baddr v ip j.
Proof.
  intros Hj. destruct (decide (j < NDIRECT)%nat).
  { by rewrite (baddr_direct (view img') ip j), (baddr_direct v ip j). }
  pose proof (fo_dev _ _ (chg_ok _ _ _ _ _ Hok)) as Hdev. cbn [fst] in Hdev.
  rewrite (baddr_indirect (dev:=0) (view img') ip j), (baddr_indirect (dev:=0) v ip j) by (done || lia).
  f_equal. apply view_write, write_not_ind. lia.
Qed.

Lemma write_img_ok : img_ok img' fb (L1 ++ (ip, k) :: L2).
Proof.
  pose proof (chg_ok _ _ _ _ _ Hok) as Hf. pose proof (ik_fb _ _ _ Hok) as Hr.
  destruct (chg_blocks _ _ _ _ _ Hok _ (blocks_data v (ip, k) bn Hbn)) as [Hxr Hxo]. cbn [fst] in *.
  eapply (img_ok_change img fb L1 L2 (ip, k) Hok); [lia| | | |].
  - intros b Hb. destruct (decide (b = x)) as [->|Hne].
    + eexists. rewrite lookup_insert_eq. split; [done|]. rewrite length_bytes_put. apply write_len.
    + rewrite lookup_insert_ne by congruence. by apply (ik_secs _ _ _ Hok).
  - intros b Hb. rewrite lookup_insert_ne; [done|]. intros <-. destruct Hb as [Hb|Hb]; [done|lia].
  - destruct Hf as [H1 H2 H3 H4 H5 H6]. constructor; try done. cbn [fst snd] in *. intros Hk j Hj.
    rewrite view_write by (by apply write_not_ind). by apply H6.
  - rewrite Z.sub_diag, app_nil_r. unfold blocks. cbn [fst snd]. f_equiv.
    apply Permutation_refl', list_fmap_ext. intros i j H%lookup_seq. apply write_baddr. lia.
Qed.

(** The bytes of the file up to the end of what was written. *)
Lemma write_bytes off :
  off = Z.of_nat bn * BSZ + Z.of_nat o ->
  file_bytes (view img') ip 0 (Z.to_nat off + length new) = file_bytes v ip 0 (Z.to_nat off) ++ new.
Proof.
  intros ->. pose proof (fo_dev _ _ (chg_ok _ _ _ _ _ Hok)) as Hdev. cbn [fst] in Hdev.
  set (n := Z.to_nat (Z.of_nat bn * BSZ + Z.of_nat o)). pose proof write_len as Hl. unfold BSZ in n.
  unfold file_bytes at 1. rewrite seq_app, fmap_app. f_equal.
  - apply list_fmap_ext. intros i j Hj%lookup_seq. rewrite !(file_byte_baddr (dev:=0)) by (done || lia).
    set (q := (0 + Z.of_nat j) / BSZ). assert (0 <= q <= Z.of_nat bn) as Hq.
    { unfold q, BSZ. split; [apply Z.div_pos; lia|]. apply Z.lt_succ_r, Z.div_lt_upper_bound; unfold BSIZE in *; lia. }
    rewrite write_baddr by lia. destruct (decide (Z.to_nat q = bn)) as [E|E].
    + rewrite E. destruct view_written as [-> ->]. rewrite !nth_lookup. f_equal. unfold bytes_put. apply list_lookup_inserts_lt.
      assert (q = Z.of_nat bn) as Eq by lia. pose proof (Z.div_mod (0 + Z.of_nat j) BSZ ltac:(done)) as Hdm.
      fold q in Hdm. rewrite Eq in Hdm. pose proof (Z.mod_pos_bound (0 + Z.of_nat j) BSZ ltac:(done)). unfold n, BSZ in *. lia.
    + f_equal. apply view_write, write_apart; [lia|done].
  - apply list_eq. intros i. rewrite list_lookup_fmap. destruct (decide (i < length new)%nat) as [Hi|Hi].
    + rewrite lookup_seq_lt by done. cbn [fmap option_fmap option_map].
      destruct (lookup_lt_is_Some_2 new i Hi) as [y Hy]. rewrite Hy. f_equal.
      rewrite (file_byte_baddr (dev:=0)) by (done || lia).
      change (0 + n + i)%nat with (n + i)%nat.
      assert ((0 + Z.of_nat (n + i)) / BSZ = Z.of_nat bn /\ (0 + Z.of_nat (n + i)) mod BSZ = Z.of_nat (o + i)) as [-> ->].
      { apply (Z.div_mod_unique BSZ); [left; by apply Z.mod_pos_bound|left; unfold BSZ; lia|].
        rewrite <- Z.div_mod by done. unfold n, BSZ. lia. }
      rewrite !Nat2Z.id, write_baddr by done. destruct view_written as [-> _].
      rewrite nth_lookup. unfold bytes_put. rewrite list_lookup_inserts by (rewrite ?Hl; lia).
      replace (o + i - o)%nat with i by lia. by rewrite Hy.
    + rewrite lookup_seq_ge by lia. by rewrite lookup_ge_None_2 by lia.
Qed.

(** The rest of the block. *)
Lemma write_rest a :
  Z.of_nat bn * BSZ + Z.of_nat (o + length new) <= a < Z.of_nat (S bn) * BSZ ->
  file_byte (view img') ip a = file_byte v ip a.
Proof.
  intros Ha. pose proof (fo_dev _ _ (chg_ok _ _ _ _ _ Hok)) as Hdev. cbn [fst] in Hdev.
  destruct (in_block a bn ltac:(lia)) as (Ha0 & Eq & Er). rewrite !(file_byte_baddr (dev:=0)) by (done || lia).
  rewrite Eq, Er, write_baddr by done. destruct view_written as [-> ->]. rewrite !nth_lookup. f_equal.
  unfold bytes_put. apply list_lookup_inserts_ge. lia.
Qed.
End Write.

(** ** Appending *)

(** The bytes of the last block past the end of the file are zero. *)
Definition padded (v : Z * Z -> list Z) (ip : inode) (size : Z) : Prop :=
  forall a, size <= a < Z.of_nat (nblk size) * BSZ -> file_byte v ip a = 0.

Section Loop.
Context (fi : Z) (L1 L2 : list file).

(** What appending to the file between [L1] and [L2] leaves as it was. *)
Definition kept (img img' : gmap Z (list Z)) (ip ip' : inode) : Prop :=
  (forall b, b ∈ used (view img) (L1 ++ L2) \/ b < nmeta -> img' !! b = img !! b) /\ exists l, ip' = with_addrs l ip.

Lemma kept_trans img img1 img2 fb ip ip1 ip2 k :
  img_ok img fb (L1 ++ (ip, k) :: L2) -> kept img img1 ip ip1 -> kept img1 img2 ip1 ip2 -> kept img img2 ip ip2.
Proof.
  intros Hok [H1 [l1 ->]] [H2 [l2 ->]]. split; [|by exists l2]. intros b Hb. rewrite <- (H1 b Hb). apply H2.
  destruct Hb as [Hb|Hb]; [left|by right].
  pose proof (ik_files _ _ _ Hok) as HF. apply Forall_app in HF as [HF1 HF2]. inversion HF2; subst.
  destruct (used_frame (view img) (view img1) (L1 ++ L2)) as [-> _]; [by apply Forall_app| |done].
  intros c Hc. unfold view. cbn [snd]. by rewrite H1 by auto.
Qed.

Lemma block_for img fb ip off bn :
  img_ok img fb (L1 ++ (ip, nblk off) :: L2) -> 0 <= off -> bn = off / BSZ -> bn < MAXFILE ->
  fb + (owned (S (Z.to_nat bn)) - owned (nblk off)) <= FSSIZE ->
  exists ip' img', let fb' := fb + (owned (S (Z.to_nat bn)) - owned (nblk off)) in
    append_block ip (Z.to_nat bn) (Mkfs img fi fb) = Ok (ip', baddr (view img') ip' (Z.to_nat bn)) (Mkfs img' fi fb') [] /\
    img_ok img' fb' (L1 ++ (ip', S (Z.to_nat bn)) :: L2) /\
    file_bytes (view img') ip' 0 (Z.to_nat off) = file_bytes (view img) ip 0 (Z.to_nat off) /\ kept img img' ip ip' /\
    (padded (view img) ip off -> forall a, off <= a < Z.of_nat (S (Z.to_nat bn)) * BSZ -> file_byte (view img') ip' a = 0).
Proof.
  intros Hok Hoff Ebn Hmax Hsp. cbv zeta. pose proof (Z.mod_pos_bound off BSZ ltac:(done)) as Hm.
  assert (off = bn * BSZ + off mod BSZ) as Eo by (rewrite Ebn, Z.mul_comm; by apply Z.div_mod).
  assert (0 <= bn) as Hb0 by (rewrite Ebn; by apply Z.div_pos).
  pose proof (nblk_eq bn (off mod BSZ) Hb0 ltac:(lia)) as Ek. rewrite <- Eo in Ek.
  pose proof (fo_dev _ _ (chg_ok _ _ _ _ _ Hok)) as Hdev. cbn [fst] in Hdev.
  pose proof (nblk_covers off Hoff) as Hcov. destruct (Z.eqb_spec (off mod BSZ) 0) as [E0|E0].
  - rewrite Nat.add_0_r in Ek. rewrite <- Ek in *. rewrite owned_S in *.
    destruct (append_new img fb fi L1 L2 ip (nblk off) Hok) as (ip' & img' & R & Hok' & Hj & Hk & [l ->] & Hz).
    { unfold MAXFILE in Hmax. lia. } { lia. }
    exists (with_addrs l ip), img'. replace (fb + (owned (nblk off) + cost (nblk off) - owned (nblk off))) with (fb + cost (nblk off)) by lia.
    split; [done|]. split; [done|]. split; [|split; [split; [intros b Hb; apply Hk; tauto|by exists l]|]].
    + apply (file_bytes_same (dev:=0) _ _ _ _ (nblk off)); [done|done|lia|]. intros j Hjk. split; [by apply Hj|].
      unfold view at 1 3. cbn [snd]. rewrite Hk; [done|]. left. by exists j.
    + intros _ a Ha. destruct (in_block a (nblk off) ltac:(lia)) as (_ & Eq & _). rewrite (file_byte_baddr (dev:=0)) by (done || lia).
      rewrite Eq, Hz. apply nth_zeroes.
  - rewrite Nat.add_1_r in Ek. rewrite <- Ek in *. exists ip, img. rewrite Z.sub_diag, Z.add_0_r.
    split; [by apply (append_old img fb fi L1 L2 ip (nblk off)); [|lia]|]. split; [done|]. split; [done|].
    split; [|done]. split; [done|]. exists (i_addrs ip). by destruct ip.
Qed.

Lemma write_kept img fb ip k bn x d new o :
  img_ok img fb (L1 ++ (ip, k) :: L2) -> (bn < k)%nat -> x = baddr (view img) ip bn ->
  kept img (<[x := bytes_put o new d]> img) ip ip.
Proof.
  intros Hok Hbn ->. destruct (chg_blocks _ _ _ _ _ Hok _ (blocks_data (view img) (ip, k) bn Hbn)) as [Hr Ho]. cbn [fst] in *.
  split; [|exists (i_addrs ip); by destruct ip]. intros b Hb. rewrite lookup_insert_ne; [done|]. intros <-.
  destruct Hb as [Hb|Hb]; [done|lia].
Qed.

(** One round: [n1] bytes, up to the end of a block. *)
Lemma append_round img fb ip off p :
  img_ok img fb (L1 ++ (ip, nblk off) :: L2) -> 0 <= off -> p <> [] ->
  off + Z.of_nat (length p) <= MAXFILE * BSZ ->
  fb + (owned (nblk (off + Z.of_nat (length p))) - owned (nblk off)) <= FSSIZE ->
  let n1 := Nat.min (length p) (Z.to_nat ((off / BSZ + 1) * BSZ - off)) in
  let off' := off + Z.of_nat n1 in
  (0 < n1)%nat /\ off / BSZ < MAXFILE /\
  exists ip' img' x d buf, let fb' := fb + (owned (nblk off') - owned (nblk off)) in
    append_block ip (Z.to_nat (off / BSZ)) (Mkfs img fi fb) = Ok (ip', x) (Mkfs d fi fb') [] /\ d !! x = Some buf /\
    img' = <[x := bytes_put (Z.to_nat (off - off / BSZ * BSZ)) (take n1 p) buf]> d /\
    img_ok img' fb' (L1 ++ (ip', nblk off') :: L2) /\ kept img img' ip ip' /\
    file_bytes (view img') ip' 0 (Z.to_nat off') = file_bytes (view img) ip 0 (Z.to_nat off) ++ take n1 p /\
    (padded (view img) ip off -> padded (view img') ip' off').
Proof.
  intros Hok Hoff Hp Hmax Hsp n1 off'. set (bn := off / BSZ) in *.
  pose proof (Z.mod_pos_bound off BSZ ltac:(done)) as Hm.
  assert (off = bn * BSZ + off mod BSZ) as Eo by (unfold bn; rewrite Z.mul_comm; by apply Z.div_mod).
  assert (0 <= bn) as Hb0 by (by apply Z.div_pos).
  assert (0 < length p)%nat as Hlp by (destruct p; [done|cbn; lia]).
  assert (n1 = Nat.min (length p) (Z.to_nat (BSZ - off mod BSZ))) as En1.
  { unfold n1. fold bn. do 2 f_equal. rewrite Z.mul_add_distr_r, Z.mul_1_l. lia. }
  clearbody n1. assert (0 < n1)%nat as Hn1 by lia.
  assert (bn < MAXFILE) as Hbm by (unfold BSZ, BSIZE in *; nia).
  assert (off' = bn * BSZ + (off mod BSZ + Z.of_nat n1)) as Eo' by lia.
  assert (0 <= off mod BSZ + Z.of_nat n1 <= BSZ) as Hend by lia.
  pose proof (nblk_eq bn (off mod BSZ + Z.of_nat n1) Hb0 Hend) as Ek'. rewrite <- Eo' in Ek'.
  rewrite (proj2 (Z.eqb_neq (off mod BSZ + Z.of_nat n1) 0)) in Ek' by lia. rewrite Nat.add_1_r in Ek'.
  pose proof (owned_mono _ _ (nblk_mono off' (off + Z.of_nat (length p)) ltac:(lia))) as Hmono.
  split; [done|]. split; [done|].
  destruct (block_for img fb ip off bn Hok Hoff eq_refl Hbm ltac:(rewrite <- Ek'; lia)) as (ip' & d & R & Hok' & Hby & Hkept & Hpad).
  rewrite <- Ek' in R, Hok'. set (x := baddr (view d) ip' (Z.to_nat bn)) in *.
  pose proof (blocks_data (view d) (ip', nblk off') (Z.to_nat bn) ltac:(cbn; lia)) as Hin. cbn [fst] in Hin.
  destruct (chg_sector _ _ _ _ _ Hok' _ Hin) as (buf & Hbuf & _ & Hlen).
  eexists ip', _, x, d, buf. cbv zeta. split; [exact R|]. split; [done|]. split; [reflexivity|].
  replace (off - bn * BSZ) with (off mod BSZ) by lia.
  assert (length (take n1 p) = n1) as Hlt by (rewrite length_take; lia).
  split; [|split; [|split]].
  - eapply (write_img_ok d _ L1 L2 ip' (nblk off') (Z.to_nat bn)); [exact Hok'|lia|done|rewrite Hlt; unfold BSZ in *; lia].
  - eapply (kept_trans img d _ fb ip ip' ip' (nblk off)); [done|done|].
    eapply (write_kept d _ ip' (nblk off') (Z.to_nat bn)); [done|lia|done].
  - pose proof (write_bytes d _ L1 L2 ip' (nblk off') (Z.to_nat bn) Hok' ltac:(lia) (Z.to_nat (off mod BSZ)) (take n1 p) buf
      Hbuf ltac:(rewrite Hlt; unfold BSZ in *; lia) off ltac:(lia)) as Hw.
    rewrite Hlt in Hw. replace (Z.to_nat off') with (Z.to_nat off + n1)%nat by lia.
    etransitivity; [exact Hw|]. by rewrite Hby.
  - intros Hp0 a Ha. rewrite Ek' in Ha.
    etransitivity; [|apply (Hpad Hp0 a); lia].
    eapply (write_rest d _ L1 L2 ip' (nblk off') (Z.to_nat bn)); [exact Hok'|lia|exact Hbuf|rewrite Hlt; unfold BSZ in *; lia|].
    rewrite Hlt. lia.
Qed.

Lemma iappend_loop_ok fuel p img fb ip off :
  img_ok img fb (L1 ++ (ip, nblk off) :: L2) -> 0 <= off -> (length p <= fuel)%nat ->
  off + Z.of_nat (length p) <= MAXFILE * BSZ ->
  fb + (owned (nblk (off + Z.of_nat (length p))) - owned (nblk off)) <= FSSIZE ->
  exists ip' img', let off' := off + Z.of_nat (length p) in let fb' := fb + (owned (nblk off') - owned (nblk off)) in
    iappend_loop fuel ip off p (Mkfs img fi fb) = Ok (ip', off') (Mkfs img' fi fb') [] /\
    img_ok img' fb' (L1 ++ (ip', nblk off') :: L2) /\ kept img img' ip ip' /\
    file_bytes (view img') ip' 0 (Z.to_nat off') = file_bytes (view img) ip 0 (Z.to_nat off) ++ p /\
    (padded (view img) ip off -> padded (view img') ip' off').
Proof.
  revert p img fb ip off. induction fuel as [|fuel IH]; intros p img fb ip off Hok Hoff Hlen Hmax Hsp; cbv zeta.
  all: destruct p as [|c p]; [|try (cbn in Hlen; lia)].
  1,2: exists ip, img; cbn [length iappend_loop]; rewrite Z.add_0_r, Z.sub_diag, Z.add_0_r, app_nil_r;
    (split; [done|]; split; [done|]; split; [|by split]; split; [done|exists (i_addrs ip); by destruct ip]).
  destruct (append_round img fb ip off (c :: p) Hok Hoff ltac:(done) Hmax Hsp)
    as (Hn1 & Hbm & ip1 & img1 & x & d & buf & R & Hbuf & Eimg & Hok1 & Hk1 & Hby & Hp1).
  set (q := c :: p) in *. set (n1 := Nat.min _ _) in *. set (off1 := off + Z.of_nat n1) in *.
  assert (off1 + Z.of_nat (length (drop n1 q)) = off + Z.of_nat (length q)) as Esum by (rewrite length_drop; lia).
  destruct (IH (drop n1 q) img1 _ ip1 off1 Hok1) as (ip' & img' & R' & Hok' & Hk' & Hby' & Hp').
  { lia. } { rewrite length_drop. lia. } { by rewrite Esum. } { rewrite Esum. lia. }
  rewrite Esum in *. exists ip', img'.
  replace (fb + (owned (nblk off1) - owned (nblk off)) + (owned (nblk (off + Z.of_nat (length q))) - owned (nblk off1)))
    with (fb + (owned (nblk (off + Z.of_nat (length q))) - owned (nblk off))) in * by lia.
  split; [|split; [done|split; [by eapply kept_trans|split; [|by auto]]]].
  - change (iappend_loop (S fuel) ip off q) with (fun s => iappend_loop (S fuel) ip off q s). cbn [iappend_loop]. unfold q at 1.
    cbv beta iota zeta. rewrite (proj2 (Z.ltb_lt _ _) Hbm). cbn [negb].
    unfold bind at 1. rewrite R. cbn [after]. fold q. fold n1. unfold bind at 1. rewrite (rsect_found _ x buf) by done.
    cbn [after]. unfold bind, wsect, modify. cbn [m_img m_freeinode m_freeblock]. rewrite <- Eimg. fold off1. rewrite R'. done.
  - rewrite Hby', Hby, <- (assoc_L (++)), take_drop. done.
Qed.
End Loop.

(** ** Disk inodes *)

Lemma IBLOCK_mk n : 0 <= n < NINODES -> IBLOCK n mk_sb = n / IPB + 32 /\ 32 <= IBLOCK n mk_sb < 45.
Proof.
  intros Hn. unfold NINODES in Hn. assert (0 <= n / IPB < 13) as Hd.
  { unfold IPB. split; [apply Z.div_pos; lia|apply Z.div_lt_upper_bound; lia]. }
  unfold IBLOCK. change (sb_inodestart mk_sb) with 32. rewrite u32_small by lia. lia.
Qed.

Lemma dinode_apart n n' :
  0 <= n < NINODES -> 0 <= n' < NINODES -> n <> n' -> IBLOCK n mk_sb = IBLOCK n' mk_sb ->
  (dip_off n' + 64 <= dip_off n \/ dip_off n + 64 <= dip_off n')%nat.
Proof.
  intros Hn Hn' Hne E. destruct (IBLOCK_mk n Hn) as [E1 _], (IBLOCK_mk n' Hn') as [E2 _].
  unfold dip_off, IPB in *. rewrite E1, E2 in E. Z.div_mod_to_equations. lia.
Qed.

Lemma load_dinode_ext o d d' ip :
  (forall k n, (k + n <= 64)%nat -> bytes_at (o + k) n d' = bytes_at (o + k) n d) ->
  load_dinode o d' ip = load_dinode o d ip.
Proof.
  intros H. unfold load_dinode, dip_type, dip_short, dip_size, dip_addrs. rewrite !H by lia. f_equal.
  apply list_fmap_ext. intros i j Hj%lookup_seq. unfold NDIRECT in Hj.
  replace (o + 12 + 4 * j)%nat with (o + (12 + 4 * j))%nat by lia. by rewrite H by lia.
Qed.

(** The inode numbered [n], as on disk. *)
Definition disk_inode (v : Z * Z -> list Z) (n : Z) : inode :=
  load_dinode (dip_off n) (v (0, IBLOCK n mk_sb)) inode0.

(** Fields that are not on disk. *)
Definition on_disk (ip : inode) : Prop :=
  ip = Inode 0 0 0 initsleeplock 0 (i_type ip) (i_major ip) (i_minor ip) (i_nlink ip) (i_size ip) (i_addrs ip).

Section Store.
Context (img : gmap Z (list Z)) (n : Z) (ip : inode) (buf : list Z).
Hypothesis Hn : 0 <= n < NINODES.
Hypothesis Hbuf : img !! IBLOCK n mk_sb = Some buf.
Hypothesis Hlen : length buf = BSIZE.
Hypothesis Hip : inode_ok ip.
Local Abbreviation img' := (<[IBLOCK n mk_sb := store_dinode (dip_off n) ip buf]> img).

Lemma dinode_store_same : on_disk ip -> disk_inode (view img') n = ip.
Proof.
  intros Hd. unfold disk_inode, view. cbn [snd]. rewrite lookup_insert_eq. cbn [default from_option]. unfold id.
  rewrite load_store_dinode by (done || (rewrite Hlen; apply dip_off_bound)). symmetry. exact Hd.
Qed.

Lemma dinode_store_other n' : 0 <= n' < NINODES -> n' <> n -> disk_inode (view img') n' = disk_inode (view img) n'.
Proof.
  intros Hn' Hne. unfold disk_inode. destruct (decide (IBLOCK n' mk_sb = IBLOCK n mk_sb)) as [E|E].
  - apply load_dinode_ext. intros k m Hk. unfold view. cbn [snd]. rewrite E, lookup_insert_eq, Hbuf. cbn [default from_option].
    unfold id. apply store_dinode_other; [apply (io_len _ Hip)|].
    pose proof (dinode_apart n' n Hn' Hn Hne E). lia.
  - unfold view. cbn [snd]. by rewrite lookup_insert_ne by congruence.
Qed.
End Store.

Lemma store_dinode_length o ip d : length (store_dinode o ip d) = length d.
Proof. unfold store_dinode, put_addrs, put_word, put_short. by rewrite !length_bytes_put. Qed.

(** A sector below the data blocks changes. *)
Lemma img_ok_meta img fb fl b d :
  img_ok img fb fl -> b < nmeta -> length d = BSIZE ->
  img_ok (<[b := d]> img) fb fl /\ forall c, nmeta <= c -> view (<[b := d]> img) (0, c) = view img (0, c).
Proof.
  intros Hok Hb Hd. assert (forall c, nmeta <= c -> view (<[b := d]> img) (0, c) = view img (0, c)) as Hv.
  { intros c Hc. unfold view. cbn [snd]. by rewrite lookup_insert_ne by lia. }
  split; [|done]. destruct Hok as [H1 H2 H3 H4 H5].
  destruct (used_frame (view img) (view (<[b := d]> img)) fl H5) as [Hu HF].
  { intros c Hc. apply Hv. rewrite H4 in Hc. apply elem_of_seqZ in Hc. lia. }
  constructor; [|done| |by rewrite Hu|done].
  - intros c Hc. destruct (decide (c = b)) as [->|Hne]; [rewrite lookup_insert_eq; eauto|].
    rewrite lookup_insert_ne by congruence. auto.
  - intros c Hc. rewrite lookup_insert_ne by lia. auto.
Qed.
