(* ===== verification/MkfsImage.v ===== *)
(** * The finished image (mkfs/mkfs.c main)

    What mkfs has put into the image at each point, file by file, how [ialloc]
    and [iappend] extend it, and the image that main leaves: the superblock, an
    empty log, the inodes with the contents of the files, a root directory that
    names them, and the bitmap of exactly the blocks in use. *)

From Stdlib Require Import ZArith Lia.
From stdpp Require Import base gmap list strings numbers.
From S2P Require Import Prelude CString Printf Sleeplock Bio BioFacts Log Fs FsFacts FsInode FsRead FsFile Mkfs MkfsFacts.
Local Open Scope xv6_scope.

#[local] Arguments xint _ : simpl never.
#[local] Arguments xshort _ : simpl never.
#[local] Arguments word _ _ : simpl never.
#[local] Arguments u32 _ : simpl never.
#[local] Arguments zeroes : simpl never.

Local Abbreviation file_ok := (FsFile.file_ok 0).

(** ** What the image holds *)

(** Type, size field and bytes of a file. *)
Record content := Content { c_type : Z; c_size : Z; c_bytes : list Z }.
Definition len (c : content) : Z := Z.of_nat (length (c_bytes c)).
Definition of_bytes (t : Z) (bs : list Z) : content := Content t (Z.of_nat (length bs)) bs.

Record holds (v : Z * Z -> list Z) (p : inode * content) : Prop := {
  h_disk : on_disk (fst p);
  h_type : i_type (fst p) = c_type (snd p);
  h_nlink : i_nlink (fst p) = 1;
  h_size : i_size (fst p) = c_size (snd p);
  h_bytes : file_bytes v (fst p) 0 (length (c_bytes (snd p))) = c_bytes (snd p);
  h_pad : padded v (fst p) (len (snd p))
}.

Definition sized (p : inode * content) : file := (fst p, nblk (len (snd p))).

(** The sectors before the inodes: boot block, superblock, log. *)
Definition low_sector (b : Z) : list Z := if b =? 1 then bytes_put 0 (sb_bytes mk_sb) zeroes else zeroes.

(** File [i] of the list has inode number [i + 1]. *)
Record mk_ok (s : mkfs) (pl : list (inode * content)) : Prop := {
  mo_img : img_ok (m_img s) (m_freeblock s) (sized <$> pl);
  mo_free : m_freeinode s = Z.of_nat (length pl) + 1;
  mo_max : Z.of_nat (length pl) < NINODES;
  mo_disk : forall i p, pl !! i = Some p -> disk_inode (view (m_img s)) (Z.of_nat i + 1) = fst p;
  mo_holds : Forall (holds (view (m_img s))) pl;
  mo_rest : forall n, Z.of_nat (length pl) < n < NINODES -> i_type (disk_inode (view (m_img s)) n) = 0;
  mo_low : forall b, 0 <= b < 32 -> m_img s !! b = Some (low_sector b)
}.
Definition mk_has (s : mkfs) (cs : list content) : Prop := exists pl, mk_ok s pl /\ snd <$> pl = cs.

(** ** Reading and writing inodes *)

Lemma disk_inode_frame v v' n :
  0 <= n < NINODES -> (forall b, b < nmeta -> v' (0, b) = v (0, b)) -> disk_inode v' n = disk_inode v n.
Proof.
  intros Hn Hv. unfold disk_inode. rewrite Hv; [done|]. destruct (IBLOCK_mk n Hn) as [_ H]. rewrite nmeta_eq. lia.
Qed.

Lemma rinode_reads s fb fl n : img_ok (m_img s) fb fl -> 0 <= n < NINODES -> rinode n s = Ok (disk_inode (view (m_img s)) n) s [].
Proof.
  intros Hok Hn. destruct (IBLOCK_mk n Hn) as [_ Hb].
  destruct (ik_secs _ _ _ Hok (IBLOCK n mk_sb)) as (d & Hd & _); [unfold FSSIZE; lia|].
  unfold rinode, bind. rewrite (rsect_found s _ d Hd). cbn [after ret app]. unfold disk_inode, view. cbn [snd]. by rewrite Hd.
Qed.

Lemma winode_writes img fi fb fl n ip :
  img_ok img fb fl -> 0 <= n < NINODES -> inode_ok ip -> on_disk ip ->
  exists img', winode n ip (Mkfs img fi fb) = Ok tt (Mkfs img' fi fb) [] /\ img_ok img' fb fl /\
    (forall b, nmeta <= b -> view img' (0, b) = view img (0, b)) /\ (forall b, b < 32 -> img' !! b = img !! b) /\
    disk_inode (view img') n = ip /\
    forall n', 0 <= n' < NINODES -> n' <> n -> disk_inode (view img') n' = disk_inode (view img) n'.
Proof.
  intros Hok Hn Hip Hd. destruct (IBLOCK_mk n Hn) as [_ Hb].
  destruct (ik_secs _ _ _ Hok (IBLOCK n mk_sb)) as (buf & Hbuf & Hlen); [unfold FSSIZE; lia|].
  destruct (img_ok_meta img fb fl (IBLOCK n mk_sb) (store_dinode (dip_off n) ip buf) Hok) as [Hok' Hv].
  { rewrite nmeta_eq. lia. } { by rewrite store_dinode_length. }
  eexists. split; [|split; [exact Hok'|split; [exact Hv|split; [|split]]]].
  - unfold winode, bind. rewrite (rsect_found (Mkfs img fi fb) _ buf Hbuf). done.
  - intros b Hlt. rewrite lookup_insert_ne by lia. done.
  - by apply dinode_store_same.
  - intros n' Hn' Hne. by apply dinode_store_other.
Qed.

(** ** Files that stay *)

Lemma holds_frame v v' p :
  file_ok v (sized p) -> (forall b, b ∈ blocks v (sized p) -> v' (0, b) = v (0, b)) -> holds v p -> holds v' p.
Proof.
  intros Hf Hs [H1 H2 H3 H4 H5 H6]. pose proof (fo_dev _ _ Hf) as Hdev.
  pose proof (nblk_covers (len (snd p)) ltac:(unfold len; lia)) as Hc. unfold len in Hc.
  constructor; try done.
  - rewrite <- H5 at 2. by apply (file_bytes_frame (dev:=0) v v' (sized p)).
  - intros a Ha. rewrite <- (H6 a Ha). apply (file_byte_frame (dev:=0) v v' (sized p)); [done|done|].
    split; [unfold len in Ha; lia|apply Ha].
Qed.

Lemma holds_frame_all v v' pl :
  Forall (file_ok v) (sized <$> pl) -> (forall b, b ∈ used v (sized <$> pl) -> v' (0, b) = v (0, b)) ->
  Forall (holds v) pl -> Forall (holds v') pl.
Proof.
  intros Hf Hs Hh. induction Hh as [|p pl Hp _ IH]; [done|]. cbn [fmap list_fmap] in *. rewrite used_cons in Hs.
  setoid_rewrite elem_of_app in Hs. inversion Hf; subst. constructor; [apply (holds_frame v v' p); auto|auto].
Qed.

(** An inode that differs outside its block addresses. *)
Lemma img_ok_inode img fb L1 L2 ip ip' k :
  img_ok img fb (L1 ++ (ip, k) :: L2) -> inode_ok ip' -> i_dev ip' = 0 -> i_addrs ip' = i_addrs ip ->
  img_ok img fb (L1 ++ (ip', k) :: L2).
Proof.
  intros Hok Hi Hd Ha. pose proof (chg_ok _ _ _ _ _ Hok) as [? Hdev ? ? ? ?]. pose proof (ik_fb _ _ _ Hok).
  assert (forall j, baddr (view img) ip' j = baddr (view img) ip j) as Hb.
  { intros j. unfold baddr, file_addr. cbn [fst] in Hdev. by rewrite Ha, Hd, Hdev. }
  apply (img_ok_change img fb L1 L2 (ip, k) Hok); [lia|apply (ik_secs _ _ _ Hok)|done| |].
  - constructor; unfold iaddr in *; cbn [fst snd] in *; rewrite ?Ha; done.
  - rewrite Z.sub_diag, app_nil_r. unfold blocks, iaddr. cbn [fst snd]. rewrite Ha. f_equiv.
    apply Permutation_refl', list_fmap_ext. intros. apply Hb.
Qed.

(** ** One file changes *)

Section Step.
Context (s : mkfs) (A B : list (inode * content)) (ip : inode) (c : content).
Hypothesis Hok : mk_ok s (A ++ (ip, c) :: B).
Local Abbreviation v := (view (m_img s)).
Local Abbreviation n := (Z.of_nat (length A) + 1).

Lemma step_img : img_ok (m_img s) (m_freeblock s) ((sized <$> A) ++ (ip, nblk (len c)) :: (sized <$> B)).
Proof. pose proof (mo_img _ _ Hok) as H. by rewrite fmap_app in H. Qed.

Lemma step_range : 0 <= n < NINODES.
Proof. pose proof (mo_max _ _ Hok) as H. rewrite length_app in H. cbn in H. lia. Qed.

Lemma step_holds : holds v (ip, c) /\ disk_inode v n = ip.
Proof.
  pose proof (mo_holds _ _ Hok) as H. apply Forall_app in H as [_ H]. inversion H; subst. split; [done|].
  apply (mo_disk _ _ Hok _ (ip, c)). by rewrite list_lookup_middle.
Qed.

Lemma mk_ok_step img' fb' ip' c' :
  img_ok img' fb' ((sized <$> A) ++ sized (ip', c') :: (sized <$> B)) ->
  (forall b, b ∈ used v ((sized <$> A) ++ (sized <$> B)) -> view img' (0, b) = v (0, b)) ->
  (forall b, b < 32 -> img' !! b = m_img s !! b) -> disk_inode (view img') n = ip' ->
  (forall n', 0 <= n' < NINODES -> n' <> n -> disk_inode (view img') n' = disk_inode v n') ->
  holds (view img') (ip', c') ->
  mk_ok (Mkfs img' (m_freeinode s) fb') (A ++ (ip', c') :: B).
Proof.
  intros Himg Hused Hlow Hn Hrest Hh. pose proof (mo_holds _ _ Hok) as H0. apply Forall_app in H0 as [HA HB].
  pose proof (mo_max _ _ Hok) as Hmax. inversion HB as [|? ? _ HB']; subst.
  pose proof (ik_files _ _ _ step_img) as Hfo. apply Forall_app in Hfo as [FA FB]. inversion FB; subst.
  assert (length (A ++ (disk_inode (view img') n, c') :: B) = length (A ++ (ip, c) :: B)) as El by (by rewrite !length_app).
  constructor; cbn [m_img m_freeinode m_freeblock].
  - by rewrite fmap_app.
  - rewrite El. apply (mo_free _ _ Hok).
  - by rewrite El.
  - intros i p Hp. destruct (decide (i = length A)) as [->|Hne].
    { rewrite list_lookup_middle in Hp by done. by injection Hp as <-. }
    assert (i < length (A ++ (ip, c) :: B))%nat as Hi by (rewrite <- El; by apply lookup_lt_Some in Hp).
    rewrite Hrest by lia. apply (mo_disk _ _ Hok i p). rewrite <- Hp.
    destruct (decide (i < length A)%nat); [by rewrite !lookup_app_l|]. rewrite !lookup_app_r by lia.
    by destruct (i - length A)%nat eqn:E; [lia|].
  - assert (Forall (holds (view img')) (A ++ B)) as HAB.
    { apply (holds_frame_all v); [rewrite fmap_app; by apply Forall_app|by rewrite fmap_app|by apply Forall_app]. }
    apply Forall_app in HAB as [? ?]. apply Forall_app. split; [done|]. by constructor.
  - intros m Hm. rewrite El in Hm. rewrite length_app in Hm. cbn [length] in Hm. rewrite Hrest by lia.
    apply (mo_rest _ _ Hok). rewrite length_app. cbn [length]. lia.
  - intros b Hb. rewrite Hlow by lia. by apply (mo_low _ _ Hok).
Qed.

(** The changed inode goes back to its block. *)
Lemma store_back img1 fb1 ip1 ip' c' :
  img_ok img1 fb1 ((sized <$> A) ++ (ip1, nblk (len c')) :: (sized <$> B)) ->
  (forall b, b ∈ used v ((sized <$> A) ++ (sized <$> B)) \/ b < nmeta -> img1 !! b = m_img s !! b) ->
  inode_ok ip' -> i_addrs ip' = i_addrs ip1 -> holds (view img1) (ip', c') ->
  exists s', winode n ip' (Mkfs img1 (m_freeinode s) fb1) = Ok tt s' [] /\ mk_ok s' (A ++ (ip', c') :: B).
Proof.
  intros Hok1 Hkept Hi' Ha Hh. pose proof (h_disk _ _ Hh) as Hd. cbn [fst] in Hd.
  assert (i_dev ip' = 0) as Hdev by (by rewrite Hd).
  pose proof (img_ok_inode _ _ _ _ _ ip' _ Hok1 Hi' Hdev Ha) as Hok2.
  destruct (winode_writes img1 (m_freeinode s) fb1 _ n ip' Hok2 step_range Hi' Hd) as (img' & Rw & Hok' & Hv & Hl & Hdn & Hdo).
  exists (Mkfs img' (m_freeinode s) fb1). split; [exact Rw|]. apply mk_ok_step; [done| | |done| |].
  - intros b Hb. pose proof (chg_others _ _ _ _ _ step_img b Hb) as [Hr _]. rewrite Hv by lia.
    unfold view. cbn [snd]. by rewrite Hkept by auto.
  - intros b Hb. rewrite Hl by done. apply Hkept. right. rewrite nmeta_eq. lia.
  - intros n' Hn' Hne. rewrite Hdo by done. apply disk_inode_frame; [done|]. intros b Hb. unfold view. cbn [snd].
    by rewrite Hkept by auto.
  - pose proof (chg_ok _ _ _ _ _ Hok2) as Hf. apply (holds_frame (view img1) _ (ip', c')); [exact Hf| |done].
    intros b Hb. apply Hv. apply (chg_blocks _ _ _ _ _ Hok2) in Hb as [Hb _]. lia.
Qed.
End Step.

(** ** iappend *)

Lemma MAXFILE_bytes : MAXFILE * BSZ < 2 ^ 32.
Proof. done. Qed.

Lemma on_disk_dev ip : on_disk ip -> i_dev ip = 0.
Proof. intros ->. done. Qed.

Lemma iappend_ok s A B ip t bs p :
  mk_ok s (A ++ (ip, of_bytes t bs) :: B) -> Z.of_nat (length (bs ++ p)) <= MAXFILE * BSZ ->
  m_freeblock s + (owned (nblk (len (of_bytes t (bs ++ p)))) - owned (nblk (len (of_bytes t bs)))) <= FSSIZE ->
  exists s' ip', iappend (Z.of_nat (length A) + 1) p s = Ok tt s' [] /\ mk_ok s' (A ++ (ip', of_bytes t (bs ++ p)) :: B).
Proof.
  intros Hok Hmax Hsp. pose proof (step_img _ _ _ _ _ Hok) as Himg. pose proof (step_range _ _ _ _ _ Hok) as Hn.
  destruct (step_holds _ _ _ _ _ Hok) as [[Hdisk Hty Hnl Hsz Hby Hpad] Hdi].
  cbn [fst snd c_type c_size c_bytes of_bytes] in *. set (k := Z.of_nat (length bs)) in *.
  set (k' := len (of_bytes t (bs ++ p))) in *. pose proof MAXFILE_bytes.
  assert (k + Z.of_nat (length p) = k') as Ek by (unfold k', len; cbn; rewrite length_app; lia).
  destruct (iappend_loop_ok (m_freeinode s) (sized <$> A) (sized <$> B) (length p) p (m_img s) (m_freeblock s) ip k
    Himg ltac:(lia) (le_n _)) as (ip1 & img1 & R & Hok1 & [Hkept [l ->]] & Hby1 & Hpad1).
  { rewrite length_app in Hmax. lia. } { by rewrite Ek. }
  rewrite Ek in *. assert (k' <= MAXFILE * BSZ) as Hk' by done.
  pose proof (fo_inode _ _ (chg_ok _ _ _ _ _ Hok1)) as Hi1. set (ip' := set_size k' (with_addrs l ip)).
  destruct (store_back _ _ _ _ _ Hok img1 _ (with_addrs l ip) ip' (of_bytes t (bs ++ p)) Hok1 Hkept)
    as (s' & Rw & Hok'); [by destruct Hi1; constructor; try done; cbn; lia|done| |].
  { pose proof (on_disk_dev _ Hdisk) as Hdev. constructor; try done.
    - unfold on_disk, ip' in *. cbn. by rewrite Hdisk.
    - change (file_bytes (view img1) (with_addrs l ip) 0 (length (bs ++ p)) = bs ++ p).
      replace (length (bs ++ p)) with (Z.to_nat k') by (unfold k', len; cbn; lia).
      rewrite Hby1. unfold k. rewrite Nat2Z.id. by rewrite Hby.
    - exact (Hpad1 Hpad). }
  exists s', ip'. split; [|done]. unfold iappend, bind. rewrite (rinode_reads s _ _ _ Himg Hn). cbn [after].
  rewrite Hdi, Hsz. fold k. rewrite (xint_small k) by lia. destruct s as [img fi fb]. cbn [m_img m_freeinode m_freeblock] in *.
  rewrite R. cbn [after]. rewrite (xint_small k') by lia. fold ip'. by rewrite Rw.
Qed.

(** ** Space *)

Definition total (cs : list content) : Z := foldr (fun c z => owned (nblk (len c)) + z) 0 cs.

Lemma total_cons c cs : total (c :: cs) = owned (nblk (len c)) + total cs.
Proof. done. Qed.
#[local] Arguments total _ : simpl never.

(** The files fit into an image. *)
Record fits (cs : list content) : Prop := {
  ft_blocks : nmeta + total cs <= FSSIZE;
  ft_inodes : Z.of_nat (length cs) < NINODES;
  ft_sizes : Forall (fun c => len c <= MAXFILE * BSZ) cs
}.

Lemma length_blocks v f : Z.of_nat (length (blocks v f)) = owned (snd f).
Proof.
  unfold blocks, owned. rewrite length_app, length_fmap, length_seq. destruct (NDIRECT <? snd f)%nat; cbn; lia.
Qed.
Lemma length_used v pl : Z.of_nat (length (used v (sized <$> pl))) = total (snd <$> pl).
Proof.
  induction pl as [|p pl IH]; [done|]. cbn [fmap list_fmap]. by rewrite used_cons, total_cons, length_app, Nat2Z.inj_add, length_blocks, <- IH.
Qed.
Lemma freeblock_total s pl : mk_ok s pl -> m_freeblock s = nmeta + total (snd <$> pl).
Proof.
  intros Hok. pose proof (mo_img _ _ Hok) as Hi. pose proof (Permutation_length (ik_used _ _ _ Hi)) as Hl.
  pose proof (ik_fb _ _ _ Hi). rewrite <- (length_used (view (m_img s))), Hl, length_seqZ. lia.
Qed.

Lemma total_app cs cs' : total (cs ++ cs') = total cs + total cs'.
Proof. induction cs as [|c cs IH]; [done|]. cbn [app]. rewrite !total_cons. lia. Qed.
Lemma owned_nonneg k : 0 <= owned k.
Proof. unfold owned. destruct (_ <? _)%nat; lia. Qed.
Lemma total_nonneg cs : 0 <= total cs.
Proof. induction cs as [|c cs IH]; [done|]. rewrite total_cons. pose proof (owned_nonneg (nblk (len c))). lia. Qed.

(** Fewer and shorter files fit as well. *)
Lemma fits_less cs cs1 cs2 : Forall2 (fun c c' => len c <= len c') cs cs1 -> fits (cs1 ++ cs2) -> fits cs.
Proof.
  intros H [Hb Hi Hs]. rewrite total_app, length_app in *. apply Forall_app in Hs as [Hs _].
  assert (total cs <= total cs1 /\ Forall (fun c => len c <= MAXFILE * BSZ) cs) as [Ht HF].
  { clear Hb Hi. induction H as [|c c' cs cs1 Hc H IH]; [done|]. inversion Hs; subst. destruct IH as [IH1 IH2]; [done|].
    rewrite !total_cons. pose proof (owned_mono _ _ (nblk_mono (len c) (len c') ltac:(unfold len in *; lia))).
    split; [lia|]. constructor; [lia|done]. }
  apply Forall2_length in H. pose proof (total_nonneg cs2). split; [lia|lia|done].
Qed.

(** ** What the operations add *)

Lemma iappend_has s A B t bs p :
  mk_has s (A ++ of_bytes t bs :: B) -> fits (A ++ of_bytes t (bs ++ p) :: B) ->
  exists s', iappend (Z.of_nat (length A) + 1) p s = Ok tt s' [] /\ mk_has s' (A ++ of_bytes t (bs ++ p) :: B).
Proof.
  intros (pl & Hok & E) Hf. apply fmap_app_inv in E as (pA & pB & -> & EB & ->).
  symmetry in EB. apply fmap_cons_inv in EB as ([ip c] & pB' & Ec & EB & ->). cbn [snd] in Ec. subst c B.
  rewrite length_fmap. pose proof (freeblock_total _ _ Hok) as Hfb. rewrite fmap_app, total_app in Hfb. cbn [fmap list_fmap snd] in Hfb.
  rewrite total_cons in Hfb.
  destruct Hf as [Hb _ Hs]. rewrite total_app, total_cons in Hb. apply Forall_app in Hs as [_ Hs].
  inversion Hs as [|? ? Hlen _]; subst.
  destruct (iappend_ok s pA pB' ip t bs p Hok) as (s' & ip' & R & Hok'); [exact Hlen|lia|].
  exists s'. split; [done|]. eexists. split; [exact Hok'|]. by rewrite fmap_app.
Qed.

Lemma new_inode_ok t : 0 <= t < 2 ^ 15 -> inode_ok (set_size 0 (set_nlink 1 (set_type t inode0))).
Proof. intros Ht. constructor; cbn; try lia. all: by repeat constructor. Qed.

Lemma img_ok_new img fb L t :
  0 <= t < 2 ^ 15 -> img_ok img fb L -> img_ok img fb (L ++ [(set_size 0 (set_nlink 1 (set_type t inode0)), 0%nat)]).
Proof.
  intros Ht [H1 H2 H3 H4 H5]. split; [done|done|done| |].
  - rewrite used_app, used_cons. cbn. by rewrite app_nil_r.
  - apply Forall_app. split; [done|]. constructor; [|done]. constructor; cbn [fst snd]; try done.
    + by apply new_inode_ok.
    + lia.
    + intros j Hj. cbn [i_addrs set_size set_nlink set_type inode0]. apply nth_replicate_zero.
    + lia.
Qed.

Lemma mk_ialloc_has s cs t :
  mk_has s cs -> 0 <= t < 2 ^ 15 -> fits (cs ++ [of_bytes t []]) ->
  exists s', mk_ialloc t s = Ok (Z.of_nat (length cs) + 1) s' [] /\ mk_has s' (cs ++ [of_bytes t []]).
Proof.
  intros (pl & Hok & <-) Ht Hf. apply ft_inodes in Hf. rewrite length_app, length_fmap in *. cbn in Hf.
  destruct Hok as [Himg Hfree Hmax Hdisk Hh Hrest Hlow]. destruct s as [img fi fb]. cbn [m_img m_freeinode m_freeblock] in *.
  set (ip := set_size 0 (set_nlink 1 (set_type t inode0))). set (n := Z.of_nat (length pl) + 1) in *.
  destruct (winode_writes img (u32 (fi + 1)) fb _ n ip Himg ltac:(lia) (new_inode_ok t Ht) eq_refl)
    as (img' & Rw & Hok' & Hv & Hl & Hdn & Hdo).
  exists (Mkfs img' (u32 (fi + 1)) fb). split.
  { unfold mk_ialloc, bind, get, modify. cbn [after m_freeinode m_img m_freeblock].
    unfold xshort. rewrite !le_val_bytes by lia. rewrite xint_small by lia. fold ip. subst fi. rewrite Rw. done. }
  exists (pl ++ [(ip, of_bytes t [])]). split; [|by rewrite fmap_app].
  constructor; cbn [m_img m_freeinode m_freeblock]; rewrite ?length_app; cbn [length].
  - rewrite fmap_app. by apply img_ok_new.
  - rewrite Hfree, u32_small by (unfold NINODES in *; lia). lia.
  - done.
  - intros i p [Hp|[Hi Hp]]%lookup_app_Some.
    + pose proof (lookup_lt_Some _ _ _ Hp). rewrite Hdo by lia. by apply Hdisk.
    + apply list_lookup_singleton_Some in Hp as [Ei <-]. by replace (Z.of_nat i + 1) with n by lia.
  - apply Forall_app. split.
    + apply (holds_frame_all (view img)); [apply (ik_files _ _ _ Himg)| |done].
      intros b Hb. apply Hv. rewrite (ik_used _ _ _ Himg) in Hb. apply elem_of_seqZ in Hb. lia.
    + repeat constructor. intros a Ha. change (0 <= a < 0) in Ha. lia.
  - intros m Hm. rewrite Hdo by lia. apply Hrest. lia.
  - intros b Hb. rewrite Hl by lia. by apply Hlow.
Qed.

(** ** main *)

Lemma iappend_pieces A t pieces s bs :
  mk_has s (A ++ [of_bytes t bs]) -> fits (A ++ [of_bytes t (bs ++ concat pieces)]) ->
  exists s', for_all pieces (iappend (Z.of_nat (length A) + 1)) s = Ok tt s' [] /\
    mk_has s' (A ++ [of_bytes t (bs ++ concat pieces)]).
Proof.
  revert s bs. induction pieces as [|p pieces IH]; intros s bs Hs Hf; cbn [for_all concat] in *.
  { rewrite app_nil_r in *. by exists s. }
  rewrite (assoc_L (++)) in *. destruct (iappend_has s A [] t bs p) as (s1 & R1 & H1); [done| |].
  { eapply fits_less; [|rewrite app_nil_r; exact Hf]. apply Forall2_app; [by apply Forall_Forall2_diag, Forall_forall|].
    repeat constructor. unfold len. cbn. rewrite (length_app (bs ++ p)). lia. }
  destruct (IH s1 (bs ++ p) H1 Hf) as (s2 & R2 & H2). exists s2. split; [|done]. unfold bind. rewrite R1. cbn [after]. by rewrite R2.
Qed.

(** A file to put in: its name on the command line and the pieces read. *)
Notation arg := (list Z * list (list Z))%type.
Definition entry_name (f : arg) : list Z := skip_underscore (shortname (fst f)).
Definition file_content (f : arg) : content := of_bytes T_FILE (concat (snd f)).

(** The directory entries of [files], numbered from [n]. *)
Fixpoint entries (n : Z) (files : list arg) : list Z :=
  match files with
  | [] => []
  | f :: files => dirent n (entry_name f) ++ entries (n + 1) files
  end.

Lemma Forall2_len_refl cs : Forall2 (fun c c' => len c <= len c') cs cs.
Proof. by apply Forall_Forall2_diag, Forall_forall. Qed.

Lemma add_file_has s r fs f :
  mk_has s (of_bytes T_DIR r :: fs) -> 47 ∉ cstr (shortname (fst f)) ->
  let cs := of_bytes T_DIR (r ++ dirent (Z.of_nat (length fs) + 2) (entry_name f)) :: fs ++ [file_content f] in
  fits cs -> exists s', add_file ROOTINO (fst f, Some (snd f)) s = Ok tt s' [] /\ mk_has s' cs.
Proof.
  intros Hs Hn cs Hf. set (n := Z.of_nat (length fs) + 2) in *.
  destruct (mk_ialloc_has s _ T_FILE Hs ltac:(done)) as (s1 & R1 & H1).
  { eapply (fits_less _ cs []); [|by rewrite app_nil_r]. constructor; [unfold len; cbn; rewrite length_app; lia|].
    apply Forall2_app; [apply Forall2_len_refl|]. repeat constructor. unfold len. cbn. lia. }
  replace (Z.of_nat (length (of_bytes T_DIR r :: fs)) + 1) with n in R1 by (cbn; lia).
  destruct (iappend_has s1 [] (fs ++ [of_bytes T_FILE []]) T_DIR r (dirent n (entry_name f)) H1) as (s2 & R2 & H2).
  { eapply (fits_less _ cs []); [|by rewrite app_nil_r]. constructor; [lia|].
    apply Forall2_app; [apply Forall2_len_refl|]. repeat constructor. unfold len. cbn. lia. }
  cbn [app length] in *.
  destruct (iappend_pieces (of_bytes T_DIR (r ++ dirent n (entry_name f)) :: fs) T_FILE (snd f) s2 [] H2 Hf) as (s3 & R3 & H3).
  replace (Z.of_nat (length (of_bytes T_DIR (r ++ dirent n (entry_name f)) :: fs)) + 1) with n in R3 by (cbn; lia).
  exists s3. split; [|exact H3]. unfold add_file. cbn [fst snd]. rewrite bool_decide_eq_false_2 by done.
  unfold bind. rewrite R1. cbn [after]. unfold entry_name in R2, R3.
  change (Z.of_nat 0 + 1) with ROOTINO in R2. rewrite R2. cbn [after]. by rewrite R3.
Qed.

Lemma add_files_has files s r fs :
  mk_has s (of_bytes T_DIR r :: fs) -> Forall (fun f => 47 ∉ cstr (shortname (fst f))) files ->
  let cs := of_bytes T_DIR (r ++ entries (Z.of_nat (length fs) + 2) files) :: fs ++ (file_content <$> files) in
  fits cs ->
  exists s', for_all ((fun f : arg => (fst f, Some (snd f))) <$> files) (add_file ROOTINO) s = Ok tt s' [] /\ mk_has s' cs.
Proof.
  revert s r fs. induction files as [|f files IH]; intros s r fs Hs Hn; cbn [entries fmap list_fmap for_all].
  { rewrite !app_nil_r. by exists s. }
  inversion Hn as [|? ? Hnf Hn']; subst. rewrite (assoc_L (++) r).
  intros Hf. destruct (add_file_has s r fs f Hs Hnf) as (s1 & R1 & H1).
  { eapply (fits_less _ (_ :: fs ++ [file_content f])); [|cbn [app]; rewrite <- (assoc_L (++) fs); exact Hf].
    constructor; [unfold len; cbn; rewrite !length_app; lia|apply Forall2_len_refl]. }
  destruct (IH s1 _ _ H1 Hn') as (s2 & R2 & H2).
  { rewrite length_app, <- (assoc_L (++) fs). cbn [length app].
    replace (Z.of_nat (length fs + 1) + 2) with (Z.of_nat (length fs) + 2 + 1) by lia. exact Hf. }
  exists s2. rewrite length_app, <- (assoc_L (++) fs) in H2. cbn [length app] in H2.
  replace (Z.of_nat (length fs + 1) + 2) with (Z.of_nat (length fs) + 2 + 1) in H2 by lia. split; [|exact H2].
  unfold bind. rewrite R1. cbn [after]. by rewrite R2.
Qed.

(** The empty image. *)
Lemma zero_image fi n s :
  for_all (seq 0 n) (fun i => wsect (Z.of_nat i) zeroes) (Mkfs s fi nmeta) =
    Ok tt (Mkfs (foldl (fun m i => <[Z.of_nat i := zeroes]> m) s (seq 0 n)) fi nmeta) [].
Proof.
  generalize (seq 0 n) as l. intros l. revert s. induction l as [|i l IH]; intros s; [done|].
  cbn [for_all foldl]. unfold bind, wsect, modify. cbn [after m_img m_freeinode m_freeblock]. by rewrite IH.
Qed.
Lemma zero_sectors n s b :
  foldl (fun m i => <[Z.of_nat i := zeroes]> m) s (seq 0 n) !! b = if bool_decide (0 <= b < Z.of_nat n) then Some zeroes else (s : gmap Z (list Z)) !! b.
Proof.
  induction n as [|n IH]; [case_bool_decide; [lia|done]|].
  rewrite seq_S, foldl_app. cbn [foldl Nat.add]. destruct (decide (b = Z.of_nat n)) as [->|Hne].
  - rewrite lookup_insert_eq. rewrite bool_decide_eq_true_2; [done|lia].
  - rewrite lookup_insert_ne, IH by congruence. repeat case_bool_decide; (done || lia).
Qed.

Lemma start_image s fi :
  (forall b, 0 <= b < FSSIZE -> s !! b = Some zeroes) -> fi = 1 ->
  mk_has (Mkfs (<[1 := bytes_put 0 (sb_bytes mk_sb) zeroes]> s) fi nmeta) [].
Proof.
  intros Hz ->. exists []. split; [|done]. constructor; cbn [m_img m_freeinode m_freeblock fmap list_fmap length].
  - apply img_ok_meta; [|by rewrite nmeta_eq|done]. constructor.
    + intros b Hb. exists zeroes. by rewrite Hz.
    + done.
    + intros b Hb. apply Hz. layout. lia.
    + done.
    + constructor.
  - done.
  - done.
  - done.
  - constructor.
  - intros n Hn. unfold disk_inode, view. cbn [snd]. destruct (IBLOCK_mk n ltac:(lia)) as [_ Hb].
    rewrite lookup_insert_ne, Hz by (unfold FSSIZE; lia). cbn [i_type load_dinode default from_option]. unfold id, dip_type, dip_short.
    by rewrite val_zeroes.
  - intros b Hb. unfold low_sector. destruct (Z.eqb_spec b 1) as [->|Hne]; [by rewrite lookup_insert_eq|].
    rewrite lookup_insert_ne by done. apply Hz. unfold FSSIZE. lia.
Qed.

(** ** The image main leaves *)

(** The image of [cs], in the terms of the kernel: what [readsb] decodes, the
    header of the log, the inodes [ilock] loads and the bytes [readi] reads,
    and the bitmap [balloc] searches. *)
Record is_image (img : gmap Z (list Z)) (cs : list content) : Prop := {
  im_sectors : forall b, 0 <= b < FSSIZE -> exists d, img !! b = Some d /\ length d = BSIZE;
  im_super : sb_decode (view img (0, 1)) = mk_sb /\ sb_magic mk_sb = FSMAGIC /\ sb_ok mk_sb;
  im_log : word 0 (view img (0, sb_logstart mk_sb)) = 0;
  im_files : exists ips,
    (forall i ip, ips !! i = Some ip -> disk_inode (view img) (Z.of_nat i + 1) = ip /\ inode_ok ip) /\
    Forall2 (fun ip c => holds (view img) (ip, c)) ips cs /\
    concat (zip_with (fun ip c => blocks (view img) (ip, nblk (len c))) ips cs) ≡ₚ seqZ nmeta (total cs);
  im_unused : forall n, Z.of_nat (length cs) < n < NINODES -> i_type (disk_inode (view img) n) = 0;
  im_bitmap : forall b, 0 <= b < 8 * BSZ -> bitv (view img (0, sb_bmapstart mk_sb)) b = (b <? nmeta + total cs)
}.

Lemma mk_sb_ok : sb_ok mk_sb.
Proof. by constructor. Qed.

(** The first [n] bits. *)
Lemma bits_set n : Z.of_nat n <= 8 * BSZ -> forall b, 0 <= b ->
  bitv (foldl (fun buf i => bit_set (Z.of_nat i) buf) zeroes (seq 0 n)) b = (b <? Z.of_nat n) /\
  length (foldl (fun buf i => bit_set (Z.of_nat i) buf) zeroes (seq 0 n)) = BSIZE.
Proof.
  intros Hn b Hb. induction n as [|n IH].
  - split; [|done]. cbn [foldl seq]. unfold bitv. rewrite nth_zeroes, Z.bits_0. symmetry. apply Z.ltb_ge. lia.
  - destruct IH as [IH Hl]; [lia|]. rewrite seq_S, foldl_app. cbn [foldl Nat.add]. split.
    + rewrite bit_set_get, IH by (rewrite ?Hl; unfold BSZ in *; lia).
      destruct (Z.eqb_spec (Z.of_nat n) b), (Z.ltb_spec b (Z.of_nat n)), (Z.ltb_spec b (Z.of_nat (S n))); (done || lia).
    + unfold bit_set. by rewrite length_alter.
Qed.

Lemma zip_blocks v (pl : list (inode * content)) :
  concat (zip_with (fun ip c => blocks v (ip, nblk (len c))) (fst <$> pl) (snd <$> pl)) = used v (sized <$> pl).
Proof. unfold used. f_equal. induction pl as [|[ip c] pl IH]; [done|]. cbn [fmap list_fmap zip_with fst snd]. by f_equal. Qed.

Lemma finish_image s pl bits :
  mk_ok s pl -> length bits = BSIZE ->
  (forall b, 0 <= b < 8 * BSZ -> bitv bits b = (b <? nmeta + total (snd <$> pl))) ->
  is_image (<[sb_bmapstart mk_sb := bits]> (m_img s)) (snd <$> pl).
Proof.
  intros Hok Hl Hbits. pose proof (freeblock_total _ _ Hok) as Hfb. destruct Hok as [Himg _ Hmax Hdisk Hh Hrest Hlow].
  change (sb_bmapstart mk_sb) with 45 in *. set (img' := <[45 := bits]> (m_img s)).
  destruct (img_ok_meta _ _ _ 45 bits Himg ltac:(by rewrite nmeta_eq) Hl) as [Himg' Hv].
  assert (forall b, b <> 45 -> view img' (0, b) = view (m_img s) (0, b)) as Hne.
  { intros b Hb. unfold view, img'. cbn [snd]. by rewrite lookup_insert_ne. }
  assert (forall n, 0 <= n < NINODES -> disk_inode (view img') n = disk_inode (view (m_img s)) n) as Hdi.
  { intros n Hn. unfold disk_inode. rewrite Hne; [done|]. destruct (IBLOCK_mk n Hn). lia. }
  assert (Forall (holds (view img')) pl) as Hh'.
  { apply (holds_frame_all (view (m_img s))); [apply (ik_files _ _ _ Himg)| |done].
    intros b Hb. apply Hv. rewrite (ik_used _ _ _ Himg) in Hb. apply elem_of_seqZ in Hb. lia. }
  constructor.
  - apply (ik_secs _ _ _ Himg').
  - split; [|split; [done|apply mk_sb_ok]]. rewrite Hne by done. unfold view. cbn [snd]. by rewrite Hlow.
  - change (sb_logstart mk_sb) with 2. rewrite Hne by done. unfold view. cbn [snd]. rewrite Hlow by done. apply word_zeroes.
  - exists (fst <$> pl). split; [|split].
    + intros i ip Hi. apply list_lookup_fmap_Some in Hi as (p & -> & Hp). pose proof (lookup_lt_Some _ _ _ Hp).
      rewrite Hdi by lia. split; [by apply Hdisk|]. pose proof (ik_files _ _ _ Himg) as HF.
      rewrite Forall_fmap, Forall_lookup in HF. apply (fo_inode _ _ (HF i p Hp)).
    + apply Forall2_fmap_2, Forall_Forall2_diag. eapply list.Forall_impl; [exact Hh'|]. by intros [ip c].
    + rewrite zip_blocks. unfold img'. rewrite (ik_used _ _ _ Himg'), Hfb. by replace (nmeta + total (snd <$> pl) - nmeta) with (total (snd <$> pl)) by lia.
  - rewrite length_fmap. intros n Hn. rewrite Hdi by lia. by apply Hrest.
  - intros b Hb. rewrite <- (Hbits b Hb). unfold view, img'. cbn [snd]. by rewrite lookup_insert_eq.
Qed.

Lemma mk_balloc_image s cs :
  mk_has s cs -> exists s', mk_balloc (m_freeblock s) s = Ok tt s' [] /\ is_image (m_img s') cs.
Proof.
  intros (pl & Hok & <-). pose proof (freeblock_total _ _ Hok) as Hfb. pose proof (ik_fb _ _ _ (mo_img _ _ Hok)) as Hr.
  pose proof (bits_set (Z.to_nat (m_freeblock s)) ltac:(layout; unfold BSZ, BSIZE; lia)) as Hb.
  eexists. split.
  - unfold mk_balloc. rewrite (proj2 (Z.ltb_lt _ _)) by (layout; unfold BSIZE; lia). reflexivity.
  - cbn [m_img]. apply finish_image; [done|by apply (Hb 0)|]. intros b Hb'. destruct (Hb b) as [-> _]; [lia|].
    rewrite Z2Nat.id by (layout; lia). by rewrite Hfb.
Qed.

(** main rounds the size of the root directory up. *)
Definition round_up (k : Z) : Z := (k / BSZ + 1) * BSZ.

Lemma fix_root_size_has s r fs :
  mk_has s (of_bytes T_DIR r :: fs) -> Z.of_nat (length r) <= MAXFILE * BSZ ->
  exists s', fix_root_size ROOTINO s = Ok tt s' [] /\
    mk_has s' (Content T_DIR (round_up (Z.of_nat (length r))) r :: fs).
Proof.
  intros (pl & Hok & E) Hr. apply fmap_cons_inv in E as ([ip c] & pl' & Ec & -> & ->). cbn [snd] in Ec. subst c.
  pose proof (step_img s [] pl' ip _ Hok) as Himg. pose proof (step_range s [] pl' ip _ Hok) as Hn.
  destruct (step_holds s [] pl' ip _ Hok) as [[Hdisk Hty Hnl Hsz Hby Hpad] Hdi].
  cbn [fst snd c_type c_size c_bytes of_bytes app fmap list_fmap length] in *. change (Z.of_nat 0 + 1) with ROOTINO in *.
  set (k := Z.of_nat (length r)) in *. pose proof (Z.div_le_mono k _ BSZ ltac:(done) Hr) as Hd.
  rewrite Z.div_mul in Hd by done. pose proof (Z.div_pos k BSZ ltac:(lia) ltac:(done)) as Hd0.
  assert (0 <= round_up k < 2 ^ 32) as Hru by (unfold round_up; change MAXFILE with 268 in Hd; change BSZ with 1024 in *; lia).
  destruct (store_back s [] pl' ip _ Hok (m_img s) (m_freeblock s) ip (set_size (round_up k) ip)
    (Content T_DIR (round_up k) r)) as (s' & Rw & Hok'); [done|done| |done| |].
  { destruct (fo_inode _ _ (chg_ok _ _ [] _ _ Himg)). by constructor. }
  { constructor; try done. unfold on_disk in *. cbn. by rewrite Hdisk. }
  exists s'. split; [|by eexists]. unfold fix_root_size, bind. rewrite (rinode_reads s _ _ _ Himg Hn). cbn [after].
  rewrite Hdi, Hsz. pose proof MAXFILE_bytes. rewrite (xint_small k) by lia. fold (round_up k).
  rewrite u32_small, xint_small by done. destruct s as [img fi fb]. cbn [m_img m_freeinode m_freeblock length] in *.
  change (Z.of_nat 0 + 1) with ROOTINO in Rw. by rewrite Rw.
Qed.

(** ** What mkfs builds *)

Definition root_entries (files : list arg) : list Z :=
  dirent ROOTINO (chars ".") ++ dirent ROOTINO (chars "..") ++ entries 2 files.
Definition image_files (files : list arg) : list content :=
  Content T_DIR (round_up (Z.of_nat (length (root_entries files)))) (root_entries files) :: (file_content <$> files).

Lemma fits_root r r' cs1 cs2 :
  (length r <= length (c_bytes r'))%nat -> fits (r' :: cs1 ++ cs2) -> fits (of_bytes T_DIR r :: cs1).
Proof.
  intros Hr. apply (fits_less _ (r' :: cs1) cs2). constructor; [unfold len; cbn; lia|apply Forall2_len_refl].
Qed.


